(* ===== verification/_CoqProject ===== *)
-Q . S2P
Prelude.v
Bits.v
Bytes.v
Packet.v
Backend.v
Frontend.v
Control.v
Wait.v
Connection.v
Receiver.v
Api.v
Stream.v
Transfer.v
ConfigParser.v
Resend.v
SrSender.v
SrReceiver.v
Repair.v
Rounds.v
Session.v
Erasure.v
EcSender.v
EcReceiver.v
EcRepair.v
CommandLine.v
SenderMain.v
ReceiverMain.v
