(* ===== verification/Prelude.v ===== *)
(** * SDR over UDP: a verification library

    The program (src/sdr-udp) sends one message - a buffer of bytes - as UDP
    packets and tracks its arrival in bitmaps, with a TCP control connection
    beside the data.  A receiver posts a buffer ([sdr_recv_post]): it waits for
    the sender's OFFER, negotiates parameters, arms a slot of the connection's
    message table, starts its UDP workers and answers CTS; the sender
    ([sdr_send_post]) answers ACCEPT and sends the packets.  Each UDP worker
    checks a packet against the table, copies its payload to
    [packet_offset * mtu] of the buffer and sets its bit; a poller thread marks
    the chunks whose packets are all there; the application reads the marks and
    calls [sdr_recv_complete], which sends the verdict the sender polls for.

    Two layers above repair losses.  Selective repeat (reliability/sr.cpp): the
    sender posts a message, sends it window by window and answers the reports
    ([SR_ACK], [SR_NACK]) that the receiver's [pump] makes of the chunk bitmap.
    Erasure coding (reliability/ec.cpp): the sender posts data and parity, the
    receiver's [try_decode] declares the message complete, decodes it, or asks
    for the missing data chunks and, after some requests, falls back.

    ** Files

    - [Prelude]: machine integers ([+u32], [+u64], ...: the operation followed by
      the wrap of its type), ranges, loops that can fail ([foldl_opt],
      [count_if]), memory reads and writes, tactics ([int_lia], [case_bool]) and
      the hint database [sdr].
    - [Bits], [Bytes]: arrays of atomic 64-bit words with the masks of the
      bitmaps; little-endian images, [htons] and the like.
    - [Packet] (include/sdr_packet.h): header, byte orders, memory image of the
      packed struct, packet construction, datagrams.
    - [Backend] (include/sdr_backend.h): the packet bitmap.
    - [Frontend] (include/sdr_frontend.h): the chunk bitmap and its poller, over
      the interface [ChunkSource] of the backend.
    - [Control] (include/tcp_control.h, src/tcp_control.cpp): control messages and
      the two TCP endpoints; [ControlEndpoint] is what their users rely on.
    - [Wait] (src/sdr_api.cpp): the loop in which the API waits for a message, for
      either endpoint.
    - [Connection] (include/sdr_connection.h): message contexts and the table.
    - [Receiver] (include/sdr_receiver.h): start and stop of the workers, and the
      handling of a datagram over the application's memory.
    - [Api] (include/sdr_api.h, src/sdr_api.cpp): contexts, connections, receives,
      one-shot and streaming sends.
    - [Stream]: the streaming sends as a sequence of calls.
    - [Transfer]: the threads of a receive as one transition system.
    - [ConfigParser] (src/config_parser.cpp): the configuration file; strings are
      [String.string].
    - [Resend]: what both reliability layers share: the environment of a sender
      (clock, sockets, wire), acknowledgement bitmaps, the packets of a chunk.
    - [SrSender], [SrReceiver] (reliability/sr.cpp): selective repeat, one file per
      class.
    - [Repair]: selective repeat over [Transfer] and [Frontend]: one NACK round.
    - [Rounds]: rounds that follow each other over a network that loses, repeats,
      reorders and delays, as a step relation.
    - [Session]: both sides of the API over one control connection, with the
      transfer between the handshake and the verdict.
    - [Erasure] (reliability/ec.cpp): the cut into chunks and stripes and the buffer
      of data and parity; the coder, ISA-L, is the parameter [IsaL], what its
      documentation promises the hypotheses [isal_ok], [coder_fits] and
      [inverse_fits], which [example_coder] satisfies.
    - [EcSender], [EcReceiver] (reliability/ec.cpp): one file per class.
    - [EcRepair]: erasure coding over [Transfer] and [Frontend]: one round of requests.
    - [CommandLine], [SenderMain], [ReceiverMain] (examples/): what the two programs
      make of their arguments, their test message and its check, and a file per
      [main]; the receiver's progress loop reads the bitmaps of its moment ([Look]) and its end
      those the threads left.

    ** Conventions

    A definition has the name of the C++ function it translates (with the class
    as a prefix where two classes share a name: [server_receive_message],
    [client_receive_message]); a class or struct is a record whose fields carry
    a short prefix.  Mutation is state passing: an operation takes the object
    and returns it.  [None] as the result of an operation is undefined behaviour
    of the C++ code (an access outside an object, a dereferenced null, a
    division by zero), so a theorem that gives [Some] states also that there is
    none; where C++ returns [nullptr] or an error code, so does the model,
    inside.  Pointers to message contexts are slot numbers; stream
    handles are objects of a heap, which [delete] takes them from; the application's
    buffers are objects of a finite map from object numbers to bytes
    ([rx_mem]), so that what is written, and what is not, can be said.  What the
    operating system answers (sockets, [send], [recv], [recvfrom], [sendto])
    are arguments; the bytes of padding and of variables declared without an
    initialiser are arguments as well.  Log output is not modelled.  The memory
    images assume a little-endian host with the System V ABI, as the build
    does.

    ** What is proved

    - Data: packets, datagrams and control messages survive the wire; the
      sender's datagrams, joined, are the message ([send_puts_message_on_wire]).
    - Bitmaps: the word-at-a-time scan equals the bit-by-bit one, setting a bit is
      insertion into a set, a scan that overlaps with sets never claims a chunk
      that is not complete, the poller's marks are exactly the complete chunks.
    - Control plane: any segmentation of the stream gives the same messages; the
      waits terminate, skip what they do not expect and answer truthfully.
    - Table: refusal and allocation on every branch; a (slot, generation) pair
      names one transfer over any history of fewer than 2^32 - 2 operations.
    - Receive path: memory safety against arbitrary datagrams, the exact effect
      of an accepted packet, no effect of any other, no effect of late packets
      after completion.
    - API: negotiation, arming a slot, the verdict of [sdr_recv_complete] and
      [sdr_send_poll]; a stream sends what the one-shot send does, and its handle
      is gone once it has ended ([streamed_like_posted]).
    - Whole transfer: [concurrent_transfer_correct] (an invariant of the
      transition system: completion implies the buffer is the message, no
      undefined behaviour of a worker or the poller), [delivery_completes] (each
      packet once is enough), [worker_refines_handler] (the steps implement the handler).
    - Whole session: two sides that open a session agree; the bytes that
      [sdr_recv_complete] writes, carried to the sender, make [sdr_send_poll]
      return 0 only over a buffer that is the message ([success_means_delivery]),
      and over a network that delivers they do ([session_delivers]).
    - Configuration: a file of well-formed lines gives exactly its entries
      ([load_reads_entries]); numbers are read as [stoul] does and wrapped.
    - Selective repeat: [pump] reports only the truth while the poller runs
      ([pump_truthful]) and all of it over a bitmap that stands still
      ([pump_exact]); the sender sends again what a report asks for
      ([nack_resends_missing]), its loop ends and acknowledges only what was
      reported ([sr_poll_terminates], [sr_poll_sound]); together a round makes
      progress ([nack_round_repairs]), and any run of lossy rounds keeps both ends
      in step and ends after at most as many rounds in which a packet that is
      missing arrives as packets were missing, with the message stored and
      acknowledged ([selective_repeat_delivers]).
    - Erasure coding: the buffer sent ([encode_layout], [ec_send_posts]); the
      answer to a request and the control loop ([ec_nack_resends],
      [ec_poll_sound]); [try_decode] never lies and sends well-formed messages
      ([try_decode_truthful], [try_decode_well_typed]), asks for exactly what is
      missing ([ec_request_exact]) and writes only missing chunks
      ([decode_few_losses]); together a round repairs the data
      ([ec_round_repairs]).
    - Example programs: in each mode the progress loop ends, is left as complete or
      decoded only when the data is there or decoded from [k] different chunks
      that are, and displays nothing that has not arrived ([progress_loop_truthful], [every_chunk_shown]), the sender hears one true
      verdict at the end ([receiver_verdict]), the sender offers every packet of the
      test message ([sender_sends_pattern]), and the data of a complete transfer
      passes the receiver's check ([complete_transfer_verifies]).
    - Behaviours of the code that are not what it means to do:
      [generations_out_of_step], [completion_race_out_of_bounds],
      [failed_udp_start_sticks], [timeout_loses_framing], [packet_offset_wraps],
      [full_payload_exceeds_udp], [chunk_past_end_reported_complete], the
      second half of [send_poll_verdict]; of selective repeat
      [timeout_ignores_nacks] and [nack_gap_overread]; of erasure coding
      [parity_copies_data], [decode_ignores_inverse], [decode_undetermined],
      [decode_past_matrix], [ec_zero_data_bytes],
      [ec_poll_overrun], [ec_fallback_waits] and [ec_post_default_refused]; of the
      programs [sender_exit_code], [sender_config_needs_size] and
      [silence_never_times_out].

    ** Bounds and fuel

    [wait_loop] and [run_worker] recurse on fuel.  [wait_message] gives its loop
    one more than the size of the input and [wait_terminates] shows that any
    fuel above that size gives the same answer; a worker needs at most eight
    steps and one per payload byte, so 65536 is enough
    ([worker_refines_handler]).  The control loops [poll_loop] and [ec_poll_loop]
    get two more than the size of the input, since every round consumes some
    ([sr_poll_terminates], [ec_poll_sound]); [send_window_loop] and [gap_scan] get
    one more than the number of chunks, [collapse_gaps] the number of missing
    chunks, each of which a round of theirs passes.  [progress_loop] runs the
    [MAX_ITERATIONS] rounds of the code.  The bounds in hypotheses are those at which the
    program's own arithmetic wraps: 2^18 packets for a message (the offset
    field), receives of less than 2^32 - 2^17 bytes (the 32-bit counts), sends
    of less than 2^48 bytes.

    ** Not modelled

    - The poller's condition variable and interval, socket options, and log
      output: they delay or describe, nothing else depends on them.
    - The C++ memory model: steps of different threads interleave, each seeing
      the others' effects, except that a scan may see old words.
    - The bytes a worker stores while the coder runs: decoding reads the buffer
      at one moment, although only the bitmap says which chunks hold still.
    - The bars and percentages that [display_progress] draws (floating-point numbers;
      the counts they are drawn from are modelled), the timing the programs report,
      and exhaustion of memory.
    - In [Rounds] control messages arrive: TCP carries them; a connection that is
      lost ends the session.  [Session] is about the one-shot send: a stream cannot
      be opened between the two sides (see [Stream]).
    - The coder itself, ISA-L: its functions are parameters.  What is proved of the
      progress loop with a coder is for messages of one stripe, since the code reads
      outside its matrix for some of several ([decode_past_matrix]). *)

From stdpp Require Export base tactics numbers list option gmap.
From Stdlib Require Export ZArith Lia.

#[global] Open Scope Z_scope.

(** ** Machine integers

    A C++ unsigned integer of width [w] is a [Z] in [0 .. 2^w - 1]; every
    operation of the source that can leave that range is followed by the wrap
    of its type. *)

Definition u8 (x : Z) : Z := x mod 256.
Definition u16 (x : Z) : Z := x mod 65536.
Definition u32 (x : Z) : Z := x mod 4294967296.
Definition u64 (x : Z) : Z := x mod 18446744073709551616.

Definition UINT32_MAX : Z := 4294967295.
Definition UINT64_MAX : Z := 18446744073709551615.

Declare Scope sdr_scope.
Delimit Scope sdr_scope with sdr.
Notation "x +u32 y" := (u32 (x + y)) (at level 50, left associativity) : sdr_scope.
Notation "x -u32 y" := (u32 (x - y)) (at level 50, left associativity) : sdr_scope.
Notation "x *u32 y" := (u32 (x * y)) (at level 40, left associativity) : sdr_scope.
Notation "x +u64 y" := (u64 (x + y)) (at level 50, left associativity) : sdr_scope.
Notation "x -u64 y" := (u64 (x - y)) (at level 50, left associativity) : sdr_scope.
Notation "x *u64 y" := (u64 (x * y)) (at level 40, left associativity) : sdr_scope.
#[global] Open Scope sdr_scope.

(** ** Loops

    [zrange lo hi] is the list of values a C++ loop
    [for (i = lo; i < hi; ++i)] runs through; [count_if] is the counting
    loop of the bitmaps, over tests that may be undefined. *)

Definition zrange (lo hi : Z) : list Z := seqZ lo (hi - lo).

Fixpoint forall_opt {A} (f : A → option bool) (l : list A) : option bool :=
  match l with
  | [] => Some true
  | x :: l => b ← f x; if b : bool then forall_opt f l else Some false
  end.

Fixpoint foldl_opt {A S} (f : S → A → option S) (s : S) (l : list A) : option S :=
  match l with
  | [] => Some s
  | x :: l => s ← f s x; foldl_opt f s l
  end.

Definition count_step {A} (f : A → option bool) (n : Z) (x : A) : option Z :=
  b ← f x; Some (if b : bool then n + 1 else n).

Definition count_if {A} (f : A → option bool) (l : list A) : option Z :=
  foldl_opt (count_step f) 0 l.

(** ** Memory

    A buffer is the list of its bytes.  Reading or writing outside it is
    undefined behaviour, the outcome [None]. *)

Definition mem_read (m : list Z) (off len : Z) : option (list Z) :=
  if (0 <=? off) && (0 <=? len) && (off + len <=? Z.of_nat (length m))
  then Some (take (Z.to_nat len) (drop (Z.to_nat off) m)) else None.

Definition mem_write (m : list Z) (off : Z) (bs : list Z) : option (list Z) :=
  if (0 <=? off) && (off + Z.of_nat (length bs) <=? Z.of_nat (length m))
  then Some (list_inserts (Z.to_nat off) bs m) else None.

(** ** Tactics *)

Ltac unfold_ints := unfold u8, u16, u32, u64, UINT32_MAX, UINT64_MAX in *.

(** [int_lia]: linear arithmetic through the wraps. *)
Ltac int_lia := unfold_ints; Z.div_mod_to_equations; lia.

(** [bool_to_prop]: the comparisons of the source as propositions. *)
Ltac bool_to_prop :=
  repeat match goal with
  | H : _ && _ = true |- _ => apply andb_true_iff in H; destruct H
  | H : _ || _ = false |- _ => apply orb_false_iff in H; destruct H
  | H : negb _ = true |- _ => apply negb_true_iff in H
  | H : negb _ = false |- _ => apply negb_false_iff in H
  | H : (_ =? _) = true |- _ => apply Z.eqb_eq in H
  | H : (_ =? _) = false |- _ => apply Z.eqb_neq in H
  | H : (_ <? _) = true |- _ => apply Z.ltb_lt in H
  | H : (_ <? _) = false |- _ => apply Z.ltb_ge in H
  | H : (_ <=? _) = true |- _ => apply Z.leb_le in H
  | H : (_ <=? _) = false |- _ => apply Z.leb_gt in H
  | H : (_ >=? _) = _ |- _ => rewrite Z.geb_leb in H
  | H : (_ >? _) = _ |- _ => rewrite Z.gtb_ltb in H
  end.

(** [case_inner_bool]: split on a condition that has no condition inside. *)
Ltac case_inner_bool :=
  match goal with
  | |- context [if ?b then _ else _] =>
      lazymatch b with
      | context [if _ then _ else _] => fail
      | _ => destruct b eqn:?; bool_to_prop
      end
  end.

(** [case_bool]: split on the first comparison of the goal. *)
Ltac case_bool :=
  match goal with
  | |- context [if ?b then _ else _] =>
      lazymatch type of b with
      | bool => destruct b eqn:?; bool_to_prop
      end
  end.

Create HintDb sdr.
Create Rewrite HintDb sdr.

(** ** Integers *)

Lemma u8_range x : 0 ≤ u8 x < 256.
Proof. int_lia. Qed.
Lemma u16_range x : 0 ≤ u16 x < 65536.
Proof. int_lia. Qed.
Lemma u32_range x : 0 ≤ u32 x < 4294967296.
Proof. int_lia. Qed.
Lemma u64_range x : 0 ≤ u64 x < 18446744073709551616.
Proof. int_lia. Qed.

Lemma u8_small x : 0 ≤ x < 256 → u8 x = x.
Proof. int_lia. Qed.
Lemma u16_small x : 0 ≤ x < 65536 → u16 x = x.
Proof. int_lia. Qed.
Lemma u32_small x : 0 ≤ x < 4294967296 → u32 x = x.
Proof. int_lia. Qed.
Lemma u64_small x : 0 ≤ x < 18446744073709551616 → u64 x = x.
Proof. int_lia. Qed.

(** The ceiling division [(n + k - 1) / k] of the source. *)
Lemma ceil_div_spec n k : 0 ≤ n → 0 < k →
  let q := (n + k - 1) / k in k * (q - 1) < n ≤ k * q ∨ (n = 0 ∧ q = 0).
Proof.
  intros Hn Hk q. subst q.
  pose proof (Z.div_mod (n + k - 1) k ltac:(lia)).
  pose proof (Z.mod_pos_bound (n + k - 1) k Hk).
  destruct (decide (n = 0)) as [->|]; [right; split; [done|]; apply Z.div_small; lia | left; nia].
Qed.

Lemma ceil_div_lt n k i : 0 ≤ n → 0 < k → 0 ≤ i →
  i < (n + k - 1) / k ↔ i * k < n.
Proof.
  intros Hn Hk Hi. pose proof (ceil_div_spec n k Hn Hk) as Hq. simpl in Hq.
  split; intros ?; [|destruct (decide (i < (n + k - 1) / k)); [done|]]; destruct Hq as [?|[]]; nia.
Qed.

Lemma ceil_div_bound n k : 0 ≤ n → 0 < k → 0 ≤ (n + k - 1) / k ≤ n.
Proof.
  intros Hn Hk. split; [apply Z.div_pos; lia|].
  destruct (decide (n = 0)) as [->|]; [rewrite Z.div_small; lia|].
  apply Z.lt_succ_r, Z.div_lt_upper_bound; nia.
Qed.

(** ** Ranges *)

Lemma elem_of_zrange lo hi i : i ∈ zrange lo hi ↔ lo ≤ i < hi.
Proof. unfold zrange. rewrite elem_of_seqZ. lia. Qed.

Lemma zrange_nil lo hi : hi ≤ lo → zrange lo hi = [].
Proof. intros. unfold zrange. apply seqZ_nil. lia. Qed.

Lemma zrange_cons lo hi : lo < hi → zrange lo hi = lo :: zrange (lo + 1) hi.
Proof.
  intros. unfold zrange. rewrite seqZ_cons by lia. f_equal. f_equal; lia.
Qed.

Lemma zrange_snoc lo hi : lo ≤ hi → zrange lo (hi + 1) = zrange lo hi ++ [hi].
Proof.
  intros. unfold zrange.
  replace (hi + 1 - lo) with ((hi - lo) + 1) by lia.
  rewrite seqZ_app by lia. repeat f_equal.
  rewrite seqZ_cons, seqZ_nil by lia. f_equal; lia.
Qed.

Lemma zrange_app lo mid hi : lo ≤ mid ≤ hi → zrange lo hi = zrange lo mid ++ zrange mid hi.
Proof.
  intros. unfold zrange.
  replace (hi - lo) with ((mid - lo) + (hi - mid)) by lia.
  rewrite seqZ_app by lia. repeat f_equal; lia.
Qed.

Lemma length_zrange lo hi : length (zrange lo hi) = Z.to_nat (hi - lo).
Proof. apply length_seqZ. Qed.

Lemma lookup_zrange n i : 0 ≤ i < n → zrange 0 n !! Z.to_nat i = Some i.
Proof.
  intros Hi. rewrite (zrange_app 0 i n), lookup_app_r by (rewrite ?length_zrange; lia).
  rewrite length_zrange, Z.sub_0_r, Nat.sub_diag. by rewrite zrange_cons by lia.
Qed.

Lemma NoDup_zrange lo hi : NoDup (zrange lo hi).
Proof. apply NoDup_seqZ. Qed.

#[export] Hint Rewrite elem_of_zrange : sdr.

(** ** Loops over tests that are defined *)

Lemma forall_opt_total {A} (f : A → option bool) (g : A → bool) l :
  (∀ x, x ∈ l → f x = Some (g x)) → forall_opt f l = Some (forallb g l).
Proof.
  induction l as [|x l IH]; intros Hf; [done|]. simpl.
  rewrite (Hf x) by set_solver. simpl. destruct (g x); [|done].
  apply IH. set_solver.
Qed.

Lemma foldl_opt_app {A S} (f : S → A → option S) s l1 l2 :
  foldl_opt f s (l1 ++ l2) = s ← foldl_opt f s l1; foldl_opt f s l2.
Proof.
  revert s. induction l1 as [|x l1 IH]; intros s; [done|]. simpl.
  destruct (f s x); simpl; [apply IH|done].
Qed.

Lemma foldl_opt_total {A S} (f : S → A → option S) (g : S → A → S) s l :
  (∀ s x, x ∈ l → f s x = Some (g s x)) → foldl_opt f s l = Some (foldl g s l).
Proof.
  revert s. induction l as [|x l IH]; intros s Hf; [done|]. simpl.
  rewrite Hf by set_solver. simpl. apply IH. set_solver.
Qed.

(** Rule of invariants for a loop whose body may be undefined. *)
Lemma foldl_opt_inv {A S} (f : S → A → option S) (P : S → Prop) s l s' :
  P s → (∀ s x s', x ∈ l → P s → f s x = Some s' → P s') →
  foldl_opt f s l = Some s' → P s'.
Proof.
  revert s. induction l as [|x l IH]; intros s Hs Hstep; simpl.
  { intros [= <-]. done. }
  destruct (f s x) eqn:Hx; [|done]. simpl. apply IH.
  - by apply (Hstep s x); [apply list_elem_of_here|..].
  - intros s1 y s2 ?. apply Hstep. by apply list_elem_of_further.
Qed.

Lemma count_if_acc {A} (f : A → option bool) (g : A → bool) n l :
  (∀ x, x ∈ l → f x = Some (g x)) →
  foldl_opt (count_step f) n l = Some (n + Z.of_nat (length (List.filter g l))).
Proof.
  revert n. induction l as [|x l IH]; intros n Hf; [simpl; f_equal; lia|].
  cbn [foldl_opt List.filter].
  replace (count_step f n x) with (Some (if g x then n + 1 else n)).
  2: { unfold count_step. rewrite (Hf x); [done|apply list_elem_of_here]. }
  simpl. rewrite IH by set_solver. destruct (g x); simpl; f_equal; lia.
Qed.

Lemma count_if_total {A} (f : A → option bool) (g : A → bool) l :
  (∀ x, x ∈ l → f x = Some (g x)) →
  count_if f l = Some (Z.of_nat (length (List.filter g l))).
Proof. intros Hf. unfold count_if. by rewrite (count_if_acc f g). Qed.

Lemma filter_length_all {A} (g : A → bool) l :
  length (List.filter g l) = length l ↔ forallb g l = true.
Proof.
  induction l as [|x l IH]; simpl; [done|].
  destruct (g x); simpl; [rewrite <-IH; lia|].
  pose proof (List.filter_length_le g l). split; [lia|done].
Qed.

Lemma forallb_elem {A} (g : A → bool) l : forallb g l = true ↔ ∀ x, x ∈ l → g x = true.
Proof. rewrite forallb_forall. by setoid_rewrite list_elem_of_In. Qed.

Lemma forallb_ext {A} (f g : A → bool) l :
  (∀ x, x ∈ l → f x = g x) → forallb f l = forallb g l.
Proof.
  intros Hfg. apply eq_true_iff_eq. rewrite !forallb_elem.
  split; intros H x Hx; [rewrite <-Hfg|rewrite Hfg]; auto.
Qed.

Lemma elem_of_filter_bool {A} (g : A → bool) l x :
  x ∈ List.filter g l ↔ x ∈ l ∧ g x = true.
Proof. by rewrite !list_elem_of_In, filter_In. Qed.

(** A map over the indices of a list is a map over the list. *)
Lemma fmap_zrange_lookup {A B} (l : list A) (f : Z → B) (g : A → B) :
  (∀ i x, l !! Z.to_nat i = Some x → 0 ≤ i → f i = g x) →
  f <$> zrange 0 (Z.of_nat (length l)) = g <$> l.
Proof.
  induction l as [|x l IH] using rev_ind; intros Hf; [done|].
  rewrite length_app, Nat2Z.inj_add, zrange_snoc, !fmap_app by lia. f_equal.
  - apply IH. intros i y Hy. apply Hf. by apply lookup_app_l_Some.
  - cbn. f_equal. apply Hf; [|lia]. by rewrite Nat2Z.id, lookup_app_r, Nat.sub_diag by lia.
Qed.

(** ** Memory: lemmas *)

Lemma mem_read_length m off len bs :
  mem_read m off len = Some bs → Z.of_nat (length bs) = len.
Proof.
  unfold mem_read. case_bool; [|done]. intros [= <-].
  rewrite length_take, length_drop. lia.
Qed.

Lemma mem_write_length m off bs m' :
  mem_write m off bs = Some m' → length m' = length m.
Proof.
  unfold mem_write. case_bool; [|done]. intros [= <-]. apply length_inserts.
Qed.

(** What a byte is after a write: the written byte inside the written range,
    the old byte outside it. *)
Lemma mem_write_lookup m off bs m' i :
  mem_write m off bs = Some m' → 0 ≤ i →
  m' !! Z.to_nat i =
    if (off <=? i) && (i <? off + Z.of_nat (length bs))
    then bs !! Z.to_nat (i - off) else m !! Z.to_nat i.
Proof.
  unfold mem_write. case_bool; [|done]. intros [= <-] Hi.
  destruct (off <=? i) eqn:?; simpl; bool_to_prop.
  - destruct (i <? off + Z.of_nat (length bs)) eqn:?; bool_to_prop.
    + rewrite list_lookup_inserts by lia. f_equal. lia.
    + apply list_lookup_inserts_ge. lia.
  - apply list_lookup_inserts_lt. lia.
Qed.

Lemma mem_read_lookup m off len bs i :
  mem_read m off len = Some bs → 0 ≤ i < len →
  bs !! Z.to_nat i = m !! Z.to_nat (off + i).
Proof.
  unfold mem_read. case_bool; [|done]. intros [= <-] Hi.
  rewrite lookup_take_lt, lookup_drop by lia. f_equal. lia.
Qed.
