(* ===== verification/Bits.v ===== *)
(** * Arrays of 64-bit atomic words

    [BackendBitmap] and [FrontendBitmap] (include/sdr_backend.h,
    include/sdr_frontend.h) both keep a
    [std::unique_ptr<std::atomic<uint64_t>[]>] and use the same idioms on it:
    the position of a bit, a one-bit mask, an atomic load, a [fetch_or].  This
    file has those idioms and their view as a set of bits, [bit_at]. *)

From S2P Require Import Prelude.

(** [get_bit_position]: word and bit of a packet or chunk number. *)
Definition get_bit_position (packet_offset : Z) : Z * Z :=
  (packet_offset / 64, packet_offset mod 64).

(** [1ULL << bit_pos]. *)
Definition bit_mask (bit_pos : Z) : Z := u64 (Z.shiftl 1 bit_pos).

(** The mask loops of [check_chunk_range]:
    [for (bit = lo; bit < hi; ++bit) mask |= (1ULL << bit);] *)
Definition range_mask (lo hi : Z) : Z :=
  foldl (λ mask bit, Z.lor mask (bit_mask bit)) 0 (zrange lo hi).

(** [make_unique<atomic<uint64_t>[]>(n)] and the loop that stores 0. *)
Definition zero_words (num_words : Z) : list Z := replicate (Z.to_nat num_words) 0.

(** [bitmap[word].load(acquire)]; outside the array it is undefined. *)
Definition atomic_load (words : list Z) (word_idx : Z) : option Z :=
  words !! Z.to_nat word_idx.

(** [bitmap[word].fetch_or(mask, release)]: old value and new array. *)
Definition atomic_fetch_or (words : list Z) (word_idx mask : Z) : option (Z * list Z) :=
  old_value ← words !! Z.to_nat word_idx;
  Some (old_value, <[Z.to_nat word_idx := Z.lor old_value mask]> words).

(** ** The bits of an array *)

Definition bit_at (words : list Z) (i : Z) : bool :=
  match words !! Z.to_nat (i / 64) with
  | Some w => Z.testbit w (i mod 64)
  | None => false
  end.

Definition is_word (w : Z) : Prop := 0 ≤ w < 2 ^ 64.
Definition wf_words (words : list Z) : Prop := Forall is_word words.

(** A word whose bits are among those of another. *)
Definition word_le (v w : Z) : Prop := ∀ i, 0 ≤ i → Z.testbit v i = true → Z.testbit w i = true.

(** ** Masks *)

Lemma bit_mask_pow2 b : 0 ≤ b < 64 → bit_mask b = 2 ^ b.
Proof.
  intros Hb. unfold bit_mask. rewrite Z.shiftl_1_l. apply u64_small.
  split; [apply Z.pow_nonneg; lia|].
  change 18446744073709551616 with (2 ^ 64). apply Z.pow_lt_mono_r; lia.
Qed.

Lemma bit_mask_testbit b i : 0 ≤ b < 64 → Z.testbit (bit_mask b) i = (b =? i).
Proof. intros. rewrite bit_mask_pow2 by lia. apply Z.pow2_bits_eqb. lia. Qed.

Lemma land_bit_mask w b : 0 ≤ b < 64 →
  (Z.land w (bit_mask b) =? 0) = negb (Z.testbit w b).
Proof.
  intros Hb. destruct (Z.testbit w b) eqn:Hw; simpl.
  - apply Z.eqb_neq. intros H0.
    assert (Z.testbit (Z.land w (bit_mask b)) b = true) as Hbit.
    { rewrite Z.land_spec, bit_mask_testbit, Hw, Z.eqb_refl by lia. done. }
    rewrite H0, Z.bits_0 in Hbit. done.
  - apply Z.eqb_eq. apply Z.bits_inj'. intros i Hi.
    rewrite Z.land_spec, bit_mask_testbit, Z.bits_0 by lia.
    destruct (Z.eqb_spec b i) as [->|]; [by rewrite Hw|by rewrite andb_false_r].
Qed.

Lemma range_mask_snoc lo hi : lo ≤ hi →
  range_mask lo (hi + 1) = Z.lor (range_mask lo hi) (bit_mask hi).
Proof. intros. unfold range_mask. rewrite zrange_snoc by done. by rewrite foldl_app. Qed.

Lemma range_mask_testbit lo n i : 0 ≤ lo → lo + Z.of_nat n ≤ 64 →
  Z.testbit (range_mask lo (lo + Z.of_nat n)) i = (lo <=? i) && (i <? lo + Z.of_nat n).
Proof.
  intros Hlo. induction n as [|n IH]; intros Hn.
  - unfold range_mask. rewrite zrange_nil, Z.bits_0 by lia. symmetry.
    apply andb_false_iff. rewrite Z.leb_gt, Z.ltb_ge. lia.
  - replace (lo + Z.of_nat (S n)) with ((lo + Z.of_nat n) + 1) by lia.
    rewrite range_mask_snoc, Z.lor_spec, IH, bit_mask_testbit by lia.
    destruct (lo <=? i) eqn:?, (i <? lo + Z.of_nat n) eqn:?,
      (i <? lo + Z.of_nat n + 1) eqn:?, (Z.eqb_spec (lo + Z.of_nat n) i);
      bool_to_prop; simpl; first [done | lia].
Qed.

(** [(value & mask) == mask] is the conjunction of the masked bits. *)
Lemma land_range_mask w lo hi : 0 ≤ lo → hi ≤ 64 →
  (Z.land w (range_mask lo hi) =? range_mask lo hi) =
  forallb (λ b, Z.testbit w b) (zrange lo hi).
Proof.
  intros Hlo Hhi. destruct (decide (hi ≤ lo)).
  { unfold range_mask. rewrite zrange_nil by done. simpl. by rewrite Z.land_0_r. }
  assert (∀ i, Z.testbit (range_mask lo hi) i = (lo <=? i) && (i <? hi)) as Hm.
  { intros i. replace hi with (lo + Z.of_nat (Z.to_nat (hi - lo))) by lia.
    apply range_mask_testbit; lia. }
  apply eq_true_iff_eq. rewrite Z.eqb_eq, forallb_elem. split.
  - intros Heq b Hb. rewrite elem_of_zrange in Hb.
    apply (f_equal (λ x, Z.testbit x b)) in Heq. rewrite Z.land_spec, Hm in Heq.
    destruct (lo <=? b) eqn:?, (b <? hi) eqn:?; bool_to_prop; try lia.
    by rewrite andb_true_r in Heq.
  - intros Hall. apply Z.bits_inj'. intros i Hi. rewrite Z.land_spec, Hm.
    destruct (lo <=? i) eqn:?, (i <? hi) eqn:?; bool_to_prop; simpl; rewrite ?andb_false_r; try done.
    rewrite Hall; [done|]. rewrite elem_of_zrange. lia.
Qed.

(** [value == UINT64_MAX] is the conjunction of the 64 bits. *)
Lemma word_full w : is_word w →
  (w =? UINT64_MAX) = forallb (λ b, Z.testbit w b) (zrange 0 64).
Proof.
  intros [Hw0 Hw]. apply eq_true_iff_eq. rewrite Z.eqb_eq, forallb_elem.
  change UINT64_MAX with (Z.ones 64). split.
  - intros -> b Hb. rewrite elem_of_zrange in Hb. apply Z.ones_spec_low. lia.
  - intros Hall. apply Z.bits_inj'. intros i Hi. destruct (decide (i < 64)).
    + rewrite Z.ones_spec_low by lia. apply Hall. rewrite elem_of_zrange. lia.
    + rewrite Z.ones_spec_high by lia.
      rewrite <-(Z.mod_small w (2 ^ 64)) by lia. apply Z.mod_pow2_bits_high. lia.
Qed.

Lemma is_word_lor v w : is_word v → is_word w → is_word (Z.lor v w).
Proof.
  intros [Hv0 Hv] [Hw0 Hw]. split; [by apply Z.lor_nonneg|].
  destruct (decide (Z.lor v w = 0)) as [->|]; [lia|].
  apply Z.log2_lt_pow2; [pose proof (proj2 (Z.lor_nonneg v w)); lia|].
  rewrite Z.log2_lor by done. apply Z.max_lub_lt.
  - destruct (decide (v = 0)) as [->|]; [simpl; lia|apply Z.log2_lt_pow2; lia].
  - destruct (decide (w = 0)) as [->|]; [simpl; lia|apply Z.log2_lt_pow2; lia].
Qed.

Lemma is_word_bit_mask b : is_word (bit_mask b).
Proof. unfold is_word, bit_mask. pose proof (u64_range (Z.shiftl 1 b)). lia. Qed.

#[export] Hint Resolve is_word_lor is_word_bit_mask : sdr.

(** ** Loads and [fetch_or] as operations on bits *)

Lemma bit_at_zero n i : bit_at (zero_words n) i = false.
Proof.
  unfold bit_at, zero_words. destruct (_ !! _) as [w|] eqn:Hw; [|done].
  apply lookup_replicate in Hw as [-> _]. apply Z.bits_0.
Qed.

Lemma wf_zero_words n : wf_words (zero_words n).
Proof. apply Forall_replicate. unfold is_word. lia. Qed.

Lemma atomic_load_Some words i : 0 ≤ i < Z.of_nat (length words) →
  ∃ w, atomic_load words i = Some w ∧ words !! Z.to_nat i = Some w.
Proof.
  intros Hi. unfold atomic_load.
  destruct (lookup_lt_is_Some_2 words (Z.to_nat i)) as [w ->]; [lia|eauto].
Qed.

(** [(load(word_idx) & mask) != 0] reads the bit. *)
Lemma load_bit_at words i w :
  atomic_load words (i / 64) = Some w →
  negb (Z.land w (bit_mask (i mod 64)) =? 0) = bit_at words i.
Proof.
  unfold atomic_load, bit_at. intros Hw. rewrite Hw.
  rewrite land_bit_mask by (apply Z.mod_pos_bound; lia). by rewrite negb_involutive.
Qed.

(** [fetch_or] of one bit: what it returns, and what it changes. *)
Lemma fetch_or_bit words i : 0 ≤ i < 64 * Z.of_nat (length words) → wf_words words →
  ∃ old words', atomic_fetch_or words (i / 64) (bit_mask (i mod 64)) = Some (old, words') ∧
    (Z.land old (bit_mask (i mod 64)) =? 0) = negb (bit_at words i) ∧
    length words' = length words ∧ wf_words words' ∧
    ∀ j, 0 ≤ j → bit_at words' j = (j =? i) || bit_at words j.
Proof.
  intros Hi Hwf.
  assert (0 ≤ i / 64 < Z.of_nat (length words)) as Hd
    by (split; [apply Z.div_pos; lia|apply Z.div_lt_upper_bound; lia]).
  pose proof (Z.mod_pos_bound i 64 ltac:(lia)) as Hm.
  destruct (atomic_load_Some words (i / 64) Hd) as (w & Hl & Hw).
  unfold atomic_fetch_or. rewrite Hw. simpl. do 2 eexists. split; [done|].
  assert (is_word w) as Hword by (by eapply Forall_lookup_1).
  repeat split.
  - rewrite <-(load_bit_at words i w Hl). by rewrite negb_involutive.
  - apply length_insert.
  - apply Forall_insert; auto with sdr.
  - intros j Hj. unfold bit_at. destruct (decide (j / 64 = i / 64)) as [Heq|Hne].
    + rewrite Heq, list_lookup_insert_eq, Hw by lia.
      rewrite Z.lor_spec, bit_mask_testbit by lia. rewrite orb_comm. f_equal.
      apply eq_true_iff_eq. rewrite !Z.eqb_eq.
      pose proof (Z.div_mod j 64). pose proof (Z.div_mod i 64). lia.
    + rewrite list_lookup_insert_ne
        by (pose proof (Z.div_pos j 64); lia).
      destruct (Z.eqb_spec j i) as [->|]; done.
Qed.
