(* ===== verification/Bytes.v ===== *)
(** * Little-endian memory images

    The source copies whole structs between memory and sockets with [memcpy]
    (include/sdr_packet.h, src/tcp_control.cpp).  The image of an unsigned
    field of [n] bytes on the little-endian hosts the prototype runs on is
    [le_encode n x]; a struct is the concatenation of its fields, read back
    one field at a time by [take_field].  The header and control-message
    layouts, and [htons]/[htonl], are built from these. *)

From S2P Require Import Prelude.

Fixpoint le_encode (n : nat) (x : Z) : list Z :=
  match n with
  | O => []
  | S n => x mod 256 :: le_encode n (x / 256)
  end.

Fixpoint le_decode (bs : list Z) : Z :=
  match bs with
  | [] => 0
  | b :: bs => b + 256 * le_decode bs
  end.

(** Read an [n]-byte field off the front of an image. *)
Definition take_field (n : nat) (bs : list Z) : Z * list Z :=
  (le_decode (take n bs), drop n bs).

(** An array of [k] fields of [n] bytes. *)
Fixpoint encode_array (n : nat) (xs : list Z) : list Z :=
  match xs with
  | [] => []
  | x :: xs => le_encode n x ++ encode_array n xs
  end.

Fixpoint take_array (n k : nat) (bs : list Z) : list Z * list Z :=
  match k with
  | O => ([], bs)
  | S k => let '(x, bs) := take_field n bs in
           let '(xs, bs) := take_array n k bs in (x :: xs, bs)
  end.

(** Byte swaps: [htons]/[ntohs] and [htonl]/[ntohl] of a little-endian host. *)
Definition bswap (n : nat) (x : Z) : Z := le_decode (rev (le_encode n x)).
Definition htons (x : Z) : Z := bswap 2 x.
Definition ntohs (x : Z) : Z := bswap 2 x.
Definition htonl (x : Z) : Z := bswap 4 x.
Definition ntohl (x : Z) : Z := bswap 4 x.

Definition is_byte (b : Z) : Prop := 0 ≤ b < 256.
Definition is_uint (n : nat) (x : Z) : Prop := 0 ≤ x < 256 ^ Z.of_nat n.

(** [uint_lia]: ranges of 1-, 2-, 4- and 8-byte fields. *)
Ltac uint_lia :=
  unfold is_uint in *;
  change (256 ^ Z.of_nat 1) with 256 in *;
  change (256 ^ Z.of_nat 2) with 65536 in *;
  change (256 ^ Z.of_nat 4) with 4294967296 in *;
  change (256 ^ Z.of_nat 8) with 18446744073709551616 in *;
  simpl; lia.

(** ** Round trips *)

Lemma length_le_encode n x : length (le_encode n x) = n.
Proof. revert x. induction n; intros; simpl; auto. Qed.

Lemma le_encode_bytes n x : Forall is_byte (le_encode n x).
Proof.
  revert x. induction n; intros; simpl; constructor; auto.
  apply Z.mod_pos_bound. lia.
Qed.

Lemma le_decode_encode n x : is_uint n x → le_decode (le_encode n x) = x.
Proof.
  revert x. induction n as [|n IH]; intros x [Hx0 Hx]; simpl.
  - simpl in Hx. lia.
  - rewrite IH; [pose proof (Z.div_mod x 256); lia|].
    rewrite Nat2Z.inj_succ, Z.pow_succ_r in Hx by lia. split.
    + apply Z.div_pos; lia.
    + apply Z.div_lt_upper_bound; lia.
Qed.

Lemma le_decode_range bs : Forall is_byte bs → is_uint (length bs) (le_decode bs).
Proof.
  unfold is_uint, is_byte. induction 1 as [|b bs Hb _ IH]; [simpl; lia|].
  cbn [length le_decode]. rewrite Nat2Z.inj_succ, Z.pow_succ_r by lia. lia.
Qed.

Lemma le_encode_decode bs : Forall is_byte bs → le_encode (length bs) (le_decode bs) = bs.
Proof.
  unfold is_byte. induction 1 as [|b bs Hb _ IH]; [done|]. simpl.
  replace (b + 256 * le_decode bs) with (b + le_decode bs * 256) by lia.
  rewrite Z_mod_plus_full, Z.mod_small, Z_div_plus_full, Z.div_small by lia.
  by rewrite Z.add_0_l, IH.
Qed.

#[global] Arguments le_encode : simpl never.
#[global] Arguments take_field : simpl never.

Lemma take_field_app n x rest : is_uint n x →
  take_field n (le_encode n x ++ rest) = (x, rest).
Proof.
  intros Hx. unfold take_field.
  rewrite take_app_length', drop_app_length' by (by rewrite length_le_encode).
  by rewrite le_decode_encode.
Qed.

Lemma take_array_app n xs rest : Forall (is_uint n) xs →
  take_array n (length xs) (encode_array n xs ++ rest) = (xs, rest).
Proof.
  induction 1 as [|x xs Hx _ IH]; [done|].
  cbn [length encode_array take_array].
  rewrite <-app_assoc, take_field_app by done. by rewrite IH.
Qed.

Lemma length_encode_array n xs : length (encode_array n xs) = (n * length xs)%nat.
Proof.
  induction xs as [|x xs IH]; simpl; [lia|].
  rewrite length_app, length_le_encode, IH. lia.
Qed.

Lemma length_rev_encode n x : length (rev (le_encode n x)) = n.
Proof. by rewrite length_rev, length_le_encode. Qed.

Lemma rev_encode_bytes n x : Forall is_byte (rev (le_encode n x)).
Proof. apply Forall_rev, le_encode_bytes. Qed.

Lemma bswap_range n x : is_uint n (bswap n x).
Proof.
  pose proof (le_decode_range _ (rev_encode_bytes n x)) as H.
  by rewrite length_rev_encode in H.
Qed.

Lemma bswap_involutive n x : is_uint n x → bswap n (bswap n x) = x.
Proof.
  intros Hx. pose proof (le_encode_decode _ (rev_encode_bytes n x)) as H.
  rewrite length_rev_encode in H. unfold bswap. rewrite H.
  by rewrite rev_involutive, le_decode_encode.
Qed.

#[export] Hint Resolve bswap_range : sdr.

Lemma ntohs_htons x : is_uint 2 x → ntohs (htons x) = x.
Proof. apply bswap_involutive. Qed.
Lemma ntohl_htonl x : is_uint 4 x → ntohl (htonl x) = x.
Proof. apply bswap_involutive. Qed.
