(* ===== verification/Packet.v ===== *)
(** * UDP packets (include/sdr_packet.h)

    The packed header, its network byte order, its memory image (the bytes
    [sendto] and [recvfrom] move), and the data packets the senders build. *)

From S2P Require Import Prelude Bytes.

(** [enum class PacketType : uint8_t]. *)
Module PacketType.
Inductive t : Set := DATA | PARITY | ACK | NACK | CTS.

Definition value (t : t) : Z :=
  match t with DATA => 0 | PARITY => 1 | ACK => 2 | NACK => 3 | CTS => 4 end.

#[export] Instance eq_dec : EqDecision t.
Proof. solve_decision. Defined.
End PacketType.

(** [struct __attribute__((packed)) SDRPacketHeader]. *)
Record SDRPacketHeader : Set := mkHeader {
  h_magic : Z;
  h_type : Z;
  h_reserved1 : Z;
  h_transfer_id : Z;
  h_msg_id : Z;             (* bit-field of 10 bits *)
  h_packet_offset : Z;      (* bit-field of 18 bits *)
  h_reserved2 : Z;         (* bit-field of 4 bits *)
  h_submsg_id : Z;
  h_chunk_seq : Z;
  h_packets_per_chunk : Z;
  h_fec_k : Z;
  h_fec_m : Z;
  h_parity_idx : Z;
  h_payload_len : Z;
  h_flags : Z;
  h_reserved3 : list Z
}.

Definition MAGIC_VALUE : Z := 21316. (* 0x5344 *)

(** Assignments to the bit-fields keep the low bits. *)
Definition MSG_ID_LIMIT : Z := 1024.
Definition PACKET_OFFSET_LIMIT : Z := 262144.

Definition get_chunk_id (h : SDRPacketHeader) : Z :=
  if h_packets_per_chunk h =? 0 then 0 else h_packet_offset h / h_packets_per_chunk h.

Definition get_packet_in_chunk (h : SDRPacketHeader) : Z :=
  if h_packets_per_chunk h =? 0 then 0 else h_packet_offset h mod h_packets_per_chunk h.

Definition is_valid (h : SDRPacketHeader) : bool := h_magic h =? MAGIC_VALUE.

Definition to_network_order (h : SDRPacketHeader) : SDRPacketHeader :=
  {| h_magic := htons (h_magic h);
     h_type := h_type h;
     h_reserved1 := h_reserved1 h;
     h_transfer_id := htonl (h_transfer_id h);
     h_msg_id := h_msg_id h;
     h_packet_offset := h_packet_offset h;
     h_reserved2 := h_reserved2 h;
     h_submsg_id := htons (h_submsg_id h);
     h_chunk_seq := htonl (h_chunk_seq h);
     h_packets_per_chunk := htons (h_packets_per_chunk h);
     h_fec_k := htons (h_fec_k h);
     h_fec_m := htons (h_fec_m h);
     h_parity_idx := htons (h_parity_idx h);
     h_payload_len := htons (h_payload_len h);
     h_flags := h_flags h;
     h_reserved3 := h_reserved3 h |}.

Definition to_host_order (h : SDRPacketHeader) : SDRPacketHeader :=
  {| h_magic := ntohs (h_magic h);
     h_type := h_type h;
     h_reserved1 := h_reserved1 h;
     h_transfer_id := ntohl (h_transfer_id h);
     h_msg_id := h_msg_id h;
     h_packet_offset := h_packet_offset h;
     h_reserved2 := h_reserved2 h;
     h_submsg_id := ntohs (h_submsg_id h);
     h_chunk_seq := ntohl (h_chunk_seq h);
     h_packets_per_chunk := ntohs (h_packets_per_chunk h);
     h_fec_k := ntohs (h_fec_k h);
     h_fec_m := ntohs (h_fec_m h);
     h_parity_idx := ntohs (h_parity_idx h);
     h_payload_len := ntohs (h_payload_len h);
     h_flags := h_flags h;
     h_reserved3 := h_reserved3 h |}.

(** The memory image of the packed struct: fields in declaration order without
    padding; the three bit-fields share one 32-bit unit, lowest bits first. *)
Definition bitfield_unit (h : SDRPacketHeader) : Z :=
  h_msg_id h + 1024 * h_packet_offset h + 268435456 * h_reserved2 h.

Definition header_image (h : SDRPacketHeader) : list Z :=
  le_encode 2 (h_magic h) ++ le_encode 1 (h_type h) ++ le_encode 1 (h_reserved1 h) ++
  le_encode 4 (h_transfer_id h) ++ le_encode 4 (bitfield_unit h) ++
  le_encode 2 (h_submsg_id h) ++ le_encode 4 (h_chunk_seq h) ++
  le_encode 2 (h_packets_per_chunk h) ++ le_encode 2 (h_fec_k h) ++
  le_encode 2 (h_fec_m h) ++ le_encode 2 (h_parity_idx h) ++
  le_encode 2 (h_payload_len h) ++ le_encode 1 (h_flags h) ++
  encode_array 1 (h_reserved3 h).

(** [sizeof(SDRPacketHeader)]. *)
Definition sizeof_SDRPacketHeader : Z := 32.

(** [memcpy(&header, bytes, sizeof(SDRPacketHeader))]. *)
Definition header_of_image (bs : list Z) : SDRPacketHeader :=
  let '(magic, bs) := take_field 2 bs in
  let '(type, bs) := take_field 1 bs in
  let '(r1, bs) := take_field 1 bs in
  let '(transfer_id, bs) := take_field 4 bs in
  let '(unit, bs) := take_field 4 bs in
  let '(submsg_id, bs) := take_field 2 bs in
  let '(chunk_seq, bs) := take_field 4 bs in
  let '(ppc, bs) := take_field 2 bs in
  let '(fec_k, bs) := take_field 2 bs in
  let '(fec_m, bs) := take_field 2 bs in
  let '(parity_idx, bs) := take_field 2 bs in
  let '(payload_len, bs) := take_field 2 bs in
  let '(flags, bs) := take_field 1 bs in
  let '(r3, _) := take_array 1 3 bs in
  mkHeader magic type r1 transfer_id
    (unit mod 1024) (unit / 1024 mod 262144) (unit / 268435456)
    submsg_id chunk_seq ppc fec_k fec_m parity_idx payload_len flags r3.

(** [struct SDRPacket]: the header and the flexible array after it. *)
Record SDRPacket : Set := mkPacket { pkt_header : SDRPacketHeader; pkt_payload : list Z }.

Definition MAX_PAYLOAD_SIZE : Z := 64 * 1024 - 8 - sizeof_SDRPacketHeader.

Definition get_total_size (p : SDRPacket) : Z :=
  sizeof_SDRPacketHeader + h_payload_len (pkt_header p).

(** [memset(&packet->header, 0, sizeof(SDRPacketHeader))]. *)
Definition zero_header : SDRPacketHeader :=
  mkHeader 0 0 0 0 0 0 0 0 0 0 0 0 0 0 0 [0; 0; 0].

(** [create_data_packet]: [None] when the [memcpy] reads past [data],
    [Some None] for [nullptr]. *)
Definition create_data_packet (transfer_id msg_id packet_offset packets_per_chunk : Z)
    (data : list Z) (data_len : Z) : option (option SDRPacket) :=
  if data_len >? MAX_PAYLOAD_SIZE then Some None else
  let header := zero_header in
  let header := {|
    h_magic := MAGIC_VALUE;
    h_type := PacketType.value PacketType.DATA;
    h_reserved1 := h_reserved1 header;
    h_transfer_id := transfer_id;
    h_msg_id := msg_id mod MSG_ID_LIMIT;
    h_packet_offset := packet_offset mod PACKET_OFFSET_LIMIT;
    h_reserved2 := h_reserved2 header;
    h_submsg_id := h_submsg_id header;
    h_chunk_seq := h_chunk_seq header;
    h_packets_per_chunk := packets_per_chunk;
    h_fec_k := h_fec_k header;
    h_fec_m := h_fec_m header;
    h_parity_idx := h_parity_idx header;
    h_payload_len := u16 data_len;
    h_flags := h_flags header;
    h_reserved3 := h_reserved3 header |} in
  payload ← mem_read data 0 data_len;
  Some (Some (mkPacket header payload)).

(** [packet->header.chunk_seq = packet->header.get_chunk_id()], as every
    sender does before it sends. *)
Definition set_chunk_seq (p : SDRPacket) : SDRPacket :=
  let h := pkt_header p in
  mkPacket (mkHeader (h_magic h) (h_type h) (h_reserved1 h) (h_transfer_id h) (h_msg_id h)
    (h_packet_offset h) (h_reserved2 h) (h_submsg_id h) (get_chunk_id h)
    (h_packets_per_chunk h) (h_fec_k h) (h_fec_m h) (h_parity_idx h) (h_payload_len h)
    (h_flags h) (h_reserved3 h)) (pkt_payload p).

(** The [sizeof(SDRPacketHeader) + packet_data_len] bytes at [packet] after
    [packet->header.to_network_order()], the datagram [sendto] is given. *)
Definition packet_datagram (p : SDRPacket) : list Z :=
  header_image (to_network_order (pkt_header p)) ++ pkt_payload p.

(** ** Well-formed headers: every field in the range of its type *)

Record wf_header (h : SDRPacketHeader) : Prop := {
  wf_magic : is_uint 2 (h_magic h);
  wf_type : is_uint 1 (h_type h);
  wf_reserved1 : is_uint 1 (h_reserved1 h);
  wf_transfer_id : is_uint 4 (h_transfer_id h);
  wf_msg_id : 0 ≤ h_msg_id h < 1024;
  wf_packet_offset : 0 ≤ h_packet_offset h < 262144;
  wf_reserved2 : 0 ≤ h_reserved2 h < 16;
  wf_submsg_id : is_uint 2 (h_submsg_id h);
  wf_chunk_seq : is_uint 4 (h_chunk_seq h);
  wf_packets_per_chunk : is_uint 2 (h_packets_per_chunk h);
  wf_fec_k : is_uint 2 (h_fec_k h);
  wf_fec_m : is_uint 2 (h_fec_m h);
  wf_parity_idx : is_uint 2 (h_parity_idx h);
  wf_payload_len : is_uint 2 (h_payload_len h);
  wf_flags : is_uint 1 (h_flags h);
  wf_reserved3 : Forall (is_uint 1) (h_reserved3 h) ∧ length (h_reserved3 h) = 3%nat
}.

(** ** Lemmas *)

Lemma length_header_image h : length (h_reserved3 h) = 3%nat →
  Z.of_nat (length (header_image h)) = sizeof_SDRPacketHeader.
Proof.
  intros H3. unfold header_image.
  rewrite !length_app, !length_le_encode, length_encode_array, H3. done.
Qed.

Lemma bitfield_unit_range h : wf_header h → is_uint 4 (bitfield_unit h).
Proof.
  intros []. unfold is_uint, bitfield_unit. change (256 ^ Z.of_nat 4) with 4294967296. lia.
Qed.

Lemma bitfield_unit_decode h : wf_header h →
  bitfield_unit h mod 1024 = h_msg_id h ∧
  bitfield_unit h / 1024 mod 262144 = h_packet_offset h ∧
  bitfield_unit h / 268435456 = h_reserved2 h.
Proof. intros []. unfold bitfield_unit. Z.div_mod_to_equations. lia. Qed.

(** Reading back an image. *)
Lemma header_of_image_app h rest : wf_header h →
  header_of_image (header_image h ++ rest) = h.
Proof.
  intros Hwf. pose proof (bitfield_unit_range h Hwf).
  pose proof (bitfield_unit_decode h Hwf) as (Hm & Ho & Hr).
  pose proof (wf_reserved3 h Hwf) as [H3 Hlen]. destruct Hwf.
  unfold header_of_image, header_image. rewrite <-!app_assoc.
  rewrite !take_field_app by done. cbn beta iota.
  pose proof (take_array_app 1 (h_reserved3 h) rest H3) as Hr3.
  rewrite Hlen in Hr3. rewrite Hr3, Hm, Ho, Hr. by destruct h.
Qed.

Lemma wf_to_network_order h : wf_header h → wf_header (to_network_order h).
Proof. intros []. constructor; try done; apply bswap_range. Qed.

Lemma to_host_network h : wf_header h → to_host_order (to_network_order h) = h.
Proof.
  intros []. unfold to_host_order, to_network_order.
  destruct h; simpl in *. f_equal; by (apply ntohs_htons || apply ntohl_htonl).
Qed.

Lemma wf_set_chunk_seq p : wf_header (pkt_header p) → wf_header (pkt_header (set_chunk_seq p)).
Proof.
  intros []. constructor; try done. simpl. unfold get_chunk_id, is_uint in *.
  change (256 ^ Z.of_nat 4) with 4294967296.
  case_bool; [lia|]. split; [apply Z.div_pos; lia|].
  apply Z.div_lt_upper_bound; nia.
Qed.

Lemma header_image_nth_wf p rest : wf_header (pkt_header p) →
  to_host_order (header_of_image (packet_datagram p ++ rest)) = pkt_header p.
Proof.
  intros Hwf. unfold packet_datagram. rewrite <-app_assoc.
  rewrite header_of_image_app by by apply wf_to_network_order.
  by apply to_host_network.
Qed.

Lemma length_packet_datagram p : wf_header (pkt_header p) →
  Z.of_nat (length (packet_datagram p)) =
    sizeof_SDRPacketHeader + Z.of_nat (length (pkt_payload p)).
Proof.
  intros Hwf. unfold packet_datagram. rewrite length_app, Nat2Z.inj_add.
  rewrite length_header_image; [done|]. apply (wf_reserved3 _ Hwf).
Qed.

(** What [create_data_packet] builds when it does not return [nullptr]. *)
Lemma create_data_packet_inv tid mid po ppc data len p :
  0 ≤ len → is_uint 4 tid → is_uint 2 ppc → 0 ≤ mid → 0 ≤ po →
  create_data_packet tid mid po ppc data len = Some (Some p) →
  wf_header (pkt_header p) ∧
  h_magic (pkt_header p) = MAGIC_VALUE ∧
  h_transfer_id (pkt_header p) = tid ∧
  h_msg_id (pkt_header p) = mid mod 1024 ∧
  h_packet_offset (pkt_header p) = po mod 262144 ∧
  h_packets_per_chunk (pkt_header p) = ppc ∧
  h_payload_len (pkt_header p) = len ∧
  mem_read data 0 len = Some (pkt_payload p) ∧ len ≤ MAX_PAYLOAD_SIZE.
Proof.
  intros Hlen Htid Hppc Hmid Hpo. unfold create_data_packet.
  case_bool; [done|]. destruct (mem_read data 0 len) as [bs|] eqn:Hbs; [|done].
  simpl. intros [= <-]. cbn [pkt_header pkt_payload h_magic h_transfer_id h_msg_id
    h_packet_offset h_packets_per_chunk h_payload_len].
  unfold MAX_PAYLOAD_SIZE, sizeof_SDRPacketHeader, MSG_ID_LIMIT, PACKET_OFFSET_LIMIT in *.
  rewrite u16_small by lia.
  pose proof (Z.mod_pos_bound mid 1024 ltac:(lia)).
  pose proof (Z.mod_pos_bound po 262144 ltac:(lia)).
  split_and!; try done; try lia.
  constructor; simpl; try done; unfold is_uint; simpl; try lia.
  split; [repeat constructor; simpl; lia|done].
Qed.

Lemma create_data_packet_some tid mid po ppc data len :
  0 ≤ len ≤ Z.of_nat (length data) → len ≤ MAX_PAYLOAD_SIZE →
  ∃ p, create_data_packet tid mid po ppc data len = Some (Some p).
Proof.
  intros Hlen Hmax. unfold create_data_packet, mem_read.
  case_match eqn:Hg; [bool_to_prop; lia|].
  case_match eqn:Hr; [by eexists|].
  rewrite !andb_false_iff, !Z.leb_gt in Hr. lia.
Qed.

(** ** Properties *)

(** C37: What a sender puts on the wire is what the receiver reads: the [memcpy] of
    the first [sizeof(SDRPacketHeader)] bytes of a datagram followed by
    [to_host_order] gives back every field of a well-formed header that went
    through [to_network_order] (bit-fields included), and the rest of the
    datagram is the payload. *)
Theorem datagram_roundtrip p : wf_header (pkt_header p) →
  to_host_order (header_of_image (packet_datagram p)) = pkt_header p ∧
  drop (Z.to_nat sizeof_SDRPacketHeader) (packet_datagram p) = pkt_payload p.
Proof.
  intros Hwf. split.
  - rewrite <-(app_nil_r (packet_datagram p)). by apply header_image_nth_wf.
  - unfold packet_datagram. apply drop_app_length'.
    pose proof (length_header_image (to_network_order (pkt_header p)) (proj2 (wf_reserved3 _ Hwf))). lia.
Qed.

Definition example_packet : SDRPacket :=
  mkPacket (mkHeader MAGIC_VALUE 0 0 7 3 300 0 0 4 64 0 0 0 5 0 [0; 0; 0]) [10; 20; 30; 40; 50].

Lemma example_packet_wf : wf_header (pkt_header example_packet).
Proof.
  constructor; cbn [example_packet pkt_header]; unfold MAGIC_VALUE; simpl; try uint_lia.
  split; [repeat apply Forall_cons_2; try apply Forall_nil_2; uint_lia|done].
Qed.

Lemma datagram_roundtrip_witness :
  to_host_order (header_of_image (packet_datagram example_packet)) = pkt_header example_packet ∧
  drop 32 (packet_datagram example_packet) = [10; 20; 30; 40; 50].
Proof. apply (datagram_roundtrip example_packet example_packet_wf). Defined.

(** [create_data_packet] refuses exactly the payloads above
    [MAX_PAYLOAD_SIZE]; otherwise, when the source bytes are there, the packet
    is valid, carries the arguments it was given (message number and offset
    reduced to their bit-fields) and the exact bytes, and its declared length
    never wraps the 16-bit field. *)
Theorem create_data_packet_correct tid mid po ppc data len :
  is_uint 4 tid → is_uint 2 ppc → 0 ≤ mid → 0 ≤ po → 0 ≤ len ≤ Z.of_nat (length data) →
  (MAX_PAYLOAD_SIZE < len → create_data_packet tid mid po ppc data len = Some None) ∧
  (len ≤ MAX_PAYLOAD_SIZE → ∃ p, create_data_packet tid mid po ppc data len = Some (Some p) ∧
    wf_header (pkt_header p) ∧ is_valid (pkt_header p) = true ∧
    h_transfer_id (pkt_header p) = tid ∧
    h_msg_id (pkt_header p) = mid mod 1024 ∧
    h_packet_offset (pkt_header p) = po mod 262144 ∧
    h_packets_per_chunk (pkt_header p) = ppc ∧
    h_payload_len (pkt_header p) = len ∧
    pkt_payload p = take (Z.to_nat len) data ∧
    get_total_size p = Z.of_nat (length (packet_datagram p))).
Proof.
  intros Htid Hppc Hmid Hpo Hlen. split.
  { intros Hmax. unfold create_data_packet. by rewrite (proj2 (Z.gtb_lt _ _)). }
  intros Hmax. destruct (create_data_packet_some tid mid po ppc data len Hlen Hmax) as (p & Hc).
  exists p. split; [done|].
  apply create_data_packet_inv in Hc
    as (Hwf & Hm & -> & -> & -> & -> & Hl & Hread & _); [|first [done|lia]..].
  assert (pkt_payload p = take (Z.to_nat len) data) as Hpl.
  { unfold mem_read in Hread. destruct (_ && _); [by injection Hread|done]. }
  split_and!; try done.
  - unfold is_valid. by rewrite Hm.
  - rewrite length_packet_datagram by done. unfold get_total_size. rewrite Hl.
    apply mem_read_length in Hread. lia.
Qed.

Lemma create_data_packet_correct_witness :
  ∃ p, create_data_packet 7 1027 300 64 [1; 2; 3; 4] 3 = Some (Some p) ∧
    h_msg_id (pkt_header p) = 3 ∧ pkt_payload p = [1; 2; 3].
Proof.
  destruct (create_data_packet_correct 7 1027 300 64 [1; 2; 3; 4] 3)
    as [_ (p & Hp & _ & _ & _ & Hm & _ & _ & _ & Hpl & _)];
    try (unfold MAX_PAYLOAD_SIZE, sizeof_SDRPacketHeader; uint_lia).
  exists p. split; [exact Hp|]. split; [exact Hm|exact Hpl].
Defined.

(** The 18-bit offset field bounds a message: two packets whose offsets differ
    by a multiple of 2^18 and carry the same bytes have the same header (and
    chunk number), so the receiver cannot tell them apart.  Nothing on the
    send path rejects messages of more than 2^18 packets. *)
Theorem packet_offset_wraps tid mid po ppc data len k : 0 ≤ po → 0 ≤ k →
  create_data_packet tid mid (po + k * 262144) ppc data len =
  create_data_packet tid mid po ppc data len.
Proof.
  intros Hpo Hk. unfold create_data_packet, PACKET_OFFSET_LIMIT.
  by rewrite Z_mod_plus_full.
Qed.

Lemma packet_offset_wraps_witness :
  create_data_packet 1 0 262144 32 [1; 2] 2 = create_data_packet 1 0 0 32 [1; 2] 2 ∧
  create_data_packet 1 0 0 32 [1; 2] 2 ≠ Some None.
Proof.
  split; [|vm_compute; congruence].
  exact (packet_offset_wraps 1 0 0 32 [1; 2] 2 1 ltac:(lia) ltac:(lia)).
Defined.

(** Chunk number and position in the chunk determine the packet: for a
    non-zero [packets_per_chunk], [packet_offset] is
    [get_chunk_id * packets_per_chunk + get_packet_in_chunk] with the position
    below [packets_per_chunk]. *)
Lemma chunk_coordinates h : wf_header h → h_packets_per_chunk h ≠ 0 →
  h_packet_offset h = get_chunk_id h * h_packets_per_chunk h + get_packet_in_chunk h ∧
  0 ≤ get_packet_in_chunk h < h_packets_per_chunk h ∧
  0 ≤ get_chunk_id h < 262144.
Proof.
  intros [] Hp. unfold get_chunk_id, get_packet_in_chunk. unfold is_uint in *.
  rewrite (proj2 (Z.eqb_neq _ _) Hp).
  pose proof (Z.div_mod (h_packet_offset h) (h_packets_per_chunk h) Hp).
  pose proof (Z.mod_pos_bound (h_packet_offset h) (h_packets_per_chunk h) ltac:(lia)).
  split; [lia|]. split; [done|]. split; [apply Z.div_pos; lia|].
  apply Z.div_lt_upper_bound; nia.
Qed.

(** A full-size payload does not fit a UDP datagram: with [data_len] equal to
    [MAX_PAYLOAD_SIZE] (the MTU used when neither side configures one) the
    datagram is 65528 bytes, above the 65507 bytes of payload IPv4 UDP carries;
    the header is 32 bytes. *)
Theorem full_payload_exceeds_udp tid mid po ppc data p :
  is_uint 4 tid → is_uint 2 ppc → 0 ≤ mid → 0 ≤ po →
  create_data_packet tid mid po ppc data MAX_PAYLOAD_SIZE = Some (Some p) →
  Z.of_nat (length (header_image (pkt_header p))) = 32 ∧
  Z.of_nat (length (packet_datagram p)) = 65528 ∧ 65535 - 20 - 8 < 65528.
Proof.
  intros Htid Hppc Hmid Hpo Hc.
  assert (0 ≤ MAX_PAYLOAD_SIZE) as Hm by (unfold MAX_PAYLOAD_SIZE, sizeof_SDRPacketHeader; lia).
  apply create_data_packet_inv in Hc as (Hwf & _ & _ & _ & _ & _ & _ & Hread & _); [|done..].
  split; [apply length_header_image, (wf_reserved3 _ Hwf)|]. split; [|lia].
  rewrite length_packet_datagram by done. apply mem_read_length in Hread. rewrite Hread.
  done.
Qed.

Lemma full_payload_exceeds_udp_witness :
  ∃ p, create_data_packet 1 0 0 32 (replicate (Z.to_nat 65496) 0) MAX_PAYLOAD_SIZE =
      Some (Some p) ∧ Z.of_nat (length (packet_datagram p)) = 65528.
Proof.
  destruct (create_data_packet_some 1 0 0 32 (replicate (Z.to_nat 65496) 0) MAX_PAYLOAD_SIZE)
    as (p & H).
  { rewrite length_replicate. unfold MAX_PAYLOAD_SIZE, sizeof_SDRPacketHeader. lia. }
  { lia. }
  exists p. split; [exact H|].
  refine (proj1 (proj2 (full_payload_exceeds_udp 1 0 0 32 _ p _ _ _ _ H))); uint_lia.
Defined.
