(* ===== verification/Backend.v ===== *)
(** * Packet bitmap (include/sdr_backend.h)

    [BackendBitmap]: one bit per packet of a message, set by the UDP workers,
    scanned per chunk by the frontend.  [None] is undefined behaviour (an access
    outside [packet_bitmap_]). *)

From S2P Require Import Prelude Bits.

Record BackendBitmap : Set := mkBackend {
  bb_words : list Z;              (* packet_bitmap_ *)
  bb_num_words : Z;               (* num_words_, uint32_t *)
  bb_total_packets : Z;           (* total_packets_, uint32_t *)
  bb_packets_per_chunk : Z        (* packets_per_chunk_, uint16_t *)
}.

(** The constructor: [num_words_ = (total_packets + 63) / 64] in [uint32_t]. *)
Definition make_backend (total_packets packets_per_chunk : Z) : BackendBitmap :=
  let num_words := (total_packets +u32 63) / 64 in
  mkBackend (zero_words num_words) num_words total_packets packets_per_chunk.

Definition bb_with_words (b : BackendBitmap) (ws : list Z) : BackendBitmap :=
  mkBackend ws (bb_num_words b) (bb_total_packets b) (bb_packets_per_chunk b).

Definition set_packet_received (b : BackendBitmap) (packet_offset : Z)
    : option (bool * BackendBitmap) :=
  if packet_offset >=? bb_total_packets b then Some (false, b) else
  let '(word_idx, bit_pos) := get_bit_position packet_offset in
  let mask := bit_mask bit_pos in
  '(old_value, ws) ← atomic_fetch_or (bb_words b) word_idx mask;
  Some (Z.land old_value mask =? 0, bb_with_words b ws).

Definition is_packet_received (b : BackendBitmap) (packet_offset : Z) : option bool :=
  if packet_offset >=? bb_total_packets b then Some false else
  let '(word_idx, bit_pos) := get_bit_position packet_offset in
  let mask := bit_mask bit_pos in
  value ← atomic_load (bb_words b) word_idx;
  Some (negb (Z.land value mask =? 0)).

(** The loop over the middle words of [check_chunk_range]. *)
Definition middle_word_full (load : Z → option Z) (word : Z) : option bool :=
  value ← load word; Some (value =? UINT64_MAX).

(** [check_chunk_range], over the results [load] of its atomic loads; it loads
    each word at most once, so a run in which other threads set bits in between
    is a run with another [load]. *)
Definition check_chunk_range (load : Z → option Z)
    (chunk_start_packet chunk_end_packet : Z) : option bool :=
  let '(start_word, start_bit) := get_bit_position chunk_start_packet in
  let '(end_word, end_bit) := get_bit_position (chunk_end_packet -u32 1) in
  let end_bit := end_bit + 1 in
  if start_word =? end_word then
    let mask := range_mask start_bit end_bit in
    value ← load start_word;
    Some (Z.land value mask =? mask)
  else
    let first_mask := range_mask start_bit 64 in
    first_value ← load start_word;
    if negb (Z.land first_value first_mask =? first_mask) then Some false else
    full ← forall_opt (middle_word_full load) (zrange (start_word + 1) end_word);
    if negb full then Some false else
    let last_mask := range_mask 0 end_bit in
    last_value ← load end_word;
    Some (Z.land last_value last_mask =? last_mask).

(** First and one-past-last packet of a chunk, clamped to the message. *)
Definition chunk_bounds (b : BackendBitmap) (chunk_id : Z) : Z * Z :=
  let chunk_start_packet := chunk_id *u32 bb_packets_per_chunk b in
  let chunk_end_packet := chunk_start_packet +u32 bb_packets_per_chunk b in
  let chunk_end_packet :=
    if chunk_end_packet >? bb_total_packets b then bb_total_packets b
    else chunk_end_packet in
  (chunk_start_packet, chunk_end_packet).

Definition backend_is_chunk_complete (b : BackendBitmap) (chunk_id : Z) : option bool :=
  let '(s, e) := chunk_bounds b chunk_id in
  check_chunk_range (atomic_load (bb_words b)) s e.

Definition get_chunk_packet_count (b : BackendBitmap) (chunk_id : Z) : option Z :=
  let '(s, e) := chunk_bounds b chunk_id in
  count_if (is_packet_received b) (zrange s e).

Definition get_total_packets_received (b : BackendBitmap) : option Z :=
  count_if (is_packet_received b) (zrange 0 (bb_total_packets b)).

(** A run of [set_packet_received] over the offsets of arriving packets: the
    answers and the final bitmap. *)
Fixpoint record_arrivals (b : BackendBitmap) (offsets : list Z)
    : option (list bool * BackendBitmap) :=
  match offsets with
  | [] => Some ([], b)
  | o :: offsets =>
      '(fresh, b) ← set_packet_received b o;
      '(rest, b) ← record_arrivals b offsets;
      Some (fresh :: rest, b)
  end.

(** ** What the bitmap stands for *)

(** The bit of a packet, [false] outside the message. *)
Definition received (b : BackendBitmap) (p : Z) : bool :=
  (0 <=? p) && (p <? bb_total_packets b) && bit_at (bb_words b) p.

(** The abstract state: the set of packets received. *)
Definition received_set (b : BackendBitmap) : gset Z :=
  list_to_set (List.filter (received b) (zrange 0 (bb_total_packets b))).

(** Sizes for which the [uint32_t] arithmetic of the bitmap does not wrap. *)
Record wf_backend (b : BackendBitmap) : Prop := {
  wfb_total : 0 ≤ bb_total_packets b ≤ 4294967296 - 65536;
  wfb_ppc : 0 < bb_packets_per_chunk b < 65536;
  wfb_len : Z.of_nat (length (bb_words b)) = (bb_total_packets b + 63) / 64;
  wfb_words : wf_words (bb_words b)
}.

(** Chunk [c] is one of the message's chunks. *)
Definition chunk_in_range (b : BackendBitmap) (c : Z) : Prop :=
  0 ≤ c ∧ c * bb_packets_per_chunk b < bb_total_packets b.

Definition chunk_packets (b : BackendBitmap) (c : Z) : list Z :=
  zrange (c * bb_packets_per_chunk b)
    (Z.min ((c + 1) * bb_packets_per_chunk b) (bb_total_packets b)).

Definition chunk_received (b : BackendBitmap) (c : Z) : bool :=
  forallb (received b) (chunk_packets b c).

(** [b'] has every bit of [b] and the same shape. *)
Definition backend_le (b b' : BackendBitmap) : Prop :=
  bb_total_packets b' = bb_total_packets b ∧
  bb_packets_per_chunk b' = bb_packets_per_chunk b ∧
  ∀ p, received b p = true → received b' p = true.

#[export] Instance backend_le_preorder : PreOrder backend_le.
Proof.
  split.
  - intros b. by split_and!.
  - intros a b c (H1 & H2 & H3) (H4 & H5 & H6). split_and!; [congruence..|auto].
Qed.

(** ** Lemmas *)

Lemma make_backend_wf total ppc :
  0 ≤ total ≤ 4294967296 - 65536 → 0 < ppc < 65536 → wf_backend (make_backend total ppc).
Proof.
  intros Ht Hp. constructor; simpl; [done|done| |apply wf_zero_words].
  unfold zero_words. rewrite length_replicate, u32_small by lia.
  pose proof (Z.div_pos (total + 63) 64). lia.
Qed.

Lemma make_backend_received total ppc p : received (make_backend total ppc) p = false.
Proof. unfold received. simpl. rewrite bit_at_zero. apply andb_false_r. Qed.

Lemma packet_in_words b p : wf_backend b → 0 ≤ p < bb_total_packets b →
  p < 64 * Z.of_nat (length (bb_words b)).
Proof.
  intros [? ? Hlen _] Hp. rewrite Hlen.
  pose proof (Z.div_mod (bb_total_packets b + 63) 64).
  pose proof (Z.mod_pos_bound (bb_total_packets b + 63) 64). lia.
Qed.

Lemma word_in_words b p : wf_backend b → 0 ≤ p < bb_total_packets b →
  0 ≤ p / 64 < Z.of_nat (length (bb_words b)).
Proof.
  intros Hwf Hp. pose proof (packet_in_words b p Hwf Hp).
  split; [apply Z.div_pos; lia|apply Z.div_lt_upper_bound; lia].
Qed.

(** [is_packet_received] is defined on every offset and reads the bit. *)
Lemma is_packet_received_eq b p : wf_backend b → 0 ≤ p →
  is_packet_received b p = Some (received b p).
Proof.
  intros Hwf Hp. unfold is_packet_received, received, get_bit_position.
  replace (0 <=? p) with true by (symmetry; by apply Z.leb_le). simpl.
  case_bool; simpl.
  - by replace (p <? bb_total_packets b) with false by (symmetry; apply Z.ltb_ge; lia).
  - replace (p <? bb_total_packets b) with true by (symmetry; apply Z.ltb_lt; lia).
    destruct (atomic_load_Some (bb_words b) (p / 64)) as (w & Hw & _);
      [apply word_in_words; [done|lia]|].
    rewrite Hw. simpl. by rewrite (load_bit_at _ _ _ Hw).
Qed.

Lemma set_packet_received_eq b p : wf_backend b → 0 ≤ p →
  ∃ b', set_packet_received b p =
          Some ((p <? bb_total_packets b) && negb (received b p), b') ∧
    wf_backend b' ∧
    bb_total_packets b' = bb_total_packets b ∧
    bb_packets_per_chunk b' = bb_packets_per_chunk b ∧
    ∀ q, received b' q = ((p <? bb_total_packets b) && (q =? p)) || received b q.
Proof.
  intros Hwf Hp. unfold set_packet_received, get_bit_position.
  destruct (p >=? bb_total_packets b) eqn:Hge; bool_to_prop.
  { replace (p <? bb_total_packets b) with false by (symmetry; apply Z.ltb_ge; lia).
    exists b. by split_and!. }
  replace (p <? bb_total_packets b) with true by (symmetry; apply Z.ltb_lt; lia).
  destruct (fetch_or_bit (bb_words b) p) as (old & ws & Hf & Hold & Hlen & Hws & Hbits).
  { split; [done|]. apply packet_in_words; [done|lia]. }
  { by destruct Hwf. }
  rewrite Hf. simpl. rewrite Hold. exists (bb_with_words b ws). split_and!.
  - do 2 f_equal. unfold received.
    replace (0 <=? p) with true by (symmetry; by apply Z.leb_le).
    by replace (p <? bb_total_packets b) with true by (symmetry; apply Z.ltb_lt; lia).
  - destruct Hwf. constructor; simpl; try done. by rewrite Hlen.
  - done.
  - done.
  - intros q. unfold received. simpl.
    destruct (0 <=? q) eqn:?; bool_to_prop; simpl.
    + rewrite Hbits by done. destruct (Z.eqb_spec q p) as [->|]; simpl; [|done].
      by replace (p <? bb_total_packets b) with true by (symmetry; apply Z.ltb_lt; lia).
    + destruct (Z.eqb_spec q p); [lia|done].
Qed.

Lemma set_packet_received_le b p r b' : wf_backend b → 0 ≤ p →
  set_packet_received b p = Some (r, b') → wf_backend b' ∧ backend_le b b'.
Proof.
  intros Hwf Hp Hset.
  destruct (set_packet_received_eq b p Hwf Hp) as (b2 & Heq & Hwf2 & Ht & Hc & Hr).
  rewrite Heq in Hset. injection Hset as <- <-. split; [done|].
  split_and!; [done..|]. intros q Hq. rewrite Hr, Hq. apply orb_true_r.
Qed.

(** Clearing bits of a word gives one of its possible pasts. *)
Lemma masked_word_stale w m : is_word w → 0 ≤ m →
  is_word (Z.land w (Z.lnot m)) ∧ word_le (Z.land w (Z.lnot m)) w.
Proof.
  intros [Hw0 Hw] Hm. split.
  - split; [apply Z.land_nonneg; by left|].
    eapply Z.le_lt_trans; [|done]. rewrite <-Z.ldiff_land. apply Z.ldiff_le; [done|].
    apply Z.bits_inj'. intros i Hi. rewrite !Z.ldiff_spec, Z.bits_0.
    by destruct (Z.testbit w i), (Z.testbit m i).
  - intros i Hi. rewrite Z.land_spec. by intros [? _]%andb_true_iff.
Qed.

(** ** The word-wise scan of [check_chunk_range] is the bit-wise one *)

(** Bit [i] as seen through the loads of a scan. *)
Definition load_bit (load : Z → option Z) (i : Z) : bool :=
  match load (i / 64) with Some w => Z.testbit w (i mod 64) | None => false end.

Definition loads_ok (load : Z → option Z) (lo hi : Z) : Prop :=
  ∀ w, lo ≤ w < hi → ∃ v, load w = Some v ∧ is_word v.

Lemma scan_word load w v lo hi : load w = Some v → 0 ≤ lo → hi ≤ 64 →
  forallb (λ b, Z.testbit v b) (zrange lo hi) =
  forallb (load_bit load) (zrange (64 * w + lo) (64 * w + hi)).
Proof.
  intros Hv Hlo Hhi. apply eq_true_iff_eq. rewrite !forallb_elem.
  setoid_rewrite elem_of_zrange. unfold load_bit. split.
  - intros Hall i Hi. replace (i / 64) with w by (Z.div_mod_to_equations; lia).
    rewrite Hv. apply Hall. Z.div_mod_to_equations; lia.
  - intros Hall b Hb. specialize (Hall (64 * w + b) ltac:(lia)).
    replace ((64 * w + b) / 64) with w in Hall by (Z.div_mod_to_equations; lia).
    rewrite Hv in Hall. replace ((64 * w + b) mod 64) with b in Hall; [done|].
    Z.div_mod_to_equations; lia.
Qed.

Lemma scan_middle_words load a n : loads_ok load a (a + Z.of_nat n) →
  forall_opt (middle_word_full load) (zrange a (a + Z.of_nat n)) =
  Some (forallb (load_bit load) (zrange (64 * a) (64 * (a + Z.of_nat n)))).
Proof.
  revert a. induction n as [|n IH]; intros a Hok.
  { by rewrite !zrange_nil by lia. }
  rewrite zrange_cons by lia. cbn [forall_opt].
  destruct (Hok a ltac:(lia)) as (v & Hv & Hw).
  replace (middle_word_full load a) with (Some (v =? UINT64_MAX))
    by (unfold middle_word_full; by rewrite Hv).
  cbn [mbind option_bind].
  rewrite word_full, (scan_word load a v 0 64) by (done || lia).
  rewrite (zrange_app (64 * a) (64 * a + 64)) by lia. rewrite forallb_app, Z.add_0_r.
  replace (a + Z.of_nat (S n)) with (a + 1 + Z.of_nat n) in * by lia.
  rewrite IH by (intros w Hw'; apply Hok; lia).
  replace (64 * (a + 1)) with (64 * a + 64) by lia.
  by destruct (forallb _ (zrange (64 * a) _)).
Qed.

(** A scan of a non-empty range whose words all load reads exactly its bits. *)
Lemma check_chunk_range_eq load s e : 0 ≤ s < e → e < 4294967296 →
  loads_ok load (s / 64) ((e - 1) / 64 + 1) →
  check_chunk_range load s e = Some (forallb (load_bit load) (zrange s e)).
Proof.
  intros Hse He Hok. unfold check_chunk_range, get_bit_position.
  rewrite u32_small by lia.
  pose proof (Z.div_mod s 64 ltac:(lia)). pose proof (Z.mod_pos_bound s 64 ltac:(lia)).
  pose proof (Z.div_mod (e - 1) 64 ltac:(lia)).
  pose proof (Z.mod_pos_bound (e - 1) 64 ltac:(lia)).
  set (sw := s / 64) in *. set (sb := s mod 64) in *.
  set (ew := (e - 1) / 64) in *. set (eb := (e - 1) mod 64) in *.
  destruct (Hok sw ltac:(lia)) as (v & Hv & _).
  destruct (Hok ew ltac:(lia)) as (u & Hu & _).
  case_bool.
  { rewrite Hv. cbn [mbind option_bind].
    rewrite land_range_mask, (scan_word load sw) by (done || lia).
    do 3 f_equal; lia. }
  rewrite Hv. cbn [mbind option_bind].
  rewrite land_range_mask, (scan_word load sw) by (done || lia).
  rewrite (zrange_app s (64 * sw + 64)) by lia.
  rewrite (zrange_app (64 * sw + 64) (64 * ew)) by lia.
  replace (64 * sw + sb) with s by lia. rewrite !forallb_app.
  destruct (forallb _ (zrange s _)); simpl; [|done].
  replace ew with (sw + 1 + Z.of_nat (Z.to_nat (ew - (sw + 1)))) at 1 by lia.
  rewrite scan_middle_words by (intros w Hw; apply Hok; lia).
  replace (sw + 1 + Z.of_nat (Z.to_nat (ew - (sw + 1)))) with ew by lia.
  replace (64 * (sw + 1)) with (64 * sw + 64) by lia. cbn [mbind option_bind].
  destruct (forallb _ (zrange (64 * sw + 64) _)); simpl; [|done].
  rewrite Hu. simpl. rewrite land_range_mask, (scan_word load ew) by (done || lia).
  do 3 f_equal; lia.
Qed.

Lemma loads_ok_backend b s e : wf_backend b → 0 ≤ s < e → e ≤ bb_total_packets b →
  loads_ok (atomic_load (bb_words b)) (s / 64) ((e - 1) / 64 + 1).
Proof.
  intros Hwf Hs He w Hw.
  pose proof (word_in_words b (e - 1) Hwf ltac:(lia)).
  pose proof (Z.div_pos s 64).
  destruct (atomic_load_Some (bb_words b) w) as (v & Hv & Hl); [lia|].
  exists v. split; [done|]. destruct Hwf. by eapply Forall_lookup_1.
Qed.

Lemma chunk_bounds_eq b c : wf_backend b → chunk_in_range b c →
  chunk_bounds b c = (c * bb_packets_per_chunk b,
    Z.min ((c + 1) * bb_packets_per_chunk b) (bb_total_packets b)).
Proof.
  intros [? ? _ _] [Hc0 Hc]. unfold chunk_bounds.
  assert (0 ≤ c * bb_packets_per_chunk b) by nia.
  rewrite (u32_small (c * _)) by lia. rewrite u32_small by lia.
  f_equal. case_bool; lia.
Qed.

Lemma backend_is_chunk_complete_eq b c : wf_backend b → chunk_in_range b c →
  backend_is_chunk_complete b c = Some (chunk_received b c).
Proof.
  intros Hwf Hc. unfold backend_is_chunk_complete. rewrite chunk_bounds_eq by done.
  pose proof Hwf as [Ht Hp _ _]. destruct Hc as [Hc0 Hc].
  rewrite check_chunk_range_eq; [|nia|lia|apply loads_ok_backend; [done|nia|lia]].
  f_equal. apply forallb_ext. intros p Hin.
  unfold chunk_packets in Hin. rewrite elem_of_zrange in Hin.
  unfold load_bit, received, bit_at, atomic_load.
  replace (0 <=? p) with true by (symmetry; apply Z.leb_le; nia).
  by replace (p <? bb_total_packets b) with true by (symmetry; apply Z.ltb_lt; lia).
Qed.

Lemma chunk_received_le b b' c : backend_le b b' →
  chunk_received b c = true → chunk_received b' c = true.
Proof.
  intros (Ht & Hp & Hr). unfold chunk_received, chunk_packets. rewrite Ht, Hp, !forallb_elem.
  auto.
Qed.

(** The loads of a scan are stale when each word has only bits that the bitmap
    has now. *)
Definition stale_load (b : BackendBitmap) (load : Z → option Z) : Prop :=
  ∀ w cur, atomic_load (bb_words b) w = Some cur →
    ∃ old, load w = Some old ∧ is_word old ∧ word_le old cur.

(** A scan over stale loads answers, and its "complete" holds now. *)
Lemma stale_scan b c load : wf_backend b → chunk_in_range b c → stale_load b load →
  ∃ r, (let '(s, e) := chunk_bounds b c in check_chunk_range load s e) = Some r ∧
    (r = true → chunk_received b c = true).
Proof.
  intros Hwf Hc Hold. rewrite chunk_bounds_eq by done.
  pose proof Hwf as [Ht Hp _ _]. destruct Hc as [Hc0 Hc].
  assert (loads_ok load (c * bb_packets_per_chunk b / 64)
    ((Z.min ((c + 1) * bb_packets_per_chunk b) (bb_total_packets b) - 1) / 64 + 1)) as Hok.
  { intros w Hw. eapply loads_ok_backend in Hw as (cur & Hcur & _); [|done|nia|lia].
    destruct (Hold w cur Hcur) as (old & ? & ? & _). eauto. }
  rewrite check_chunk_range_eq by (done || nia || lia). eexists. split; [done|].
  intros Hall. unfold chunk_received. rewrite forallb_elem in Hall |- *. intros p Hin.
  specialize (Hall p Hin). unfold chunk_packets in Hin. rewrite elem_of_zrange in Hin.
  assert (0 ≤ p < bb_total_packets b) as Hpr by (clear - Hin Hc0 Hp; nia).
  unfold load_bit in Hall. unfold received, bit_at.
  destruct (atomic_load_Some (bb_words b) (p / 64)) as (cur & Hl & Hw);
    [by apply word_in_words|].
  destruct (Hold _ _ Hl) as (old & Hlo & _ & Hle). rewrite Hlo in Hall. rewrite Hw.
  rewrite (Hle _ (proj1 (Z.mod_pos_bound p 64 ltac:(lia))) Hall).
  rewrite andb_true_r, andb_true_iff, Z.leb_le, Z.ltb_lt. done.
Qed.

Lemma elem_of_received_set b p : p ∈ received_set b ↔ received b p = true.
Proof.
  unfold received_set. rewrite elem_of_list_to_set, elem_of_filter_bool.
  rewrite elem_of_zrange. unfold received. rewrite !andb_true_iff, Z.leb_le, Z.ltb_lt. tauto.
Qed.

Lemma get_total_packets_received_eq b : wf_backend b →
  get_total_packets_received b = Some (Z.of_nat (size (received_set b))).
Proof.
  intros Hwf. unfold get_total_packets_received.
  rewrite (count_if_total _ (received b)).
  - f_equal. unfold received_set. rewrite size_list_to_set; [done|].
    apply NoDup_ListNoDup, List.NoDup_filter, NoDup_ListNoDup, NoDup_zrange.
  - intros p Hp. rewrite elem_of_zrange in Hp. apply is_packet_received_eq; [done|lia].
Qed.

Lemma record_arrivals_spec b offsets : wf_backend b → Forall (λ o, 0 ≤ o) offsets →
  ∃ answers b', record_arrivals b offsets = Some (answers, b') ∧
    wf_backend b' ∧ backend_le b b' ∧
    (∀ q, received b' q = true ↔
      received b q = true ∨ (q ∈ offsets ∧ q < bb_total_packets b)) ∧
    (length (List.filter id answers) + size (received_set b) =
      size (received_set b'))%nat.
Proof.
  intros Hwf Hpos. revert b Hwf. induction Hpos as [|o offsets Ho _ IH]; intros b Hwf.
  { exists [], b. split_and!; try done. set_solver. }
  destruct (set_packet_received_eq b o Hwf Ho) as (b1 & Hset & Hwf1 & Ht & Hp & Hr).
  destruct (IH b1 Hwf1) as (answers & b' & Hrec & Hwf' & Hle & Hiff & Hsize).
  assert (backend_le b b1) as Hle1 by (split_and!; [done..|intros q Hq; rewrite Hr, Hq; apply orb_true_r]).
  cbn [record_arrivals]. rewrite Hset. cbn [mbind option_bind]. rewrite Hrec.
  do 2 eexists. split; [done|]. split; [done|]. split; [by etrans|]. split.
  - intros q. rewrite Hiff, Hr, orb_true_iff, andb_true_iff, Z.ltb_lt, Z.eqb_eq, Ht.
    rewrite elem_of_cons. naive_solver.
  - set (fresh := (o <? bb_total_packets b) && negb (received b o)).
    assert (received_set b1 = if fresh then {[o]} ∪ received_set b else received_set b) as Hs.
    { apply set_eq. intros q. rewrite elem_of_received_set, Hr, orb_true_iff, andb_true_iff.
      rewrite Z.eqb_eq, <-elem_of_received_set. subst fresh.
      destruct (o <? bb_total_packets b); simpl; [|naive_solver].
      destruct (received b o) eqn:Hro; simpl; [|set_solver].
      rewrite <-elem_of_received_set in Hro. naive_solver. }
    rewrite <-Hsize, Hs. destruct fresh eqn:Hf; simpl; [|done].
    rewrite size_union, size_singleton; [simpl; lia|].
    subst fresh. apply andb_true_iff in Hf as [_ Hf]. rewrite negb_true_iff in Hf.
    intros q ->%elem_of_singleton. rewrite elem_of_received_set. congruence.
Qed.

(** ** Properties *)

(** C35: The word-at-a-time completeness test of a chunk ([is_chunk_complete] with
    [check_chunk_range]: first word, full middle words, last word) is defined
    and answers exactly whether every packet of the chunk has been received,
    for every chunk of the message, the short last one included. *)
Theorem chunk_scan_exact b c : wf_backend b → chunk_in_range b c →
  backend_is_chunk_complete b c =
    Some (forallb (received b) (chunk_packets b c)).
Proof. apply backend_is_chunk_complete_eq. Qed.

Definition example_backend : BackendBitmap :=
  match record_arrivals (make_backend 200 70) (zrange 60 195) with
  | Some (_, b) => b
  | None => make_backend 200 70
  end.

Lemma example_backend_wf : wf_backend example_backend.
Proof.
  unfold example_backend.
  destruct (record_arrivals_spec (make_backend 200 70) (zrange 60 195))
    as (a & b' & -> & Hwf & _); [apply make_backend_wf; lia| |done].
  apply Forall_forall. intros o. rewrite elem_of_zrange. lia.
Qed.

(** Packets 60..194 of 200 have arrived; chunk 1 is [70, 140). *)
Lemma chunk_scan_exact_witness :
  backend_is_chunk_complete example_backend 1 =
    Some (forallb (received example_backend) (chunk_packets example_backend 1)) ∧
  forallb (received example_backend) (chunk_packets example_backend 1) = true.
Proof.
  split; [|vm_compute; reflexivity].
  apply chunk_scan_exact; [apply example_backend_wf|].
  split; vm_compute; congruence.
Defined.

(** C36: [set_packet_received] implements insertion into the set of received
    packets: it is defined on every offset, returns true exactly when the
    offset is inside the message and was not in the set, adds exactly that
    packet, and [get_total_packets_received] is the size of the set. *)
Theorem set_packet_refines_insert b p : wf_backend b → 0 ≤ p →
  ∃ b', set_packet_received b p =
      Some (bool_decide (p < bb_total_packets b ∧ p ∉ received_set b), b') ∧
    wf_backend b' ∧
    received_set b' =
      (if decide (p < bb_total_packets b) then {[p]} else ∅) ∪ received_set b ∧
    get_total_packets_received b' = Some (Z.of_nat (size (received_set b'))).
Proof.
  intros Hwf Hp.
  destruct (set_packet_received_eq b p Hwf Hp) as (b' & Hset & Hwf' & _ & _ & Hr).
  exists b'. split_and!; [|done| |by apply get_total_packets_received_eq].
  - rewrite Hset. do 2 f_equal. case_bool_decide as Hd; rewrite elem_of_received_set in Hd;
    destruct (Z.ltb_spec p (bb_total_packets b)), (received b p); simpl; naive_solver lia.
  - apply set_eq. intros q. rewrite elem_of_received_set, Hr, orb_true_iff, andb_true_iff.
    rewrite Z.eqb_eq, Z.ltb_lt, <-elem_of_received_set. case_decide; set_solver.
Qed.

Lemma set_packet_refines_insert_witness :
  0 ≤ 63 ∧ ∃ b', set_packet_received (make_backend 100 10) 63 = Some (true, b') ∧
    63 ∈ received_set b'.
Proof.
  split; [lia|].
  destruct (set_packet_refines_insert (make_backend 100 10) 63) as (b' & H & _ & Hs & _);
    [apply make_backend_wf; lia|lia|].
  exists b'. split; [exact H|]. rewrite Hs. rewrite decide_True by (simpl; lia). set_solver.
Defined.

(** However packets are lost, duplicated or reordered, each in-range packet
    is reported as new by exactly one of its arrivals: over any sequence of
    offsets, the [true] answers number the distinct in-range packets, and the
    final count of [get_total_packets_received] is that number. *)
Theorem arrivals_counted_once total ppc offsets :
  0 ≤ total ≤ 4294967296 - 65536 → 0 < ppc < 65536 → Forall (λ o, 0 ≤ o) offsets →
  ∃ answers b, record_arrivals (make_backend total ppc) offsets = Some (answers, b) ∧
    received_set b = list_to_set (List.filter (λ o, o <? total) offsets) ∧
    get_total_packets_received b = Some (Z.of_nat (length (List.filter id answers))).
Proof.
  intros Ht Hp Hpos. pose proof (make_backend_wf total ppc Ht Hp) as Hwf.
  destruct (record_arrivals_spec _ offsets Hwf Hpos)
    as (answers & b & Hrec & Hwf' & _ & Hiff & Hsize).
  assert (received_set (make_backend total ppc) = ∅) as H0.
  { apply set_eq. intros q. rewrite elem_of_received_set, make_backend_received. set_solver. }
  exists answers, b. split_and!; [done| |].
  - apply set_eq. intros q. rewrite elem_of_received_set, Hiff, make_backend_received.
    rewrite elem_of_list_to_set, elem_of_filter_bool, Z.ltb_lt.
    simpl. naive_solver.
  - rewrite get_total_packets_received_eq by done. rewrite <-Hsize, H0, size_empty. do 2 f_equal. lia.
Qed.

Lemma arrivals_counted_once_witness :
  Forall (λ o, 0 ≤ o) [5; 2; 5; 9; 2; 100] ∧
  ∃ answers b, record_arrivals (make_backend 10 4) [5; 2; 5; 9; 2; 100] = Some (answers, b) ∧
    get_total_packets_received b = Some (Z.of_nat (length (List.filter id answers))) ∧
    answers = [true; true; false; true; false; false].
Proof.
  assert (Forall (λ o, 0 ≤ o) [5; 2; 5; 9; 2; 100]) as Hpos by (repeat constructor; lia).
  split; [exact Hpos|].
  destruct (arrivals_counted_once 10 4 _ ltac:(lia) ltac:(lia) Hpos) as (a & b & H & _ & Hc).
  exists a, b. split; [exact H|]. split; [exact Hc|].
  vm_compute in H. by injection H as <- _.
Defined.

(** A completeness scan that runs while other threads set bits is sound: if
    each word it loads had, when it was loaded, only bits that the bitmap has
    now, and the scan says complete, then every packet of the chunk has been
    received by now.  (Bits are never cleared, so any interleaving of the
    scan's loads with [fetch_or]s is of this kind.) *)
Theorem concurrent_scan_sound b c load : wf_backend b → chunk_in_range b c →
  (∀ w cur, atomic_load (bb_words b) w = Some cur →
    ∃ old, load w = Some old ∧ is_word old ∧ word_le old cur) →
  (let '(s, e) := chunk_bounds b c in check_chunk_range load s e) = Some true →
  forallb (received b) (chunk_packets b c) = true.
Proof.
  intros Hwf Hc Hold Hs. destruct (stale_scan b c load Hwf Hc Hold) as (r & Hr & Hsound).
  rewrite Hr in Hs. injection Hs as ->. by apply Hsound.
Qed.

(** The scan loaded the words of [example_backend]'s past, in which packet 194
    was still missing. *)
Lemma concurrent_scan_sound_witness :
  let load w := option_map (λ v, Z.land v (Z.lnot (if w =? 3 then 4 else 0)))
                  (atomic_load (bb_words example_backend) w) in
  forallb (received example_backend) (chunk_packets example_backend 1) = true ∧
  load 3 = Some 3.
Proof.
  intros load. split; [|vm_compute; reflexivity].
  apply (concurrent_scan_sound example_backend 1 load);
    [apply example_backend_wf|split; vm_compute; congruence| |vm_compute; reflexivity].
  intros w cur Hcur. exists (Z.land cur (Z.lnot (if w =? 3 then 4 else 0))).
  split; [unfold load; rewrite Hcur; reflexivity|].
  apply masked_word_stale; [|destruct (w =? 3); lia].
  exact (Forall_lookup_1 _ _ _ _ (wfb_words _ example_backend_wf) Hcur).
Defined.

(** [get_chunk_packet_count] is defined on every chunk of the message, is at
    most the chunk's size, and reaches it exactly when [is_chunk_complete]
    answers true: the receiver's per-chunk progress display and its
    completeness test cannot disagree. *)
Theorem chunk_count_bound b c : wf_backend b → chunk_in_range b c →
  ∃ n, get_chunk_packet_count b c = Some n ∧
    0 ≤ n ≤ Z.of_nat (length (chunk_packets b c)) ≤ bb_packets_per_chunk b ∧
    (n = Z.of_nat (length (chunk_packets b c)) ↔ backend_is_chunk_complete b c = Some true).
Proof.
  intros Hwf Hc. exists (Z.of_nat (length (List.filter (received b) (chunk_packets b c)))).
  unfold get_chunk_packet_count. rewrite backend_is_chunk_complete_eq, chunk_bounds_eq by done.
  split_and!.
  - apply count_if_total. intros p Hp. unfold chunk_packets in Hp.
    rewrite elem_of_zrange in Hp. destruct Hwf, Hc. apply is_packet_received_eq; [by constructor|nia].
  - lia.
  - pose proof (List.filter_length_le (received b) (chunk_packets b c)). lia.
  - unfold chunk_packets. rewrite length_zrange. destruct Hwf, Hc. nia.
  - unfold chunk_received. rewrite Nat2Z.inj_iff, filter_length_all.
    split; [by intros ->|by intros [= ->]].
Qed.

Lemma chunk_count_bound_witness :
  ∃ n, get_chunk_packet_count example_backend 0 = Some n ∧ n = 10 ∧
    0 ≤ n ≤ Z.of_nat (length (chunk_packets example_backend 0)).
Proof.
  destruct (chunk_count_bound example_backend 0) as (n & Hn & Hb & _);
    [apply example_backend_wf|split; vm_compute; congruence|].
  exists n. split; [exact Hn|]. split; [|lia].
  vm_compute in Hn. by injection Hn as <-.
Defined.

(** For a chunk number past the last chunk, the clamped range is empty and
    the scan can answer "complete" although no packet has been received: the
    backend's test is meaningful only for the chunks of the message. *)
Theorem chunk_past_end_reported_complete total ppc c :
  0 < ppc → 0 < total ≤ c * ppc → c * ppc < 64 →
  backend_is_chunk_complete (make_backend total ppc) c = Some true ∧
  ∀ p, received (make_backend total ppc) p = false.
Proof.
  intros Hp Ht Hcp. split; [|apply make_backend_received].
  assert (0 < c) by nia. assert (ppc < 64) by nia.
  assert ((total + 63) / 64 = 1) as Hn by (Z.div_mod_to_equations; lia).
  unfold backend_is_chunk_complete, chunk_bounds, check_chunk_range, get_bit_position.
  cbn [make_backend bb_packets_per_chunk bb_total_packets bb_words].
  rewrite !(u32_small (c * ppc)), !(u32_small (c * ppc + ppc)), (u32_small (total + 63)) by lia.
  replace (c * ppc + ppc >? total) with true by (symmetry; apply Z.gtb_lt; lia).
  rewrite (u32_small (total - 1)), Hn, !Z.div_small, !Z.mod_small, Z.eqb_refl by lia.
  unfold range_mask. by rewrite zrange_nil by lia.
Qed.

Lemma chunk_past_end_reported_complete_witness :
  backend_is_chunk_complete (make_backend 10 4) 3 = Some true ∧
  ∀ p, received (make_backend 10 4) p = false.
Proof. apply (chunk_past_end_reported_complete 10 4 3); lia. Defined.
