(* ===== verification/Frontend.v ===== *)
(** * Chunk bitmap and its poller (include/sdr_frontend.h)

    [FrontendBitmap]: one bit per chunk, set by the polling thread when the
    backend reports the chunk complete.  The frontend uses its backend only
    through [is_chunk_complete] and [get_packets_per_chunk]; that contract is
    the class [ChunkSource], its laws [ChunkSourceOk], and [BackendBitmap] is
    an instance.  The backend is shared ([shared_ptr]) with the UDP workers, so
    every operation takes the backend it sees. *)

From S2P Require Import Prelude Bits Backend.

(** ** What the frontend needs of a backend *)

Class ChunkSource (B : Type) := {
  src_is_chunk_complete : B → Z → option bool;
  src_packets_per_chunk : B → Z
}.

Class ChunkSourceOk (B : Type) `{!ChunkSource B} := {
  src_wf : B → Prop;
  src_in_range : B → Z → Prop;
  src_complete : B → Z → bool;
  src_le : B → B → Prop;
  src_is_chunk_complete_eq b c :
    src_wf b → src_in_range b c → src_is_chunk_complete b c = Some (src_complete b c);
  src_complete_mono b b' c :
    src_le b b' → src_complete b c = true → src_complete b' c = true;
  src_le_trans b1 b2 b3 : src_le b1 b2 → src_le b2 b3 → src_le b1 b3
}.

#[export] Instance backend_source : ChunkSource BackendBitmap := {|
  src_is_chunk_complete := backend_is_chunk_complete;
  src_packets_per_chunk := bb_packets_per_chunk
|}.

#[export] Instance backend_source_ok : ChunkSourceOk BackendBitmap := {|
  src_wf := wf_backend;
  src_in_range := chunk_in_range;
  src_complete := chunk_received;
  src_le := backend_le;
  src_is_chunk_complete_eq := backend_is_chunk_complete_eq;
  src_complete_mono := chunk_received_le;
  src_le_trans b1 b2 b3 := @transitivity _ _ _ b1 b2 b3
|}.

(** ** The frontend *)

Record FrontendBitmap : Set := mkFrontend {
  fb_words : list Z;              (* chunk_bitmap_ *)
  fb_num_words : Z;               (* num_words_ *)
  fb_total_chunks : Z;            (* total_chunks_ *)
  fb_packets_per_chunk : Z;       (* packets_per_chunk_ *)
  fb_joinable : bool;             (* poller_thread_.joinable() *)
  fb_should_stop : bool;          (* should_stop_ *)
  fb_poll_interval_us : Z         (* poll_interval_us_ *)
}.

Definition fb_with_words (fb : FrontendBitmap) (ws : list Z) : FrontendBitmap :=
  mkFrontend ws (fb_num_words fb) (fb_total_chunks fb) (fb_packets_per_chunk fb)
    (fb_joinable fb) (fb_should_stop fb) (fb_poll_interval_us fb).

Definition frontend_is_chunk_complete (fb : FrontendBitmap) (chunk_id : Z) : option bool :=
  if chunk_id >=? fb_total_chunks fb then Some false else
  let word_idx := chunk_id / 64 in
  let bit_pos := chunk_id mod 64 in
  let mask := bit_mask bit_pos in
  value ← atomic_load (fb_words fb) word_idx;
  Some (negb (Z.land value mask =? 0)).

Definition get_total_chunks_completed (fb : FrontendBitmap) : option Z :=
  count_if (frontend_is_chunk_complete fb) (zrange 0 (fb_total_chunks fb)).

Definition start_polling (fb : FrontendBitmap) (poll_interval_us : Z) : bool * FrontendBitmap :=
  if fb_joinable fb then (false, fb) else
  (true, mkFrontend (fb_words fb) (fb_num_words fb) (fb_total_chunks fb)
           (fb_packets_per_chunk fb) true false poll_interval_us).

Definition stop_polling (fb : FrontendBitmap) : FrontendBitmap :=
  if negb (fb_joinable fb) then fb else
  mkFrontend (fb_words fb) (fb_num_words fb) (fb_total_chunks fb)
    (fb_packets_per_chunk fb) false true (fb_poll_interval_us fb).

Section Frontend.
Context {B : Type} `{!ChunkSource B}.

Definition make_frontend (backend : option B) (total_chunks : Z) : FrontendBitmap :=
  let num_words := (total_chunks +u32 63) / 64 in
  mkFrontend (zero_words num_words) num_words total_chunks
    (match backend with Some b => src_packets_per_chunk b | None => 0 end)
    false false 100.

Definition check_and_set_chunk (backend : B) (fb : FrontendBitmap) (chunk_id : Z)
    : option (bool * FrontendBitmap) :=
  already ← frontend_is_chunk_complete fb chunk_id;
  if already : bool then Some (true, fb) else
  complete ← src_is_chunk_complete backend chunk_id;
  if negb complete then Some (false, fb) else
  let word_idx := chunk_id / 64 in
  let bit_pos := chunk_id mod 64 in
  let mask := bit_mask bit_pos in
  '(old_value, ws) ← atomic_fetch_or (fb_words fb) word_idx mask;
  Some (Z.land old_value mask =? 0, fb_with_words fb ws).

Definition update_step (backend : B) (fb : FrontendBitmap) (chunk_id : Z)
    : option FrontendBitmap :=
  '(_, fb) ← check_and_set_chunk backend fb chunk_id; Some fb.

Definition update_chunk_bitmap (backend : option B) (fb : FrontendBitmap)
    : option FrontendBitmap :=
  match backend with
  | None => Some fb
  | Some b => foldl_opt (update_step b) fb (zrange 0 (fb_total_chunks fb))
  end.

Definition poll_once (backend : option B) (fb : FrontendBitmap) : option FrontendBitmap :=
  update_chunk_bitmap backend fb.

(** [polling_thread_func]: one element per test of the loop condition, the value
    of [should_stop_] it reads and the backend during that round. *)
Fixpoint polling_thread_func (rounds : list (bool * option B)) (fb : FrontendBitmap)
    : option FrontendBitmap :=
  match rounds with
  | [] => Some fb
  | (should_stop, backend) :: rounds =>
      if should_stop : bool then Some fb else
      fb ← update_chunk_bitmap backend fb;
      polling_thread_func rounds fb
  end.

End Frontend.

(** ** What the bitmap stands for *)

Definition marked (fb : FrontendBitmap) (c : Z) : bool :=
  (0 <=? c) && (c <? fb_total_chunks fb) && bit_at (fb_words fb) c.

Record wf_frontend (fb : FrontendBitmap) : Prop := {
  wff_total : 0 ≤ fb_total_chunks fb ≤ 4294967296 - 65536;
  wff_len : Z.of_nat (length (fb_words fb)) = (fb_total_chunks fb + 63) / 64;
  wff_words : wf_words (fb_words fb)
}.

(** ** Lemmas *)

Lemma make_frontend_wf {B} `{!ChunkSource B} (b : option B) total :
  0 ≤ total ≤ 4294967296 - 65536 → wf_frontend (make_frontend b total).
Proof.
  intros Ht. constructor; simpl; [done| |apply wf_zero_words].
  unfold zero_words. rewrite length_replicate, u32_small by lia.
  pose proof (Z.div_pos (total + 63) 64). lia.
Qed.

Lemma make_frontend_marked {B} `{!ChunkSource B} (b : option B) total c :
  marked (make_frontend b total) c = false.
Proof. unfold marked. simpl. rewrite bit_at_zero. apply andb_false_r. Qed.

Lemma marked_range fb c : marked fb c = true → 0 ≤ c < fb_total_chunks fb.
Proof. unfold marked. rewrite !andb_true_iff, Z.leb_le, Z.ltb_lt. tauto. Qed.

Lemma chunk_in_words fb c : wf_frontend fb → 0 ≤ c < fb_total_chunks fb →
  c < 64 * Z.of_nat (length (fb_words fb)).
Proof. intros [? Hlen _] Hc. rewrite Hlen. Z.div_mod_to_equations. lia. Qed.

Lemma frontend_is_chunk_complete_eq fb c : wf_frontend fb → 0 ≤ c →
  frontend_is_chunk_complete fb c = Some (marked fb c).
Proof.
  intros Hwf Hc. unfold frontend_is_chunk_complete, marked.
  rewrite (proj2 (Z.leb_le 0 c) Hc). case_bool; simpl.
  - by rewrite (proj2 (Z.ltb_ge _ _)) by lia.
  - rewrite (proj2 (Z.ltb_lt _ _)) by lia.
    pose proof (chunk_in_words fb c Hwf ltac:(lia)).
    destruct (atomic_load_Some (fb_words fb) (c / 64)) as (w & Hw & _).
    { split; [apply Z.div_pos; lia|apply Z.div_lt_upper_bound; lia]. }
    rewrite Hw. simpl. by rewrite (load_bit_at _ _ _ Hw).
Qed.

Lemma get_total_chunks_completed_eq fb : wf_frontend fb →
  get_total_chunks_completed fb =
    Some (Z.of_nat (length (List.filter (marked fb) (zrange 0 (fb_total_chunks fb))))).
Proof.
  intros Hwf. apply count_if_total. intros c Hc. rewrite elem_of_zrange in Hc.
  apply frontend_is_chunk_complete_eq; [done|lia].
Qed.

(** The count reaches the number of chunks exactly when all are marked. *)
Lemma completed_count_all fb : wf_frontend fb →
  ∃ n, get_total_chunks_completed fb = Some n ∧ 0 ≤ n ≤ fb_total_chunks fb ∧
    (fb_total_chunks fb ≤ n ↔ ∀ c, 0 ≤ c < fb_total_chunks fb → marked fb c = true).
Proof.
  intros Hwf. pose proof (wff_total _ Hwf) as Ht.
  eexists. split; [by apply get_total_chunks_completed_eq|].
  pose proof (List.filter_length_le (marked fb) (zrange 0 (fb_total_chunks fb))) as Hle.
  pose proof (filter_length_all (marked fb) (zrange 0 (fb_total_chunks fb))) as Hall.
  rewrite length_zrange in Hle, Hall. split; [lia|]. rewrite forallb_elem in Hall.
  split.
  - intros Hn c Hc. apply (proj1 Hall); [lia|]. by apply elem_of_zrange.
  - intros Hm. enough (length (List.filter (marked fb) (zrange 0 (fb_total_chunks fb))) =
      Z.to_nat (fb_total_chunks fb - 0)) by lia.
    apply Hall. intros c Hc. apply Hm. by apply elem_of_zrange.
Qed.

(** [fb'] is [fb] with more bits. *)
Record frontend_same_shape (fb fb' : FrontendBitmap) : Prop := {
  fss_total : fb_total_chunks fb' = fb_total_chunks fb;
  fss_joinable : fb_joinable fb' = fb_joinable fb;
  fss_stop : fb_should_stop fb' = fb_should_stop fb
}.

#[export] Instance frontend_same_shape_preorder : PreOrder frontend_same_shape.
Proof.
  split; [intros ?; by constructor|].
  intros a b c [] []. constructor; congruence.
Qed.

Section FrontendLemmas.
Context {B : Type} `{!ChunkSource B} `{!ChunkSourceOk B}.
Implicit Types b : B.

Lemma check_and_set_chunk_eq b fb c : src_wf b → wf_frontend fb →
  0 ≤ c < fb_total_chunks fb → src_in_range b c →
  ∃ fb', check_and_set_chunk b fb c = Some (marked fb c || src_complete b c, fb') ∧
    wf_frontend fb' ∧ frontend_same_shape fb fb' ∧
    ∀ d, marked fb' d = ((d =? c) && src_complete b c) || marked fb d.
Proof.
  intros Hb Hwf Hc Hr. unfold check_and_set_chunk.
  rewrite frontend_is_chunk_complete_eq by (done || lia). cbn [mbind option_bind].
  destruct (marked fb c) eqn:Hm.
  { exists fb. split_and!; try done. intros d.
    destruct (Z.eqb_spec d c) as [->|]; [rewrite Hm; by rewrite orb_true_r|done]. }
  rewrite src_is_chunk_complete_eq by done. cbn [mbind option_bind].
  destruct (src_complete b c); cbn [negb orb].
  2: { exists fb. split_and!; try done. intros d. by rewrite andb_false_r. }
  destruct (fetch_or_bit (fb_words fb) c) as (old & ws & Hf & Hold & Hlen & Hws & Hbits).
  { split; [lia|]. by apply chunk_in_words. }
  { by destruct Hwf. }
  rewrite Hf. cbn [mbind option_bind]. rewrite Hold.
  exists (fb_with_words fb ws). split_and!.
  - do 2 f_equal. unfold marked in Hm.
    rewrite (proj2 (Z.leb_le 0 c)), (proj2 (Z.ltb_lt c _)) in Hm by lia. simpl in Hm.
    by rewrite Hm.
  - destruct Hwf. constructor; simpl; try done. by rewrite Hlen.
  - by constructor.
  - intros d. unfold marked. simpl. rewrite andb_true_r.
    destruct (Z.leb_spec 0 d); simpl.
    + rewrite Hbits by done. destruct (Z.eqb_spec d c) as [->|]; simpl; [|done].
      by rewrite (proj2 (Z.ltb_lt c _)) by lia.
    + destruct (Z.eqb_spec d c); [lia|done].
Qed.

Lemma update_step_eq b fb c : src_wf b → wf_frontend fb →
  0 ≤ c < fb_total_chunks fb → src_in_range b c →
  ∃ fb', update_step b fb c = Some fb' ∧ wf_frontend fb' ∧ frontend_same_shape fb fb' ∧
    ∀ d, marked fb' d = ((d =? c) && src_complete b c) || marked fb d.
Proof.
  intros Hb Hwf Hc Hr. unfold update_step.
  destruct (check_and_set_chunk_eq b fb c Hb Hwf Hc Hr) as (fb' & -> & ?). by exists fb'.
Qed.

(** The loop of [update_chunk_bitmap] after [n] rounds. *)
Lemma update_loop_eq b fb n : src_wf b → wf_frontend fb →
  Z.of_nat n ≤ fb_total_chunks fb → (∀ c, 0 ≤ c < Z.of_nat n → src_in_range b c) →
  ∃ fb', foldl_opt (update_step b) fb (zrange 0 (Z.of_nat n)) = Some fb' ∧
    wf_frontend fb' ∧ frontend_same_shape fb fb' ∧
    ∀ d, marked fb' d =
      ((0 <=? d) && (d <? Z.of_nat n) && src_complete b d) || marked fb d.
Proof.
  intros Hb Hwf. induction n as [|n IH]; intros Hn Hr.
  { exists fb. split_and!; try done. intros d.
    replace ((0 <=? d) && (d <? Z.of_nat 0)) with false; [done|].
    symmetry. rewrite andb_false_iff, Z.leb_gt, Z.ltb_ge. lia. }
  destruct IH as (fb1 & Hl & Hwf1 & Hs1 & Hm1); [lia|intros; apply Hr; lia|].
  replace (Z.of_nat (S n)) with (Z.of_nat n + 1) by lia.
  rewrite zrange_snoc, foldl_opt_app by lia. rewrite Hl. cbn [mbind option_bind].
  destruct (update_step_eq b fb1 (Z.of_nat n)) as (fb2 & Hst & Hwf2 & Hs2 & Hm2);
    [done|done|rewrite (fss_total _ _ Hs1); lia|apply Hr; lia|].
  cbn [foldl_opt]. rewrite Hst. cbn [mbind option_bind].
  exists fb2. split_and!; [done|done|by etrans|]. intros d. rewrite Hm2, Hm1.
  destruct (Z.eqb_spec d (Z.of_nat n)) as [->|].
  - by rewrite Z.ltb_irrefl, (proj2 (Z.leb_le 0 _)), (proj2 (Z.ltb_lt (Z.of_nat n) _)) by lia.
  - by destruct (Z.leb_spec 0 d), (Z.ltb_spec d (Z.of_nat n)),
      (Z.ltb_spec d (Z.of_nat n + 1)); try lia.
Qed.

Lemma update_chunk_bitmap_eq b fb : src_wf b → wf_frontend fb →
  (∀ c, 0 ≤ c < fb_total_chunks fb → src_in_range b c) →
  ∃ fb', update_chunk_bitmap (Some b) fb = Some fb' ∧
    wf_frontend fb' ∧ frontend_same_shape fb fb' ∧
    ∀ c, 0 ≤ c < fb_total_chunks fb → marked fb' c = marked fb c || src_complete b c.
Proof.
  intros Hb Hwf Hr. unfold update_chunk_bitmap.
  pose proof (wff_total _ Hwf) as Ht.
  destruct (update_loop_eq b fb (Z.to_nat (fb_total_chunks fb)) Hb Hwf)
    as (fb' & Hl & Hwf' & Hs & Hm); [lia|intros; apply Hr; lia|].
  rewrite Z2Nat.id in Hl, Hm by lia. exists fb'. split_and!; try done.
  intros c Hc. rewrite Hm, (proj2 (Z.leb_le 0 c)), (proj2 (Z.ltb_lt c _)) by lia.
  apply orb_comm.
Qed.

End FrontendLemmas.

(** ** Completion of the message *)

(** Number of chunks of a message of [total_packets] packets. *)
Definition num_chunks (b : BackendBitmap) : Z :=
  (bb_total_packets b + bb_packets_per_chunk b - 1) / bb_packets_per_chunk b.

Lemma num_chunks_range b c : wf_backend b → 0 ≤ c →
  c < num_chunks b ↔ chunk_in_range b c.
Proof.
  intros [? ? _ _] Hc. unfold num_chunks, chunk_in_range.
  rewrite ceil_div_lt by lia. lia.
Qed.

Lemma all_chunks_all_packets b : wf_backend b →
  (∀ c, 0 ≤ c < num_chunks b → chunk_received b c = true) ↔
  (∀ p, 0 ≤ p < bb_total_packets b → received b p = true).
Proof.
  intros Hwf. pose proof Hwf as [Ht Hp _ _]. split.
  - intros Hall p Hpr.
    pose proof (Z.div_mod p (bb_packets_per_chunk b) ltac:(lia)).
    pose proof (Z.mod_pos_bound p (bb_packets_per_chunk b) ltac:(lia)).
    set (c := p / bb_packets_per_chunk b) in *.
    assert (0 ≤ c) by (apply Z.div_pos; lia).
    assert (chunk_received b c = true) as Hc.
    { apply Hall. split; [done|]. apply num_chunks_range; [done..|]. split; [done|nia]. }
    unfold chunk_received in Hc. rewrite forallb_elem in Hc. apply Hc.
    unfold chunk_packets. rewrite elem_of_zrange. nia.
  - intros Hall c Hc. unfold chunk_received. rewrite forallb_elem. intros p.
    unfold chunk_packets. rewrite elem_of_zrange. intros Hin. apply Hall. nia.
Qed.

(** Marks never run ahead of the backend. *)
Definition frontend_sound {B} `{!ChunkSource B} `{!ChunkSourceOk B}
    (b : B) (fb : FrontendBitmap) : Prop :=
  ∀ c, marked fb c = true → src_complete b c = true.

Lemma all_marked_all_received b fb : wf_backend b → fb_total_chunks fb = num_chunks b →
  frontend_sound b fb → (∀ c, 0 ≤ c < fb_total_chunks fb → marked fb c = true) →
  ∀ p, 0 ≤ p < bb_total_packets b → received b p = true.
Proof.
  intros Hb Ht Hs Hm. apply (all_chunks_all_packets b Hb).
  intros c Hc. apply Hs, Hm. by rewrite Ht.
Qed.

(** Backends seen by successive polls: each has the bits of the one before. *)
Inductive growing {B} `{!ChunkSource B} `{!ChunkSourceOk B} (total : Z) : B → list B → Prop :=
| growing_nil b : growing total b []
| growing_cons b b' bs :
    src_le b b' → src_wf b' → (∀ c, 0 ≤ c < total → src_in_range b' c) →
    growing total b' bs → growing total b (b' :: bs).

Section Polling.
Context {B : Type} `{!ChunkSource B} `{!ChunkSourceOk B}.
Implicit Types b : B.

Lemma update_chunk_bitmap_sound b fb : src_wf b → wf_frontend fb →
  (∀ c, 0 ≤ c < fb_total_chunks fb → src_in_range b c) → frontend_sound b fb →
  ∃ fb', update_chunk_bitmap (Some b) fb = Some fb' ∧
    wf_frontend fb' ∧ frontend_same_shape fb fb' ∧ frontend_sound b fb' ∧
    ∀ c, 0 ≤ c < fb_total_chunks fb → marked fb' c = src_complete b c.
Proof.
  intros Hb Hwf Hr Hsound.
  destruct (update_chunk_bitmap_eq b fb Hb Hwf Hr) as (fb' & Hu & Hwf' & Hs & Hm).
  assert (∀ c, 0 ≤ c < fb_total_chunks fb → marked fb' c = src_complete b c) as Hex.
  { intros c Hc. rewrite Hm by done. destruct (marked fb c) eqn:E; [|done].
    symmetry. by apply Hsound. }
  exists fb'. split_and!; try done. intros c Hc. rewrite <-Hex; [done|].
  rewrite <-(fss_total _ _ Hs). by apply marked_range.
Qed.

Lemma polling_thread_sound b0 bs fb stop : wf_frontend fb → frontend_sound b0 fb →
  growing (fb_total_chunks fb) b0 bs →
  ∃ fb', polling_thread_func (((λ b, (false, Some b)) <$> bs) ++ [(true, stop)]) fb = Some fb' ∧
    wf_frontend fb' ∧ frontend_same_shape fb fb' ∧
    frontend_sound (List.last bs b0) fb' ∧
    (bs ≠ [] → ∀ c, 0 ≤ c < fb_total_chunks fb →
      marked fb' c = src_complete (List.last bs b0) c).
Proof.
  revert b0 fb. induction bs as [|b bs IH]; intros b0 fb Hwf Hsound Hg.
  { exists fb. by split_and!. }
  inversion Hg as [|? ? ? Hle Hb Hr Hg']; subst.
  destruct (update_chunk_bitmap_sound b fb) as (fb1 & Hu & Hwf1 & Hs1 & Hsound1 & Hex1);
    [done..| |].
  { intros c Hc. eapply src_complete_mono; [done|]. by apply Hsound. }
  destruct (IH b fb1 Hwf1 Hsound1) as (fb' & Hp & Hwf' & Hs' & Hsound' & Hex');
    [by rewrite (fss_total _ _ Hs1)|].
  exists fb'. cbn [fmap list_fmap app polling_thread_func]. rewrite Hu. cbn [mbind option_bind].
  assert (List.last (b :: bs) b0 = List.last bs b) as Hlast.
  { destruct bs as [|b' bs]; [done|]. cbn [List.last].
    clear. revert b'. induction bs as [|b2 bs IH]; intros b'; [done|]. cbn [List.last]. apply IH. }
  rewrite Hlast. split_and!; [done|done|by etrans|done|].
  intros _ c Hc. destruct bs as [|b' bs].
  - cbn in Hp. injection Hp as <-. by apply Hex1.
  - apply Hex'; [done|]. by rewrite (fss_total _ _ Hs1).
Qed.

End Polling.

(** ** Properties *)

(** One polling cycle is exact: for every backend that keeps the [ChunkSource]
    contract, [update_chunk_bitmap] is defined, marks every chunk the backend
    reports complete, keeps every mark already there, and marks nothing else. *)
Theorem poll_marks_exactly {B} `{!ChunkSource B} `{!ChunkSourceOk B} (b : B) fb :
  src_wf b → wf_frontend fb → (∀ c, 0 ≤ c < fb_total_chunks fb → src_in_range b c) →
  ∃ fb', update_chunk_bitmap (Some b) fb = Some fb' ∧ wf_frontend fb' ∧
    ∀ c, 0 ≤ c < fb_total_chunks fb →
      frontend_is_chunk_complete fb' c = Some (marked fb c || src_complete b c).
Proof.
  intros Hb Hwf Hr. destruct (update_chunk_bitmap_eq b fb Hb Hwf Hr) as (fb' & ? & ? & _ & Hm).
  exists fb'. split_and!; [done|done|]. intros c Hc.
  rewrite frontend_is_chunk_complete_eq by (done || lia). by rewrite Hm.
Qed.

Lemma example_in_range c : 0 ≤ c < 3 → chunk_in_range example_backend c.
Proof.
  intros Hc. unfold chunk_in_range.
  replace (bb_packets_per_chunk example_backend) with 70 by (vm_compute; reflexivity).
  replace (bb_total_packets example_backend) with 200 by (vm_compute; reflexivity). lia.
Qed.

Lemma poll_marks_exactly_witness :
  ∃ fb', update_chunk_bitmap (Some example_backend)
      (make_frontend (Some example_backend) 3) = Some fb' ∧
    frontend_is_chunk_complete fb' 1 = Some true ∧
    frontend_is_chunk_complete fb' 2 = Some false.
Proof.
  destruct (poll_marks_exactly example_backend (make_frontend (Some example_backend) 3))
    as (fb' & Hu & _ & Hm);
    [apply example_backend_wf|apply make_frontend_wf; lia|apply example_in_range|].
  exists fb'. split; [exact Hu|].
  split; [rewrite (Hm 1) by (simpl; lia)|rewrite (Hm 2) by (simpl; lia)]; vm_compute; reflexivity.
Defined.

(** The polling thread neither invents nor loses a chunk: over any number of
    polls interleaved with a backend that only gains bits, when the thread
    stops every marked chunk is complete in the backend, and the marks are
    exactly the chunks complete at its last poll. *)
Theorem polling_thread_exact {B} `{!ChunkSource B} `{!ChunkSourceOk B} (b0 : B) bs fb stop :
  wf_frontend fb → frontend_sound b0 fb → growing (fb_total_chunks fb) b0 bs → bs ≠ [] →
  ∃ fb', polling_thread_func (((λ b, (false, Some b)) <$> bs) ++ [(true, stop)]) fb = Some fb' ∧
    ∀ c, 0 ≤ c < fb_total_chunks fb →
      frontend_is_chunk_complete fb' c = Some (src_complete (List.last bs b0) c).
Proof.
  intros Hwf Hsound Hg Hne.
  destruct (polling_thread_sound b0 bs fb stop Hwf Hsound Hg) as (fb' & ? & ? & _ & _ & Hex).
  exists fb'. split; [done|]. intros c Hc.
  rewrite frontend_is_chunk_complete_eq by (done || lia). by rewrite Hex.
Qed.

Lemma make_backend_sound total ppc fb : (∀ c, marked fb c = false) →
  frontend_sound (make_backend total ppc) fb.
Proof. intros Hm c. by rewrite Hm. Qed.

Lemma polling_thread_exact_witness :
  ∃ fb', polling_thread_func
      [(false, Some (make_backend 200 70)); (false, Some example_backend); (true, None)]
      (make_frontend (Some (make_backend 200 70)) 3) = Some fb' ∧
    frontend_is_chunk_complete fb' 1 = Some true.
Proof.
  assert (wf_backend (make_backend 200 70)) as Hwf by (apply make_backend_wf; lia).
  assert (backend_le (make_backend 200 70) example_backend) as Hle.
  { split_and!; [vm_compute; reflexivity..|]. intros p. by rewrite make_backend_received. }
  destruct (polling_thread_exact (make_backend 200 70)
    [make_backend 200 70; example_backend] (make_frontend (Some (make_backend 200 70)) 3) None)
    as (fb' & Hp & Hm).
  - apply make_frontend_wf. lia.
  - apply make_backend_sound. apply make_frontend_marked.
  - apply growing_cons; [reflexivity|exact Hwf| |].
    { intros c Hc. split; simpl in *; lia. }
    apply growing_cons; [exact Hle|apply example_backend_wf|apply example_in_range|].
    apply growing_nil.
  - discriminate.
  - exists fb'. split; [exact Hp|]. rewrite (Hm 1) by (simpl; lia). vm_compute; reflexivity.
Defined.

(** The completion test of the receiver is right: after a poll of a
    frontend with as many chunks as the message has, whose marks do not run
    ahead of the backend, [get_total_chunks_completed] is defined and reaches
    [total_chunks] exactly when every packet of the message was received. *)
Theorem completion_iff_all_packets b fb : wf_backend b → wf_frontend fb →
  fb_total_chunks fb = num_chunks b → frontend_sound b fb →
  ∃ fb' n, poll_once (Some b) fb = Some fb' ∧ get_total_chunks_completed fb' = Some n ∧
    0 ≤ n ≤ fb_total_chunks fb' ∧
    (n >= fb_total_chunks fb' ↔ ∀ p, 0 ≤ p < bb_total_packets b → received b p = true).
Proof.
  intros Hb Hwf Ht Hsound.
  destruct (update_chunk_bitmap_sound b fb) as (fb' & Hu & Hwf' & Hs & _ & Hex); [done..| |done|].
  { intros c Hc. apply num_chunks_range; [done|lia|lia]. }
  exists fb', (Z.of_nat (length (List.filter (marked fb') (zrange 0 (fb_total_chunks fb'))))).
  pose proof (List.filter_length_le (marked fb') (zrange 0 (fb_total_chunks fb'))) as Hle.
  pose proof (wff_total _ Hwf') as Htot.
  rewrite length_zrange in Hle.
  split_and!; [done|by apply get_total_chunks_completed_eq|lia|lia|].
  rewrite <-all_chunks_all_packets by done. rewrite (fss_total _ _ Hs) in *. rewrite <-Ht.
  trans (length (List.filter (marked fb') (zrange 0 (fb_total_chunks fb))) =
         length (zrange 0 (fb_total_chunks fb))).
  { rewrite length_zrange. lia. }
  rewrite filter_length_all, forallb_elem. split.
  - intros Hall c Hc. change (chunk_received b c) with (src_complete b c).
    rewrite <-Hex by done. apply Hall. rewrite elem_of_zrange. lia.
  - intros Hall c Hc. rewrite elem_of_zrange in Hc. rewrite Hex by lia. by apply Hall.
Qed.

Lemma completion_iff_all_packets_witness :
  ∃ fb' n, poll_once (Some example_backend) (make_frontend (Some example_backend) 3) = Some fb' ∧
    get_total_chunks_completed fb' = Some n ∧ n = 1 ∧
    (n >= 3 ↔ ∀ p, 0 ≤ p < bb_total_packets example_backend → received example_backend p = true).
Proof.
  destruct (completion_iff_all_packets example_backend (make_frontend (Some example_backend) 3))
    as (fb' & n & Hp & Hn & _ & Hiff);
    [apply example_backend_wf|apply make_frontend_wf; lia|vm_compute; reflexivity| |].
  { intros c. rewrite make_frontend_marked. discriminate. }
  exists fb', n. split; [exact Hp|]. split; [exact Hn|].
  vm_compute in Hp. injection Hp as <-. split; [vm_compute in Hn; congruence|exact Hiff].
Defined.
