(* ===== verification/Control.v ===== *)
(** * TCP control plane (include/tcp_control.h, src/tcp_control.cpp)

    Control messages and their memory image, and the two endpoints that carry
    them.  The operating system answers through the record [Socket]: the
    segments and conditions successive [recv] calls meet, and the results of
    [send] calls. *)

From S2P Require Import Prelude Bytes.

(** [enum class ControlMsgType : uint8_t]; a received message may hold any byte,
    so messages carry the byte and tests compare it with [value]. *)
Module ControlMsgType.
Inductive t : Set :=
| OFFER | CTS | ACCEPT | REJECT | COMPLETE_ACK | INCOMPLETE_NACK
| SR_ACK | SR_NACK | EC_ACK | EC_NACK | EC_FALLBACK_SR.

Definition value (t : t) : Z :=
  match t with
  | OFFER => 0 | CTS => 1 | ACCEPT => 2 | REJECT => 3 | COMPLETE_ACK => 4
  | INCOMPLETE_NACK => 5 | SR_ACK => 6 | SR_NACK => 7 | EC_ACK => 8 | EC_NACK => 9
  | EC_FALLBACK_SR => 10
  end.

#[export] Instance eq_dec : EqDecision t.
Proof. solve_decision. Defined.
End ControlMsgType.

(** [struct ConnectionParams]. *)
Record ConnectionParams : Set := mkParams {
  prm_transfer_id : Z;          (* uint32_t *)
  prm_total_bytes : Z;          (* uint64_t *)
  prm_mtu_bytes : Z;            (* uint32_t *)
  prm_packet_bytes : Z;         (* uint32_t *)
  prm_chunk_bytes : Z;          (* uint32_t *)
  prm_packets_per_chunk : Z;    (* uint16_t *)
  prm_total_chunks : Z;         (* uint16_t *)
  prm_fec_k : Z;                (* uint16_t *)
  prm_fec_m : Z;                (* uint16_t *)
  prm_max_inflight : Z;         (* uint32_t *)
  prm_rto_ms : Z;               (* uint32_t *)
  prm_rtt_alpha_ms : Z;         (* uint32_t *)
  prm_num_channels : Z;         (* uint16_t *)
  prm_channel_base_port : Z;    (* uint16_t *)
  prm_udp_server_ip : list Z;   (* char[16] *)
  prm_udp_server_port : Z       (* uint16_t *)
}.

(** [memset(&params, 0, sizeof(params))]. *)
Definition zero_params : ConnectionParams :=
  mkParams 0 0 0 0 0 0 0 0 0 0 0 0 0 0 (replicate 16 0) 0.

(** [struct ControlMessage]. *)
Record ControlMessage : Set := mkMessage {
  cm_magic : Z;                 (* uint16_t *)
  cm_msg_type : Z;              (* ControlMsgType, one byte *)
  cm_connection_id : Z;         (* uint32_t *)
  cm_params : ConnectionParams;
  cm_chunk_bitmap_words : Z;    (* uint16_t *)
  cm_chunk_bitmap : list Z;     (* uint64_t[16] *)
  cm_num_gaps : Z;              (* uint16_t *)
  cm_gap_start : list Z;        (* uint16_t[16] *)
  cm_gap_len : list Z           (* uint16_t[16] *)
}.

Definition CONTROL_MAGIC : Z := 21316. (* 0x5344 *)

(** [ControlMessage msg{}]. *)
Definition zero_message : ControlMessage :=
  mkMessage 0 0 0 zero_params 0 (replicate 16 0) 0 (replicate 16 0) (replicate 16 0).

Definition msg_is (m : ControlMessage) (t : ControlMsgType.t) : bool :=
  cm_msg_type m =? ControlMsgType.value t.

(** ** Memory image

    Fields in declaration order, aligned as the System V ABI does; the bytes
    between them are padding, whose contents the source leaves unspecified. *)

Record Padding : Set := mkPadding {
  pad_msg_type : Z;       (* 1 byte after msg_type *)
  pad_transfer_id : Z;    (* 4 bytes after params.transfer_id *)
  pad_port : Z;           (* 2 bytes after params.udp_server_port *)
  pad_words : Z;          (* 6 bytes after chunk_bitmap_words *)
  pad_tail : Z            (* 6 bytes at the end *)
}.

Definition params_image (pad : Padding) (p : ConnectionParams) : list Z :=
  le_encode 4 (prm_transfer_id p) ++ le_encode 4 (pad_transfer_id pad) ++
  le_encode 8 (prm_total_bytes p) ++ le_encode 4 (prm_mtu_bytes p) ++
  le_encode 4 (prm_packet_bytes p) ++ le_encode 4 (prm_chunk_bytes p) ++
  le_encode 2 (prm_packets_per_chunk p) ++ le_encode 2 (prm_total_chunks p) ++
  le_encode 2 (prm_fec_k p) ++ le_encode 2 (prm_fec_m p) ++
  le_encode 4 (prm_max_inflight p) ++ le_encode 4 (prm_rto_ms p) ++
  le_encode 4 (prm_rtt_alpha_ms p) ++ le_encode 2 (prm_num_channels p) ++
  le_encode 2 (prm_channel_base_port p) ++ encode_array 1 (prm_udp_server_ip p) ++
  le_encode 2 (prm_udp_server_port p) ++ le_encode 2 (pad_port pad).

Definition message_image (pad : Padding) (m : ControlMessage) : list Z :=
  le_encode 2 (cm_magic m) ++ le_encode 1 (cm_msg_type m) ++
  le_encode 1 (pad_msg_type pad) ++ le_encode 4 (cm_connection_id m) ++
  params_image pad (cm_params m) ++
  le_encode 2 (cm_chunk_bitmap_words m) ++ le_encode 6 (pad_words pad) ++
  encode_array 8 (cm_chunk_bitmap m) ++ le_encode 2 (cm_num_gaps m) ++
  encode_array 2 (cm_gap_start m) ++ encode_array 2 (cm_gap_len m) ++
  le_encode 6 (pad_tail pad).

(** [sizeof(ControlMessage)]. *)
Definition sizeof_ControlMessage : Z := 288.

Definition take_params (bs : list Z) : ConnectionParams * list Z :=
  let '(transfer_id, bs) := take_field 4 bs in
  let '(_, bs) := take_field 4 bs in
  let '(total_bytes, bs) := take_field 8 bs in
  let '(mtu_bytes, bs) := take_field 4 bs in
  let '(packet_bytes, bs) := take_field 4 bs in
  let '(chunk_bytes, bs) := take_field 4 bs in
  let '(packets_per_chunk, bs) := take_field 2 bs in
  let '(total_chunks, bs) := take_field 2 bs in
  let '(fec_k, bs) := take_field 2 bs in
  let '(fec_m, bs) := take_field 2 bs in
  let '(max_inflight, bs) := take_field 4 bs in
  let '(rto_ms, bs) := take_field 4 bs in
  let '(rtt_alpha_ms, bs) := take_field 4 bs in
  let '(num_channels, bs) := take_field 2 bs in
  let '(channel_base_port, bs) := take_field 2 bs in
  let '(udp_server_ip, bs) := take_array 1 16 bs in
  let '(udp_server_port, bs) := take_field 2 bs in
  let '(_, bs) := take_field 2 bs in
  (mkParams transfer_id total_bytes mtu_bytes packet_bytes chunk_bytes packets_per_chunk
     total_chunks fec_k fec_m max_inflight rto_ms rtt_alpha_ms num_channels
     channel_base_port udp_server_ip udp_server_port, bs).

(** [memcpy(this, buffer, sizeof(ControlMessage))]. *)
Definition message_of_image (bs : list Z) : ControlMessage :=
  let '(magic, bs) := take_field 2 bs in
  let '(msg_type, bs) := take_field 1 bs in
  let '(_, bs) := take_field 1 bs in
  let '(connection_id, bs) := take_field 4 bs in
  let '(params, bs) := take_params bs in
  let '(chunk_bitmap_words, bs) := take_field 2 bs in
  let '(_, bs) := take_field 6 bs in
  let '(chunk_bitmap, bs) := take_array 8 16 bs in
  let '(num_gaps, bs) := take_field 2 bs in
  let '(gap_start, bs) := take_array 2 16 bs in
  let '(gap_len, bs) := take_array 2 16 bs in
  mkMessage magic msg_type connection_id params chunk_bitmap_words chunk_bitmap
    num_gaps gap_start gap_len.

(** [ControlMessage::serialize] into [buffer]: the size returned and the buffer. *)
Definition serialize (pad : Padding) (m : ControlMessage) (buffer : list Z) : Z * list Z :=
  if Z.of_nat (length buffer) <? sizeof_ControlMessage then (0, buffer) else
  (sizeof_ControlMessage,
   message_image pad m ++ drop (Z.to_nat sizeof_ControlMessage) buffer).

(** [ControlMessage::deserialize]: the answer and the message after the call. *)
Definition deserialize (this : ControlMessage) (buffer : list Z) : bool * ControlMessage :=
  if Z.of_nat (length buffer) <? sizeof_ControlMessage then (false, this) else
  let this := message_of_image buffer in
  if negb (cm_magic this =? CONTROL_MAGIC) then (false, this) else (true, this).

(** ** Sockets *)

(** What the calls of [recv] on a connection meet, in order: bytes that are
    there, a [SO_RCVTIMEO] timeout ([EAGAIN]), end of stream, another error. *)
Inductive recv_event : Set :=
| Data (bs : list Z)
| RecvTimeout
| RecvClosed
| RecvError.

Record Socket : Set := mkSocket {
  sk_in : list recv_event;
  sk_send_results : list Z;   (* results of the next [send] calls *)
  sk_out : list Z             (* bytes the peer will read *)
}.

(** [send(fd, buffer, len, 0)]: everything is accepted unless the operating
    system answers otherwise. *)
Definition sock_send (sk : Socket) (bs : list Z) : Z * Socket :=
  match sk_send_results sk with
  | [] => (Z.of_nat (length bs), mkSocket (sk_in sk) [] (sk_out sk ++ bs))
  | r :: rs =>
      let r := Z.min r (Z.of_nat (length bs)) in
      (r, mkSocket (sk_in sk) rs (sk_out sk ++ take (Z.to_nat r) bs))
  end.

Inductive recv_outcome : Set :=
| Received (bs : list Z)
| TimedOut
| Disconnected.

Definition push_data (bs : list Z) (events : list recv_event) : list recv_event :=
  match bs with [] => events | _ => Data bs :: events end.

(** The loop [while (total_received < sizeof(ControlMessage))] with the bytes
    [acc] received so far: each [recv] takes what is there, up to what is
    missing.  [None]: the modelled run ends while the loop waits. *)
Fixpoint recv_loop (events : list recv_event) (acc : list Z)
    : option (recv_outcome * list recv_event) :=
  match events with
  | [] => None
  | Data bs :: events =>
      let missing := (Z.to_nat sizeof_ControlMessage - length acc)%nat in
      if (length bs <? missing)%nat then recv_loop events (acc ++ bs)
      else Some (Received (acc ++ take missing bs), push_data (drop missing bs) events)
  | RecvTimeout :: events => Some (TimedOut, events)
  | RecvClosed :: events => Some (Disconnected, events)
  | RecvError :: events => Some (Disconnected, events)
  end.

(** ** [TCPControlServer] *)

Record TCPControlServer : Set := mkServer {
  ts_listen_fd : Z;
  ts_client_fd : Z;
  ts_listen_port : Z;
  ts_is_listening : bool;
  ts_sock : Socket            (* the connection of [client_fd_] *)
}.

Definition no_socket : Socket := mkSocket [] [] [].

Definition new_server : TCPControlServer := mkServer (-1) (-1) 0 false no_socket.

(** Answers of the calls [start_listening] makes. *)
Record listen_calls : Set := mkListenCalls {
  lc_socket : Z; lc_setsockopt : Z; lc_bind : Z; lc_listen : Z
}.

Definition start_listening (os : listen_calls) (port : Z) (sv : TCPControlServer)
    : bool * TCPControlServer :=
  if ts_is_listening sv then (false, sv) else
  let with_listen_fd fd :=
    mkServer fd (ts_client_fd sv) (ts_listen_port sv) (ts_is_listening sv) (ts_sock sv) in
  if lc_socket os <? 0 then (false, with_listen_fd (lc_socket os)) else
  if lc_setsockopt os <? 0 then (false, with_listen_fd (-1)) else
  if lc_bind os <? 0 then (false, with_listen_fd (-1)) else
  if lc_listen os <? 0 then (false, with_listen_fd (-1)) else
  (true, mkServer (lc_socket os) (ts_client_fd sv) port true (ts_sock sv)).

(** [accept_connection]: [accept_result] and the new connection come from the
    operating system. *)
Definition accept_connection (accept_result : Z) (sk : Socket) (sv : TCPControlServer)
    : bool * TCPControlServer :=
  if negb (ts_is_listening sv) then (false, sv) else
  let sv := mkServer (ts_listen_fd sv) accept_result (ts_listen_port sv)
              (ts_is_listening sv) sk in
  if accept_result <? 0 then (false, sv) else (true, sv).

Definition server_with_sock (sv : TCPControlServer) (fd : Z) (sk : Socket) : TCPControlServer :=
  mkServer (ts_listen_fd sv) fd (ts_listen_port sv) (ts_is_listening sv) sk.

Definition sock_with_in (sk : Socket) (events : list recv_event) : Socket :=
  mkSocket events (sk_send_results sk) (sk_out sk).

Definition server_receive_message (sv : TCPControlServer) (msg : ControlMessage)
    : option (bool * ControlMessage * TCPControlServer) :=
  if ts_client_fd sv <? 0 then Some (false, msg, sv) else
  '(outcome, events) ← recv_loop (sk_in (ts_sock sv)) [];
  let sk := sock_with_in (ts_sock sv) events in
  Some match outcome with
  | TimedOut => (false, msg, server_with_sock sv (ts_client_fd sv) sk)
  | Disconnected => (false, msg, server_with_sock sv (-1) sk)
  | Received buffer =>
      let '(ok, msg) := deserialize msg buffer in
      (ok, msg, server_with_sock sv (ts_client_fd sv) sk)
  end.

Definition server_send_message (pad : Padding) (sv : TCPControlServer) (msg : ControlMessage)
    : bool * TCPControlServer :=
  if ts_client_fd sv <? 0 then (false, sv) else
  let '(len, buffer) := serialize pad msg (replicate (Z.to_nat sizeof_ControlMessage) 0) in
  let '(sent, sk) := sock_send (ts_sock sv) (take (Z.to_nat len) buffer) in
  let sv := server_with_sock sv (ts_client_fd sv) sk in
  if sent <? 0 then (false, sv) else
  if negb (sent =? len) then (false, sv) else (true, sv).

Definition close_connection (sv : TCPControlServer) : TCPControlServer :=
  if ts_client_fd sv >=? 0 then server_with_sock sv (-1) (ts_sock sv) else sv.

Definition server_stop (sv : TCPControlServer) : TCPControlServer :=
  let sv := close_connection sv in
  mkServer (if ts_listen_fd sv >=? 0 then -1 else ts_listen_fd sv) (ts_client_fd sv) 0 false
    (ts_sock sv).

(** ** [TCPControlClient] *)

Record TCPControlClient : Set := mkClient {
  tc_socket_fd : Z;
  tc_is_connected : bool;
  tc_sock : Socket
}.

Definition new_client : TCPControlClient := mkClient (-1) false no_socket.

Definition client_disconnect (c : TCPControlClient) : TCPControlClient :=
  mkClient (if tc_socket_fd c >=? 0 then -1 else tc_socket_fd c) false (tc_sock c).

(** Answers of the calls [connect_to_server] makes, and the connection. *)
Record connect_calls : Set := mkConnectCalls {
  cc_socket : Z; cc_inet_pton : Z; cc_connect : Z; cc_sock : Socket
}.

Definition connect_to_server (os : connect_calls) (c : TCPControlClient)
    : bool * TCPControlClient :=
  let c := if tc_is_connected c then client_disconnect c else c in
  if cc_socket os <? 0 then (false, mkClient (cc_socket os) (tc_is_connected c) (tc_sock c)) else
  if cc_inet_pton os <=? 0 then (false, mkClient (-1) (tc_is_connected c) (tc_sock c)) else
  if cc_connect os <? 0 then (false, mkClient (-1) (tc_is_connected c) (tc_sock c)) else
  (true, mkClient (cc_socket os) true (cc_sock os)).

Definition client_send_message (pad : Padding) (c : TCPControlClient) (msg : ControlMessage)
    : bool * TCPControlClient :=
  if negb (tc_is_connected c) then (false, c) else
  let '(len, buffer) := serialize pad msg (replicate (Z.to_nat sizeof_ControlMessage) 0) in
  let '(sent, sk) := sock_send (tc_sock c) (take (Z.to_nat len) buffer) in
  if sent <? 0 then (false, mkClient (tc_socket_fd c) false sk) else
  let c := mkClient (tc_socket_fd c) (tc_is_connected c) sk in
  if negb (sent =? len) then (false, c) else (true, c).

Definition client_receive_message (c : TCPControlClient) (msg : ControlMessage)
    : option (bool * ControlMessage * TCPControlClient) :=
  if negb (tc_is_connected c) then Some (false, msg, c) else
  '(outcome, events) ← recv_loop (sk_in (tc_sock c)) [];
  let sk := sock_with_in (tc_sock c) events in
  Some match outcome with
  | TimedOut => (false, msg, mkClient (tc_socket_fd c) (tc_is_connected c) sk)
  | Disconnected => (false, msg, mkClient (tc_socket_fd c) false sk)
  | Received buffer =>
      let '(ok, msg) := deserialize msg buffer in
      (ok, msg, mkClient (tc_socket_fd c) (tc_is_connected c) sk)
  end.

(** [ConnectionIDAllocator::allocate]: the identifier and the next one. *)
Definition allocate_connection_id (next_id : Z) : Z * Z := (next_id, next_id +u32 1).

(** ** Either endpoint, as its users see it

    [sdr_recv_post], [sdr_send_post], [sdr_send_poll] and the reliability layers
    use an endpoint through [receive_message] and a test that the connection is
    still there ([get_client_fd() >= 0], [is_connected()]). *)

Class ControlEndpoint (E : Type) := {
  ep_receive : E → ControlMessage → option (bool * ControlMessage * E);
  ep_alive : E → bool;
  ep_input : E → list recv_event
}.

#[export] Instance server_endpoint : ControlEndpoint TCPControlServer := {|
  ep_receive := server_receive_message;
  ep_alive sv := negb (ts_client_fd sv <? 0);
  ep_input sv := sk_in (ts_sock sv)
|}.

#[export] Instance client_endpoint : ControlEndpoint TCPControlClient := {|
  ep_receive := client_receive_message;
  ep_alive := tc_is_connected;
  ep_input c := sk_in (tc_sock c)
|}.

(** Work left in the input of a connection. *)
Fixpoint input_size (events : list recv_event) : nat :=
  match events with
  | [] => 0
  | Data bs :: events => S (length bs + input_size events)
  | _ :: events => S (input_size events)
  end.

(** What a call of [receive_message] does, for either endpoint. *)
Class ControlEndpointOk (E : Type) `{!ControlEndpoint E} := {
  ep_receive_dead e msg :
    ep_alive e = false → ep_receive e msg = Some (false, msg, e);
  ep_receive_blocked e msg :
    ep_alive e = true → recv_loop (ep_input e) [] = None → ep_receive e msg = None;
  ep_receive_timeout e msg events :
    ep_alive e = true → recv_loop (ep_input e) [] = Some (TimedOut, events) →
    ∃ e', ep_receive e msg = Some (false, msg, e') ∧ ep_alive e' = true ∧ ep_input e' = events;
  ep_receive_disconnected e msg events :
    ep_alive e = true → recv_loop (ep_input e) [] = Some (Disconnected, events) →
    ∃ e', ep_receive e msg = Some (false, msg, e') ∧ ep_alive e' = false ∧ ep_input e' = events;
  ep_receive_bytes e msg bs events :
    ep_alive e = true → recv_loop (ep_input e) [] = Some (Received bs, events) →
    ∃ e', ep_receive e msg = Some ((deserialize msg bs).1, (deserialize msg bs).2, e') ∧
      ep_alive e' = true ∧ ep_input e' = events
}.

#[export] Instance server_endpoint_ok : ControlEndpointOk TCPControlServer.
Proof.
  split; intros [lf cf lp il sk] msg;
    cbn [ep_alive ep_receive ep_input server_endpoint ts_client_fd ts_sock];
    unfold server_receive_message; cbn [ts_client_fd ts_sock];
    destruct (cf <? 0) eqn:E; try done.
  - intros _ H2. by rewrite H2.
  - intros events _ H2. rewrite H2. simpl. eexists. split_and!; [done| |done].
    cbn [server_with_sock ts_client_fd]. by rewrite E.
  - intros events _ H2. rewrite H2. simpl. by eexists.
  - intros bs events _ H2. rewrite H2. simpl.
    destruct (deserialize msg bs) as [ok m] eqn:D.
    eexists. split_and!; [done| |done].
    cbn [server_with_sock ts_client_fd]. by rewrite E.
Qed.

#[export] Instance client_endpoint_ok : ControlEndpointOk TCPControlClient.
Proof.
  split; intros [fd con sk] msg; simpl; unfold client_receive_message; simpl.
  - by intros ->.
  - intros -> H2. simpl. by rewrite H2.
  - intros events -> H2. simpl. rewrite H2. simpl. by eexists.
  - intros events -> H2. simpl. rewrite H2. simpl. by eexists.
  - intros bs events -> H2. simpl. rewrite H2. simpl.
    destruct (deserialize msg bs) as [ok m] eqn:D. by eexists.
Qed.

(** ** Well-formed messages: every field in the range of its type *)

Record wf_params (p : ConnectionParams) : Prop := {
  wfp_transfer_id : is_uint 4 (prm_transfer_id p);
  wfp_total_bytes : is_uint 8 (prm_total_bytes p);
  wfp_mtu_bytes : is_uint 4 (prm_mtu_bytes p);
  wfp_packet_bytes : is_uint 4 (prm_packet_bytes p);
  wfp_chunk_bytes : is_uint 4 (prm_chunk_bytes p);
  wfp_packets_per_chunk : is_uint 2 (prm_packets_per_chunk p);
  wfp_total_chunks : is_uint 2 (prm_total_chunks p);
  wfp_fec_k : is_uint 2 (prm_fec_k p);
  wfp_fec_m : is_uint 2 (prm_fec_m p);
  wfp_max_inflight : is_uint 4 (prm_max_inflight p);
  wfp_rto_ms : is_uint 4 (prm_rto_ms p);
  wfp_rtt_alpha_ms : is_uint 4 (prm_rtt_alpha_ms p);
  wfp_num_channels : is_uint 2 (prm_num_channels p);
  wfp_channel_base_port : is_uint 2 (prm_channel_base_port p);
  wfp_udp_server_ip : Forall (is_uint 1) (prm_udp_server_ip p);
  wfp_udp_server_ip_len : length (prm_udp_server_ip p) = 16%nat;
  wfp_udp_server_port : is_uint 2 (prm_udp_server_port p)
}.

Record wf_message (m : ControlMessage) : Prop := {
  wfm_magic : is_uint 2 (cm_magic m);
  wfm_msg_type : is_uint 1 (cm_msg_type m);
  wfm_connection_id : is_uint 4 (cm_connection_id m);
  wfm_params : wf_params (cm_params m);
  wfm_words : is_uint 2 (cm_chunk_bitmap_words m);
  wfm_bitmap : Forall (is_uint 8) (cm_chunk_bitmap m);
  wfm_bitmap_len : length (cm_chunk_bitmap m) = 16%nat;
  wfm_num_gaps : is_uint 2 (cm_num_gaps m);
  wfm_gap_start : Forall (is_uint 2) (cm_gap_start m);
  wfm_gap_start_len : length (cm_gap_start m) = 16%nat;
  wfm_gap_len : Forall (is_uint 2) (cm_gap_len m);
  wfm_gap_len_len : length (cm_gap_len m) = 16%nat
}.

Record wf_padding (pad : Padding) : Prop := {
  wfpad_msg_type : is_uint 1 (pad_msg_type pad);
  wfpad_transfer_id : is_uint 4 (pad_transfer_id pad);
  wfpad_port : is_uint 2 (pad_port pad);
  wfpad_words : is_uint 6 (pad_words pad);
  wfpad_tail : is_uint 6 (pad_tail pad)
}.

(** ** Images *)

Lemma length_params_image pad p : wf_params p → length (params_image pad p) = 72%nat.
Proof.
  intros Hwf. unfold params_image.
  rewrite !length_app, !length_le_encode, !length_encode_array,
    (wfp_udp_server_ip_len _ Hwf). done.
Qed.

Lemma length_message_image pad m : wf_message m →
  length (message_image pad m) = Z.to_nat sizeof_ControlMessage.
Proof.
  intros Hwf. unfold message_image.
  rewrite !length_app, !length_le_encode, !length_encode_array, length_params_image
    by apply (wfm_params _ Hwf).
  rewrite (wfm_bitmap_len _ Hwf), (wfm_gap_start_len _ Hwf), (wfm_gap_len_len _ Hwf). done.
Qed.

Lemma take_array_len n k xs rest : length xs = k → Forall (is_uint n) xs →
  take_array n k (encode_array n xs ++ rest) = (xs, rest).
Proof. intros <-. apply take_array_app. Qed.

Lemma take_params_app pad p rest : wf_padding pad → wf_params p →
  take_params (params_image pad p ++ rest) = (p, rest).
Proof.
  intros [] []. unfold take_params, params_image. rewrite <-!app_assoc.
  rewrite !take_field_app by done. cbn beta iota.
  rewrite take_array_len by done. cbn beta iota.
  rewrite !take_field_app by done. by destruct p.
Qed.

Lemma message_of_image_app pad m rest : wf_padding pad → wf_message m →
  message_of_image (message_image pad m ++ rest) = m.
Proof.
  intros Hpad []. pose proof Hpad as [].
  unfold message_of_image, message_image. rewrite <-!app_assoc.
  rewrite !take_field_app by done. cbn beta iota.
  rewrite take_params_app by done. cbn beta iota.
  rewrite !take_field_app by done. cbn beta iota.
  rewrite take_array_len by done. cbn beta iota.
  rewrite !take_field_app by done. cbn beta iota.
  rewrite !take_array_len by done. by destruct m.
Qed.

(** A full image with the right magic is accepted. *)
Lemma deserialize_image this pad m rest : wf_padding pad → wf_message m →
  cm_magic m = CONTROL_MAGIC → deserialize this (message_image pad m ++ rest) = (true, m).
Proof.
  intros Hpad Hwf Hmagic. unfold deserialize.
  rewrite length_app, length_message_image by done.
  rewrite (proj2 (Z.ltb_ge _ _)) by (unfold sizeof_ControlMessage; lia).
  rewrite message_of_image_app by done. by rewrite Hmagic.
Qed.

Lemma serialize_image pad m : wf_message m →
  serialize pad m (replicate (Z.to_nat sizeof_ControlMessage) 0) =
    (sizeof_ControlMessage, message_image pad m).
Proof.
  intros Hwf. unfold serialize. rewrite length_replicate, (proj2 (Z.ltb_ge _ _)) by done.
  rewrite drop_ge by (by rewrite length_replicate). by rewrite app_nil_r.
Qed.

(** A server whose client is connected and takes what is sent. *)
Definition server_ready (sv : TCPControlServer) : Prop :=
  0 ≤ ts_client_fd sv ∧ sk_send_results (ts_sock sv) = [].

Lemma server_send_ready pad sv m ok sv' : server_send_message pad sv m = (ok, sv') →
  server_ready sv → server_ready sv'.
Proof.
  intros E [Hfd Hres]. unfold server_send_message in E. rewrite (proj2 (Z.ltb_ge _ _)) in E by done.
  destruct (serialize _ _ _) as [len buffer]. unfold sock_send in E. rewrite Hres in E.
  destruct (_ <? 0); [by injection E as _ <-|]. destruct (negb _); by injection E as _ <-.
Qed.

(** A server whose [send] is accepted puts the image on the wire. *)
Lemma server_send_eq pad sv m : wf_message m → 0 ≤ ts_client_fd sv →
  sk_send_results (ts_sock sv) = [] →
  server_send_message pad sv m = (true, server_with_sock sv (ts_client_fd sv)
    (mkSocket (sk_in (ts_sock sv)) [] (sk_out (ts_sock sv) ++ message_image pad m))).
Proof.
  intros Hwf Hfd Hres. pose proof (length_message_image pad m Hwf) as Hlen.
  unfold server_send_message. rewrite (proj2 (Z.ltb_ge _ _)), serialize_image by done.
  unfold sock_send. rewrite Hres, take_ge by lia. rewrite Hlen. rewrite Z2Nat.id by done. done.
Qed.

Lemma client_send_eq pad c m : wf_message m → tc_is_connected c = true →
  sk_send_results (tc_sock c) = [] →
  client_send_message pad c m = (true, mkClient (tc_socket_fd c) true
    (mkSocket (sk_in (tc_sock c)) [] (sk_out (tc_sock c) ++ message_image pad m))).
Proof.
  intros Hwf Hcon Hres. pose proof (length_message_image pad m Hwf) as Hlen.
  unfold client_send_message. rewrite Hcon, serialize_image by done. cbn [negb].
  unfold sock_send. rewrite Hres, take_ge by lia. rewrite Hlen. rewrite Z2Nat.id by done. done.
Qed.

(** ** Receiving *)

Lemma sizeof_ControlMessage_pos : (0 < Z.to_nat sizeof_ControlMessage)%nat.
Proof. apply Nat.ltb_lt. reflexivity. Qed.

(** Bytes that arrive in any segments are read as one stream. *)
Lemma recv_loop_data segs tail acc :
  (length acc < Z.to_nat sizeof_ControlMessage)%nat →
  (Z.to_nat sizeof_ControlMessage ≤ length (acc ++ concat segs))%nat →
  ∃ segs', recv_loop ((Data <$> segs) ++ tail) acc =
      Some (Received (take (Z.to_nat sizeof_ControlMessage) (acc ++ concat segs)),
            (Data <$> segs') ++ tail) ∧
    concat segs' = drop (Z.to_nat sizeof_ControlMessage) (acc ++ concat segs).
Proof.
  set (n := Z.to_nat sizeof_ControlMessage). revert acc.
  induction segs as [|bs segs IH]; intros acc Hacc Hlen.
  { rewrite app_nil_r in Hlen. lia. }
  cbn [fmap list_fmap app recv_loop concat] in *. fold n. rewrite !length_app in Hlen.
  destruct (length bs <? n - length acc)%nat eqn:Hb.
  - apply Nat.ltb_lt in Hb. destruct (IH (acc ++ bs)) as (segs' & Hr & Hc);
      rewrite ?length_app; [lia..|].
    rewrite <-app_assoc in Hr, Hc. exists segs'. split; [exact Hr|exact Hc].
  - apply Nat.ltb_ge in Hb.
    exists (match drop (n - length acc) bs with [] => segs | r => r :: segs end). split.
    + rewrite (take_app acc), (take_ge acc n), (take_app_le bs) by lia.
      unfold push_data. by destruct (drop (n - length acc) bs).
    + rewrite (drop_app acc), (drop_ge acc n), (drop_app_le bs) by lia. simpl.
      by destruct (drop (n - length acc) bs).
Qed.

(** A timeout before the message is complete. *)
Lemma recv_loop_timeout segs tail acc :
  (length (acc ++ concat segs) < Z.to_nat sizeof_ControlMessage)%nat →
  recv_loop ((Data <$> segs) ++ RecvTimeout :: tail) acc = Some (TimedOut, tail).
Proof.
  revert acc. induction segs as [|bs segs IH]; intros acc Hlen; [done|].
  cbn [fmap list_fmap app recv_loop concat] in *. rewrite !length_app in Hlen.
  rewrite (proj2 (Nat.ltb_lt _ _)) by lia. apply (IH (acc ++ bs)).
  rewrite !length_app. lia.
Qed.

Lemma input_size_push bs events :
  (input_size (push_data bs events) ≤ S (length bs + input_size events))%nat.
Proof. destruct bs; simpl; lia. Qed.

(** Every completed [receive_message] on a live connection uses up input. *)
Lemma recv_loop_consumes events acc outcome events' :
  (length acc < Z.to_nat sizeof_ControlMessage)%nat →
  recv_loop events acc = Some (outcome, events') → (input_size events' < input_size events)%nat.
Proof.
  revert acc. induction events as [|ev events IH]; intros acc Hacc; [done|].
  destruct ev as [bs| | |]; cbn [recv_loop input_size]; [|by intros [= _ <-]; lia..].
  destruct (length bs <? _)%nat eqn:Hb.
  - apply Nat.ltb_lt in Hb. intros Hr. apply IH in Hr; [lia|]. rewrite length_app. lia.
  - apply Nat.ltb_ge in Hb. intros [= _ <-].
    pose proof (input_size_push (drop (Z.to_nat sizeof_ControlMessage - length acc) bs) events).
    rewrite length_drop in *. lia.
Qed.

Section EndpointLemmas.
Context {E : Type} `{!ControlEndpoint E} `{!ControlEndpointOk E}.

Lemma ep_receive_consumes (e : E) msg ok msg' e' : ep_alive e = true →
  ep_receive e msg = Some (ok, msg', e') →
  (input_size (ep_input e') < input_size (ep_input e))%nat.
Proof.
  intros Ha Hr. destruct (recv_loop (ep_input e) []) as [[o events]|] eqn:Hl.
  2: { rewrite ep_receive_blocked in Hr by done. done. }
  pose proof (recv_loop_consumes _ [] _ _ sizeof_ControlMessage_pos Hl) as Hc.
  destruct o.
  - destruct (ep_receive_bytes e msg bs events Ha Hl) as (e2 & Hr2 & _ & Hi).
    rewrite Hr2 in Hr. injection Hr as _ _ <-. by rewrite Hi.
  - destruct (ep_receive_timeout e msg events Ha Hl) as (e2 & Hr2 & _ & Hi).
    rewrite Hr2 in Hr. injection Hr as _ _ <-. by rewrite Hi.
  - destruct (ep_receive_disconnected e msg events Ha Hl) as (e2 & Hr2 & _ & Hi).
    rewrite Hr2 in Hr. injection Hr as _ _ <-. by rewrite Hi.
Qed.

(** Only a live connection delivers a message, and it stays live; a live
    connection that waits has no complete answer in its input. *)
Lemma ep_receive_ok_alive (e : E) msg msg' e' :
  ep_receive e msg = Some (true, msg', e') → ep_alive e = true ∧ ep_alive e' = true.
Proof.
  intros Hr. destruct (ep_alive e) eqn:Ha; [|by rewrite (ep_receive_dead e msg Ha) in Hr].
  split; [done|]. destruct (recv_loop (ep_input e) []) as [[o events]|] eqn:Hl.
  2: { by rewrite ep_receive_blocked in Hr by done. }
  destruct o.
  - destruct (ep_receive_bytes e msg bs events Ha Hl) as (e2 & Hr2 & Ha2 & _).
    rewrite Hr2 in Hr. by injection Hr as _ _ <-.
  - destruct (ep_receive_timeout e msg events Ha Hl) as (e2 & Hr2 & _). by rewrite Hr2 in Hr.
  - destruct (ep_receive_disconnected e msg events Ha Hl) as (e2 & Hr2 & _). by rewrite Hr2 in Hr.
Qed.

Lemma ep_receive_none (e : E) msg : ep_receive e msg = None →
  ep_alive e = true ∧ recv_loop (ep_input e) [] = None.
Proof.
  intros Hr. destruct (ep_alive e) eqn:Ha; [|by rewrite (ep_receive_dead e msg Ha) in Hr].
  split; [done|]. destruct (recv_loop (ep_input e) []) as [[o events]|] eqn:Hl; [|done].
  destruct o.
  - destruct (ep_receive_bytes e msg bs events Ha Hl) as (e2 & Hr2 & _). by rewrite Hr2 in Hr.
  - destruct (ep_receive_timeout e msg events Ha Hl) as (e2 & Hr2 & _). by rewrite Hr2 in Hr.
  - destruct (ep_receive_disconnected e msg events Ha Hl) as (e2 & Hr2 & _). by rewrite Hr2 in Hr.
Qed.

Lemma ep_receive_segments (e : E) msg segs tail : ep_alive e = true →
  ep_input e = (Data <$> segs) ++ tail →
  (Z.to_nat sizeof_ControlMessage ≤ length (concat segs))%nat →
  let bs := take (Z.to_nat sizeof_ControlMessage) (concat segs) in
  ∃ e' segs', ep_receive e msg = Some ((deserialize msg bs).1, (deserialize msg bs).2, e') ∧
    ep_alive e' = true ∧ ep_input e' = (Data <$> segs') ++ tail ∧
    concat segs' = drop (Z.to_nat sizeof_ControlMessage) (concat segs).
Proof.
  intros Ha Hi Hlen bs.
  destruct (recv_loop_data segs tail []) as (segs' & Hl & Hc);
    [apply sizeof_ControlMessage_pos|done|].
  simpl in Hl, Hc. rewrite <-Hi in Hl.
  destruct (ep_receive_bytes e msg bs _ Ha Hl) as (e' & ? & ? & ?). by exists e', segs'.
Qed.

End EndpointLemmas.

(** ** Properties *)

(** C40: A control message survives the wire: for every message whose fields are in
    the range of their types and whose magic is right, whatever the padding
    bytes hold, [serialize] writes [sizeof(ControlMessage)] bytes and
    [deserialize] of them succeeds with every field equal; a different magic is
    refused. *)
Theorem message_roundtrip pad m this : wf_padding pad → wf_message m →
  let '(n, buffer) := serialize pad m (replicate (Z.to_nat sizeof_ControlMessage) 0) in
  n = 288 ∧ Z.of_nat (length buffer) = 288 ∧
  deserialize this buffer = (bool_decide (cm_magic m = CONTROL_MAGIC), m).
Proof.
  intros Hpad Hwf. rewrite serialize_image by done.
  split; [done|]. split; [by rewrite length_message_image|].
  unfold deserialize. rewrite length_message_image by done.
  rewrite (proj2 (Z.ltb_ge _ _)) by done.
  rewrite <-(app_nil_r (message_image pad m)), message_of_image_app by done.
  case_bool_decide as Hm; [by rewrite Hm|].
  by rewrite (proj2 (Z.eqb_neq _ _) Hm).
Qed.

Definition example_padding : Padding := mkPadding 1 2 3 4 5.

Definition example_params : ConnectionParams :=
  mkParams 1 100000 4096 0 0 32 0 0 0 0 0 0 2 9999
    [49; 50; 55; 46; 48; 46; 48; 46; 49; 0; 0; 0; 0; 0; 0; 0] 9999.

Definition example_message : ControlMessage :=
  mkMessage CONTROL_MAGIC (ControlMsgType.value ControlMsgType.CTS) 1 example_params 0
    (replicate 16 0) 0 (replicate 16 0) (replicate 16 0).

Ltac solve_wf :=
  first [ uint_lia
        | repeat apply Forall_cons_2; try apply Forall_nil_2; uint_lia
        | apply Forall_replicate; uint_lia
        | reflexivity ].

Lemma example_padding_wf : wf_padding example_padding.
Proof. constructor; simpl; unfold is_uint; simpl; lia. Qed.

Lemma example_params_wf : wf_params example_params.
Proof. constructor; cbn [example_params prm_transfer_id prm_total_bytes prm_mtu_bytes
  prm_packet_bytes prm_chunk_bytes prm_packets_per_chunk prm_total_chunks prm_fec_k prm_fec_m
  prm_max_inflight prm_rto_ms prm_rtt_alpha_ms prm_num_channels prm_channel_base_port
  prm_udp_server_ip prm_udp_server_port]; solve_wf. Qed.

Lemma example_message_wf : wf_message example_message.
Proof.
  constructor; try apply example_params_wf;
  cbn [example_message cm_magic cm_msg_type cm_connection_id cm_chunk_bitmap_words
    cm_chunk_bitmap cm_num_gaps cm_gap_start cm_gap_len ControlMsgType.value];
  unfold CONTROL_MAGIC; solve_wf.
Qed.

Lemma message_roundtrip_witness :
  deserialize zero_message
    (serialize example_padding example_message (replicate 288 0)).2 = (true, example_message).
Proof.
  pose proof (message_roundtrip example_padding example_message zero_message
    example_padding_wf example_message_wf) as H.
  rewrite (surjective_pairing (serialize _ _ _)) in H. exact (proj2 (proj2 H)).
Defined.

(** Fragmentation independence: on a live connection of either endpoint, if
    the bytes of a valid message have arrived in any segments whatever (and
    more bytes may follow in the same segment), [receive_message] returns
    exactly that message and leaves exactly the bytes after it. *)
Theorem receive_any_segmentation {E} `{!ControlEndpoint E} `{!ControlEndpointOk E}
    (e : E) msg pad m segs rest tail :
  ep_alive e = true → wf_padding pad → wf_message m → cm_magic m = CONTROL_MAGIC →
  ep_input e = (Data <$> segs) ++ tail → concat segs = message_image pad m ++ rest →
  ∃ e' segs', ep_receive e msg = Some (true, m, e') ∧ ep_alive e' = true ∧
    ep_input e' = (Data <$> segs') ++ tail ∧ concat segs' = rest.
Proof.
  intros Ha Hpad Hwf Hmagic Hi Hc.
  pose proof (length_message_image pad m Hwf) as Hlen.
  destruct (ep_receive_segments e msg segs tail Ha Hi) as (e' & segs' & Hr & Ha' & Hi' & Hc').
  { rewrite Hc, length_app. lia. }
  exists e', segs'. rewrite Hc in Hr, Hc'.
  rewrite take_app_length' in Hr by done. rewrite drop_app_length' in Hc' by done.
  pose proof (deserialize_image msg pad m [] Hpad Hwf Hmagic) as Hd.
  rewrite app_nil_r in Hd. rewrite Hd in Hr. done.
Qed.

Definition example_server (events : list recv_event) : TCPControlServer :=
  mkServer 3 4 7000 true (mkSocket events [] []).

Lemma receive_any_segmentation_witness :
  let image := message_image example_padding example_message in
  let sv := example_server [Data (take 5 image); Data []; Data (drop 5 image ++ [7; 8])] in
  ∃ sv' segs', server_receive_message sv zero_message = Some (true, example_message, sv') ∧
    sk_in (ts_sock sv') = (Data <$> segs') ++ [] ∧ concat segs' = [7; 8].
Proof.
  intros image sv.
  destruct (receive_any_segmentation sv zero_message example_padding example_message
    [take 5 image; []; drop 5 image ++ [7; 8]] [7; 8] [])
    as (sv' & segs' & Hr & _ & Hi & Hc);
    [reflexivity|apply example_padding_wf|apply example_message_wf|reflexivity|reflexivity| |].
  { cbn [concat app]. rewrite app_nil_r, app_assoc, take_drop. reflexivity. }
  exists sv', segs'. split; [exact Hr|]. split; [exact Hi|exact Hc].
Defined.

(** What the client sends, the server receives: when [send] accepts the bytes,
    [client_send_message] reports success, and a live server that meets the
    new bytes in any segmentation returns the very message. *)
Theorem client_to_server pad c m sv msg segs tail : wf_padding pad → wf_message m →
  cm_magic m = CONTROL_MAGIC → tc_is_connected c = true → sk_send_results (tc_sock c) = [] →
  0 ≤ ts_client_fd sv →
  ∃ c' bs, client_send_message pad c m = (true, c') ∧
    sk_out (tc_sock c') = sk_out (tc_sock c) ++ bs ∧
    (sk_in (ts_sock sv) = (Data <$> segs) ++ tail → concat segs = bs →
     ∃ sv' segs', server_receive_message sv msg = Some (true, m, sv') ∧
       sk_in (ts_sock sv') = (Data <$> segs') ++ tail ∧ concat segs' = []).
Proof.
  intros Hpad Hwf Hmagic Hcon Hres Hfd.
  rewrite (client_send_eq pad c m Hwf Hcon Hres).
  do 2 eexists. split; [reflexivity|]. split; [reflexivity|].
  intros Hi Hc. pose proof (length_message_image pad m Hwf).
  destruct (ep_receive_segments sv msg segs tail) as (sv' & segs' & Hr & _ & Hi' & Hc').
  - simpl. by rewrite (proj2 (Z.ltb_ge _ _)).
  - done.
  - rewrite Hc. lia.
  - exists sv', segs'. rewrite Hc in Hr, Hc'. rewrite take_ge in Hr by lia.
    rewrite drop_ge in Hc' by lia.
    pose proof (deserialize_image msg pad m [] Hpad Hwf Hmagic) as Hd.
    rewrite app_nil_r in Hd. rewrite Hd in Hr. done.
Qed.

Lemma client_to_server_witness :
  let image := message_image example_padding example_message in
  ∃ c' bs, client_send_message example_padding (mkClient 5 true (mkSocket [] [] []))
      example_message = (true, c') ∧ sk_out (tc_sock c') = [] ++ bs ∧
    ∃ sv' segs', server_receive_message (example_server [Data image; RecvClosed]) zero_message
      = Some (true, example_message, sv') ∧ sk_in (ts_sock sv') = (Data <$> segs') ++ [RecvClosed].
Proof.
  intros image.
  destruct (client_to_server example_padding (mkClient 5 true (mkSocket [] [] []))
    example_message (example_server [Data image; RecvClosed]) zero_message [image] [RecvClosed])
    as (c' & bs & Hs & Ho & Hr);
    [apply example_padding_wf|apply example_message_wf|reflexivity|reflexivity|reflexivity
    |simpl; lia|].
  exists c', bs. split; [exact Hs|]. split; [exact Ho|].
  assert (concat [image] = bs) as Hbs.
  { transitivity image; [apply app_nil_r|]. etransitivity; [|exact Ho].
    vm_compute in Hs. injection Hs as <-. vm_compute. reflexivity. }
  destruct (Hr eq_refl Hbs) as (sv' & segs' & H1 & H2 & _).
  exists sv', segs'. split; [exact H1|exact H2].
Defined.

(** A receive timeout in the middle of a message loses framing for good: the
    [k] bytes already read are dropped with the call, so on a stream
    [image m1 ++ image m2] the next call is handed the last bytes of [m1]
    followed by the first [k] of [m2], and what is left starts [k] bytes into
    [m2]; neither message can be received any more unless those bytes happen
    to start with the magic. *)
Theorem timeout_loses_framing {E} `{!ControlEndpoint E} `{!ControlEndpointOk E}
    (e : E) msg pad m1 m2 k :
  ep_alive e = true → wf_message m1 → wf_message m2 → (0 < k < 288)%nat →
  let image1 := message_image pad m1 in
  let image2 := message_image pad m2 in
  let shifted := drop k image1 ++ take k image2 in
  ep_input e = [Data (take k image1); RecvTimeout; Data (drop k image1 ++ image2)] →
  ∃ e1 e2, ep_receive e msg = Some (false, msg, e1) ∧ ep_alive e1 = true ∧
    ep_receive e1 msg = Some ((deserialize msg shifted).1, (deserialize msg shifted).2, e2) ∧
    concat (omap (λ ev, match ev with Data bs => Some bs | _ => None end) (ep_input e2)) =
      drop k image2.
Proof.
  intros Ha Hw1 Hw2 Hk image1 image2 shifted Hi.
  pose proof (length_message_image pad m1 Hw1) as Hl1. fold image1 in Hl1.
  pose proof (length_message_image pad m2 Hw2) as Hl2. fold image2 in Hl2.
  change (Z.to_nat sizeof_ControlMessage) with 288%nat in *.
  assert (recv_loop (ep_input e) [] = Some (TimedOut, [Data (drop k image1 ++ image2)])) as Ht.
  { rewrite Hi. apply (recv_loop_timeout [take k image1]). simpl.
    rewrite app_nil_r, length_take. change (Z.to_nat sizeof_ControlMessage) with 288%nat. lia. }
  destruct (ep_receive_timeout e msg _ Ha Ht) as (e1 & Hr1 & Ha1 & Hi1).
  destruct (ep_receive_segments e1 msg [drop k image1 ++ image2] []) as (e2 & segs' & Hr2 & _ & Hi2 & Hc2);
    [done|done| |].
  { simpl. rewrite app_nil_r, length_app, length_drop, Hl1, Hl2.
    change (Z.to_nat sizeof_ControlMessage) with 288%nat. lia. }
  change (Z.to_nat sizeof_ControlMessage) with 288%nat in *. simpl in Hr2, Hc2.
  rewrite app_nil_r in Hr2, Hc2.
  rewrite take_app, take_ge, length_drop, Hl1 in Hr2 by (rewrite length_drop; lia).
  rewrite drop_app, drop_ge, length_drop, Hl1 in Hc2 by (rewrite length_drop; lia).
  replace (288 - (288 - k))%nat with k in Hr2, Hc2 by lia. cbn [app] in Hc2.
  exists e1, e2. split_and!; [done..|].
  rewrite Hi2, app_nil_r. rewrite <-Hc2. f_equal.
  clear. induction segs' as [|s segs' IH]; [done|]. cbn. by f_equal.
Qed.

Lemma timeout_loses_framing_witness :
  let image := message_image example_padding example_message in
  let sv := example_server [Data (take 10 image); RecvTimeout; Data (drop 10 image ++ image)] in
  ∃ sv1 sv2, server_receive_message sv zero_message = Some (false, zero_message, sv1) ∧
    option_map (λ r, r.1.1) (server_receive_message sv1 zero_message) = Some false ∧
    ts_client_fd sv2 = 4.
Proof.
  intros image sv.
  destruct (timeout_loses_framing sv zero_message example_padding example_message
    example_message 10) as (sv1 & sv2 & H1 & _ & H2 & _);
    [reflexivity|apply example_message_wf|apply example_message_wf|lia|reflexivity|].
  exists sv1, sv1. split; [exact H1|]. split.
  - cbn [ep_receive server_endpoint] in H2. rewrite H2. vm_compute. reflexivity.
  - cbn [ep_receive server_endpoint] in H1. vm_compute in H1. injection H1 as <-. reflexivity.
Defined.
