(* ===== verification/Wait.v ===== *)
(** * Waiting for a control message (src/sdr_api.cpp)

    [sdr_recv_post], [sdr_send_post] and [sdr_send_poll] all wait with the same
    loop: receive a message; on failure give up when the connection is gone and
    try again otherwise (a timeout, or bytes that are not a message); skip the
    messages they do not expect.  The loop is written once, against the
    endpoint interface. *)

From S2P Require Import Prelude Bytes Control.

(** How a wait ends: with a message, with the connection gone, or not yet. *)
Inductive wait_result : Type :=
| WaitGot (m : ControlMessage)
| WaitLost
| WaitBlocked.

(** One [receive_message] of a stream, and what holds of every message there is
    to receive. *)
Definition input_step (events events' : list recv_event) : Prop :=
  ∃ o, recv_loop events [] = Some (o, events').

Definition all_messages (P : ControlMessage → Prop) (events : list recv_event) : Prop :=
  ∀ ev bs rest, rtc input_step events ev → recv_loop ev [] = Some (Received bs, rest) →
    ∀ msg m, deserialize msg bs = (true, m) → P m.

Lemma all_messages_step P events events' : all_messages P events →
  rtc input_step events events' → all_messages P events'.
Proof. intros Hall Hs ev bs rest Hr. apply Hall. by etrans. Qed.

Lemma input_steps_le events events' : rtc input_step events events' →
  (input_size events' ≤ input_size events)%nat.
Proof.
  induction 1 as [|x y z [o Ho] _ IH]; [done|].
  pose proof (recv_loop_consumes _ [] _ _ sizeof_ControlMessage_pos Ho). lia.
Qed.

(** The messages of a stream, one [receive_message] at a time. *)
Lemma all_messages_none P events : recv_loop events [] = None → all_messages P events.
Proof.
  intros Hn ev bs rest Hr Hl. destruct Hr as [|x y z [o Ho] _]; congruence.
Qed.

Lemma all_messages_next P events o rest : recv_loop events [] = Some (o, rest) →
  (∀ bs msg m, o = Received bs → deserialize msg bs = (true, m) → P m) →
  all_messages P rest → all_messages P events.
Proof.
  intros Hn Hp Hall ev bs rest' Hr Hl msg m Hd. destruct Hr as [|x y z [o' Ho] Hr].
  - apply (Hp bs msg m); congruence.
  - rewrite Ho in Hn. injection Hn as -> ->. by eapply Hall.
Qed.

Section Wait.
Context {E : Type} `{!ControlEndpoint E}.

(** The [while (true)] loops; [expected] is the test that ends them, [msg] the
    variable they receive into. *)
Fixpoint wait_loop (fuel : nat) (e : E) (msg : ControlMessage)
    (expected : ControlMessage → bool) : option (wait_result * E) :=
  match fuel with
  | O => None
  | S fuel =>
      match ep_receive e msg with
      | None => Some (WaitBlocked, e)
      | Some (ok, msg, e) =>
          if negb ok then
            if negb (ep_alive e) then Some (WaitLost, e)
            else wait_loop fuel e msg expected
          else if expected msg then Some (WaitGot msg, e)
          else wait_loop fuel e msg expected
      end
  end.

(** Each round consumes input, so the input's size bounds the rounds
    ([wait_loop_enough]). *)
Definition wait_message (e : E) (msg : ControlMessage) (expected : ControlMessage → bool)
    : wait_result * E :=
  match wait_loop (S (input_size (ep_input e))) e msg expected with
  | Some r => r
  | None => (WaitBlocked, e)
  end.

Lemma wait_loop_S fuel e msg expected : wait_loop (S fuel) e msg expected =
  match ep_receive e msg with
  | None => Some (WaitBlocked, e)
  | Some (ok, msg, e) =>
      if negb ok then
        if negb (ep_alive e) then Some (WaitLost, e) else wait_loop fuel e msg expected
      else if expected msg then Some (WaitGot msg, e) else wait_loop fuel e msg expected
  end.
Proof. done. Qed.

Context `{!ControlEndpointOk E}.

Lemma wait_loop_some fuel : ∀ e msg expected, (input_size (ep_input e) < fuel)%nat →
  ∃ r, wait_loop fuel e msg expected = Some r ∧
    ∀ fuel', (fuel ≤ fuel')%nat → wait_loop fuel' e msg expected = Some r.
Proof.
  induction fuel as [|fuel IH]; intros e msg expected Hf; [lia|]. cbn.
  destruct (ep_receive e msg) as [[[ok m] e']|] eqn:Hr.
  2: { eexists; split; [done|]. intros [|fuel'] ?; [lia|]. cbn. by rewrite Hr. }
  assert (ep_alive e' = true → (input_size (ep_input e') < fuel)%nat) as Hless.
  { intros Ha'. destruct (ep_alive e) eqn:Ha.
    - pose proof (ep_receive_consumes e msg _ _ _ Ha Hr). lia.
    - rewrite (ep_receive_dead e msg Ha) in Hr. by injection Hr as <- <- <-; congruence. }
  destruct ok; cbn [negb].
  - destruct (expected m) eqn:Hx.
    + eexists; split; [done|]. intros [|fuel'] ?; [lia|]. cbn. by rewrite Hr, Hx.
    + destruct (ep_receive_ok_alive e msg m e' Hr) as [_ Ha'].
      destruct (IH e' m expected (Hless Ha')) as (r & H1 & H2). exists r. split; [done|].
      intros [|fuel'] ?; [lia|]. cbn. rewrite Hr. cbn. rewrite Hx. apply H2. lia.
  - destruct (ep_alive e') eqn:Ha'; cbn [negb].
    + destruct (IH e' m expected (Hless eq_refl)) as (r & H1 & H2). exists r. split; [done|].
      intros [|fuel'] ?; [lia|]. cbn. rewrite Hr. cbn. rewrite Ha'. apply H2. lia.
    + eexists; split; [done|]. intros [|fuel'] ?; [lia|]. cbn. rewrite Hr. cbn. by rewrite Ha'.
Qed.

Lemma wait_loop_result fuel : ∀ e msg expected r e',
  wait_loop fuel e msg expected = Some (r, e') →
  match r with
  | WaitGot m => expected m = true ∧ ep_alive e' = true
  | WaitLost => ep_alive e' = false
  | WaitBlocked => ep_alive e' = true ∧ recv_loop (ep_input e') [] = None
  end.
Proof.
  induction fuel as [|fuel IH]; intros e msg expected r e'; [done|]. cbn.
  destruct (ep_receive e msg) as [[[ok m] e1]|] eqn:Hr.
  2: { intros [= <- <-]. by apply (ep_receive_none e msg). }
  destruct ok; cbn [negb].
  - destruct (expected m) eqn:Hx; [|apply IH]. intros [= <- <-]. split; [done|].
    by apply (ep_receive_ok_alive e msg m).
  - destruct (ep_alive e1) eqn:Ha; cbn; [apply IH|]. by intros [= <- <-].
Qed.

(** One round of the loop. *)
Definition wait_round (e : E) (msg : ControlMessage) (expected : ControlMessage → bool)
    : wait_result * E :=
  match ep_receive e msg with
  | None => (WaitBlocked, e)
  | Some (ok, msg, e) =>
      if negb ok then
        if negb (ep_alive e) then (WaitLost, e) else wait_message e msg expected
      else if expected msg then (WaitGot msg, e) else wait_message e msg expected
  end.

Lemma wait_message_fuel fuel e msg expected : (input_size (ep_input e) < fuel)%nat →
  wait_loop fuel e msg expected = Some (wait_message e msg expected).
Proof.
  intros Hf. unfold wait_message.
  destruct (wait_loop_some (S (input_size (ep_input e))) e msg expected) as (r & H1 & H2); [lia|].
  rewrite H1. apply H2. lia.
Qed.

Lemma wait_message_eq e msg expected : wait_message e msg expected = wait_round e msg expected.
Proof.
  pose proof (wait_message_fuel (S (S (input_size (ep_input e)))) e msg expected ltac:(lia)) as H.
  rewrite wait_loop_S in H. unfold wait_round.
  destruct (ep_receive e msg) as [[[ok m] e']|] eqn:Hr; [|by injection H].
  assert ((input_size (ep_input e') < S (input_size (ep_input e)))%nat) as Hless.
  { destruct (ep_alive e) eqn:Ha.
    - pose proof (ep_receive_consumes e msg _ _ _ Ha Hr). lia.
    - rewrite (ep_receive_dead e msg Ha) in Hr. injection Hr as <- <- <-. lia. }
  rewrite !(wait_message_fuel _ e' m expected Hless) in H.
  destruct (negb ok); [destruct (negb (ep_alive e'))|destruct (expected m)]; by injection H.
Qed.

(** ** The messages in a stream *)

(** What a [receive_message] on a live connection leaves of the input. *)
Lemma ep_receive_step e msg ok m e' : ep_receive e msg = Some (ok, m, e') →
  rtc input_step (ep_input e) (ep_input e') ∧
  (ok = true → ∃ bs, recv_loop (ep_input e) [] = Some (Received bs, ep_input e') ∧
    deserialize msg bs = (true, m)).
Proof.
  intros Hr. destruct (ep_alive e) eqn:Ha.
  2: { rewrite (ep_receive_dead e msg Ha) in Hr. by injection Hr as <- <- <-. }
  destruct (recv_loop (ep_input e) []) as [[o events]|] eqn:Hl.
  2: { rewrite ep_receive_blocked in Hr by done. done. }
  assert (input_step (ep_input e) events) as Hs by (by exists o).
  destruct o.
  - destruct (ep_receive_bytes e msg bs events Ha Hl) as (e2 & Hr2 & _ & Hi).
    rewrite Hr2 in Hr. injection Hr as Hok Hm <-. rewrite Hi. split; [by apply rtc_once|].
    intros ->. exists bs. split; [done|]. destruct (deserialize msg bs). by simpl in *; subst.
  - destruct (ep_receive_timeout e msg events Ha Hl) as (e2 & Hr2 & _ & Hi).
    rewrite Hr2 in Hr. injection Hr as <- <- <-. rewrite Hi. split; [by apply rtc_once|done].
  - destruct (ep_receive_disconnected e msg events Ha Hl) as (e2 & Hr2 & _ & Hi).
    rewrite Hr2 in Hr. injection Hr as <- <- <-. rewrite Hi. split; [by apply rtc_once|done].
Qed.

Lemma wait_loop_step fuel : ∀ e msg expected r e', wait_loop fuel e msg expected = Some (r, e') →
  rtc input_step (ep_input e) (ep_input e').
Proof.
  induction fuel as [|fuel IH]; intros e msg expected r e'; [done|]. cbn.
  destruct (ep_receive e msg) as [[[ok m] e1]|] eqn:Hr; [|by intros [= <- <-]].
  pose proof (proj1 (ep_receive_step _ _ _ _ _ Hr)) as H1. destruct ok; cbn.
  - destruct (expected m); [by intros [= <- <-]|]. intros H. etrans; [done|by eapply IH].
  - destruct (ep_alive e1); cbn; [|by intros [= <- <-]]. intros H. etrans; [done|by eapply IH].
Qed.

Lemma wait_message_step e msg expected r e' : wait_message e msg expected = (r, e') →
  rtc input_step (ep_input e) (ep_input e').
Proof.
  intros H. apply (wait_loop_step (S (input_size (ep_input e))) e msg expected r).
  rewrite wait_message_fuel by lia. by rewrite H.
Qed.

(** What every [receive_message] keeps a wait keeps. *)
Lemma wait_message_keeps (R : E → E → Prop) `{!PreOrder R} e msg expected r e' :
  (∀ e msg ok m e', ep_receive e msg = Some (ok, m, e') → R e e') →
  wait_message e msg expected = (r, e') → R e e'.
Proof.
  intros HR. assert (∀ fuel e msg r e', wait_loop fuel e msg expected = Some (r, e') → R e e') as H.
  { clear e msg r e'. induction fuel as [|fuel IH]; intros e msg r e'; [done|]. cbn.
    destruct (ep_receive e msg) as [[[ok m] e1]|] eqn:Hr; [|by intros [= <- <-]].
    apply HR in Hr. destruct ok; cbn.
    - destruct (expected m); [by intros [= <- <-]|]. intros H. etrans; [done|by eapply IH].
    - destruct (ep_alive e1); cbn; [|by intros [= <- <-]]. intros H. etrans; [done|by eapply IH]. }
  intros Hw. apply (H (S (input_size (ep_input e))) e msg r).
  rewrite wait_message_fuel by lia. by rewrite Hw.
Qed.

(** A message [receive_message] delivers is one of the stream. *)
Lemma received_message P e msg m e' : all_messages P (ep_input e) →
  ep_receive e msg = Some (true, m, e') → P m ∧ all_messages P (ep_input e').
Proof.
  intros Hall Hr. destruct (ep_receive_step _ _ _ _ _ Hr) as [Hs Hd].
  destruct (Hd eq_refl) as (bs & Hl & Hm). split; [by apply (Hall _ bs _ (rtc_refl _ _) Hl msg)|].
  by eapply all_messages_step.
Qed.

(** ** Streams of control traffic *)

(** What a peer and the network can put before the message a wait is for: other
    messages, [sizeof(ControlMessage)] bytes without the magic, timeouts. *)
Inductive traffic : Type :=
| TrafficMessage (pad : Padding) (m : ControlMessage)
| TrafficGarbage (bs : list Z)
| TrafficTimeout.

(** The events of a piece of traffic, in any segmentation. *)
Definition traffic_events (t : traffic) (events : list recv_event) : Prop :=
  match t with
  | TrafficMessage pad m => ∃ segs, events = Data <$> segs ∧ concat segs = message_image pad m ∧
      wf_padding pad ∧ wf_message m ∧ cm_magic m = CONTROL_MAGIC
  | TrafficGarbage bs => ∃ segs, events = Data <$> segs ∧ concat segs = bs ∧
      Z.of_nat (length bs) = sizeof_ControlMessage ∧
      (cm_magic (message_of_image bs) =? CONTROL_MAGIC) = false
  | TrafficTimeout => events = [RecvTimeout]
  end.

Definition skipped (expected : ControlMessage → bool) (t : traffic) : Prop :=
  match t with TrafficMessage _ m => expected m = false | _ => True end.

(** Empty segments left by the previous message do not matter. *)
Definition input_is (e : E) (events : list recv_event) : Prop :=
  ∃ pre, ep_input e = (Data <$> pre) ++ events ∧ concat pre = [].

Lemma receive_whole_message e msg pre segs tail bs : ep_alive e = true →
  ep_input e = (Data <$> pre) ++ (Data <$> segs) ++ tail → concat pre = [] → concat segs = bs →
  Z.of_nat (length bs) = sizeof_ControlMessage →
  ∃ e', ep_receive e msg = Some ((deserialize msg bs).1, (deserialize msg bs).2, e') ∧
    ep_alive e' = true ∧ input_is e' tail.
Proof.
  intros Ha Hi Hpre Hc Hlen.
  destruct (ep_receive_segments e msg (pre ++ segs) tail Ha) as (e' & segs' & Hr & Ha' & Hi' & Hc').
  { by rewrite Hi, fmap_app, app_assoc. }
  { rewrite concat_app, Hpre, Hc. simpl. lia. }
  rewrite concat_app, Hpre, Hc in Hr, Hc'. simpl in Hr, Hc'.
  rewrite take_ge in Hr by lia. rewrite drop_ge in Hc' by lia.
  exists e'. split_and!; [done|done|]. by exists segs'.
Qed.

Lemma traffic_round e msg expected t events tail : ep_alive e = true →
  traffic_events t events → skipped expected t → input_is e (events ++ tail) →
  ∃ e' msg', wait_message e msg expected = wait_message e' msg' expected ∧
    ep_alive e' = true ∧ input_is e' tail.
Proof.
  intros Ha Ht Hs (pre & Hi & Hpre). rewrite wait_message_eq. unfold wait_round.
  destruct t as [pad m|bs|]; cbn in Ht, Hs.
  - destruct Ht as (segs & -> & Hc & Hpad & Hwf & Hmagic).
    destruct (receive_whole_message e msg pre segs tail _ Ha Hi Hpre Hc) as (e' & Hr & Ha' & Hi').
    { rewrite length_message_image by done. unfold sizeof_ControlMessage. lia. }
    pose proof (deserialize_image msg pad m [] Hpad Hwf Hmagic) as Hd. rewrite app_nil_r in Hd.
    rewrite Hd in Hr. rewrite Hr. cbn. rewrite Hs. by exists e', m.
  - destruct Ht as (segs & -> & Hc & Hlen & Hmagic).
    destruct (receive_whole_message e msg pre segs tail _ Ha Hi Hpre Hc Hlen) as (e' & Hr & Ha' & Hi').
    unfold deserialize in Hr. rewrite (proj2 (Z.ltb_ge _ _)), Hmagic in Hr by lia.
    cbn in Hr. rewrite Hr. cbn. rewrite Ha'. cbn. eauto.
  - subst events. assert (recv_loop (ep_input e) [] = Some (TimedOut, tail)) as Hl.
    { rewrite Hi. apply recv_loop_timeout. rewrite Hpre. apply sizeof_ControlMessage_pos. }
    destruct (ep_receive_timeout e msg _ Ha Hl) as (e' & -> & Ha' & Hi'). cbn. rewrite Ha'. cbn.
    exists e', msg. split_and!; [done|done|]. by exists [].
Qed.

Lemma traffic_rounds ts : ∀ evss e msg expected tail, ep_alive e = true →
  Forall2 traffic_events ts evss → Forall (skipped expected) ts →
  input_is e (concat evss ++ tail) →
  ∃ e' msg', wait_message e msg expected = wait_message e' msg' expected ∧
    ep_alive e' = true ∧ input_is e' tail.
Proof.
  induction ts as [|t ts IH]; intros evss e msg expected tail Ha Hev Hs Hi;
    inversion Hev as [|? evs ? evss' Hev1 Hev2]; subst; [by exists e, msg|].
  inversion Hs; subst. cbn [concat] in Hi. rewrite <-app_assoc in Hi.
  destruct (traffic_round e msg expected t evs _ Ha Hev1 ltac:(done) Hi) as (e1 & m1 & -> & Ha1 & Hi1).
  by apply (IH evss').
Qed.

(** After skipped traffic, the expected message. *)
Lemma wait_skips_lemma e msg expected ts evss pad m segs tail : ep_alive e = true →
  Forall2 traffic_events ts evss → Forall (skipped expected) ts →
  wf_padding pad → wf_message m → cm_magic m = CONTROL_MAGIC → expected m = true →
  concat segs = message_image pad m →
  ep_input e = concat evss ++ (Data <$> segs) ++ tail →
  ∃ e', wait_message e msg expected = (WaitGot m, e') ∧ ep_alive e' = true ∧ input_is e' tail.
Proof.
  intros Ha Hev Hs Hpad Hwf Hmagic Hx Hc Hi.
  destruct (traffic_rounds ts evss e msg expected ((Data <$> segs) ++ tail) Ha Hev Hs)
    as (e1 & m1 & -> & Ha1 & (pre & Hi1 & Hpre)); [by exists []|].
  rewrite wait_message_eq. unfold wait_round.
  destruct (receive_whole_message e1 m1 pre segs tail _ Ha1 Hi1 Hpre Hc) as (e' & Hr & Ha' & Hi').
  { rewrite length_message_image by done. unfold sizeof_ControlMessage. lia. }
  pose proof (deserialize_image m1 pad m [] Hpad Hwf Hmagic) as Hd. rewrite app_nil_r in Hd.
  rewrite Hd in Hr. rewrite Hr. cbn. rewrite Hx. by exists e'.
Qed.

(** The expected message comes next. *)
Lemma wait_next e msg expected pad m segs tail : ep_alive e = true →
  wf_padding pad → wf_message m → cm_magic m = CONTROL_MAGIC → expected m = true →
  concat segs = message_image pad m → input_is e ((Data <$> segs) ++ tail) →
  ∃ e', wait_message e msg expected = (WaitGot m, e') ∧ ep_alive e' = true ∧ input_is e' tail.
Proof.
  intros Ha Hpad Hwf Hmagic Hx Hc (pre & Hi & Hpre).
  apply (wait_skips_lemma e msg expected [] [] pad m (pre ++ segs) tail); try done.
  - by rewrite concat_app, Hpre.
  - by rewrite Hi, fmap_app, <-app_assoc.
Qed.

(** ** Properties *)

(** The waits of the API terminate and answer truthfully: the loop's rounds
    are bounded by the input (any fuel above its size gives the same answer),
    a message it returns satisfies the caller's test and came over a live
    connection, and it reports a lost connection only when it is gone. *)
Theorem wait_terminates fuel e msg expected : (input_size (ep_input e) < fuel)%nat →
  let '(r, e') := wait_message e msg expected in
  wait_loop fuel e msg expected = Some (r, e') ∧
  match r with
  | WaitGot m => expected m = true ∧ ep_alive e' = true
  | WaitLost => ep_alive e' = false
  | WaitBlocked => ep_alive e' = true ∧ recv_loop (ep_input e') [] = None
  end.
Proof.
  intros Hf. pose proof (wait_message_fuel fuel e msg expected Hf) as Hw.
  destruct (wait_message e msg expected) as [r e'] eqn:He. split; [done|].
  by apply (wait_loop_result fuel e msg expected).
Qed.

(** The waits skip what they do not expect: after any traffic of other
    messages, full-size garbage and timeouts between messages, in any
    segmentation, the first message that passes the caller's test is the one
    returned, and what follows it is left in the input. *)
Theorem wait_skips_to_expected e msg expected ts evss pad m segs tail : ep_alive e = true →
  Forall2 traffic_events ts evss → Forall (skipped expected) ts →
  wf_padding pad → wf_message m → cm_magic m = CONTROL_MAGIC → expected m = true →
  concat segs = message_image pad m →
  ep_input e = concat evss ++ (Data <$> segs) ++ tail →
  ∃ e', wait_message e msg expected = (WaitGot m, e') ∧ ep_alive e' = true ∧ input_is e' tail.
Proof. apply wait_skips_lemma. Qed.

End Wait.

(** A stream with a timeout, garbage and an unexpected message before the
    expected one. *)
Definition example_accept : ControlMessage :=
  mkMessage CONTROL_MAGIC (ControlMsgType.value ControlMsgType.ACCEPT) 1 example_params 0
    (replicate 16 0) 0 (replicate 16 0) (replicate 16 0).

Definition example_garbage : list Z := replicate 288 9.

Lemma example_accept_wf : wf_message example_accept.
Proof.
  constructor; try apply example_params_wf;
  cbn [example_accept cm_magic cm_msg_type cm_connection_id cm_chunk_bitmap_words
    cm_chunk_bitmap cm_num_gaps cm_gap_start cm_gap_len ControlMsgType.value];
  unfold CONTROL_MAGIC; solve_wf.
Qed.

Lemma wait_terminates_witness :
  let sv := example_server [RecvTimeout; Data example_garbage; RecvClosed] in
  wait_loop 400 sv zero_message (λ _, true) =
    Some (wait_message sv zero_message (λ _, true)).
Proof.
  intros sv.
  pose proof (wait_terminates 400 sv zero_message (λ _, true) ltac:(apply Nat.ltb_lt; vm_compute; reflexivity)) as H.
  rewrite (surjective_pairing (wait_message sv zero_message (λ _, true))).
  rewrite (surjective_pairing (wait_message sv zero_message (λ _, true))) in H. exact (proj1 H).
Defined.

Lemma wait_skips_to_expected_witness :
  let image := message_image example_padding example_message in
  let accept := message_image example_padding example_accept in
  let sv := example_server [RecvTimeout; Data example_garbage; Data image; Data accept; RecvClosed] in
  ∃ sv', wait_message sv zero_message (λ m, msg_is m ControlMsgType.ACCEPT) =
    (WaitGot example_accept, sv').
Proof.
  intros image accept sv.
  destruct (wait_skips_to_expected sv zero_message (λ m, msg_is m ControlMsgType.ACCEPT)
    [TrafficTimeout; TrafficGarbage example_garbage; TrafficMessage example_padding example_message]
    [[RecvTimeout]; [Data example_garbage]; [Data image]]
    example_padding example_accept [accept] [RecvClosed]) as (sv' & Hw & _).
  - reflexivity.
  - constructor; [reflexivity|]. constructor; [|constructor; [|constructor]].
    + exists [example_garbage]. split; [reflexivity|]. split; [reflexivity|].
      split; vm_compute; reflexivity.
    + exists [image]. split; [reflexivity|]. split; [apply app_nil_r|].
      split; [apply example_padding_wf|]. split; [apply example_message_wf|reflexivity].
  - repeat constructor.
  - apply example_padding_wf.
  - apply example_accept_wf.
  - reflexivity.
  - reflexivity.
  - apply app_nil_r.
  - reflexivity.
  - exists sv'. exact Hw.
Defined.
