(* ===== verification/Connection.v ===== *)
(** * Connection and message contexts (include/sdr_connection.h)

    The per-connection message table: slots, their states, the per-slot
    generation counters and the null sink.  A [MessageContext*] is the number
    of its slot; a buffer pointer is a [Buffer]. *)

From S2P Require Import Prelude Bits Backend Frontend Control.

(** [enum class MessageState]. *)
Module MessageState.
Inductive t : Set := ACTIVE | COMPLETED | DEAD | NULL_STATE.

#[export] Instance eq_dec : EqDecision t.
Proof. solve_decision. Defined.
End MessageState.
Import MessageState.

(** What [void* buffer] points at: nothing, a buffer of the application (by its
    number in the application's memory), the connection's one-byte null sink. *)
Inductive Buffer : Set :=
| BufNull
| BufUser (id : Z)
| BufNullSink.

#[export] Instance Buffer_eq_dec : EqDecision Buffer.
Proof. solve_decision. Defined.

Record MessageContext : Set := mkContext {
  mc_msg_id : Z;
  mc_generation : Z;
  mc_state : MessageState.t;
  mc_buffer : Buffer;
  mc_buffer_size : Z;
  mc_total_packets : Z;
  mc_total_chunks : Z;
  mc_packets_per_chunk : Z;
  mc_backend : option BackendBitmap;
  mc_frontend : option FrontendBitmap;   (* its backend is [mc_backend] *)
  mc_params : ConnectionParams
}.

(** [MessageContext::MessageContext()]. *)
Definition new_context : MessageContext :=
  mkContext 0 0 NULL_STATE BufNull 0 0 0 0 None None zero_params.

Definition mc_set_state (mc : MessageContext) (s : MessageState.t) (buf : Buffer)
    : MessageContext :=
  mkContext (mc_msg_id mc) (mc_generation mc) s buf (mc_buffer_size mc)
    (mc_total_packets mc) (mc_total_chunks mc) (mc_packets_per_chunk mc)
    (mc_backend mc) (mc_frontend mc) (mc_params mc).

Definition mc_set_backend (mc : MessageContext) (b : BackendBitmap) : MessageContext :=
  mkContext (mc_msg_id mc) (mc_generation mc) (mc_state mc) (mc_buffer mc)
    (mc_buffer_size mc) (mc_total_packets mc) (mc_total_chunks mc)
    (mc_packets_per_chunk mc) (Some b) (mc_frontend mc) (mc_params mc).

Definition mc_set_frontend (mc : MessageContext) (fb : FrontendBitmap) : MessageContext :=
  mkContext (mc_msg_id mc) (mc_generation mc) (mc_state mc) (mc_buffer mc)
    (mc_buffer_size mc) (mc_total_packets mc) (mc_total_chunks mc)
    (mc_packets_per_chunk mc) (mc_backend mc) (Some fb) (mc_params mc).

Definition MAX_MESSAGES : Z := 1024.

Record ConnectionContext : Set := mkConnectionContext {
  cx_connection_id : Z;
  cx_params : ConnectionParams;
  cx_is_initialized : bool;
  cx_auto_send_data : bool;
  cx_msg_table : gmap Z MessageContext;   (* absent key: null unique_ptr *)
  cx_null_sink : list Z;
  cx_generation_counters : list Z;
  cx_tcp_socket_fd : Z;
  cx_udp_socket_fd : Z
}.

(** [ConnectionContext::ConnectionContext()]. *)
Definition new_connection_context : ConnectionContext :=
  mkConnectionContext 0 zero_params false true ∅ (replicate 1 0)
    (replicate (Z.to_nat MAX_MESSAGES) 1) (-1) (-1).

Definition cx_with_table (cx : ConnectionContext) (t : gmap Z MessageContext)
    : ConnectionContext :=
  mkConnectionContext (cx_connection_id cx) (cx_params cx) (cx_is_initialized cx)
    (cx_auto_send_data cx) t (cx_null_sink cx) (cx_generation_counters cx)
    (cx_tcp_socket_fd cx) (cx_udp_socket_fd cx).

Definition cx_with_null_sink (cx : ConnectionContext) (m : list Z) : ConnectionContext :=
  mkConnectionContext (cx_connection_id cx) (cx_params cx) (cx_is_initialized cx)
    (cx_auto_send_data cx) (cx_msg_table cx) m (cx_generation_counters cx)
    (cx_tcp_socket_fd cx) (cx_udp_socket_fd cx).

Definition initialize (cx : ConnectionContext) (connection_id : Z) (params : ConnectionParams)
    : bool * ConnectionContext :=
  (true, mkConnectionContext connection_id params true (cx_auto_send_data cx)
           (cx_msg_table cx) (cx_null_sink cx) (cx_generation_counters cx)
           (cx_tcp_socket_fd cx) (cx_udp_socket_fd cx)).

Definition set_auto_send_data (cx : ConnectionContext) (enable : bool) : ConnectionContext :=
  mkConnectionContext (cx_connection_id cx) (cx_params cx) (cx_is_initialized cx)
    enable (cx_msg_table cx) (cx_null_sink cx) (cx_generation_counters cx)
    (cx_tcp_socket_fd cx) (cx_udp_socket_fd cx).

Definition set_udp_socket (cx : ConnectionContext) (udp_fd : Z) : ConnectionContext :=
  mkConnectionContext (cx_connection_id cx) (cx_params cx) (cx_is_initialized cx)
    (cx_auto_send_data cx) (cx_msg_table cx) (cx_null_sink cx) (cx_generation_counters cx)
    (cx_tcp_socket_fd cx) udp_fd.

(** The tests of [allocate_message_slot] on an occupied slot. *)
Definition slot_busy (mc : MessageContext) (generation : Z) : bool :=
  bool_decide (mc_state mc = ACTIVE) ||
  ((bool_decide (mc_state mc = COMPLETED) || bool_decide (mc_state mc = DEAD)) &&
   (mc_generation mc >=? generation)).

(** [allocate_message_slot]: the slot, or [nullptr]. *)
Definition allocate_message_slot (cx : ConnectionContext) (msg_id generation : Z)
    : option Z * ConnectionContext :=
  if msg_id >=? MAX_MESSAGES then (None, cx) else
  if match cx_msg_table cx !! msg_id with
     | Some mc => slot_busy mc generation
     | None => false
     end
  then (None, cx) else
  let rotated_gen := cx_generation_counters cx !!! Z.to_nat msg_id in
  let counters := <[Z.to_nat msg_id := rotated_gen +u32 1]> (cx_generation_counters cx) in
  let mc := mkContext msg_id rotated_gen ACTIVE BufNull 0 0 0 0 None None (cx_params cx) in
  (Some msg_id,
   mkConnectionContext (cx_connection_id cx) (cx_params cx) (cx_is_initialized cx)
     (cx_auto_send_data cx) (<[msg_id := mc]> (cx_msg_table cx)) (cx_null_sink cx) counters
     (cx_tcp_socket_fd cx) (cx_udp_socket_fd cx)).

(** [get_message]: the slot, or [nullptr]. *)
Definition get_message (cx : ConnectionContext) (msg_id : Z) : option Z :=
  if msg_id >=? MAX_MESSAGES then None else
  match cx_msg_table cx !! msg_id with
  | None => None
  | Some mc => if bool_decide (mc_state mc = NULL_STATE) then None else Some msg_id
  end.

Definition release_message (cx : ConnectionContext) (msg_id : Z) : ConnectionContext :=
  if msg_id >=? MAX_MESSAGES then cx else
  cx_with_table cx (delete msg_id (cx_msg_table cx)).

Definition complete_message (cx : ConnectionContext) (msg_id : Z) : ConnectionContext :=
  if msg_id >=? MAX_MESSAGES then cx else
  match cx_msg_table cx !! msg_id with
  | None => cx
  | Some mc => cx_with_table cx
      (<[msg_id := mc_set_state mc DEAD BufNullSink]> (cx_msg_table cx))
  end.

(** [calculate_bitmap_sizes], in [size_t]: total packets and total chunks. *)
Definition calculate_bitmap_sizes (total_bytes mtu_bytes packets_per_chunk : Z) : Z * Z :=
  if (mtu_bytes =? 0) || (packets_per_chunk =? 0) then (0, 0) else
  let total_packets := u64 (total_bytes + mtu_bytes - 1) / mtu_bytes in
  let total_chunks := u64 (total_packets + packets_per_chunk - 1) / packets_per_chunk in
  (total_packets, total_chunks).

(** ** Histories of a connection *)

(** The operations on the table; [CxSetState] is the assignment
    [ctx->state = MessageState::COMPLETED] of the erasure-coding receiver. *)
Inductive cx_op : Set :=
| CxAllocate (msg_id generation : Z)
| CxComplete (msg_id : Z)
| CxRelease (msg_id : Z)
| CxMarkCompleted (msg_id : Z).

Definition mark_completed (cx : ConnectionContext) (msg_id : Z) : ConnectionContext :=
  match cx_msg_table cx !! msg_id with
  | None => cx
  | Some mc => cx_with_table cx
      (<[msg_id := mc_set_state mc COMPLETED (mc_buffer mc)]> (cx_msg_table cx))
  end.

(** One operation, and the (slot, generation) it handed out, if any. *)
Definition cx_step (cx : ConnectionContext) (op : cx_op)
    : list (Z * Z) * ConnectionContext :=
  match op with
  | CxAllocate msg_id generation =>
      let '(slot, cx') := allocate_message_slot cx msg_id generation in
      (match slot with
       | Some s => match cx_msg_table cx' !! s with
                   | Some mc => [(s, mc_generation mc)] | None => [] end
       | None => []
       end, cx')
  | CxComplete msg_id => ([], complete_message cx msg_id)
  | CxRelease msg_id => ([], release_message cx msg_id)
  | CxMarkCompleted msg_id => ([], mark_completed cx msg_id)
  end.

Fixpoint cx_run (cx : ConnectionContext) (ops : list cx_op)
    : list (Z * Z) * ConnectionContext :=
  match ops with
  | [] => ([], cx)
  | op :: ops =>
      let '(given, cx) := cx_step cx op in
      let '(more, cx) := cx_run cx ops in
      (given ++ more, cx)
  end.

Definition op_ok (op : cx_op) : Prop :=
  match op with CxAllocate msg_id _ => 0 ≤ msg_id | _ => True end.

(** The table's invariant after at most [n] allocations. *)
Record wf_cx (n : Z) (cx : ConnectionContext) : Prop := {
  wfc_counters : length (cx_generation_counters cx) = Z.to_nat MAX_MESSAGES;
  wfc_counter_range : ∀ i c, cx_generation_counters cx !! i = Some c → 1 ≤ c ≤ n + 1;
  wfc_generation : ∀ s mc, cx_msg_table cx !! s = Some mc →
    0 ≤ s < MAX_MESSAGES ∧ mc_msg_id mc = s ∧ mc_state mc ≠ NULL_STATE ∧
    mc_generation mc < cx_generation_counters cx !!! Z.to_nat s
}.

Lemma new_connection_context_wf : wf_cx 0 new_connection_context.
Proof.
  constructor; cbn [new_connection_context cx_generation_counters cx_msg_table].
  - by rewrite length_replicate.
  - intros i c [-> _]%lookup_replicate. lia.
  - intros s mc. by rewrite lookup_empty.
Qed.

Lemma wf_cx_mono n n' cx : wf_cx n cx → n ≤ n' → wf_cx n' cx.
Proof.
  intros [] ?. constructor; [done| |done]. intros i c Hi.
  specialize (wfc_counter_range0 i c Hi). lia.
Qed.

(** The slot can be given out for a transfer of [generation]. *)
Definition slot_free (cx : ConnectionContext) (msg_id generation : Z) : bool :=
  (msg_id <? MAX_MESSAGES) &&
  match cx_msg_table cx !! msg_id with
  | Some mc => negb (slot_busy mc generation)
  | None => true
  end.

(** What [allocate_message_slot] does on every branch. *)
Lemma allocate_message_slot_eq cx msg_id generation :
  allocate_message_slot cx msg_id generation =
    if slot_free cx msg_id generation then
      let g := cx_generation_counters cx !!! Z.to_nat msg_id in
      (Some msg_id,
       mkConnectionContext (cx_connection_id cx) (cx_params cx) (cx_is_initialized cx)
         (cx_auto_send_data cx)
         (<[msg_id := mkContext msg_id g ACTIVE BufNull 0 0 0 0 None None (cx_params cx)]>
            (cx_msg_table cx)) (cx_null_sink cx)
         (<[Z.to_nat msg_id := g +u32 1]> (cx_generation_counters cx))
         (cx_tcp_socket_fd cx) (cx_udp_socket_fd cx))
    else (None, cx).
Proof.
  unfold allocate_message_slot, slot_free. case_bool.
  { by rewrite (proj2 (Z.ltb_ge _ _)) by lia. }
  rewrite (proj2 (Z.ltb_lt _ _)) by lia.
  destruct (cx_msg_table cx !! msg_id) as [mc|]; [|done].
  by destruct (slot_busy mc generation).
Qed.

(** Changing the state of an occupied slot keeps the invariant. *)
Lemma wf_cx_set_state n cx s mc st buf : wf_cx n cx → cx_msg_table cx !! s = Some mc →
  st ≠ NULL_STATE →
  wf_cx n (cx_with_table cx (<[s := mc_set_state mc st buf]> (cx_msg_table cx))).
Proof.
  intros [H1 H2 H3] Hmc Hst. constructor; [done|done|]. cbn. intros t mc'.
  rewrite lookup_insert. case_decide as Hs; [subst t|apply H3].
  intros [= <-]. by destruct (H3 _ _ Hmc) as (? & ? & ? & ?).
Qed.

Lemma wf_cx_delete n cx s : wf_cx n cx →
  wf_cx n (cx_with_table cx (delete s (cx_msg_table cx))).
Proof.
  intros [H1 H2 H3]. constructor; [done|done|]. cbn. intros t mc'.
  rewrite lookup_delete. case_decide; [done|apply H3].
Qed.

Lemma counter_lookup n cx id : wf_cx n cx → 0 ≤ id < MAX_MESSAGES →
  (Z.to_nat id < length (cx_generation_counters cx))%nat ∧
  1 ≤ cx_generation_counters cx !!! Z.to_nat id ≤ n + 1.
Proof.
  intros Hwf Hid.
  assert (Z.to_nat id < length (cx_generation_counters cx))%nat as Hlt
    by (rewrite (wfc_counters _ _ Hwf); lia).
  split; [done|]. destruct (lookup_lt_is_Some_2 _ _ Hlt) as [c Hc].
  rewrite (list_lookup_total_correct _ _ _ Hc). by eapply wfc_counter_range.
Qed.

Lemma allocate_wf n cx id g s cx' : wf_cx n cx → 0 ≤ id → 0 ≤ n → n + 2 < 4294967296 →
  allocate_message_slot cx id g = (Some s, cx') →
  s = id ∧ id < MAX_MESSAGES ∧ wf_cx (n + 1) cx' ∧
  cx_msg_table cx' !! id = Some (mkContext id (cx_generation_counters cx !!! Z.to_nat id)
    ACTIVE BufNull 0 0 0 0 None None (cx_params cx)) ∧
  cx_generation_counters cx' =
    <[Z.to_nat id := cx_generation_counters cx !!! Z.to_nat id + 1]> (cx_generation_counters cx).
Proof.
  intros Hwf Hid0 Hn0 Hn. rewrite allocate_message_slot_eq.
  destruct (slot_free cx id g) eqn:Hd; [|done].
  assert (id < MAX_MESSAGES) as Hid by (apply andb_true_iff in Hd as [?%Z.ltb_lt _]; done). destruct (counter_lookup n cx id Hwf ltac:(lia)) as [Hlt Hc].
  cbv zeta. rewrite u32_small by lia. intros [= <- <-].
  split_and!; [done|done| |by cbn; rewrite lookup_insert_eq|done].
  constructor; cbn [cx_generation_counters cx_msg_table].
  - rewrite length_insert. apply (wfc_counters _ _ Hwf).
  - intros i d. rewrite list_lookup_insert. case_decide; [intros [= <-]; lia|].
    intros Hi. pose proof (wfc_counter_range _ _ Hwf _ _ Hi). lia.
  - intros t mc. rewrite lookup_insert. case_decide as Ht; [subst t|].
    + intros [= <-]. cbn. rewrite list_lookup_total_insert_eq by done.
      split_and!; [done..|lia].
    + intros Hmc. pose proof (wfc_generation _ _ Hwf _ _ Hmc) as (Hs0 & Hm & Hst & Hg).
      rewrite list_lookup_total_insert_ne by lia. done.
Qed.

(** Operations other than allocation touch no counter. *)
Lemma cx_step_other cx op n : wf_cx n cx → (∀ id g, op ≠ CxAllocate id g) →
  ∃ cx', cx_step cx op = ([], cx') ∧ wf_cx n cx' ∧
    cx_generation_counters cx' = cx_generation_counters cx.
Proof.
  intros Hwf Hop. destruct op as [id g|id|id|id]; [by destruct (Hop id g)| | |]; simpl;
    eexists; (split; [done|]).
  - unfold complete_message. case_match; [done|]. case_match; [|done].
    split; [by apply wf_cx_set_state|done].
  - unfold release_message. case_match; [done|]. split; [by apply wf_cx_delete|done].
  - unfold mark_completed. case_match; [|done]. split; [by apply wf_cx_set_state|done].
Qed.

(** One operation against the counters. *)
Lemma cx_step_counter cx op given cx' n : wf_cx n cx → op_ok op → 0 ≤ n → n + 2 < 4294967296 →
  cx_step cx op = (given, cx') →
  wf_cx (n + 1) cx' ∧
  (∀ i, cx_generation_counters cx !!! i ≤ cx_generation_counters cx' !!! i) ∧
  (given = [] ∨ ∃ s, 0 ≤ s ∧ given = [(s, cx_generation_counters cx !!! Z.to_nat s)] ∧
     cx_generation_counters cx !!! Z.to_nat s < cx_generation_counters cx' !!! Z.to_nat s).
Proof.
  intros Hwf Hop Hn0 Hn Hst.
  assert ((∃ id g, op = CxAllocate id g) ∨ ∀ id g, op ≠ CxAllocate id g)
    as [(id & g & ->)|Hother] by (destruct op; [left; eauto|by right..]).
  2: { destruct (cx_step_other cx op n Hwf Hother) as (cx2 & Hst2 & Hwf2 & Hc2).
    rewrite Hst2 in Hst. injection Hst as <- <-.
    split_and!; [by eapply wf_cx_mono; [done|lia]|by intros; rewrite Hc2|by left]. }
  cbn in Hst, Hop. destruct (allocate_message_slot cx id g) as [[s|] cx1] eqn:Ha.
  - pose proof (allocate_wf _ _ _ _ _ _ Hwf Hop Hn0 Hn Ha) as (-> & Hid & Hwf' & Hmc & Hc).
    rewrite Hmc in Hst. injection Hst as <- <-. split; [done|]. rewrite Hc.
    destruct (counter_lookup n cx id Hwf ltac:(lia)) as [Hlt _]. split.
    + intros i. destruct (decide (i = Z.to_nat id)) as [->|].
      * rewrite list_lookup_total_insert_eq by done. lia.
      * by rewrite list_lookup_total_insert_ne.
    + right. exists id. rewrite list_lookup_total_insert_eq by done. split_and!; [done|done|lia].
  - rewrite allocate_message_slot_eq in Ha. destruct (slot_free cx id g); [done|].
    injection Ha as <-. injection Hst as <- <-.
    split_and!; [by eapply wf_cx_mono; [done|lia]|done|by left].
Qed.

(** The generations handed out by a run: none twice for a slot, all at least
    the slot's counter at the start. *)
Lemma cx_run_generations ops : ∀ cx n given cx', wf_cx n cx → Forall op_ok ops → 0 ≤ n →
  n + Z.of_nat (length ops) + 1 < 4294967296 → cx_run cx ops = (given, cx') →
  wf_cx (n + Z.of_nat (length ops)) cx' ∧ NoDup given ∧
  (∀ s g, (s, g) ∈ given → 0 ≤ s ∧ cx_generation_counters cx !!! Z.to_nat s ≤ g).
Proof.
  induction ops as [|op ops IH]; intros cx n given cx' Hwf Hok Hn0 Hn Hrun.
  { injection Hrun as <- <-. rewrite Z.add_0_r. split_and!; [done|constructor|set_solver]. }
  inversion Hok as [|? ? Hop Hok']; subst. cbn [cx_run length] in *.
  destruct (cx_step cx op) as [given1 cx1] eqn:Hstep.
  destruct (cx_run cx1 ops) as [given2 cx2] eqn:Hrun2. injection Hrun as <- <-.
  assert (wf_cx (n + 1) cx1 ∧
    (∀ i, cx_generation_counters cx !!! i ≤ cx_generation_counters cx1 !!! i) ∧
    (given1 = [] ∨ ∃ s, 0 ≤ s ∧ given1 = [(s, cx_generation_counters cx !!! Z.to_nat s)] ∧
       cx_generation_counters cx !!! Z.to_nat s < cx_generation_counters cx1 !!! Z.to_nat s))
    as (Hwf1 & Hmono & Hg1) by (eapply cx_step_counter; [done..|lia|done]).
  destruct (IH cx1 (n + 1) given2 cx2) as (Hwf2 & Hnd & Hall); [done|done|lia|lia|done|].
  replace (n + Z.of_nat (S (length ops))) with (n + 1 + Z.of_nat (length ops)) by lia.
  split; [done|].
  destruct Hg1 as [->|(s & Hs & -> & Hlt)]; simpl.
  - split; [done|]. intros s g Hin. destruct (Hall s g Hin). split; [done|].
    specialize (Hmono (Z.to_nat s)). lia.
  - split.
    + constructor; [|done]. intros Hin. destruct (Hall _ _ Hin). lia.
    + intros t g [[= -> ->]|Hin]%elem_of_cons; [done|]. destruct (Hall t g Hin).
      split; [done|]. specialize (Hmono (Z.to_nat t)). lia.
Qed.

Lemma cx_step_given_range cx op given cx' : op_ok op → cx_step cx op = (given, cx') →
  Forall (λ p, p.1 < MAX_MESSAGES) given.
Proof.
  intros Hok. destruct op as [id g|id|id|id]; cbn; [|by intros [= <- <-]..].
  rewrite allocate_message_slot_eq. destruct (slot_free cx id g) eqn:Hf; [|by intros [= <- <-]].
  cbn. rewrite lookup_insert_eq. intros [= <- <-]. constructor; [|done].
  by apply andb_true_iff in Hf as [?%Z.ltb_lt _].
Qed.

Lemma cx_run_given_range ops : ∀ cx given cx', Forall op_ok ops → cx_run cx ops = (given, cx') →
  Forall (λ p, p.1 < MAX_MESSAGES) given.
Proof.
  induction ops as [|op ops IH]; intros cx given cx' Hok; cbn; [by intros [= <- <-]|].
  inversion Hok as [|? ? Hop1 Hok1]; subst. destruct (cx_step cx op) as [g1 cx1] eqn:H1.
  destruct (cx_run cx1 ops) as [g2 cx2] eqn:H2. intros [= <- <-].
  apply Forall_app; split; [by eapply cx_step_given_range|by eapply IH].
Qed.

(** ** Properties *)

(** [allocate_message_slot] refuses exactly an id outside the table, a slot
    whose transfer is ACTIVE and a finished slot whose generation is not older
    than the caller's, and then changes nothing; otherwise it gives the slot of
    that id a fresh ACTIVE context with a generation above that of every earlier
    holder of the slot, and leaves the other slots alone. *)
Theorem allocate_slot_spec n cx id g : wf_cx n cx → 0 ≤ id → 0 ≤ n → n + 2 < 4294967296 →
  let '(slot, cx') := allocate_message_slot cx id g in
  (slot = None ↔ MAX_MESSAGES ≤ id ∨
     ∃ mc, cx_msg_table cx !! id = Some mc ∧ (mc_state mc = ACTIVE ∨ g ≤ mc_generation mc)) ∧
  match slot with
  | None => cx' = cx
  | Some s => s = id ∧ get_message cx' id = Some id ∧
      ∃ mc, cx_msg_table cx' !! id = Some mc ∧ mc_state mc = ACTIVE ∧ mc_buffer mc = BufNull ∧
        mc_msg_id mc = id ∧ mc_params mc = cx_params cx ∧
        mc_generation mc = cx_generation_counters cx !!! Z.to_nat id ∧
        (∀ old, cx_msg_table cx !! id = Some old → mc_generation old < mc_generation mc) ∧
        (∀ t, t ≠ id → cx_msg_table cx' !! t = cx_msg_table cx !! t)
  end.
Proof.
  intros Hwf Hid Hn0 Hn. destruct (allocate_message_slot cx id g) as [slot cx'] eqn:Ha.
  pose proof Ha as He. rewrite allocate_message_slot_eq in He.
  assert (slot_free cx id g = false ↔ MAX_MESSAGES ≤ id ∨ ∃ mc, cx_msg_table cx !! id = Some mc ∧
    (mc_state mc = ACTIVE ∨ g ≤ mc_generation mc)) as Hfree.
  { unfold slot_free. rewrite andb_false_iff, Z.ltb_ge.
    destruct (cx_msg_table cx !! id) as [mc|] eqn:Hmc; [|naive_solver lia].
    destruct (wfc_generation _ _ Hwf _ _ Hmc) as (_ & _ & Hst & _).
    unfold slot_busy. rewrite negb_false_iff, orb_true_iff, andb_true_iff, orb_true_iff.
    rewrite !bool_decide_eq_true, Z.geb_le.
    split.
    - intros [?|[?|[_ ?]]]; [by left|right; exists mc; auto..].
    - intros [?|(mc' & [= <-] & [?|?])]; [by left|right; by left|].
      right. destruct (mc_state mc); by auto. }
  destruct (slot_free cx id g) eqn:Hf.
  - injection He as Hs Hcx. subst slot cx'. split; [naive_solver|].
    destruct (allocate_wf _ _ _ _ _ _ Hwf Hid Hn0 Hn Ha) as (_ & Hlt & _ & Hmc & _).
    split; [done|]. split.
    { unfold get_message. rewrite Hmc. by rewrite Z.geb_leb, (proj2 (Z.leb_gt _ _)) by lia. }
    eexists. split; [exact Hmc|]. split_and!; [done..| |].
    + intros old Hold. by destruct (wfc_generation _ _ Hwf _ _ Hold) as (_ & _ & _ & ?).
    + intros t Ht. cbn [cx_msg_table]. by rewrite lookup_insert_ne.
  - injection He as Hs Hcx. subst slot cx'. split; [|done]. naive_solver.
Qed.

Lemma allocate_slot_spec_witness :
  fst (allocate_message_slot new_connection_context 1023 1) = Some 1023.
Proof.
  pose proof (allocate_slot_spec 0 new_connection_context 1023 1 new_connection_context_wf
    ltac:(lia) ltac:(lia) ltac:(lia)) as H.
  destruct (allocate_message_slot new_connection_context 1023 1) as [[s|] cx'];
    destruct H as [H H']; [by destruct H' as [-> _]|].
  exfalso. destruct (proj1 H eq_refl) as [Hge|(mc & Hmc & _)]; [done|].
  cbn in Hmc. by rewrite lookup_empty in Hmc.
Defined.

(** C29: over any history of fewer than 2^32 - 2 operations on a new connection
    (slots allocated, completed, released, reused in any order) no slot is
    handed out twice with the same generation, and a slot's current context
    always carries a generation that was handed out before the slot's counter:
    a packet's (slot, generation) names one transfer. *)
Theorem generations_name_one_transfer ops given cx : Forall op_ok ops →
  Z.of_nat (length ops) + 1 < 4294967296 → cx_run new_connection_context ops = (given, cx) →
  NoDup given ∧ Forall (λ p, 1 ≤ snd p) given ∧
  ∀ s mc, cx_msg_table cx !! s = Some mc →
    0 ≤ s < MAX_MESSAGES ∧ mc_msg_id mc = s ∧ mc_state mc ≠ NULL_STATE ∧
    mc_generation mc < cx_generation_counters cx !!! Z.to_nat s.
Proof.
  intros Hok Hn Hrun.
  destruct (cx_run_generations ops _ 0 given cx new_connection_context_wf Hok ltac:(lia)
    ltac:(lia) Hrun) as (Hwf & Hnd & Hall).
  assert (Forall (λ p, p.1 < MAX_MESSAGES) given) as Hrange.
  { eapply cx_run_given_range; [exact Hok|exact Hrun]. }
  split_and!; [done| |apply (wfc_generation _ _ Hwf)].
  apply Forall_forall. intros [s g] Hin. destruct (Hall s g Hin) as [Hs Hg].
  rewrite Forall_forall in Hrange. specialize (Hrange _ Hin). cbn in Hrange |- *.
  destruct (counter_lookup 0 new_connection_context s new_connection_context_wf) as [_ ?]; lia.
Qed.

Lemma generations_name_one_transfer_witness :
  let ops := [CxAllocate 7 9; CxComplete 7; CxAllocate 7 9; CxRelease 7; CxAllocate 7 1] in
  fst (cx_run new_connection_context ops) = [(7, 1); (7, 2); (7, 3)] ∧
  NoDup (fst (cx_run new_connection_context ops)).
Proof.
  split; [vm_compute; reflexivity|].
  set (ops := [_; _; _; _; _]).
  assert (Forall op_ok ops) as Hok by (repeat constructor; cbn; lia).
  pose proof (generations_name_one_transfer ops _ _ Hok ltac:(cbn; lia)
    (surjective_pairing (cx_run new_connection_context ops))) as [H _].
  exact H.
Defined.

(** [calculate_bitmap_sizes] counts exactly: packet [p] belongs to the
    message when its first byte does, chunk [c] when its first packet does, the
    last packet is not empty; a zero size of packets or chunks gives zero
    packets and chunks. *)
Theorem bitmap_sizes_exact total_bytes mtu ppc : 0 ≤ total_bytes → 0 ≤ mtu → 0 ≤ ppc →
  total_bytes + mtu + ppc < 18446744073709551616 →
  let '(packets, chunks) := calculate_bitmap_sizes total_bytes mtu ppc in
  if (mtu =? 0) || (ppc =? 0) then packets = 0 ∧ chunks = 0 else
  0 ≤ packets ≤ total_bytes ∧ 0 ≤ chunks ≤ packets ∧
  (∀ p, 0 ≤ p → p < packets ↔ p * mtu < total_bytes) ∧
  (∀ c, 0 ≤ c → c < chunks ↔ c * ppc < packets) ∧
  (∀ off, 0 ≤ off < total_bytes → off / mtu < packets ∧ off / mtu / ppc < chunks).
Proof.
  intros Hb Hm Hp Hs. unfold calculate_bitmap_sizes.
  destruct ((mtu =? 0) || (ppc =? 0)) eqn:Hz; [done|].
  apply orb_false_iff in Hz as [?%Z.eqb_neq ?%Z.eqb_neq]. cbv zeta.
  rewrite (u64_small (total_bytes + mtu - 1)) by lia.
  destruct (ceil_div_bound total_bytes mtu) as [Hk1 Hk2]; [lia..|].
  set (packets := (total_bytes + mtu - 1) / mtu) in *.
  rewrite (u64_small (packets + ppc - 1)) by lia.
  destruct (ceil_div_bound packets ppc) as [Hc1 Hc2]; [lia..|].
  assert (∀ p, 0 ≤ p → p < packets ↔ p * mtu < total_bytes) as Hlt by (intros; apply ceil_div_lt; lia).
  assert (∀ c, 0 ≤ c → c < (packets + ppc - 1) / ppc ↔ c * ppc < packets) as Hlt2
    by (intros; apply ceil_div_lt; lia).
  split_and!; [lia..|done|done|].
  intros off Hoff. assert (off / mtu < packets) as Ho.
  { apply Hlt; [apply Z.div_pos; lia|]. pose proof (Z.mul_div_le off mtu). lia. }
  split; [done|]. apply Hlt2; [do 2 (apply Z.div_pos; [|lia]); lia|].
  pose proof (Z.mul_div_le (off / mtu) ppc). lia.
Qed.

Lemma bitmap_sizes_exact_witness :
  calculate_bitmap_sizes 100000 1024 16 = (98, 7) ∧ (98 < 98 ↔ 98 * 1024 < 100000).
Proof.
  split; [vm_compute; reflexivity|].
  pose proof (bitmap_sizes_exact 100000 1024 16 ltac:(lia) ltac:(lia) ltac:(lia) ltac:(lia)) as H.
  change (calculate_bitmap_sizes 100000 1024 16) with (98, 7) in H. cbn iota beta in H.
  destruct H as (_ & _ & H & _). apply (H 98). lia.
Defined.
