(* ===== verification/Receiver.v ===== *)
(** * UDP receiver (include/sdr_receiver.h)

    [UDPReceiver]: its start and stop, the loop of a worker thread over the
    results of [recvfrom], and the handling of one datagram.  [None] is
    undefined behaviour: an access outside an object or through a context that
    is no longer in the table. *)

From S2P Require Import Prelude Bits Bytes Packet Backend Frontend Control Connection.
Import MessageState.

(** ** State *)

(** The connection and the application's buffers. *)
Record RxState : Set := mkRx {
  rx_cx : ConnectionContext;
  rx_mem : gmap Z (list Z)
}.

Definition rx_set_slot (st : RxState) (slot : Z) (mc : MessageContext) : RxState :=
  mkRx (cx_with_table (rx_cx st) (<[slot := mc]> (cx_msg_table (rx_cx st)))) (rx_mem st).

(** The store [memcpy] makes through [msg_ctx->buffer]. *)
Definition store_bytes (st : RxState) (buf : Buffer) (off : Z) (bs : list Z) : option RxState :=
  match buf with
  | BufNull => None
  | BufUser id =>
      m ← rx_mem st !! id;
      m' ← mem_write m off bs;
      Some (mkRx (rx_cx st) (<[id := m']> (rx_mem st)))
  | BufNullSink =>
      m' ← mem_write (cx_null_sink (rx_cx st)) off bs;
      Some (mkRx (cx_with_null_sink (rx_cx st) m') (rx_mem st))
  end.

(** ** Handling of a packet *)

(** Where [write_packet_to_buffer] copies how much: [None] for its early
    returns. *)
Definition write_extent (mc : MessageContext) (packet_offset payload_len : Z)
    : option (Z * Z) :=
  if bool_decide (mc_buffer mc = BufNull) then None else
  let mtu_bytes := prm_mtu_bytes (mc_params mc) in
  let mtu_bytes := if mtu_bytes =? 0 then 1 else mtu_bytes in
  let buffer_offset := packet_offset *u64 mtu_bytes in
  if buffer_offset >=? mc_buffer_size mc then None else
  if buffer_offset +u64 payload_len >? mc_buffer_size mc then
    let payload_len := mc_buffer_size mc -u64 buffer_offset in
    if payload_len =? 0 then None else Some (buffer_offset, payload_len)
  else Some (buffer_offset, payload_len).

Definition write_packet_to_buffer (st : RxState) (slot packet_offset : Z)
    (payload : list Z) (payload_len : Z) : option RxState :=
  mc ← cx_msg_table (rx_cx st) !! slot;
  match write_extent mc packet_offset payload_len with
  | None => Some st
  | Some (buffer_offset, payload_len) =>
      bs ← mem_read payload 0 payload_len;
      store_bytes st (mc_buffer mc) buffer_offset bs
  end.

(** [process_packet] up to the state test: the context it goes on with. *)
Definition find_target (cx : ConnectionContext) (h : SDRPacketHeader) : option Z :=
  slot ← get_message cx (h_msg_id h);
  mc ← cx_msg_table cx !! slot;
  if negb (mc_generation mc =? h_transfer_id h) then None else
  if bool_decide (mc_state mc = DEAD) || bool_decide (mc_state mc = COMPLETED) ||
     bool_decide (mc_state mc = NULL_STATE) then None else
  Some slot.

(** The test for a packet already received. *)
Definition is_duplicate (cx : ConnectionContext) (slot packet_offset : Z) : option bool :=
  mc ← cx_msg_table cx !! slot;
  match mc_backend mc with
  | None => Some false
  | Some b => is_packet_received b packet_offset
  end.

Definition mark_received (st : RxState) (slot packet_offset : Z) : option RxState :=
  mc ← cx_msg_table (rx_cx st) !! slot;
  match mc_backend mc with
  | None => Some st
  | Some b =>
      '(_, b') ← set_packet_received b packet_offset;
      Some (rx_set_slot st slot (mc_set_backend mc b'))
  end.

Definition process_packet (st : RxState) (h : SDRPacketHeader) (payload : list Z)
    (payload_len : Z) : option RxState :=
  match find_target (rx_cx st) h with
  | None => Some st
  | Some slot =>
      dup ← is_duplicate (rx_cx st) slot (h_packet_offset h);
      if (dup : bool) then Some st else
      st ← write_packet_to_buffer st slot (h_packet_offset h) payload payload_len;
      mark_received st slot (h_packet_offset h)
  end.

(** ** The worker thread *)

Definition max_packet_size : Z := sizeof_SDRPacketHeader + MAX_PAYLOAD_SIZE.

(** The body of the loop for a datagram: what the socket had, cut by [recvfrom]
    to the buffer's size. *)
Definition handle_datagram (st : RxState) (datagram : list Z) : option RxState :=
  let recv_buffer := take (Z.to_nat max_packet_size) datagram in
  let n := Z.of_nat (length recv_buffer) in
  if n <? sizeof_SDRPacketHeader then Some st else
  let header := to_host_order (header_of_image recv_buffer) in
  if negb (is_valid header) then Some st else
  let payload := drop (Z.to_nat sizeof_SDRPacketHeader) recv_buffer in
  let actual_payload_len := n - sizeof_SDRPacketHeader in
  let expected_payload_len := h_payload_len header in
  let payload_len := Z.min actual_payload_len expected_payload_len in
  process_packet st header payload payload_len.

(** The result of one [recvfrom]: a datagram, EAGAIN / EWOULDBLOCK / EINTR, or
    another error. *)
Inductive rx_event : Set :=
| RxDatagram (bytes : list Z)
| RxAgain
| RxFailed.

(** The loop from its test of [should_stop_], over the results of the
    [recvfrom] calls made until [should_stop_] is seen. *)
Fixpoint receiver_loop (st : RxState) (events : list rx_event) : option RxState :=
  match events with
  | [] => Some st
  | RxAgain :: events => receiver_loop st events
  | RxFailed :: _ => Some st
  | RxDatagram d :: events => st ← handle_datagram st d; receiver_loop st events
  end.

(** ** Start and stop *)

Record Worker : Set := mkWorker {
  wk_thread : bool;                (* joinable *)
  wk_udp_socket_fd : Z;
  wk_udp_port : Z
}.

Record UDPReceiver : Set := mkReceiver {
  rv_workers : list Worker;
  rv_should_stop : bool;
  rv_is_running : bool;
  rv_base_port : Z;
  rv_num_channels : Z;
  rv_closed : list Z               (* arguments of [close] *)
}.

Definition new_receiver : UDPReceiver := mkReceiver [] false false 0 1 [].

(** [stop]: joins the threads and closes the sockets. *)
Definition close_worker (w : Worker) : list Z :=
  if wk_udp_socket_fd w >=? 0 then [wk_udp_socket_fd w] else [].

Definition receiver_stop (r : UDPReceiver) : UDPReceiver :=
  mkReceiver [] true false (rv_base_port r) (rv_num_channels r)
    (rv_closed r ++ concat (close_worker <$> rv_workers r)).

(** What the system answers for a channel: [socket], [setsockopt(SO_REUSEADDR)]
    and [bind] (given the port). *)
Record channel_env : Set := mkChannelEnv {
  ce_socket : Z; ce_reuse : bool; ce_bind : Z → bool
}.

Fixpoint open_channels (base_port idx : Z) (envs : list channel_env) (workers : list Worker)
    (closed : list Z) : bool * list Worker * list Z :=
  match envs with
  | [] => (true, workers, closed)
  | e :: envs =>
      let port := u16 (base_port + idx) in
      if ce_socket e <? 0 then (false, workers, closed) else
      if negb (ce_reuse e) then (false, workers, closed ++ [ce_socket e]) else
      if negb (ce_bind e port) then (false, workers, closed ++ [ce_socket e]) else
      open_channels base_port (idx + 1) envs
        (<[Z.to_nat idx := mkWorker false (ce_socket e) port]> workers) closed
  end.

(** [start] with the system's answers for each channel. *)
Definition receiver_start (r : UDPReceiver) (cx : ConnectionContext)
    (base_port num_channels : Z) (env : Z → channel_env)
    : bool * UDPReceiver * ConnectionContext :=
  if rv_is_running r then (false, r, cx) else
  let num_channels := Z.max 1 num_channels in
  let workers := replicate (Z.to_nat num_channels) (mkWorker false (-1) 0) in
  let '(ok, workers, closed) :=
    open_channels base_port 0 (env <$> zrange 0 num_channels) workers (rv_closed r) in
  let r := mkReceiver workers false false base_port num_channels closed in
  if negb ok then (false, receiver_stop r, cx) else
  let cx := match workers with
            | w :: _ => set_udp_socket cx (wk_udp_socket_fd w) | [] => cx end in
  (true,
   mkReceiver ((λ w, mkWorker true (wk_udp_socket_fd w) (wk_udp_port w)) <$> workers)
     false true base_port num_channels closed, cx).

(** ** Invariant *)

(** What the receive path relies on: a context's sizes are in the range of their
    types, its bitmap is well formed, its user buffer has at least
    [buffer_size] bytes, and only contexts that are not ACTIVE point at the
    null sink. *)
Record wf_slot (mem : gmap Z (list Z)) (mc : MessageContext) : Prop := {
  wfs_size : 0 ≤ mc_buffer_size mc < 9223372036854775808;
  wfs_mtu : 0 ≤ prm_mtu_bytes (mc_params mc) < 4294967296;
  wfs_backend : ∀ b, mc_backend mc = Some b → wf_backend b;
  wfs_user : ∀ id, mc_buffer mc = BufUser id →
    ∃ m, mem !! id = Some m ∧ mc_buffer_size mc ≤ Z.of_nat (length m);
  wfs_sink : mc_buffer mc = BufNullSink → mc_state mc ≠ ACTIVE
}.

Definition wf_rx (st : RxState) : Prop :=
  ∀ s mc, cx_msg_table (rx_cx st) !! s = Some mc → wf_slot (rx_mem st) mc.

(** Buffers keep their sizes. *)
Definition mem_grown (m m' : gmap Z (list Z)) : Prop :=
  ∀ id bs, m !! id = Some bs → ∃ bs', m' !! id = Some bs' ∧ length bs' = length bs.

#[export] Instance mem_grown_preorder : PreOrder mem_grown.
Proof.
  split; [intros m id bs; eauto|]. intros a b c Hab Hbc id bs Hid.
  destruct (Hab _ _ Hid) as (bs1 & H1 & L1). destruct (Hbc _ _ H1) as (bs2 & H2 & L2).
  exists bs2. split; [done|congruence].
Qed.

Lemma wf_slot_mem mem mem' mc : wf_slot mem mc → mem_grown mem mem' → wf_slot mem' mc.
Proof.
  intros [] Hg. constructor; try done. intros id Hid.
  destruct (wfs_user0 _ Hid) as (m & Hm & ?). destruct (Hg _ _ Hm) as (m' & ? & L).
  exists m'. split; [done|]. by rewrite L.
Qed.

(** The effect of an accepted packet's copy on the application's memory. *)
Definition copy_effect (mc : MessageContext) (packet_offset : Z) (payload : list Z)
    (payload_len : Z) (mem : gmap Z (list Z)) : gmap Z (list Z) :=
  match write_extent mc packet_offset payload_len, mc_buffer mc with
  | Some (off, len), BufUser id =>
      alter (list_inserts (Z.to_nat off) (take (Z.to_nat len) payload)) id mem
  | _, _ => mem
  end.

Lemma copy_effect_grown mc po payload len mem : mem_grown mem (copy_effect mc po payload len mem).
Proof.
  unfold copy_effect. destruct (write_extent _ _ _) as [[off l]|]; [|done].
  destruct (mc_buffer mc) as [|id|]; [done| |done]. intros i bs Hi.
  rewrite lookup_alter. case_decide; [|eauto]. subst i. rewrite Hi. simpl.
  eexists. split; [done|]. apply length_inserts.
Qed.

(** ** Lemmas *)

Definition eff_mtu (mc : MessageContext) : Z :=
  if prm_mtu_bytes (mc_params mc) =? 0 then 1 else prm_mtu_bytes (mc_params mc).

(** The extent, without the wraps: it is inside the buffer. *)
Lemma write_extent_eq mem mc po len : wf_slot mem mc → 0 ≤ po < 262144 → 0 ≤ len < 65536 →
  write_extent mc po len =
    if bool_decide (mc_buffer mc = BufNull) || (mc_buffer_size mc <=? po * eff_mtu mc)
    then None
    else Some (po * eff_mtu mc, Z.min len (mc_buffer_size mc - po * eff_mtu mc)).
Proof.
  intros [Hs Hm _ _ _] Hpo Hlen. unfold write_extent.
  destruct (bool_decide _); [done|]. cbn [orb]. fold (eff_mtu mc).
  assert (0 < eff_mtu mc < 4294967296) as He by (unfold eff_mtu; case_bool; lia).
  assert (0 ≤ po * eff_mtu mc < 1125899906842624) as Ho by nia.
  rewrite (u64_small (po * _)) by lia.
  destruct (po * eff_mtu mc >=? mc_buffer_size mc) eqn:Hge; bool_to_prop.
  { by rewrite (proj2 (Z.leb_le _ _)) by lia. }
  rewrite (proj2 (Z.leb_gt _ _)) by lia.
  rewrite (u64_small (po * _ + _)) by lia.
  destruct (po * eff_mtu mc + len >? mc_buffer_size mc) eqn:Hgt; bool_to_prop.
  - rewrite u64_small by lia. rewrite (proj2 (Z.eqb_neq _ _)) by lia. do 2 f_equal. lia.
  - do 2 f_equal. lia.
Qed.

Lemma write_packet_eq st slot mc po payload len :
  cx_msg_table (rx_cx st) !! slot = Some mc → wf_slot (rx_mem st) mc → mc_state mc = ACTIVE →
  0 ≤ po < 262144 → 0 ≤ len < 65536 → len ≤ Z.of_nat (length payload) →
  write_packet_to_buffer st slot po payload len =
    Some (mkRx (rx_cx st) (copy_effect mc po payload len (rx_mem st))).
Proof.
  intros Hmc Hwf Hst Hpo Hlen Hpl. unfold write_packet_to_buffer, copy_effect.
  rewrite Hmc. cbn [mbind option_bind].
  assert (0 < eff_mtu mc) as He by (destruct Hwf; unfold eff_mtu; case_bool; lia).
  rewrite (write_extent_eq (rx_mem st)) by done.
  destruct (bool_decide _ || _) eqn:Hg; [by destruct st|].
  apply orb_false_iff in Hg as [Hb%bool_decide_eq_false Hlt%Z.leb_gt].
  set (off := po * eff_mtu mc) in *. set (l := Z.min _ _).
  assert (0 ≤ off) by (subst off; nia).
  unfold mem_read. rewrite (proj2 (Z.leb_le 0 l)) by lia.
  rewrite (proj2 (Z.leb_le (0 + l) _)) by lia. cbn [andb mbind option_bind Z.leb].
  change (Z.to_nat 0) with 0%nat. rewrite drop_0. cbn.
  destruct (mc_buffer mc) as [|id|] eqn:Hbuf; [done| |by destruct (wfs_sink _ _ Hwf Hbuf)].
  destruct (wfs_user _ _ Hwf id Hbuf) as (m & Hm & Hsz). cbn. rewrite Hm. cbn.
  unfold mem_write. rewrite (proj2 (Z.leb_le 0 off)) by lia.
  rewrite length_take, (proj2 (Z.leb_le _ _)) by lia. cbn. do 2 f_equal.
  apply map_eq. intros i. rewrite lookup_insert, lookup_alter.
  case_decide; [|done]. subst i. by rewrite Hm.
Qed.

(** A context that [process_packet] goes on with. *)
Definition accepts (mc : MessageContext) (h : SDRPacketHeader) : bool :=
  (mc_generation mc =? h_transfer_id h) && bool_decide (mc_state mc = ACTIVE).

Lemma find_target_eq cx h : find_target cx h =
  if h_msg_id h <? MAX_MESSAGES then
    match cx_msg_table cx !! h_msg_id h with
    | Some mc => if accepts mc h then Some (h_msg_id h) else None
    | None => None
    end
  else None.
Proof.
  unfold find_target, get_message, accepts.
  destruct (h_msg_id h >=? MAX_MESSAGES) eqn:Hge; bool_to_prop.
  { by rewrite (proj2 (Z.ltb_ge _ _)) by lia. }
  rewrite (proj2 (Z.ltb_lt _ _)) by lia.
  destruct (cx_msg_table cx !! h_msg_id h) as [mc|] eqn:Hmc; [|done].
  destruct (mc_generation mc =? h_transfer_id h) eqn:Hg, (mc_state mc) eqn:Hst;
    repeat case_bool_decide; try done; cbn; rewrite ?Hmc; cbn; rewrite ?Hg, ?Hst; cbn;
    repeat case_bool_decide; done.
Qed.

Lemma find_target_some cx h slot : find_target cx h = Some slot →
  slot = h_msg_id h ∧ ∃ mc, cx_msg_table cx !! slot = Some mc ∧ mc_state mc = ACTIVE ∧
    mc_generation mc = h_transfer_id h ∧ slot < MAX_MESSAGES.
Proof.
  rewrite find_target_eq. case_bool; [|done].
  destruct (cx_msg_table cx !! h_msg_id h) as [mc|] eqn:Hmc; [|done].
  destruct (accepts mc h) eqn:Ha; [|done]. intros [= <-].
  apply andb_true_iff in Ha as [?%Z.eqb_eq ?%bool_decide_eq_true]. eauto 10.
Qed.

Lemma accepts_inv mc h : accepts mc h = true →
  mc_generation mc = h_transfer_id h ∧ mc_state mc = ACTIVE.
Proof. intros [?%Z.eqb_eq ?%bool_decide_eq_true]%andb_true_iff. done. Qed.

(** Whether the bitmap has the packet already. *)
Definition has_packet (mc : MessageContext) (po : Z) : bool :=
  match mc_backend mc with Some b => received b po | None => false end.

Lemma is_duplicate_eq mem cx slot mc po : cx_msg_table cx !! slot = Some mc →
  wf_slot mem mc → 0 ≤ po → is_duplicate cx slot po = Some (has_packet mc po).
Proof.
  intros Hmc Hwf Hpo. unfold is_duplicate, has_packet. rewrite Hmc. cbn.
  destruct (mc_backend mc) as [b|] eqn:Hb; [|done].
  by rewrite is_packet_received_eq by (done || by eapply wfs_backend).
Qed.

(** The context after the packet's bit is set. *)
Definition mark_effect (mc : MessageContext) (po : Z) : MessageContext :=
  match mc_backend mc with
  | None => mc
  | Some b => match set_packet_received b po with
              | Some (_, b') => mc_set_backend mc b' | None => mc end
  end.

Lemma mark_received_eq st slot mc po : cx_msg_table (rx_cx st) !! slot = Some mc →
  wf_slot (rx_mem st) mc → 0 ≤ po →
  mark_received st slot po = Some (rx_set_slot st slot (mark_effect mc po)) ∧
  wf_slot (rx_mem st) (mark_effect mc po).
Proof.
  intros Hmc Hwf Hpo. unfold mark_received, mark_effect. rewrite Hmc. cbn.
  destruct (mc_backend mc) as [b|] eqn:Hb.
  - destruct (set_packet_received_eq b po) as (b' & -> & Hwf' & _); [by eapply wfs_backend|done|].
    cbn. split; [done|]. destruct Hwf. constructor; try done. cbn. by intros b2 [= <-].
  - split; [|done]. unfold rx_set_slot. rewrite insert_id by done. by destruct st as [[] ?].
Qed.

Lemma mark_effect_has mem mc po q : wf_slot mem mc → 0 ≤ po →
  has_packet (mark_effect mc po) q =
    match mc_backend mc with
    | Some b => (po <? bb_total_packets b) && (q =? po) || received b q
    | None => false end.
Proof.
  intros Hwf Hpo. unfold mark_effect, has_packet.
  destruct (mc_backend mc) as [b|] eqn:Hb; [|by rewrite Hb].
  destruct (set_packet_received_eq b po) as (b' & -> & _ & _ & _ & Hr);
    [by eapply wfs_backend|done|]. cbn. apply Hr.
Qed.

(** [process_packet] as a function of the state, when nothing is undefined. *)
Definition packet_effect (st : RxState) (h : SDRPacketHeader) (payload : list Z) (len : Z)
    : RxState :=
  match find_target (rx_cx st) h with
  | None => st
  | Some slot =>
      match cx_msg_table (rx_cx st) !! slot with
      | None => st
      | Some mc =>
          if has_packet mc (h_packet_offset h) then st else
          rx_set_slot
            (mkRx (rx_cx st) (copy_effect mc (h_packet_offset h) payload len (rx_mem st)))
            slot (mark_effect mc (h_packet_offset h))
      end
  end.

Lemma process_packet_eq st h payload len : wf_rx st →
  0 ≤ h_packet_offset h < 262144 → 0 ≤ len < 65536 → len ≤ Z.of_nat (length payload) →
  process_packet st h payload len = Some (packet_effect st h payload len) ∧
  wf_rx (packet_effect st h payload len).
Proof.
  intros Hwf Hpo Hlen Hpl. unfold process_packet, packet_effect.
  destruct (find_target (rx_cx st) h) as [slot|] eqn:Ht; [|done].
  apply find_target_some in Ht as (-> & mc & Hmc & Hst & _ & _). rewrite Hmc.
  pose proof (Hwf _ _ Hmc) as Hs. rewrite (is_duplicate_eq (rx_mem st) _ _ mc) by (done || lia). cbn.
  destruct (has_packet mc (h_packet_offset h)); [done|].
  rewrite (write_packet_eq _ _ mc) by done. cbn [mbind option_bind].
  set (st1 := mkRx _ _). pose proof (copy_effect_grown mc (h_packet_offset h) payload len (rx_mem st)) as Hg.
  destruct (mark_received_eq st1 (h_msg_id h) mc (h_packet_offset h)) as [-> Hwf'];
    [done|by eapply wf_slot_mem|lia|]. split; [done|].
  intros s mc'. unfold rx_set_slot; cbn. rewrite lookup_insert.
  case_decide; [by intros [= <-]|]. intros Hs'. eapply wf_slot_mem; [by eapply Hwf|done].
Qed.

(** The fields of a header read from arbitrary bytes are in the ranges the
    handling relies on. *)
Lemma header_of_image_ranges bs : let h := to_host_order (header_of_image bs) in
  0 ≤ h_msg_id h < 1024 ∧ 0 ≤ h_packet_offset h < 262144 ∧ 0 ≤ h_payload_len h < 65536.
Proof.
  unfold header_of_image. repeat case_match; simplify_eq. cbn.
  split_and!; try (apply Z.mod_pos_bound; lia); apply (bswap_range 2).
Qed.

(** What a worker makes of a datagram. *)
Definition parse_datagram (datagram : list Z) : option (SDRPacketHeader * list Z * Z) :=
  let buf := take (Z.to_nat max_packet_size) datagram in
  let n := Z.of_nat (length buf) in
  let h := to_host_order (header_of_image buf) in
  if (n <? sizeof_SDRPacketHeader) || negb (is_valid h) then None else
  Some (h, drop (Z.to_nat sizeof_SDRPacketHeader) buf,
    Z.min (n - sizeof_SDRPacketHeader) (h_payload_len h)).

Definition datagram_effect (st : RxState) (d : list Z) : RxState :=
  match parse_datagram d with
  | None => st
  | Some (h, payload, len) => packet_effect st h payload len
  end.

Lemma parse_datagram_ranges d h payload len : parse_datagram d = Some (h, payload, len) →
  0 ≤ h_msg_id h < 1024 ∧ 0 ≤ h_packet_offset h < 262144 ∧ 0 ≤ len < 65536 ∧
  len ≤ Z.of_nat (length payload).
Proof.
  unfold parse_datagram.
  pose proof (header_of_image_ranges (take (Z.to_nat max_packet_size) d)) as Hr. cbv zeta in Hr |- *.
  set (hd := to_host_order _) in *. clearbody hd. destruct Hr as (? & ? & ?).
  destruct (_ || _) eqn:Hg; [done|]. apply orb_false_iff in Hg as [Hn%Z.ltb_ge _].
  intros [= <- <- <-]. rewrite length_drop. unfold sizeof_SDRPacketHeader in *.
  split_and!; lia.
Qed.

Lemma handle_datagram_eq st d : wf_rx st →
  handle_datagram st d = Some (datagram_effect st d) ∧ wf_rx (datagram_effect st d).
Proof.
  intros Hwf. unfold datagram_effect.
  assert (handle_datagram st d = match parse_datagram d with
    | None => Some st | Some (h, payload, len) => process_packet st h payload len end) as ->.
  { unfold handle_datagram, parse_datagram. destruct (_ <? _); [done|]. cbn [orb].
    by destruct (negb _). }
  destruct (parse_datagram d) as [[[h payload] len]|] eqn:Hp; [|done].
  apply parse_datagram_ranges in Hp as (? & ? & ? & ?). by apply process_packet_eq.
Qed.

(** A datagram a sender built is read back whole. *)
Lemma parse_packet_datagram p : wf_header (pkt_header p) → is_valid (pkt_header p) = true →
  Z.of_nat (length (pkt_payload p)) ≤ MAX_PAYLOAD_SIZE →
  parse_datagram (packet_datagram p) =
    Some (pkt_header p, pkt_payload p,
          Z.min (Z.of_nat (length (pkt_payload p))) (h_payload_len (pkt_header p))).
Proof.
  intros Hwf Hv Hmax. pose proof (length_packet_datagram p Hwf) as Hlen.
  unfold parse_datagram. rewrite take_ge by (unfold max_packet_size; lia).
  pose proof (header_image_nth_wf p [] Hwf) as Hh. rewrite app_nil_r in Hh. rewrite Hh, Hv.
  rewrite (proj2 (Z.ltb_ge _ _)) by lia. cbn [orb negb].
  rewrite Hlen. replace (_ - _) with (Z.of_nat (length (pkt_payload p))) by lia.
  do 3 f_equal. unfold packet_datagram. apply drop_app_length'.
  pose proof (length_header_image (to_network_order (pkt_header p)) (proj2 (wf_reserved3 _ Hwf))). lia.
Qed.

(** The parts of a context that receiving never changes. *)
Definition same_context (mc mc' : MessageContext) : Prop :=
  mc_msg_id mc' = mc_msg_id mc ∧ mc_generation mc' = mc_generation mc ∧
  mc_state mc' = mc_state mc ∧ mc_buffer mc' = mc_buffer mc ∧
  mc_buffer_size mc' = mc_buffer_size mc ∧ mc_params mc' = mc_params mc ∧
  mc_frontend mc' = mc_frontend mc ∧
  bb_packets_per_chunk <$> mc_backend mc' = bb_packets_per_chunk <$> mc_backend mc.

#[export] Instance same_context_preorder : PreOrder same_context.
Proof.
  split; [by intros mc; split_and!|].
  intros a b c (?&?&?&?&?&?&?&?) (?&?&?&?&?&?&?&?). by split_and!; etrans.
Qed.

Lemma set_packet_received_ppc b po old b' : set_packet_received b po = Some (old, b') →
  bb_packets_per_chunk b' = bb_packets_per_chunk b.
Proof.
  unfold set_packet_received. destruct (_ >=? _); [by intros [= _ <-]|].
  destruct (get_bit_position po). destruct (atomic_fetch_or _ _ _) as [[? ?]|]; [|done].
  by intros [= _ <-].
Qed.

Lemma mark_effect_same mc po : same_context mc (mark_effect mc po).
Proof.
  unfold mark_effect. destruct (mc_backend mc) as [b|] eqn:Hb; [|done].
  destruct (set_packet_received b po) as [[? b']|] eqn:Hs; [|done].
  split_and!; try done. cbn. rewrite Hb. cbn. by rewrite (set_packet_received_ppc _ _ _ _ Hs).
Qed.

(** What is preserved: the table has the same slots with the same contexts up to
    their bitmaps, buffers keep their sizes, and a buffer that no ACTIVE
    context uses keeps its bytes. *)
Record rx_frame (st st' : RxState) : Prop := {
  rf_slots : ∀ s, match cx_msg_table (rx_cx st) !! s with
    | None => cx_msg_table (rx_cx st') !! s = None
    | Some mc => ∃ mc', cx_msg_table (rx_cx st') !! s = Some mc' ∧ same_context mc mc' ∧
        (mc_state mc ≠ ACTIVE → mc' = mc)
    end;
  rf_grown : mem_grown (rx_mem st) (rx_mem st');
  rf_buffers : ∀ id,
    (∀ s mc, cx_msg_table (rx_cx st) !! s = Some mc → mc_state mc = ACTIVE →
       mc_buffer mc ≠ BufUser id) →
    rx_mem st' !! id = rx_mem st !! id;
  rf_sink : cx_null_sink (rx_cx st') = cx_null_sink (rx_cx st)
}.

#[export] Instance rx_frame_preorder : PreOrder rx_frame.
Proof.
  split.
  - intros st. constructor; try done. intros s. destruct (_ !! s) as [mc|]; [|done]. by exists mc.
  - intros a b c [S1 G1 B1 K1] [S2 G2 B2 K2]. constructor; [|by etrans| |congruence].
    + intros s. specialize (S1 s). specialize (S2 s). destruct (cx_msg_table (rx_cx a) !! s) as [mc|].
      * destruct S1 as (mc1 & H1 & E1 & N1). rewrite H1 in S2. destruct S2 as (mc2 & H2 & E2 & N2).
        exists mc2. split_and!; [done|by etrans|]. intros Hn. rewrite N2, N1; [done..|].
        by rewrite N1.
      * by rewrite S1 in S2.
    + intros id Hid. rewrite B2, B1; [done|done|]. intros s mc' Hmc' Ha.
      specialize (S1 s). destruct (cx_msg_table (rx_cx a) !! s) as [mc|] eqn:Hmc; [|congruence].
      destruct S1 as (mc1 & H1 & (?&?&Hst&Hb&?) & _). assert (mc1 = mc') as -> by congruence.
      rewrite Hb. apply (Hid s mc Hmc). congruence.
Qed.

Lemma packet_effect_frame st h payload len : rx_frame st (packet_effect st h payload len).
Proof.
  unfold packet_effect. destruct (find_target (rx_cx st) h) as [slot|] eqn:Ht; [|done].
  apply find_target_some in Ht as (-> & mc & Hmc & Hst & _ & _). rewrite Hmc.
  destruct (has_packet mc (h_packet_offset h)); [done|].
  constructor; cbn; [|apply copy_effect_grown| |done].
  - intros s. rewrite lookup_insert. case_decide as Hs.
    + subst s. rewrite Hmc. eexists. split_and!; [done|apply mark_effect_same|done].
    + destruct (_ !! s) as [mc'|]; [by exists mc'|done].
  - intros id Hid. unfold copy_effect. destruct (write_extent _ _ _) as [[off l]|]; [|done].
    destruct (mc_buffer mc) as [|b|] eqn:Hb; [done| |done].
    rewrite lookup_alter_ne; [done|]. intros ->. by apply (Hid _ _ Hmc Hst).
Qed.

Lemma datagram_effect_frame st d : rx_frame st (datagram_effect st d).
Proof.
  unfold datagram_effect. destruct (parse_datagram d) as [[[h payload] len]|]; [|done].
  apply packet_effect_frame.
Qed.

Lemma receiver_loop_ok events : ∀ st, wf_rx st →
  ∃ st', receiver_loop st events = Some st' ∧ wf_rx st' ∧ rx_frame st st'.
Proof.
  induction events as [|[d| |] events IH]; intros st Hwf; cbn; [by exists st| |by apply IH|by exists st].
  destruct (handle_datagram_eq st d Hwf) as [-> Hwf']. cbn.
  destruct (IH _ Hwf') as (st' & ? & ? & ?). exists st'. split_and!; [done..|].
  etrans; [apply datagram_effect_frame|done].
Qed.

(** A store is visible as bytes. *)
Lemma copy_effect_lookup mem mc po payload len id m : mc_buffer mc = BufUser id →
  wf_slot mem mc → mem !! id = Some m → 0 ≤ po < 262144 → 0 ≤ len < 65536 →
  len ≤ Z.of_nat (length payload) →
  ∃ m', copy_effect mc po payload len mem !! id = Some m' ∧ length m' = length m ∧
    ∀ i, 0 ≤ i → m' !! Z.to_nat i =
      if (po * eff_mtu mc <=? i) && (i <? Z.min (po * eff_mtu mc + len) (mc_buffer_size mc))
      then payload !! Z.to_nat (i - po * eff_mtu mc) else m !! Z.to_nat i.
Proof.
  intros Hb Hwf Hm Hpo Hlen Hpl. unfold copy_effect.
  destruct (wfs_user _ _ Hwf _ Hb) as (m0 & Hm0 & Hsz). assert (m0 = m) as -> by congruence.
  assert (0 < eff_mtu mc) as He by (destruct Hwf; unfold eff_mtu; case_bool; lia).
  rewrite (write_extent_eq mem) by done. rewrite Hb, bool_decide_false by done. cbn [orb].
  set (off := po * eff_mtu mc). assert (0 ≤ off) by (subst off; nia).
  destruct (mc_buffer_size mc <=? off) eqn:Hge; bool_to_prop.
  { exists m. split_and!; [done|done|]. intros i Hi.
    destruct (_ && _) eqn:Hc; [|done]. apply andb_true_iff in Hc as [?%Z.leb_le ?%Z.ltb_lt]. lia. }
  rewrite lookup_alter_eq, Hm. cbn. eexists. split; [done|]. split; [apply length_inserts|].
  set (l := Z.min len _).
  assert (mem_write m off (take (Z.to_nat l) payload) =
    Some (list_inserts (Z.to_nat off) (take (Z.to_nat l) payload) m)) as Hw.
  { unfold mem_write. rewrite (proj2 (Z.leb_le 0 off)) by lia.
    by rewrite length_take, (proj2 (Z.leb_le _ _)) by lia. }
  intros i Hi. rewrite (mem_write_lookup _ _ _ _ i Hw Hi).
  rewrite length_take. replace (off + Z.of_nat _) with (Z.min (off + len) (mc_buffer_size mc)) by lia.
  destruct ((off <=? i) && _) eqn:Hc; [|done].
  apply andb_true_iff in Hc as [?%Z.leb_le ?%Z.ltb_lt].
  rewrite lookup_take_lt by lia. done.
Qed.

(** Bits are never cleared: what later datagrams leave of a context. *)
Definition rx_bits (st st' : RxState) : Prop :=
  ∀ s mc', cx_msg_table (rx_cx st') !! s = Some mc' →
    ∃ mc, cx_msg_table (rx_cx st) !! s = Some mc ∧ same_context mc mc' ∧
      ∀ q, has_packet mc q = true → has_packet mc' q = true.

Lemma datagram_effect_bits st d : wf_rx st → rx_bits st (datagram_effect st d).
Proof.
  intros Hwf s mc'. unfold datagram_effect.
  destruct (parse_datagram d) as [[[h payload] len]|] eqn:Hp; [|by exists mc'].
  apply parse_datagram_ranges in Hp as (? & ? & _).
  unfold packet_effect. destruct (find_target (rx_cx st) h) as [slot|]; [|by exists mc'].
  destruct (cx_msg_table (rx_cx st) !! slot) as [mc|] eqn:Hmc; [|by exists mc'].
  destruct (has_packet mc (h_packet_offset h)); [by exists mc'|]. cbn.
  rewrite lookup_insert. case_decide; [|by exists mc']. subst s. intros [= <-].
  exists mc. split_and!; [done|apply mark_effect_same|]. intros q Hq.
  rewrite (mark_effect_has (rx_mem st)) by (lia || by eapply Hwf). revert Hq. unfold has_packet.
  destruct (mc_backend mc); [|done]. intros ->. apply orb_true_r.
Qed.

Lemma receiver_loop_keeps events : ∀ st st', wf_rx st → receiver_loop st events = Some st' →
  wf_rx st' ∧ rx_bits st st'.
Proof.
  assert (∀ st, rx_bits st st) as Hrefl by (intros st s mc Hs; by exists mc).
  induction events as [|[d| |] events IH]; intros st st' Hwf; cbn;
    [by intros [= <-]| |by apply IH|by intros [= <-]].
  destruct (handle_datagram_eq st d Hwf) as [-> Hwf']. cbn. intros Hl.
  destruct (IH _ _ Hwf' Hl) as [Hw Hb]. split; [done|]. intros s mc' Hs.
  destruct (Hb _ _ Hs) as (mc1 & H1 & S1 & B1).
  destruct (datagram_effect_bits st d Hwf _ _ H1) as (mc & H2 & S2 & B2).
  exists mc. split_and!; [done|by etrans|auto].
Qed.

(** [complete_message] keeps the invariant: the context it redirects to the null
    sink is no longer ACTIVE. *)
Lemma complete_message_wf_rx st id : wf_rx st →
  wf_rx (mkRx (complete_message (rx_cx st) id) (rx_mem st)).
Proof.
  intros Hwf. unfold complete_message. destruct (id >=? MAX_MESSAGES); [by destruct st|].
  destruct (cx_msg_table (rx_cx st) !! id) as [mc|] eqn:Hmc; [|by destruct st].
  intros s mc'. cbn. rewrite lookup_insert. case_decide; [|apply Hwf]. intros [= <-].
  destruct (Hwf _ _ Hmc). by constructor.
Qed.

(** ** Channels *)

Definition channel_ok (base_port : Z) (env : Z → channel_env) (i : Z) : bool :=
  (0 <=? ce_socket (env i)) && ce_reuse (env i) && ce_bind (env i) (u16 (base_port + i)).

Definition channel_worker (base_port : Z) (env : Z → channel_env) (i : Z) : Worker :=
  mkWorker false (ce_socket (env i)) (u16 (base_port + i)).

(** The workers when channels below [idx] of [n] are open. *)
Definition workers_upto (base_port : Z) (env : Z → channel_env) (idx n : Z) : list Worker :=
  (channel_worker base_port env <$> zrange 0 idx) ++
  replicate (Z.to_nat (n - idx)) (mkWorker false (-1) 0).

Lemma workers_upto_insert base env idx n : 0 ≤ idx < n →
  <[Z.to_nat idx := channel_worker base env idx]> (workers_upto base env idx n) =
  workers_upto base env (idx + 1) n.
Proof.
  intros Hi. unfold workers_upto. rewrite insert_app_r_alt by (rewrite length_fmap, length_zrange; lia).
  rewrite length_fmap, length_zrange. replace (_ - _)%nat with 0%nat by lia.
  replace (Z.to_nat (n - idx)) with (S (Z.to_nat (n - (idx + 1)))) by lia. cbn.
  rewrite zrange_snoc, fmap_app, <-app_assoc by lia. done.
Qed.

(** The loop over the channels opens them in order up to the first that fails. *)
Lemma open_channels_eq base env n k : ∀ idx closed, 0 ≤ idx → k = Z.to_nat (n - idx) → idx ≤ n →
  (∀ i, 0 ≤ i < idx → channel_ok base env i = true) →
  (open_channels base idx (env <$> zrange idx n) (workers_upto base env idx n) closed =
     (true, workers_upto base env n n, closed) ∧ ∀ i, 0 ≤ i < n → channel_ok base env i = true) ∨
  ∃ j, idx ≤ j < n ∧ channel_ok base env j = false ∧ (∀ i, 0 ≤ i < j → channel_ok base env i = true) ∧
    open_channels base idx (env <$> zrange idx n) (workers_upto base env idx n) closed =
      (false, workers_upto base env j n,
       closed ++ (if ce_socket (env j) <? 0 then [] else [ce_socket (env j)])).
Proof.
  induction k as [|k IH]; intros idx closed H0 Hk Hle Hok.
  { left. assert (idx = n) as -> by lia. by rewrite zrange_nil by lia. }
  rewrite zrange_cons by lia. cbn [fmap list_fmap open_channels].
  destruct (channel_ok base env idx) eqn:Hc.
  - pose proof Hc as Hc'. unfold channel_ok in Hc'.
    apply andb_true_iff in Hc' as [[Hs%Z.leb_le Hr]%andb_true_iff Hb].
    rewrite (proj2 (Z.ltb_ge _ _)), Hr, Hb by lia. cbn [negb].
    fold (channel_worker base env idx). rewrite workers_upto_insert by lia.
    destruct (IH (idx + 1) closed) as [[Hl1 Hl2]|(j & Hj & ?)]; [lia..| | |].
    + intros i Hi. destruct (decide (i = idx)) as [->|]; [done|apply Hok; lia].
    + by left.
    + right. exists j. split; [lia|done].
  - right. exists idx. split_and!; [lia|lia|done|done|].
    unfold channel_ok in Hc. destruct (ce_socket (env idx) <? 0) eqn:Hs.
    { by rewrite app_nil_r. }
    apply Z.ltb_ge in Hs. rewrite (proj2 (Z.leb_le _ _)) in Hc by lia. cbn in Hc.
    destruct (ce_reuse (env idx)); [|done]. cbn in Hc |- *. by rewrite Hc.
Qed.

Lemma close_workers_upto base env j n : (∀ i, 0 ≤ i < j → channel_ok base env i = true) →
  concat (close_worker <$> workers_upto base env j n) = (λ i, ce_socket (env i)) <$> zrange 0 j.
Proof.
  intros Hok. unfold workers_upto. rewrite fmap_app, concat_app, fmap_replicate. cbn.
  assert (∀ m, concat (replicate m (close_worker (mkWorker false (-1) 0))) = []) as ->
    by (induction m; done). rewrite app_nil_r.
  assert (∀ l, (∀ i, i ∈ l → 0 ≤ i < j) →
    concat (close_worker <$> (channel_worker base env <$> l)) = (λ i, ce_socket (env i)) <$> l) as H.
  { induction l as [|i l IH]; intros Hl; [done|]. cbn. rewrite IH by (intros; apply Hl; by right).
    unfold close_worker; cbn. specialize (Hok i (Hl i ltac:(by left))). unfold channel_ok in Hok.
    apply andb_true_iff in Hok as [[Hs%Z.leb_le _]%andb_true_iff _].
    by rewrite Z.geb_leb, (proj2 (Z.leb_le _ _)). }
  apply H. intros i. by rewrite elem_of_zrange.
Qed.

(** A datagram that is not for an ACTIVE message of its generation, or has been
    received, changes nothing. *)
Lemma handle_dropped st d : wf_rx st →
  (match parse_datagram d with
   | None => True
   | Some (h, _, _) =>
       match cx_msg_table (rx_cx st) !! h_msg_id h with
       | None => True
       | Some mc => accepts mc h = false ∨ has_packet mc (h_packet_offset h) = true
       end
   end) → handle_datagram st d = Some st.
Proof.
  intros Hwf Hd. destruct (handle_datagram_eq st d Hwf) as [-> _]. f_equal.
  unfold datagram_effect. destruct (parse_datagram d) as [[[h payload] len]|]; [|done].
  unfold packet_effect. rewrite find_target_eq.
  destruct (h_msg_id h <? MAX_MESSAGES); [|done].
  destruct (cx_msg_table (rx_cx st) !! h_msg_id h) as [mc|] eqn:Hmc; [|done].
  destruct (accepts mc h); [|done]. rewrite Hmc. destruct Hd as [?| ->]; done.
Qed.

(** ** An example connection *)

(** Message 3 of generation 7: a buffer of 12 bytes for packets of 5. *)
Definition example_rx_params : ConnectionParams :=
  mkParams 7 12 5 0 0 2 2 0 0 0 0 0 1 0 [] 0.

Definition example_rx_context : MessageContext :=
  mkContext 3 7 ACTIVE (BufUser 0) 12 3 2 2 (Some (make_backend 3 2)) None example_rx_params.

Definition example_rx : RxState :=
  mkRx (cx_with_table new_connection_context {[3 := example_rx_context]})
    {[0 := replicate 12 0]}.

Definition example_rx_packet (po : Z) (payload : list Z) : SDRPacket :=
  mkPacket (mkHeader MAGIC_VALUE 0 0 7 3 po 0 0 (po / 2) 2 0 0 0
    (Z.of_nat (length payload)) 0 [0; 0; 0]) payload.

(** The packet of another generation. *)
Definition set_transfer (p : SDRPacket) (t : Z) : SDRPacket :=
  let h := pkt_header p in
  mkPacket (mkHeader (h_magic h) (h_type h) (h_reserved1 h) t (h_msg_id h)
    (h_packet_offset h) (h_reserved2 h) (h_submsg_id h) (h_chunk_seq h)
    (h_packets_per_chunk h) (h_fec_k h) (h_fec_m h) (h_parity_idx h) (h_payload_len h)
    (h_flags h) (h_reserved3 h)) (pkt_payload p).

Lemma wf_set_transfer p t : wf_header (pkt_header p) → is_uint 4 t →
  wf_header (pkt_header (set_transfer p t)).
Proof. intros [] Ht. by constructor. Qed.

Lemma example_rx_slots s mc : cx_msg_table (rx_cx example_rx) !! s = Some mc →
  s = 3 ∧ mc = example_rx_context.
Proof.
  change (cx_msg_table _) with ({[3 := example_rx_context]} : gmap Z MessageContext).
  by intros [<- <-]%lookup_singleton_Some.
Qed.

Lemma example_rx_wf : wf_rx example_rx.
Proof.
  intros s mc [-> ->]%example_rx_slots. constructor; try (cbn; lia); try done.
  - intros b [= <-]. apply make_backend_wf; lia.
  - intros id [= <-]. exists (replicate 12 0). split; [exact (lookup_singleton_eq 0 (replicate 12 0))|].
    rewrite length_replicate. cbn. lia.
Qed.

Lemma example_rx_lookup : cx_msg_table (rx_cx example_rx) !! 3 = Some example_rx_context.
Proof. apply lookup_singleton_eq. Qed.

Lemma example_rx_packet_wf po payload : 0 ≤ po < 262144 → Z.of_nat (length payload) < 65536 →
  wf_header (pkt_header (example_rx_packet po payload)).
Proof.
  intros Hpo Hl. assert (0 ≤ po / 2 < 4294967296) by (Z.div_mod_to_equations; lia).
  constructor; cbn [example_rx_packet pkt_header]; cbn -[Z.div Z.of_nat is_uint];
    unfold MAGIC_VALUE; try uint_lia; try lia.
  split; [repeat apply Forall_cons_2; try apply Forall_nil_2; uint_lia|done].
Qed.

(** ** Properties *)

(** C13: The receive path is memory safe against every network: from a
    well-formed state, whatever datagrams arrive (any bytes, any lengths, any
    order), the worker's loop never does anything undefined, ends in a
    well-formed state, never resizes a buffer or touches the null sink, changes
    contexts only in their bitmap, contexts that are not ACTIVE not at all, and
    buffers no ACTIVE message uses not at all. *)
Theorem receive_any_datagrams events st : wf_rx st →
  ∃ st', receiver_loop st events = Some st' ∧ wf_rx st' ∧ rx_frame st st'.
Proof. apply receiver_loop_ok. Qed.

Lemma receive_any_datagrams_witness :
  ∃ st', receiver_loop example_rx
      [RxDatagram [1; 2; 3]; RxAgain; RxDatagram (replicate 40 255); RxFailed] = Some st' ∧
    cx_null_sink (rx_cx st') = [0].
Proof.
  destruct (receive_any_datagrams
    [RxDatagram [1; 2; 3]; RxAgain; RxDatagram (replicate 40 255); RxFailed]
    example_rx example_rx_wf) as (st' & Hl & _ & Hf).
  exists st'. split; [exact Hl|]. rewrite (rf_sink _ _ Hf). reflexivity.
Defined.

(** C18: An accepted packet does exactly its work: for an ACTIVE message of the
    packet's generation that has not got this packet, the datagram stores its
    payload at [packet_offset * mtu], cut at the end of the buffer, and changes
    no other byte of any buffer; it sets the packet's bit and no other; other
    slots keep their contexts. *)
Theorem packet_stored_exactly st p mc id m b :
  wf_rx st → wf_header (pkt_header p) → is_valid (pkt_header p) = true →
  Z.of_nat (length (pkt_payload p)) ≤ MAX_PAYLOAD_SIZE →
  h_payload_len (pkt_header p) = Z.of_nat (length (pkt_payload p)) →
  cx_msg_table (rx_cx st) !! h_msg_id (pkt_header p) = Some mc →
  accepts mc (pkt_header p) = true → mc_buffer mc = BufUser id → rx_mem st !! id = Some m →
  mc_backend mc = Some b → received b (h_packet_offset (pkt_header p)) = false →
  let po := h_packet_offset (pkt_header p) in
  let off := po * eff_mtu mc in
  ∃ st' mc' m' b', handle_datagram st (packet_datagram p) = Some st' ∧
    rx_mem st' = <[id := m']> (rx_mem st) ∧ length m' = length m ∧
    (∀ i, 0 ≤ i → m' !! Z.to_nat i =
      if (off <=? i) && (i <? Z.min (off + Z.of_nat (length (pkt_payload p))) (mc_buffer_size mc))
      then pkt_payload p !! Z.to_nat (i - off) else m !! Z.to_nat i) ∧
    cx_msg_table (rx_cx st') = <[h_msg_id (pkt_header p) := mc']> (cx_msg_table (rx_cx st)) ∧
    same_context mc mc' ∧ mc_backend mc' = Some b' ∧
    (∀ q, received b' q = ((po <? bb_total_packets b) && (q =? po)) || received b q).
Proof.
  intros Hwf Hh Hv Hmax Hpl Hmc Ha Hb Hm Hbe Hr po off.
  pose proof (wf_packet_offset _ Hh) as Hpo. fold po in Hpo.
  pose proof (Hwf _ _ Hmc) as Hs. destruct (handle_datagram_eq st (packet_datagram p) Hwf) as [He _].
  unfold datagram_effect in He. rewrite parse_packet_datagram, Hpl, Z.min_id in He by done.
  unfold packet_effect in He. rewrite find_target_eq, Hmc, Ha in He.
  pose proof (wf_msg_id _ Hh). rewrite (proj2 (Z.ltb_lt _ MAX_MESSAGES)), Hmc in He
    by (unfold MAX_MESSAGES; lia).
  unfold has_packet in He. rewrite Hbe, Hr in He. fold po in He.
  destruct (copy_effect_lookup (rx_mem st) mc po (pkt_payload p)
    (Z.of_nat (length (pkt_payload p))) id m) as (m' & Hm' & Hlen & Hbytes);
    [done..|unfold MAX_PAYLOAD_SIZE, sizeof_SDRPacketHeader in *; lia|lia|].
  destruct (set_packet_received_eq b po) as (b' & Hset & _ & _ & _ & Hrec);
    [by eapply wfs_backend|lia|].
  exists (rx_set_slot (mkRx (rx_cx st) (copy_effect mc po (pkt_payload p)
    (Z.of_nat (length (pkt_payload p))) (rx_mem st))) (h_msg_id (pkt_header p)) (mark_effect mc po)).
  exists (mark_effect mc po), m', b'. split_and!; [done| |done|done|done|apply mark_effect_same| |done].
  - cbn. revert Hm'. unfold copy_effect. destruct (write_extent _ _ _) as [[o l]|].
    + rewrite Hb. rewrite lookup_alter_eq. intros Hm'. apply map_eq. intros i.
      rewrite lookup_insert, lookup_alter. case_decide; [|done]. subst i. done.
    + intros Hm'. by rewrite insert_id.
  - unfold mark_effect. by rewrite Hbe, Hset.
Qed.

Lemma packet_stored_exactly_witness :
  ∃ st' m', handle_datagram example_rx (packet_datagram (example_rx_packet 2 [1; 2; 3; 4; 5])) =
      Some st' ∧ rx_mem st' = <[0 := m']> (rx_mem example_rx) ∧ m' !! 10%nat = Some 1 ∧
    length m' = 12%nat.
Proof.
  destruct (packet_stored_exactly example_rx (example_rx_packet 2 [1; 2; 3; 4; 5])
    example_rx_context 0 (replicate 12 0) (make_backend 3 2) example_rx_wf)
    as (st' & mc' & m' & b' & Hh & Hm & Hlen & Hb & _).
  - apply example_rx_packet_wf; cbn; lia.
  - reflexivity.
  - cbn. unfold MAX_PAYLOAD_SIZE, sizeof_SDRPacketHeader. lia.
  - reflexivity.
  - exact example_rx_lookup.
  - reflexivity.
  - reflexivity.
  - apply lookup_singleton_eq.
  - reflexivity.
  - reflexivity.
  - exists st', m'. split; [exact Hh|]. split; [exact Hm|]. split; [|exact Hlen].
    exact (Hb 10 ltac:(lia)).
Defined.

(** C28: Everything else is dropped without a trace: a datagram shorter than a
    header, one with a wrong magic, a message number without a context, another
    generation, a message that is not ACTIVE, and a packet already received
    leave the connection and every buffer as they were. *)
Theorem datagram_dropped st d : wf_rx st →
  (match parse_datagram d with
   | None => True
   | Some (h, _, _) =>
       match cx_msg_table (rx_cx st) !! h_msg_id h with
       | None => True
       | Some mc => accepts mc h = false ∨ has_packet mc (h_packet_offset h) = true
       end
   end) → handle_datagram st d = Some st.
Proof. apply handle_dropped. Qed.

Lemma datagram_dropped_witness :
  handle_datagram example_rx (replicate 31 83) = Some example_rx ∧
  handle_datagram example_rx
    (packet_datagram (set_transfer (example_rx_packet 0 [9; 9]) 6)) = Some example_rx.
Proof.
  split.
  - apply (datagram_dropped example_rx _ example_rx_wf). exact I.
  - apply (datagram_dropped example_rx _ example_rx_wf).
    rewrite parse_packet_datagram; [left; reflexivity| |reflexivity|].
    + apply (wf_set_transfer (example_rx_packet 0 [9; 9]) 6); [|uint_lia].
      apply example_rx_packet_wf; cbn; lia.
    + cbn. unfold MAX_PAYLOAD_SIZE, sizeof_SDRPacketHeader. lia.
Defined.

(** Receiving is idempotent: a datagram that arrives again, right away or
    after any other datagrams, changes nothing, provided its offset is inside
    the message. *)
Theorem duplicate_datagram st d events st1 st2 h payload len : wf_rx st →
  parse_datagram d = Some (h, payload, len) →
  (∀ mc, cx_msg_table (rx_cx st) !! h_msg_id h = Some mc →
    ∃ b, mc_backend mc = Some b ∧ h_packet_offset h < bb_total_packets b) →
  handle_datagram st d = Some st1 → receiver_loop st1 events = Some st2 →
  handle_datagram st2 d = Some st2.
Proof.
  intros Hwf Hp Hin H1 H2. destruct (handle_datagram_eq st d Hwf) as [He Hwf1].
  assert (st1 = datagram_effect st d) as -> by congruence.
  pose proof (receiver_loop_keeps events _ st2 Hwf1 H2) as (Hwf2 & Hkeep).
  destruct (handle_datagram_eq st2 d Hwf2) as [-> _]. f_equal.
  pose proof (parse_datagram_ranges _ _ _ _ Hp) as (? & ? & ? & ?).
  unfold datagram_effect in *. rewrite Hp in *. unfold packet_effect in *.
  rewrite !find_target_eq in *.
  destruct (h_msg_id h <? MAX_MESSAGES); [|done].
  destruct (cx_msg_table (rx_cx st2) !! h_msg_id h) as [mc2|] eqn:Hmc2; [|done].
  destruct (accepts mc2 h) eqn:Ha2; [|done]. rewrite Hmc2.
  destruct (has_packet mc2 (h_packet_offset h)) eqn:Hh2; [done|]. exfalso.
  destruct (Hkeep _ _ Hmc2) as (mc1 & Hmc1 & Hsame & Hbits).
  assert (accepts mc1 h = true) as Ha1.
  { unfold accepts in *. destruct Hsame as (_ & <- & <- & _). done. }
  assert (has_packet mc1 (h_packet_offset h) = true) as Hh1; [|by rewrite Hbits in Hh2].
  clear Hkeep Hbits Hwf1 Hwf2 H2.
  destruct (cx_msg_table (rx_cx st) !! h_msg_id h) as [mc|] eqn:Hmc; [|congruence].
  destruct (accepts mc h) eqn:Ha; [|congruence]. rewrite Hmc in Hmc1.
  destruct (has_packet mc (h_packet_offset h)) eqn:Hh; [congruence|].
  cbn in Hmc1. rewrite lookup_insert_eq in Hmc1. injection Hmc1 as <-.
  destruct (Hin mc eq_refl) as (b & Hb & Hlt).
  rewrite (mark_effect_has (rx_mem st)) by (lia || by eapply Hwf).
  rewrite Hb, (proj2 (Z.ltb_lt _ _)), Z.eqb_refl by lia. done.
Qed.

Lemma duplicate_datagram_witness :
  let d := packet_datagram (example_rx_packet 1 [7; 8]) in
  ∃ st1 st2, handle_datagram example_rx d = Some st1 ∧
    receiver_loop st1 [RxDatagram (packet_datagram (example_rx_packet 0 [4])); RxAgain] = Some st2 ∧
    handle_datagram st2 d = Some st2.
Proof.
  intros d. destruct (handle_datagram_eq example_rx d example_rx_wf) as [H1 Hwf1].
  destruct (receiver_loop_ok
    [RxDatagram (packet_datagram (example_rx_packet 0 [4])); RxAgain] _ Hwf1) as (st2 & H2 & _).
  exists (datagram_effect example_rx d), st2. split; [exact H1|]. split; [exact H2|].
  eapply (duplicate_datagram example_rx d); [exact example_rx_wf| | |exact H1|exact H2].
  - apply parse_packet_datagram; [apply example_rx_packet_wf; cbn; lia|reflexivity|].
    cbn. unfold MAX_PAYLOAD_SIZE, sizeof_SDRPacketHeader. lia.
  - intros mc. change (h_msg_id _) with 3. rewrite example_rx_lookup. intros [= <-].
    exists (make_backend 3 2). split; [reflexivity|cbn; lia].
Defined.

(** C26: Late packets cannot touch a completed message's buffer: once
    [complete_message] has run, whatever datagrams arrive afterwards, the
    buffer the message was received into keeps its bytes (when no other ACTIVE
    message uses it), the context stays DEAD with its bitmap as it was, and
    nothing is ever stored in the null sink. *)
Theorem late_packets_harmless st id mc buf events : wf_rx st → 0 ≤ id < MAX_MESSAGES →
  cx_msg_table (rx_cx st) !! id = Some mc → mc_buffer mc = BufUser buf →
  (∀ s mc', s ≠ id → cx_msg_table (rx_cx st) !! s = Some mc' → mc_state mc' = ACTIVE →
     mc_buffer mc' ≠ BufUser buf) →
  ∃ st', receiver_loop (mkRx (complete_message (rx_cx st) id) (rx_mem st)) events = Some st' ∧
    rx_mem st' !! buf = rx_mem st !! buf ∧
    cx_msg_table (rx_cx st') !! id = Some (mc_set_state mc DEAD BufNullSink) ∧
    cx_null_sink (rx_cx st') = cx_null_sink (rx_cx st).
Proof.
  intros Hwf Hid Hmc Hbuf Hothers.
  destruct (receiver_loop_ok events _ (complete_message_wf_rx st id Hwf)) as (st' & Hl & _ & Hf).
  exists st'. split; [done|]. clear Hl. revert Hf. unfold complete_message.
  rewrite Z.geb_leb, (proj2 (Z.leb_gt _ _)), Hmc by lia. intros [Hs _ Hb Hk]. cbn in *.
  split_and!; [apply Hb| |done].
  - intros s mc'. rewrite lookup_insert. case_decide as Hsid; [by intros [= <-]|].
    intros Hs' Ha. by apply (Hothers s mc').
  - specialize (Hs id). rewrite lookup_insert_eq in Hs. destruct Hs as (mc' & -> & _ & Hn).
    by rewrite Hn.
Qed.

(** Starting the receiver is all or nothing: a running receiver is left
    alone; if every channel's socket, option and bind succeed there is one
    running worker per channel, on consecutive (16-bit) ports, and the
    connection's UDP socket is the first; at the first channel that fails all
    sockets opened so far are closed, no worker is left and the receiver is
    not running. *)
Theorem receiver_start_all_or_nothing r cx base n env : 0 ≤ n < 65536 → rv_is_running r = false →
  let count := Z.max 1 n in
  let '(ok, r', cx') := receiver_start r cx base n env in
  if (ok : bool) then
    (∀ i, 0 ≤ i < count → channel_ok base env i = true) ∧
    rv_is_running r' = true ∧ rv_should_stop r' = false ∧ rv_closed r' = rv_closed r ∧
    rv_workers r' = (λ i, mkWorker true (ce_socket (env i)) (u16 (base + i))) <$> zrange 0 count ∧
    cx' = set_udp_socket cx (ce_socket (env 0))
  else cx' = cx ∧ rv_workers r' = [] ∧ rv_is_running r' = false ∧
    ∃ j, 0 ≤ j < count ∧ channel_ok base env j = false ∧
      (∀ i, 0 ≤ i < j → channel_ok base env i = true) ∧
      rv_closed r' = rv_closed r ++
        (if ce_socket (env j) <? 0 then [] else [ce_socket (env j)]) ++
        ((λ i, ce_socket (env i)) <$> zrange 0 j).
Proof.
  intros Hn Hrun count. unfold receiver_start. rewrite Hrun. fold count.
  assert (replicate (Z.to_nat count) (mkWorker false (-1) 0) = workers_upto base env 0 count) as ->.
  { unfold workers_upto. by rewrite zrange_nil, Z.sub_0_r by lia. }
  destruct (open_channels_eq base env count (Z.to_nat (count - 0)) 0 (rv_closed r))
    as [[-> Hok]|(j & Hj & Hc & Hok & ->)]; [lia|lia|lia|lia| |].
  - cbn [negb]. assert (workers_upto base env count count =
      channel_worker base env <$> zrange 0 count) as ->.
    { unfold workers_upto. by rewrite Z.sub_diag, app_nil_r. }
    split_and!; try done.
    + cbn [rv_workers]. by rewrite <-list_fmap_compose.
    + rewrite zrange_cons by lia. done.
  - cbn. split_and!; [done..|]. exists j. split_and!; [lia|lia|done|done|].
    by rewrite close_workers_upto, <-app_assoc.
Qed.

Lemma late_packets_harmless_witness :
  ∃ st', receiver_loop (mkRx (complete_message (rx_cx example_rx) 3) (rx_mem example_rx))
      [RxDatagram (packet_datagram (example_rx_packet 0 [1; 2; 3; 4; 5]))] = Some st' ∧
    rx_mem st' !! 0 = rx_mem example_rx !! 0.
Proof.
  destruct (late_packets_harmless example_rx 3 example_rx_context 0
    [RxDatagram (packet_datagram (example_rx_packet 0 [1; 2; 3; 4; 5]))] example_rx_wf)
    as (st' & Hl & Hm & _).
  - unfold MAX_MESSAGES. lia.
  - exact example_rx_lookup.
  - reflexivity.
  - intros s mc' Hs [-> _]%example_rx_slots. by destruct Hs.
  - exists st'. split; [exact Hl|exact Hm].
Defined.

Lemma receiver_start_all_or_nothing_witness :
  let env i := mkChannelEnv (10 + i) true (λ port, port <? 65535) in
  match receiver_start new_receiver new_connection_context 65534 2 env with
  | (ok, r', _) => ok = false ∧ rv_closed r' = [11; 10] ∧ rv_workers r' = []
  end.
Proof.
  intros env. pose proof (receiver_start_all_or_nothing new_receiver new_connection_context
    65534 2 env ltac:(lia) eq_refl) as H. cbv zeta in H.
  assert (receiver_start new_receiver new_connection_context 65534 2 env =
    (false, mkReceiver [] true false 65534 2 [11; 10], new_connection_context)) as E
    by reflexivity.
  rewrite E in H |- *. destruct H as (_ & Hw & _). split; [reflexivity|]. split; [reflexivity|exact Hw].
Defined.
