(* ===== verification/Api.v ===== *)
(** * The SDR API (include/sdr_api.h, src/sdr_api.cpp)

    Contexts, connections, receives, one-shot and streaming sends.  The
    operating system's answers are arguments; a control message declared
    without an initialiser starts as the argument [uninit].  [None] is undefined
    behaviour; a result [Blocked] is a wait whose input has not arrived. *)

From S2P Require Import Prelude Bits Bytes Packet Backend Frontend Control Wait Connection Receiver.
Import MessageState ControlMsgType.

(** ** State *)

(** What the connections of a process share: [next_msg_id] of their
    [SDRContext], the counter of [ConnectionIDAllocator], and
    [receiver_generation_counter], the static of [sdr_recv_post]. *)
Record Process : Set := mkProcess {
  ps_next_msg_id : Z;
  ps_next_conn_id : Z;
  ps_receiver_generation_counter : Z
}.

Definition new_process : Process := mkProcess 0 1 1.

Record SDRConnection : Set := mkConnection {
  cn_connection_ctx : ConnectionContext;
  cn_udp_receiver : option UDPReceiver;
  cn_tcp_server : option TCPControlServer;
  cn_tcp_client : option TCPControlClient;
  cn_is_receiver : bool
}.

Record SDRRecvHandle : Set := mkRecvHandle {
  rh_msg_id : Z;
  rh_generation : Z;
  rh_msg_ctx : Z;              (* the slot, in the connection's table *)
  rh_user_buffer : Buffer;
  rh_buffer_size : Z
}.

Record SDRSendHandle : Set := mkSendHandle {
  sh_msg_id : Z;
  sh_generation : Z;
  sh_buffer_size : Z;
  sh_packets_sent : Z
}.

Record SDRStreamHandle : Set := mkStreamHandle {
  sm_msg_id : Z;
  sm_generation : Z;
  sm_buffer_size : Z;
  sm_total_packets : Z;
  sm_packets_sent : Z;
  sm_is_active : bool
}.

Definition cn_with_ctx (c : SDRConnection) (cx : ConnectionContext) : SDRConnection :=
  mkConnection cx (cn_udp_receiver c) (cn_tcp_server c) (cn_tcp_client c) (cn_is_receiver c).
Definition cn_with_udp (c : SDRConnection) (u : option UDPReceiver) : SDRConnection :=
  mkConnection (cn_connection_ctx c) u (cn_tcp_server c) (cn_tcp_client c) (cn_is_receiver c).
Definition cn_with_server (c : SDRConnection) (s : TCPControlServer) : SDRConnection :=
  mkConnection (cn_connection_ctx c) (cn_udp_receiver c) (Some s) (cn_tcp_client c)
    (cn_is_receiver c).
Definition cn_with_client (c : SDRConnection) (t : TCPControlClient) : SDRConnection :=
  mkConnection (cn_connection_ctx c) (cn_udp_receiver c) (cn_tcp_server c) (Some t)
    (cn_is_receiver c).

(** ** Contexts and connections *)

(** [allocate_msg_id]. *)
Definition allocate_msg_id (ps : Process) : Z * Process :=
  let id := ps_next_msg_id ps mod 1024 in
  (id, mkProcess ((ps_next_msg_id ps +u32 1) mod 1024) (ps_next_conn_id ps)
         (ps_receiver_generation_counter ps)).

(** [sdr_ctx_create]: a new context; the other counters are the process's. *)
Definition sdr_ctx_create (ps : Process) : Process :=
  mkProcess 0 (ps_next_conn_id ps) (ps_receiver_generation_counter ps).

(** The part [sdr_listen] and [sdr_connect] share. *)
Definition new_connection (ps : Process) (server : option TCPControlServer)
    (client : option TCPControlClient) (is_receiver : bool) : SDRConnection * Process :=
  let '(conn_id, next) := allocate_connection_id (ps_next_conn_id ps) in
  let '(_, cx) := initialize new_connection_context conn_id zero_params in
  (mkConnection cx None server client is_receiver,
   mkProcess (ps_next_msg_id ps) next (ps_receiver_generation_counter ps)).

Definition sdr_listen (ps : Process) (os : listen_calls) (tcp_port : Z)
    : option SDRConnection * Process :=
  let '(ok, server) := start_listening os tcp_port new_server in
  if negb ok then (None, ps) else
  let '(conn, ps) := new_connection ps (Some server) None true in (Some conn, ps).

Definition sdr_connect (ps : Process) (os : connect_calls) : option SDRConnection * Process :=
  let '(ok, client) := connect_to_server os new_client in
  if negb ok then (None, ps) else
  let '(conn, ps) := new_connection ps None (Some client) false in (Some conn, ps).

(** [sdr_disconnect] up to the [delete]: what it leaves of the parts. *)
Definition sdr_disconnect (c : SDRConnection)
    : option UDPReceiver * option TCPControlServer * option TCPControlClient :=
  (option_map receiver_stop (cn_udp_receiver c),
   option_map (λ s, server_stop (close_connection s)) (cn_tcp_server c),
   option_map client_disconnect (cn_tcp_client c)).

Definition sdr_set_params (c : SDRConnection) (params : ConnectionParams) : SDRConnection :=
  cn_with_ctx c
    (snd (initialize (cn_connection_ctx c) (cx_connection_id (cn_connection_ctx c)) params)).

(** ** Receive *)

(** The bytes of a C string before its NUL, and
    [strncpy(dst, src, sizeof(dst) - 1); dst[sizeof(dst) - 1] = 0]. *)
Fixpoint c_string (bs : list Z) : list Z :=
  match bs with
  | [] => []
  | b :: bs => if b =? 0 then [] else b :: c_string bs
  end.

Definition strncpy_ip (src : list Z) : list Z :=
  let s := take 15 (c_string src) in s ++ replicate (16 - length s) 0.

(** "127.0.0.1" *)
Definition loopback : list Z := [49; 50; 55; 46; 48; 46; 48; 46; 49].

Definition ip_is_empty (ip : list Z) : bool := nth 0 ip 0 =? 0.

(** [x ? x : y]. *)
Definition or_else (x y : Z) : Z := if x =? 0 then y else x.

(** The negotiation of [sdr_recv_post]: the connection's parameters, the
    sender's offer and the receive length. *)
Definition negotiate (params offer : ConnectionParams) (length : Z) : ConnectionParams :=
  let total_bytes := or_else (prm_total_bytes offer) length in
  let proposed_mtu :=
    or_else (prm_mtu_bytes params) (or_else (prm_mtu_bytes offer) MAX_PAYLOAD_SIZE) in
  let proposed_mtu := if proposed_mtu =? 0 then MAX_PAYLOAD_SIZE else proposed_mtu in
  let mtu_bytes := Z.min proposed_mtu MAX_PAYLOAD_SIZE in
  let packets_per_chunk :=
    or_else (prm_packets_per_chunk params) (or_else (prm_packets_per_chunk offer) 64) in
  let num_channels := or_else (prm_num_channels offer) (or_else (prm_num_channels params) 1) in
  let udp_server_port :=
    or_else (prm_udp_server_port params) (or_else (prm_channel_base_port params) 9999) in
  let channel_base_port := or_else (prm_channel_base_port params) udp_server_port in
  let udp_server_ip :=
    if ip_is_empty (prm_udp_server_ip params) then
      if negb (ip_is_empty (prm_udp_server_ip offer)) then strncpy_ip (prm_udp_server_ip offer)
      else strncpy_ip loopback
    else prm_udp_server_ip params in
  let transfer_id := or_else (prm_transfer_id params) 1 in
  mkParams transfer_id total_bytes mtu_bytes (prm_packet_bytes params)
    (prm_chunk_bytes params) packets_per_chunk (prm_total_chunks params) (prm_fec_k params)
    (prm_fec_m params) (prm_max_inflight params) (prm_rto_ms params) (prm_rtt_alpha_ms params)
    num_channels channel_base_port udp_server_ip udp_server_port.

(** [params.transfer_id = generation]. *)
Definition with_transfer_id (p : ConnectionParams) (t : Z) : ConnectionParams :=
  mkParams t (prm_total_bytes p) (prm_mtu_bytes p) (prm_packet_bytes p) (prm_chunk_bytes p)
    (prm_packets_per_chunk p) (prm_total_chunks p) (prm_fec_k p) (prm_fec_m p)
    (prm_max_inflight p) (prm_rto_ms p) (prm_rtt_alpha_ms p) (prm_num_channels p)
    (prm_channel_base_port p) (prm_udp_server_ip p) (prm_udp_server_port p).

(** A message assembled field by field over what [uninit] held. *)
Definition message_with (uninit : ControlMessage) (t : ControlMsgType.t) (connection_id : Z)
    (params : ConnectionParams) : ControlMessage :=
  mkMessage CONTROL_MAGIC (value t) connection_id params (cm_chunk_bitmap_words uninit)
    (cm_chunk_bitmap uninit) (cm_num_gaps uninit) (cm_gap_start uninit) (cm_gap_len uninit).

(** How a call ends. *)
Inductive call_result : Set :=
| Returned (code : Z)
| Blocked.

(** The context [sdr_recv_post] sets up in its slot, polling started. *)
Definition posted_context (slot generation : Z) (buffer : Buffer) (length total_packets total_chunks : Z)
    (params : ConnectionParams) : MessageContext :=
  let backend := make_backend (u32 total_packets) (prm_packets_per_chunk params) in
  let frontend := make_frontend (Some backend) (u32 total_chunks) in
  let '(_, frontend) := start_polling frontend 100 in
  mkContext slot generation ACTIVE buffer length total_packets total_chunks
    (prm_packets_per_chunk params) (Some backend) (Some frontend) params.

(** The UDP receiver, if there is none yet: a new one, kept also when it does
    not start. *)
Definition ensure_udp_receiver (c : SDRConnection) (params : ConnectionParams)
    (env : Z → channel_env) : bool * SDRConnection :=
  match cn_udp_receiver c with
  | Some _ => (true, c)
  | None =>
      let '(ok, u, cx) := receiver_start new_receiver (cn_connection_ctx c)
        (prm_channel_base_port params) (prm_num_channels params) env in
      (ok, cn_with_udp (cn_with_ctx c cx) (Some u))
  end.

(** [sdr_recv_post] after the OFFER, up to the wait for ACCEPT: the return code
    if it returns here. *)
Definition recv_post_setup (pad : Padding) (uninit : ControlMessage) (env : Z → channel_env)
    (ps : Process) (c : SDRConnection) (buffer : Buffer) (length : Z) (offer : ControlMessage)
    : option Z * Process * SDRConnection * option SDRRecvHandle :=
  let '(msg_id, ps) := allocate_msg_id ps in
  let cx := cn_connection_ctx c in
  let params := negotiate (cx_params cx) (cm_params offer) length in
  let '(_, cx) := initialize cx (cx_connection_id cx) params in
  let '(total_packets, total_chunks) :=
    calculate_bitmap_sizes length (prm_mtu_bytes params) (prm_packets_per_chunk params) in
  let generation := ps_receiver_generation_counter ps in
  let ps := mkProcess (ps_next_msg_id ps) (ps_next_conn_id ps) (generation +u32 1) in
  let params := with_transfer_id params generation in
  let '(slot, cx) := allocate_message_slot cx msg_id generation in
  match slot with
  | None => (Some (-1), ps, cn_with_ctx c cx, None)
  | Some slot =>
      let rotated := match cx_msg_table cx !! slot with
                     | Some mc => mc_generation mc | None => 0 end in
      let mc := posted_context slot rotated buffer length total_packets total_chunks params in
      let cx := cx_with_table cx (<[slot := mc]> (cx_msg_table cx)) in
      let handle := mkRecvHandle msg_id generation slot buffer length in
      let '(ok, c) := ensure_udp_receiver (cn_with_ctx c cx) params env in
      if negb ok then (Some (-1), ps, c, Some handle) else
      match cn_tcp_server c with
      | Some server =>
          if ts_client_fd server <? 0 then (None, ps, c, Some handle) else
          let cts_msg :=
            message_with uninit CTS (cx_connection_id (cn_connection_ctx c)) params in
          let '(ok, server) := server_send_message pad server cts_msg in
          let c := cn_with_server c server in
          if negb ok then (Some (-1), ps, c, Some handle) else (None, ps, c, Some handle)
      | None => (None, ps, c, Some handle)
      end
  end.

(** [sdr_recv_post]; [null_arg]: [conn] or [handle] is null. *)
Definition sdr_recv_post (pad : Padding) (uninit : ControlMessage) (env : Z → channel_env)
    (ps : Process) (c : SDRConnection) (null_arg : bool) (buffer : Buffer) (length : Z)
    : option (call_result * Process * SDRConnection * option SDRRecvHandle) :=
  if null_arg || bool_decide (buffer = BufNull) || (length =? 0)
  then Some (Returned (-1), ps, c, None) else
  if negb (cn_is_receiver c) then Some (Returned (-1), ps, c, None) else
  server ← cn_tcp_server c;
  let '(got, server) := wait_message server zero_message (λ m, msg_is m OFFER) in
  let c := cn_with_server c server in
  match got with
  | WaitBlocked => Some (Blocked, ps, c, None)
  | WaitLost => Some (Returned (-1), ps, c, None)
  | WaitGot offer =>
      let '(ret, ps, c, handle) :=
        recv_post_setup pad uninit env ps c buffer length offer in
      match ret with
      | Some code => Some (Returned code, ps, c, handle)
      | None =>
          server ← cn_tcp_server c;
          let '(got, server) := wait_message server zero_message (λ m, msg_is m ACCEPT) in
          let c := cn_with_server c server in
          Some (match got with
                | WaitBlocked => Blocked
                | WaitLost => Returned (-1)
                | WaitGot _ => Returned 0
                end, ps, c, handle)
      end
  end.

(** [sdr_recv_bitmap_get]: the chunk bitmap and its length in bytes. *)
Definition sdr_recv_bitmap_get (c : SDRConnection) (h : SDRRecvHandle) : option (list Z * Z) :=
  mc ← cx_msg_table (cn_connection_ctx c) !! rh_msg_ctx h;
  fb ← mc_frontend mc;
  Some (fb_words fb, fb_num_words fb * 8).

(** The test of [sdr_recv_complete], after [stop_polling]. *)
Definition transfer_complete (mc : MessageContext) : option bool :=
  if bool_decide (mc_state mc = COMPLETED) then Some true else
  match mc_frontend mc with
  | None => Some false
  | Some fb =>
      chunks_received ← get_total_chunks_completed fb;
      let total_chunks := u32 (mc_total_chunks mc) in
      Some ((total_chunks >? 0) && (chunks_received >=? total_chunks))
  end.

(** [sdr_recv_complete]; [None] also when the context was released while the
    handle still points at it. *)
Definition sdr_recv_complete (pad : Padding) (uninit : ControlMessage) (c : SDRConnection)
    (h : SDRRecvHandle) : option (Z * SDRConnection) :=
  let cx := cn_connection_ctx c in
  mc ← cx_msg_table cx !! rh_msg_ctx h;
  let mc := match mc_frontend mc with
            | Some fb => mc_set_frontend mc (stop_polling fb) | None => mc end in
  let cx := cx_with_table cx (<[rh_msg_ctx h := mc]> (cx_msg_table cx)) in
  is_complete ← transfer_complete mc;
  let cx := complete_message cx (rh_msg_id h) in
  let c := cn_with_ctx c cx in
  match cn_is_receiver c, cn_tcp_server c with
  | true, Some server =>
      let ack_msg := message_with uninit (if (is_complete : bool) then COMPLETE_ACK else INCOMPLETE_NACK)
        (cx_connection_id cx) zero_params in
      let '(_, server) := server_send_message pad server ack_msg in
      Some (0, cn_with_server c server)
  | _, _ => Some (0, c)
  end.

(** ** One-shot send *)

(** The OFFER of [sdr_send_post]. *)
Definition desired_params (params : ConnectionParams) (length : Z) : ConnectionParams :=
  mkParams (prm_transfer_id params) length (or_else (prm_mtu_bytes params) MAX_PAYLOAD_SIZE)
    (prm_packet_bytes params) (prm_chunk_bytes params)
    (or_else (prm_packets_per_chunk params) 32) (prm_total_chunks params) (prm_fec_k params)
    (prm_fec_m params) (prm_max_inflight params) (prm_rto_ms params) (prm_rtt_alpha_ms params)
    (or_else (prm_num_channels params) 1) (prm_channel_base_port params) (replicate 16 0) 0.

(** Where packet [i] goes: [channel_port]. *)
Definition base_port_of (params : ConnectionParams) : Z :=
  or_else (prm_channel_base_port params) (prm_udp_server_port params).

Definition channel_port (params : ConnectionParams) (i : Z) : Z :=
  u16 (base_port_of params + u16 (i mod or_else (prm_num_channels params) 1)).

(** Packet [i] of the data loop: [None] undefined, [Some None] when
    [create_data_packet] refuses. *)
Definition data_packet (params : ConnectionParams) (msg_id : Z) (data : list Z) (length i : Z)
    : option (option SDRPacket) :=
  let packet_offset := u32 i in
  let mtu_bytes := prm_mtu_bytes params in
  let remaining := length -u64 i *u64 mtu_bytes in
  let packet_data_len := Z.min mtu_bytes remaining in
  let packet_data_len :=
    if packet_data_len >? MAX_PAYLOAD_SIZE then MAX_PAYLOAD_SIZE else packet_data_len in
  if (Z.of_nat (List.length data) <? i *u64 mtu_bytes) then None else
  packet ← create_data_packet (prm_transfer_id params) msg_id packet_offset
    (prm_packets_per_chunk params) (drop (Z.to_nat (i *u64 mtu_bytes)) data) packet_data_len;
  Some (option_map set_chunk_seq packet).

(** What the data loop has done: [packets_sent], [packets_failed] and the
    datagrams handed to [sendto] that it accepted, with their ports. *)
Record SendLog : Set := mkSendLog {
  sl_sent : Z;
  sl_failed : Z;
  sl_wire : list (Z * list Z)
}.

Definition send_one (sendto : Z → Z) (params : ConnectionParams) (msg_id : Z) (data : list Z)
    (length : Z) (log : SendLog) (i : Z) : option SendLog :=
  packet ← data_packet params msg_id data length i;
  match packet with
  | None => Some (mkSendLog (sl_sent log) (sl_failed log + 1) (sl_wire log))
  | Some packet =>
      let port := channel_port params i in
      if sendto i >? 0 then
        Some (mkSendLog (sl_sent log + 1) (sl_failed log)
                (sl_wire log ++ [(port, packet_datagram packet)]))
      else Some (mkSendLog (sl_sent log) (sl_failed log + 1) (sl_wire log))
  end.

Definition send_data_loop (sendto : Z → Z) (params : ConnectionParams) (msg_id : Z)
    (data : list Z) (length total_packets : Z) : option SendLog :=
  foldl_opt (send_one sendto params msg_id data length) (mkSendLog 0 0 [])
    (zrange 0 total_packets).

(** Answers of the calls the data phase makes. *)
Record data_calls : Set := mkDataCalls {
  dc_socket : Z;
  dc_inet_pton : Z;
  dc_sendto : Z → Z            (* result of [sendto] for packet [i] *)
}.

(** [sdr_send_post] after the CTS: return code, handle and log. *)
Definition send_post_data (pad : Padding) (os : data_calls) (ps : Process) (c : SDRConnection)
    (data : list Z) (length : Z) (cts : ControlMessage)
    : option (Z * Process * SDRConnection * option SDRSendHandle * list (Z * list Z)) :=
  let params := cm_params cts in
  let '(_, cx) := initialize (cn_connection_ctx c) (cm_connection_id cts) params in
  let c := cn_with_ctx c cx in
  let accept := message_with zero_message ACCEPT (cm_connection_id cts) params in
  client ← cn_tcp_client c;
  let '(_, client) := client_send_message pad client accept in
  let c := cn_with_client c client in
  if prm_mtu_bytes params =? 0 then Some (-1, ps, c, None, []) else
  if prm_packets_per_chunk params =? 0 then Some (-1, ps, c, None, []) else
  let '(msg_id, ps) := allocate_msg_id ps in
  let handle sent := mkSendHandle msg_id (prm_transfer_id params) length sent in
  let total_packets := u64 (length + prm_mtu_bytes params - 1) / prm_mtu_bytes params in
  if dc_socket os <? 0 then Some (-1, ps, c, None, []) else
  if dc_inet_pton os <=? 0 then Some (-1, ps, c, None, []) else
  if cx_auto_send_data cx then
    log ← send_data_loop (dc_sendto os) params msg_id data length total_packets;
    Some (0, ps, c, Some (handle (sl_sent log)), sl_wire log)
  else Some (0, ps, c, Some (handle 0), []).

(** [sdr_send_post]. *)
Definition sdr_send_post (pad : Padding) (uninit : ControlMessage) (os : data_calls)
    (ps : Process) (c : SDRConnection) (null_arg : bool) (data : list Z) (length : Z)
    : option (call_result * Process * SDRConnection * option SDRSendHandle * list (Z * list Z)) :=
  let failed c := Some (Returned (-1), ps, c, None, []) in
  if null_arg || (length =? 0) then failed c else
  if cn_is_receiver c then failed c else
  match cn_tcp_client c with
  | None => failed c
  | Some client =>
      if negb (tc_is_connected client) then failed c else
      let offer := message_with zero_message OFFER (cx_connection_id (cn_connection_ctx c))
        (desired_params (cx_params (cn_connection_ctx c)) length) in
      let '(ok, client) := client_send_message pad client offer in
      let c := cn_with_client c client in
      if negb ok then failed c else
      let '(got, client) := wait_message client uninit (λ m, msg_is m CTS) in
      let c := cn_with_client c client in
      match got with
      | WaitBlocked => Some (Blocked, ps, c, None, [])
      | WaitLost => failed c
      | WaitGot cts =>
          '(code, ps, c, handle, wire) ← send_post_data pad os ps c data length cts;
          Some (Returned code, ps, c, handle, wire)
      end
  end.

(** [sdr_send_poll]. *)
Definition sdr_send_poll (uninit : ControlMessage) (c : SDRConnection)
    : call_result * SDRConnection :=
  match cn_tcp_client c with
  | None => (Returned 0, c)
  | Some client =>
      if negb (tc_is_connected client) then (Returned 0, c) else
      let '(got, client) := wait_message client uninit
        (λ m, msg_is m COMPLETE_ACK || msg_is m INCOMPLETE_NACK) in
      (match got with
       | WaitBlocked => Blocked
       | WaitLost => Returned (-1)
       | WaitGot m => if msg_is m COMPLETE_ACK then Returned 0 else Returned (-1)
       end, cn_with_client c client)
  end.

(** ** Streaming send *)

(** The stream handles that [new] has made and [delete] has not freed; a pointer to
    a handle is [None] when it is null, and dangles when the heap has no object at
    its address. *)
Notation StreamHeap := (gmap Z SDRStreamHandle).

Definition sdr_send_stream_start (uninit : ControlMessage) (ps : Process) (c : SDRConnection)
    (heap : StreamHeap) (null_arg : bool) (length : Z)
    : option (call_result * Process * SDRConnection * StreamHeap * option Z) :=
  let failed c := Some (Returned (-1), ps, c, heap, None) in
  if null_arg then failed c else
  if cn_is_receiver c then failed c else
  match cn_tcp_client c with
  | None => failed c
  | Some client =>
      if negb (tc_is_connected client) then failed c else
      match ep_receive client uninit with
      | None => Some (Blocked, ps, c, heap, None)
      | Some (ok, cts, client) =>
          let c := cn_with_client c client in
          if negb ok then failed c else
          if negb (msg_is cts CTS) then failed c else
          let params := cm_params cts in
          let c := cn_with_ctx c
            (snd (initialize (cn_connection_ctx c) (cm_connection_id cts) params)) in
          let '(msg_id, ps) := allocate_msg_id ps in
          if prm_mtu_bytes params =? 0 then None else    (* division by zero *)
          let total_packets := u64 (length + prm_mtu_bytes params - 1) / prm_mtu_bytes params in
          let p := fresh (dom heap) in                     (* [new] *)
          Some (Returned 0, ps, c,
                <[p := mkStreamHandle msg_id (prm_transfer_id params) length total_packets 0 true]> heap,
                Some p)
      end
  end.

(** The packet the streaming loop builds: [i * mtu_bytes] is a [uint32_t]. *)
Definition stream_packet (params : ConnectionParams) (h : SDRStreamHandle) (data : list Z) (i : Z)
    : option (option SDRPacket) :=
  let at_ := i *u32 prm_mtu_bytes params in
  let packet_data_len := Z.min (prm_mtu_bytes params) (sm_buffer_size h -u64 at_) in
  if Z.of_nat (length data) <? at_ then None else
  packet ← create_data_packet (prm_transfer_id params) (sm_msg_id h) i
    (prm_packets_per_chunk params) (drop (Z.to_nat at_) data) packet_data_len;
  Some (option_map set_chunk_seq packet).

Definition stream_one (sendto : Z → Z) (params : ConnectionParams) (h : SDRStreamHandle)
    (data : list Z) (log : SendLog) (i : Z) : option SendLog :=
  packet ← stream_packet params h data i;
  match packet with
  | None => Some log
  | Some packet =>
      if sendto i >? 0 then
        Some (mkSendLog (sl_sent log + 1) (sl_failed log)
          (sl_wire log ++ [(channel_port params i, packet_datagram packet)]))
      else Some log
  end.

(** [None]: a division by zero, a read outside the buffer, or a dangling pointer. *)
Definition sdr_send_stream_continue (os : data_calls) (params : ConnectionParams) (heap : StreamHeap)
    (handle : option Z) (data : list Z) (offset length : Z)
    : option (Z * StreamHeap * list (Z * list Z)) :=
  match handle with
  | None => Some (-1, heap, [])
  | Some p =>
      h ← heap !! p;
      if negb (sm_is_active h) then Some (-1, heap, []) else
      let mtu_bytes := prm_mtu_bytes params in
      if mtu_bytes =? 0 then None else
      let start_packet := offset / mtu_bytes in
      let end_packet := u32 (u64 (offset + length + mtu_bytes - 1) / mtu_bytes) in
      if dc_socket os <? 0 then Some (-1, heap, []) else
      if dc_inet_pton os <=? 0 then Some (-1, heap, []) else
      log ← foldl_opt (stream_one (dc_sendto os) params h data)
        (mkSendLog (sm_packets_sent h) 0 [])
        (zrange start_packet (Z.min end_packet (sm_total_packets h)));
      Some (0, <[p := mkStreamHandle (sm_msg_id h) (sm_generation h) (sm_buffer_size h)
                        (sm_total_packets h) (sl_sent log) (sm_is_active h)]> heap, sl_wire log)
  end.

(** [handle->is_active = false; delete handle;] *)
Definition sdr_send_stream_end (heap : StreamHeap) (handle : option Z) : option (Z * StreamHeap) :=
  match handle with
  | None => Some (-1, heap)
  | Some p =>
      h ← heap !! p;
      let heap := <[p := mkStreamHandle (sm_msg_id h) (sm_generation h) (sm_buffer_size h)
                           (sm_total_packets h) (sm_packets_sent h) false]> heap in
      Some (0, delete p heap)
  end.

(** ** Lemmas: sending *)

Lemma or_else_pos x y : 0 ≤ x → 0 < y → 0 < or_else x y.
Proof. unfold or_else. case_bool; lia. Qed.

Lemma or_else_range x y n : 0 ≤ x < n → 0 ≤ y < n → 0 ≤ or_else x y < n.
Proof. unfold or_else. by case_bool. Qed.

(** Bytes of packet [i] of a message. *)
Definition packet_bytes (data : list Z) (length mtu i : Z) : list Z :=
  take (Z.to_nat (Z.min mtu (length - i * mtu))) (drop (Z.to_nat (i * mtu)) data).

(** Sizes for which the data loop's arithmetic does not wrap. *)
Record sendable (params : ConnectionParams) (data : list Z) (length : Z) : Prop := {
  sd_params : wf_params params;
  sd_mtu : 0 < prm_mtu_bytes params ≤ MAX_PAYLOAD_SIZE;
  sd_ppc : 0 < prm_packets_per_chunk params;
  sd_length : 0 < length ≤ Z.of_nat (List.length data);
  sd_bound : length < 281474976710656
}.

Definition total_packets_of (params : ConnectionParams) (length : Z) : Z :=
  (length + prm_mtu_bytes params - 1) / prm_mtu_bytes params.

Lemma u32_mod_offset i : u32 i mod 262144 = i mod 262144.
Proof. unfold u32. symmetry. apply Znumtheory.Zmod_div_mod; [lia|lia|by exists 16384]. Qed.

(** Packet [i] as the loop builds it. *)
Lemma data_packet_eq params msg_id data length i : sendable params data length →
  0 ≤ msg_id < 1024 → 0 ≤ i < total_packets_of params length →
  ∃ p, data_packet params msg_id data length i = Some (Some p) ∧ wf_header (pkt_header p) ∧
    is_valid (pkt_header p) = true ∧ h_transfer_id (pkt_header p) = prm_transfer_id params ∧
    h_msg_id (pkt_header p) = msg_id ∧ h_packet_offset (pkt_header p) = i mod 262144 ∧
    h_packets_per_chunk (pkt_header p) = prm_packets_per_chunk params ∧
    h_chunk_seq (pkt_header p) = i mod 262144 / prm_packets_per_chunk params ∧
    pkt_payload p = packet_bytes data length (prm_mtu_bytes params) i ∧
    h_payload_len (pkt_header p) = Z.of_nat (List.length (pkt_payload p)) ∧
    0 < Z.of_nat (List.length (pkt_payload p)) ≤ MAX_PAYLOAD_SIZE.
Proof.
  intros [Hwf Hmtu Hppc Hlen Hb] Hid Hi. unfold data_packet.
  set (mtu := prm_mtu_bytes params) in *.
  assert (i * mtu < length) as Him by (apply (ceil_div_lt length mtu i); [lia..|apply Hi]).
  unfold MAX_PAYLOAD_SIZE, sizeof_SDRPacketHeader in *.
  assert (0 ≤ i * mtu) by nia.
  rewrite (u64_small (i * mtu)) by lia. rewrite (u64_small (length - i * mtu)) by lia.
  set (len := Z.min mtu (length - i * mtu)).
  assert (0 < len ≤ mtu) as Hl by lia.
  change (64 * 1024 - 8 - 32) with 65496 in *.
  destruct (len >? 65496) eqn:Hg; bool_to_prop; [lia|].
  rewrite (proj2 (Z.ltb_ge _ _)) by lia.
  destruct (create_data_packet_some (prm_transfer_id params) msg_id (u32 i) (prm_packets_per_chunk params)
    (drop (Z.to_nat (i * mtu)) data) len) as (p & Hp).
  { rewrite length_drop. lia. }
  { unfold MAX_PAYLOAD_SIZE, sizeof_SDRPacketHeader. lia. }
  rewrite Hp. cbn. exists (set_chunk_seq p). split; [done|].
  apply create_data_packet_inv in Hp as (Hw & Hm & Ht & Hmid & Ho & Hpc & Hpl & Hr & _);
    [|lia|apply Hwf|apply Hwf|lia|apply u32_range].
  rewrite u32_mod_offset in Ho.
  pose proof (mem_read_length _ _ _ _ Hr) as Hrl.
  assert (pkt_payload p = packet_bytes data length mtu i) as Hpay.
  { unfold mem_read in Hr. destruct (_ && _); [|done]. injection Hr as <-. by rewrite drop_0. }
  split_and!; [by apply wf_set_chunk_seq|unfold is_valid; cbn; by rewrite Hm|exact Ht| |exact Ho|
    exact Hpc| |exact Hpay| | |]; cbn [set_chunk_seq pkt_header pkt_payload h_msg_id h_chunk_seq
      h_payload_len]; try lia.
  - rewrite Hmid. apply Z.mod_small. lia.
  - unfold get_chunk_id. rewrite Hpc, Ho. by rewrite (proj2 (Z.eqb_neq _ _)) by lia.
Qed.

(** The payloads of consecutive packets are consecutive bytes. *)
Lemma concat_packet_bytes data length mtu n : 0 < mtu →
  0 ≤ length ≤ Z.of_nat (List.length data) → 0 ≤ n → (∀ i, 0 ≤ i < n → i * mtu < length) →
  concat (packet_bytes data length mtu <$> zrange 0 n) = take (Z.to_nat (Z.min (n * mtu) length)) data.
Proof.
  intros Hm Hl Hn. pattern n. apply natlike_ind; [| |done].
  { intros _. rewrite zrange_nil by lia. by rewrite Z.mul_0_l, Z.min_l by lia. }
  clear n Hn. intros n Hn IH Hlt. rewrite <-Z.add_1_r, zrange_snoc by lia.
  rewrite fmap_app, concat_app, IH by (intros; apply Hlt; lia). cbn. rewrite app_nil_r.
  unfold packet_bytes. specialize (Hlt n ltac:(lia)).
  rewrite (Z.min_l (n * mtu)) by lia.
  assert (0 ≤ n * mtu) by nia.
  replace (Z.to_nat (Z.min ((n + 1) * mtu) length))
    with (Z.to_nat (n * mtu) + Z.to_nat (Z.min mtu (length - n * mtu)))%nat by lia.
  by rewrite take_take_drop.
Qed.

(** ** Lemmas: negotiation *)

Lemma c_string_bytes bs : Forall (is_uint 1) bs → Forall (is_uint 1) (c_string bs).
Proof. induction 1 as [|b bs Hb _ IH]; [done|]. cbn. case_match; [done|by constructor]. Qed.

Lemma strncpy_ip_wf src : Forall (is_uint 1) src →
  Forall (is_uint 1) (strncpy_ip src) ∧ length (strncpy_ip src) = 16%nat ∧
  nth 15 (strncpy_ip src) 1 = 0 ∧ ip_is_empty (strncpy_ip src) = ip_is_empty src.
Proof.
  intros Hs. unfold strncpy_ip. set (s := take 15 (c_string src)).
  assert (length s ≤ 15)%nat as Hl by (subst s; rewrite length_take; lia).
  split_and!.
  - apply Forall_app; split; [by apply Forall_take, c_string_bytes|].
    apply Forall_replicate. uint_lia.
  - rewrite length_app, length_replicate. lia.
  - by rewrite nth_lookup, lookup_app_r, lookup_replicate_2 by lia.
  - unfold ip_is_empty. subst s. destruct src as [|b src]; [done|]. cbn.
    destruct (b =? 0) eqn:Hb; cbn; [done|done].
Qed.

(** The packet of the data loop (any packet where it builds none). *)
Definition built_packet (params : ConnectionParams) (msg_id : Z) (data : list Z) (length i : Z)
    : SDRPacket :=
  match data_packet params msg_id data length i with
  | Some (Some p) => p
  | _ => mkPacket zero_header []
  end.

Definition wire_of (params : ConnectionParams) (msg_id : Z) (data : list Z) (length i : Z)
    : Z * list Z :=
  (channel_port params i, packet_datagram (built_packet params msg_id data length i)).

(** The data loop: [sendto] is called once per packet in order; the accepted
    packets are on the wire, the others are counted as failed. *)
Lemma send_data_loop_eq sendto params msg_id data length n : sendable params data length →
  0 ≤ msg_id < 1024 → 0 ≤ n ≤ total_packets_of params length →
  send_data_loop sendto params msg_id data length n =
    Some (let accepted := List.filter (λ i, sendto i >? 0) (zrange 0 n) in
          mkSendLog (Z.of_nat (List.length accepted)) (n - Z.of_nat (List.length accepted))
            (wire_of params msg_id data length <$> accepted)).
Proof.
  intros Hs Hid [Hn Hle]. unfold send_data_loop. revert Hle. pattern n.
  apply natlike_ind; [| |done].
  { intros _. by rewrite zrange_nil by lia. }
  clear n Hn. intros n Hn IH Hle. rewrite <-Z.add_1_r, zrange_snoc by lia.
  rewrite foldl_opt_app, IH by lia. cbn [mbind option_bind foldl_opt].
  rewrite List.filter_app. unfold send_one at 1.
  destruct (data_packet_eq params msg_id data length n Hs Hid ltac:(lia)) as (p & Hp & _).
  rewrite Hp. cbn [mbind option_bind List.filter].
  destruct (sendto n >? 0); cbn [sl_sent sl_failed sl_wire]; cbv zeta; f_equal.
  - rewrite length_app, fmap_app. cbn [fmap list_fmap List.length].
    assert (wire_of params msg_id data length n = (channel_port params n, packet_datagram p)) as ->
      by (unfold wire_of, built_packet; by rewrite Hp).
    cbn [mbind option_bind]. do 2 f_equal; lia.
  - rewrite app_nil_r. cbn [mbind option_bind]. do 2 f_equal; lia.
Qed.

Lemma built_packet_ok params msg_id data length i : sendable params data length →
  0 ≤ msg_id < 1024 → 0 ≤ i < total_packets_of params length →
  let p := built_packet params msg_id data length i in
  wf_header (pkt_header p) ∧ is_valid (pkt_header p) = true ∧
  h_transfer_id (pkt_header p) = prm_transfer_id params ∧
  h_msg_id (pkt_header p) = msg_id ∧ h_packet_offset (pkt_header p) = i mod 262144 ∧
  h_chunk_seq (pkt_header p) = i mod 262144 / prm_packets_per_chunk params ∧
  pkt_payload p = packet_bytes data length (prm_mtu_bytes params) i ∧
  h_payload_len (pkt_header p) = Z.of_nat (List.length (pkt_payload p)) ∧
  0 < Z.of_nat (List.length (pkt_payload p)) ≤ MAX_PAYLOAD_SIZE.
Proof.
  intros Hs Hid Hi p. subst p. unfold built_packet.
  destruct (data_packet_eq params msg_id data length i Hs Hid Hi)
    as (p & -> & ? & ? & ? & ? & ? & _ & ? & ? & ? & [? ?]). cbv iota. by split_and!.
Qed.

(** The bounds of [wf_params] on what the negotiation reads, as numbers. *)
Lemma wf_params_numbers p : wf_params p →
  0 ≤ prm_transfer_id p < 4294967296 ∧ 0 ≤ prm_total_bytes p < 18446744073709551616 ∧
  0 ≤ prm_mtu_bytes p < 4294967296 ∧ 0 ≤ prm_packets_per_chunk p < 65536 ∧
  0 ≤ prm_num_channels p < 65536 ∧ 0 ≤ prm_channel_base_port p < 65536 ∧
  0 ≤ prm_udp_server_port p < 65536.
Proof.
  intros [H1 H2 H3 _ _ H6 _ _ _ _ _ _ H13 H14 _ _ H17]. unfold is_uint in *.
  change (256 ^ Z.of_nat 4) with 4294967296 in *.
  change (256 ^ Z.of_nat 8) with 18446744073709551616 in *.
  change (256 ^ Z.of_nat 2) with 65536 in *. lia.
Qed.

Ltac or_else_lia :=
  unfold or_else, MAX_PAYLOAD_SIZE, sizeof_SDRPacketHeader in *; repeat case_inner_bool; lia.

(** The numeric fields the negotiation computes. *)
Lemma negotiate_numbers params offer length : wf_params params → wf_params offer →
  0 < length < 18446744073709551616 →
  let p := negotiate params offer length in
  0 < prm_mtu_bytes p ≤ MAX_PAYLOAD_SIZE ∧ 0 < prm_packets_per_chunk p < 65536 ∧
  0 < prm_num_channels p < 65536 ∧ 0 < prm_udp_server_port p < 65536 ∧
  0 < prm_channel_base_port p < 65536 ∧ 0 < prm_total_bytes p < 18446744073709551616 ∧
  0 < prm_transfer_id p < 4294967296 ∧
  (prm_mtu_bytes params ≠ 0 → prm_mtu_bytes p = Z.min (prm_mtu_bytes params) MAX_PAYLOAD_SIZE) ∧
  (prm_packets_per_chunk params ≠ 0 → prm_packets_per_chunk p = prm_packets_per_chunk params) ∧
  (prm_num_channels offer ≠ 0 → prm_num_channels p = prm_num_channels offer) ∧
  (prm_total_bytes offer ≠ 0 → prm_total_bytes p = prm_total_bytes offer).
Proof.
  intros (?&?&?&?&?&?&?)%wf_params_numbers (?&?&?&?&?&?&?)%wf_params_numbers Hl.
  cbn [negotiate prm_mtu_bytes prm_packets_per_chunk prm_num_channels prm_udp_server_port
    prm_channel_base_port prm_total_bytes prm_transfer_id].
  split_and!; try or_else_lia; intros; or_else_lia.
Qed.

Lemma negotiate_ip params offer length : wf_params params → wf_params offer →
  nth 15 (prm_udp_server_ip params) 1 = 0 →
  let ip := prm_udp_server_ip (negotiate params offer length) in
  Forall (is_uint 1) ip ∧ List.length ip = 16%nat ∧ nth 15 ip 1 = 0 ∧ ip_is_empty ip = false.
Proof.
  intros Hp Ho Hnul. cbn [negotiate prm_udp_server_ip].
  destruct (ip_is_empty (prm_udp_server_ip params)) eqn:He; [|split_and!; try done; apply Hp].
  assert (Forall (is_uint 1) loopback) as Hl
    by (repeat apply Forall_cons_2; try apply Forall_nil_2; uint_lia).
  destruct (ip_is_empty (prm_udp_server_ip offer)) eqn:Heo; cbn [negb].
  - destruct (strncpy_ip_wf loopback Hl) as (? & ? & ? & Hx). by split_and!.
  - destruct (strncpy_ip_wf (prm_udp_server_ip offer) (wfp_udp_server_ip _ Ho)) as (? & ? & ? & Hx).
    rewrite Hx. by split_and!.
Qed.

Lemma negotiate_wf params offer length : wf_params params → wf_params offer →
  0 < length < 18446744073709551616 → nth 15 (prm_udp_server_ip params) 1 = 0 →
  wf_params (negotiate params offer length).
Proof.
  intros Hp Ho Hlen Hnul. pose proof (negotiate_numbers params offer length Hp Ho Hlen) as Hn.
  pose proof (negotiate_ip params offer length Hp Ho Hnul) as (Hip & Hipl & Hz & He).
  cbv zeta in Hn. destruct Hn as (N1 & N2 & N3 & N4 & N5 & N6 & N7 & _).
  constructor; try done; try apply Hp; unfold is_uint;
    change (256 ^ Z.of_nat 4) with 4294967296;
    change (256 ^ Z.of_nat 8) with 18446744073709551616;
    change (256 ^ Z.of_nat 2) with 65536;
    unfold MAX_PAYLOAD_SIZE, sizeof_SDRPacketHeader in *; lia.
Qed.

(** ** Lemmas: posting a receive *)

Lemma ensure_udp_receiver_ctx c params env ok c' : ensure_udp_receiver c params env = (ok, c') →
  cx_msg_table (cn_connection_ctx c') = cx_msg_table (cn_connection_ctx c) ∧
  cx_connection_id (cn_connection_ctx c') = cx_connection_id (cn_connection_ctx c) ∧
  cx_generation_counters (cn_connection_ctx c') = cx_generation_counters (cn_connection_ctx c) ∧
  cn_tcp_server c' = cn_tcp_server c ∧ cn_is_receiver c' = cn_is_receiver c.
Proof.
  unfold ensure_udp_receiver. destruct (cn_udp_receiver c); [by intros [= <- <-]|].
  destruct (receiver_start _ _ _ _ _) as [[ok' u] cx] eqn:Hs. intros [= <- <-]. cbn.
  revert Hs. unfold receiver_start. destruct (rv_is_running new_receiver); [by intros [= <- <- <-]|].
  destruct (open_channels _ _ _ _ _) as [[ok2 ws] closed]. destruct (negb ok2); intros [= <- <- <-];
    [done|]. by destruct ws.
Qed.

(** The parameters of the CTS: the negotiated ones with the transfer id the
    process's counter gives. *)
Definition cts_params (ps : Process) (c : SDRConnection) (offer : ControlMessage) (length : Z)
    : ConnectionParams :=
  with_transfer_id (negotiate (cx_params (cn_connection_ctx c)) (cm_params offer) length)
    (ps_receiver_generation_counter ps).

(** What a setup leaves that was given a slot. *)
Record armed (ps : Process) (c : SDRConnection) (buffer : Buffer) (length : Z)
    (offer : ControlMessage) (ps' : Process) (c' : SDRConnection) (h : SDRRecvHandle) : Prop := {
  ar_slot : rh_msg_id h = ps_next_msg_id ps mod 1024 ∧ rh_msg_ctx h = rh_msg_id h;
  ar_generation : rh_generation h = ps_receiver_generation_counter ps;
  ar_next : ps_next_msg_id ps' = (ps_next_msg_id ps +u32 1) mod 1024 ∧
    ps_receiver_generation_counter ps' = ps_receiver_generation_counter ps +u32 1;
  ar_table : cx_msg_table (cn_connection_ctx c') =
    <[rh_msg_id h :=
        posted_context (rh_msg_id h)
          (cx_generation_counters (cn_connection_ctx c) !!! Z.to_nat (rh_msg_id h)) buffer length
          (calculate_bitmap_sizes length (prm_mtu_bytes (cts_params ps c offer length))
             (prm_packets_per_chunk (cts_params ps c offer length))).1
          (calculate_bitmap_sizes length (prm_mtu_bytes (cts_params ps c offer length))
             (prm_packets_per_chunk (cts_params ps c offer length))).2
          (cts_params ps c offer length)]> (cx_msg_table (cn_connection_ctx c))
}.

Lemma recv_post_setup_armed pad uninit env ps c buffer length offer ret ps' c' h :
  recv_post_setup pad uninit env ps c buffer length offer = (ret, ps', c', Some h) →
  armed ps c buffer length offer ps' c' h ∧
  (ret = Some (-1) ∨ ret = None) ∧
  (ret = None → match cn_tcp_server c with
     | Some server => 0 ≤ ts_client_fd server → ∃ server',
         server_send_message pad server (message_with uninit CTS
           (cx_connection_id (cn_connection_ctx c)) (cts_params ps c offer length)) = (true, server') ∧
         cn_tcp_server c' = Some server'
     | None => True end).
Proof.
  cbv beta zeta iota delta [recv_post_setup allocate_msg_id initialize].
  cbn [cx_params cx_connection_id ps_next_msg_id ps_next_conn_id ps_receiver_generation_counter].
  fold (cts_params ps c offer length).
  set (id := ps_next_msg_id ps mod 1024). set (G := ps_receiver_generation_counter ps).
  set (sizes := calculate_bitmap_sizes _ _ _).
  destruct sizes as [packets chunks] eqn:Hsizes.
  rewrite allocate_message_slot_eq. match goal with |- context [slot_free ?cx id G] => destruct (slot_free cx id G) end;
    [|by intros [=]].
  cbn [cx_msg_table cx_generation_counters cx_params]. cbv zeta.
  rewrite lookup_insert_eq. cbn [mc_generation].
  destruct (ensure_udp_receiver _ _ _) as [ok c1] eqn:Hu.
  apply ensure_udp_receiver_ctx in Hu as (Ht & Hc & _ & Hsrv & _). cbn in Ht, Hc, Hsrv.
  rewrite insert_insert_eq in Ht.
  assert (∀ h0 c2, cx_msg_table (cn_connection_ctx c2) = cx_msg_table (cn_connection_ctx c1) →
    h0 = mkRecvHandle id G id buffer length →
    armed ps c buffer length offer
      (mkProcess ((ps_next_msg_id ps +u32 1) mod 1024) (ps_next_conn_id ps) (G +u32 1)) c2 h0)
    as Harm.
  { intros h0 c2 Hc2 ->. constructor; try done. rewrite Hc2, Ht. cbn [rh_msg_id].
    unfold sizes in Hsizes. cbn [cts_params with_transfer_id prm_mtu_bytes prm_packets_per_chunk].
    by rewrite Hsizes. }
  destruct ok; cbn [negb].
  2: { intros [= <- <- <- <-]. split; [by apply Harm|]. split; [by left|done]. }
  rewrite Hsrv. destruct (cn_tcp_server c) as [server|].
  2: { intros [= <- <- <- <-]. split; [by apply Harm|]. split; [by right|done]. }
  destruct (ts_client_fd server <? 0) eqn:Hfd.
  { intros [= <- <- <- <-]. split; [by apply Harm|]. split; [by right|].
    intros _ ?. apply Z.ltb_lt in Hfd. lia. }
  rewrite Hc. destruct (server_send_message _ _ _) as [sent server'] eqn:Hsend.
  destruct sent; cbn [negb]; intros [= <- <- <- <-]; (split; [by apply Harm|]).
  - split; [by right|]. intros _ _. exists server'. by split.
  - split; [by left|done].
Qed.

(** A transfer set up in a slot: its bitmaps, in step with its sizes. *)
Record wf_transfer (mc : MessageContext) (b : BackendBitmap) (fb : FrontendBitmap) : Prop := {
  wft_backend : mc_backend mc = Some b;
  wft_frontend : mc_frontend mc = Some fb;
  wft_b : wf_backend b;
  wft_fb : wf_frontend fb;
  wft_packets : mc_total_packets mc = bb_total_packets b;
  wft_chunks : mc_total_chunks mc = num_chunks b ∧ fb_total_chunks fb = num_chunks b;
  wft_sound : frontend_sound b fb
}.

(** Sizes for which a receive's 32-bit counts do not wrap. *)
Definition receivable (length : Z) : Prop := 0 < length ≤ 4294967296 - 65536 - 65536.

Lemma bitmap_sizes_eq length mtu ppc : receivable length → 0 < mtu < 4294967296 → 0 < ppc < 65536 →
  calculate_bitmap_sizes length mtu ppc =
    ((length + mtu - 1) / mtu, ((length + mtu - 1) / mtu + ppc - 1) / ppc) ∧
  0 < (length + mtu - 1) / mtu ≤ length ∧
  0 < ((length + mtu - 1) / mtu + ppc - 1) / ppc ≤ length.
Proof.
  unfold receivable. intros Hl Hm Hp. unfold calculate_bitmap_sizes.
  rewrite (proj2 (Z.eqb_neq mtu 0)), (proj2 (Z.eqb_neq ppc 0)) by lia. cbn [orb]. cbv zeta.
  rewrite (u64_small (length + mtu - 1)) by lia.
  pose proof (ceil_div_bound length mtu ltac:(lia) ltac:(lia)).
  assert (0 < (length + mtu - 1) / mtu) by (apply ceil_div_lt; lia).
  set (packets := (length + mtu - 1) / mtu) in *.
  rewrite (u64_small (packets + ppc - 1)) by lia.
  pose proof (ceil_div_bound packets ppc ltac:(lia) ltac:(lia)).
  assert (0 < (packets + ppc - 1) / ppc) by (apply ceil_div_lt; lia).
  split_and!; [done|lia..].
Qed.

(** The context a posted receive starts from. *)
Lemma posted_context_wf slot g buf length params : receivable length →
  0 < prm_mtu_bytes params < 4294967296 → 0 < prm_packets_per_chunk params < 65536 →
  let sizes := calculate_bitmap_sizes length (prm_mtu_bytes params) (prm_packets_per_chunk params) in
  let mc := posted_context slot g buf length sizes.1 sizes.2 params in
  ∃ b fb, wf_transfer mc b fb ∧ fb_joinable fb = true ∧
    (∀ q, received b q = false) ∧ (∀ q, marked fb q = false) ∧
    bb_total_packets b = (length + prm_mtu_bytes params - 1) / prm_mtu_bytes params ∧
    bb_packets_per_chunk b = prm_packets_per_chunk params.
Proof.
  intros Hl Hm Hp. destruct (bitmap_sizes_eq length _ _ Hl Hm Hp) as (-> & Hpk & Hch).
  unfold receivable in Hl. cbn [fst snd]. cbv zeta.
  set (packets := (length + _ - 1) / _) in *. set (chunks := (packets + _ - 1) / _) in *.
  unfold posted_context. rewrite !u32_small by lia.
  exists (make_backend packets (prm_packets_per_chunk params)).
  exists (snd (start_polling (make_frontend
    (Some (make_backend packets (prm_packets_per_chunk params))) chunks) 100)).
  assert (∀ c, marked (snd (start_polling (make_frontend
    (Some (make_backend packets (prm_packets_per_chunk params))) chunks) 100)) c = false) as Hmk.
  { intros c. apply (make_frontend_marked (Some (make_backend packets (prm_packets_per_chunk params))) chunks c). }
  split_and!; try done; [|apply make_backend_received].
  constructor; try done.
  - apply make_backend_wf; lia.
  - destruct (make_frontend_wf (Some (make_backend packets (prm_packets_per_chunk params))) chunks)
      as [? ? ?]; [lia|]. by constructor.
  - intros c. by rewrite Hmk.
Qed.

(** The completion test reads the marks. *)
Lemma transfer_complete_count mc fb : wf_frontend fb → fb_total_chunks fb = mc_total_chunks mc →
  0 < mc_total_chunks mc →
  ∃ complete, transfer_complete (mc_set_frontend mc (stop_polling fb)) = Some complete ∧
    (complete = true ↔ mc_state mc = COMPLETED ∨
       ∀ k, 0 ≤ k < mc_total_chunks mc → marked fb k = true).
Proof.
  intros Hfb Ht Hpos. unfold transfer_complete.
  cbn [mc_set_frontend mc_state mc_frontend mc_total_chunks].
  destruct (bool_decide (mc_state mc = COMPLETED)) eqn:Hst.
  { apply bool_decide_eq_true in Hst. exists true. split; [done|]. split; [by left|done]. }
  apply bool_decide_eq_false in Hst.
  assert (get_total_chunks_completed (stop_polling fb) = get_total_chunks_completed fb) as ->
    by (unfold stop_polling; by destruct (negb (fb_joinable fb))).
  destruct (completed_count_all fb Hfb) as (n & -> & Hn & Hall). cbn [mbind option_bind].
  pose proof (wff_total _ Hfb). rewrite u32_small by lia.
  eexists. split; [done|]. rewrite Ht in Hall. rewrite <-Hall, andb_true_iff, Z.gtb_lt, Z.geb_le.
  split; [intros [_ ?]; by right|]. intros [?|?]; [done|lia].
Qed.

Lemma transfer_complete_eq mc b fb : wf_transfer mc b fb → 0 < num_chunks b →
  ∃ complete, transfer_complete (mc_set_frontend mc (stop_polling fb)) = Some complete ∧
    (complete = true ↔ mc_state mc = COMPLETED ∨
       ∀ k, 0 ≤ k < num_chunks b → marked fb k = true).
Proof.
  intros [_ _ Hb Hfb _ [Hc Ht] _] Hpos. rewrite <-Hc in *. apply transfer_complete_count; congruence.
Qed.

(** A context that is armed keeps the receive path's invariant. *)
Lemma posted_wf_rx c c' mem slot g id m length params : wf_rx (mkRx c mem) →
  mem !! id = Some m → receivable length → length ≤ Z.of_nat (List.length m) →
  0 < prm_mtu_bytes params < 4294967296 → 0 < prm_packets_per_chunk params < 65536 →
  let sizes := calculate_bitmap_sizes length (prm_mtu_bytes params) (prm_packets_per_chunk params) in
  cx_msg_table c' = <[slot :=
    posted_context slot g (BufUser id) length sizes.1 sizes.2 params]> (cx_msg_table c) →
  wf_rx (mkRx c' mem).
Proof.
  intros Hwf Hm Hl Hlm Hmtu Hppc sizes Ht s mc'. cbn. rewrite Ht, lookup_insert.
  destruct (posted_context_wf slot g (BufUser id) length params Hl Hmtu Hppc) as (b & fb & Hwt & _).
  fold sizes in Hwt. case_decide as Hs; [|apply (Hwf s)].
  intros [= <-]. constructor.
  - cbn. unfold receivable in Hl. lia.
  - cbn. lia.
  - rewrite (wft_backend _ _ _ Hwt). intros b' [= <-]. apply Hwt.
  - intros id' [= <-]. by exists m.
  - done.
Qed.

(** The sizes of the CTS. *)
Lemma cts_params_sizes ps c offer length : wf_params (cx_params (cn_connection_ctx c)) →
  wf_params (cm_params offer) → receivable length →
  0 < prm_mtu_bytes (cts_params ps c offer length) ≤ MAX_PAYLOAD_SIZE ∧
  0 < prm_packets_per_chunk (cts_params ps c offer length) < 65536.
Proof.
  intros Hp Ho Hl. unfold receivable in Hl.
  destruct (negotiate_numbers _ _ length Hp Ho ltac:(lia)) as (Hmtu & Hppc & _). by split.
Qed.

Lemma cts_params_wf ps c offer length : wf_params (cx_params (cn_connection_ctx c)) →
  wf_params (cm_params offer) → nth 15 (prm_udp_server_ip (cx_params (cn_connection_ctx c))) 1 = 0 →
  0 ≤ ps_receiver_generation_counter ps < 4294967296 → receivable length →
  wf_params (cts_params ps c offer length).
Proof.
  intros Hp Ho Hnul Hg Hl. unfold receivable in Hl.
  destruct (negotiate_wf _ _ length Hp Ho ltac:(lia) Hnul). by constructor.
Qed.

(** ** Properties *)

Lemma zero_params_wf : wf_params zero_params.
Proof.
  constructor; cbn [zero_params prm_transfer_id prm_total_bytes prm_mtu_bytes
    prm_packet_bytes prm_chunk_bytes prm_packets_per_chunk prm_total_chunks prm_fec_k prm_fec_m
    prm_max_inflight prm_rto_ms prm_rtt_alpha_ms prm_num_channels prm_channel_base_port
    prm_udp_server_ip prm_udp_server_port]; try uint_lia.
  apply Forall_replicate. uint_lia.
Qed.

Lemma zero_message_wf : wf_message zero_message.
Proof.
  constructor; cbn [zero_message cm_magic cm_msg_type cm_connection_id cm_params
    cm_chunk_bitmap_words cm_chunk_bitmap cm_num_gaps cm_gap_start cm_gap_len];
    try apply zero_params_wf; try uint_lia; apply Forall_replicate; uint_lia.
Qed.

Lemma message_with_wf uninit t id params : wf_message uninit → is_uint 4 id → wf_params params →
  wf_message (message_with uninit t id params).
Proof.
  intros [] Hid Hp. constructor; try done.
  cbn [message_with cm_msg_type]. destruct t; cbn [value]; uint_lia.
Qed.

(** Negotiation always ends in usable parameters: whatever in-range values
    the application set and the sender offered, the CTS has an MTU between 1
    and [MAX_PAYLOAD_SIZE], chunks of at least one packet, at least one
    channel, non-zero ports, a NUL-terminated non-empty address, and fields in
    the range of their types; a receiver's own MTU and chunk size win over the
    sender's (the MTU up to the maximum), the sender's channel count and total
    size win over the receiver's. *)
Theorem negotiate_usable params offer length : wf_params params → wf_params offer →
  0 < length < 18446744073709551616 → nth 15 (prm_udp_server_ip params) 1 = 0 →
  let p := negotiate params offer length in
  wf_params p ∧ 0 < prm_mtu_bytes p ≤ MAX_PAYLOAD_SIZE ∧ 0 < prm_packets_per_chunk p ∧
  0 < prm_num_channels p ∧ 0 < prm_udp_server_port p ∧ 0 < prm_channel_base_port p ∧
  0 < prm_total_bytes p ∧ 0 < prm_transfer_id p ∧
  ip_is_empty (prm_udp_server_ip p) = false ∧ nth 15 (prm_udp_server_ip p) 1 = 0 ∧
  (prm_mtu_bytes params ≠ 0 → prm_mtu_bytes p = Z.min (prm_mtu_bytes params) MAX_PAYLOAD_SIZE) ∧
  (prm_packets_per_chunk params ≠ 0 → prm_packets_per_chunk p = prm_packets_per_chunk params) ∧
  (prm_num_channels offer ≠ 0 → prm_num_channels p = prm_num_channels offer) ∧
  (prm_total_bytes offer ≠ 0 → prm_total_bytes p = prm_total_bytes offer).
Proof.
  intros Hp Ho Hlen Hnul. pose proof (negotiate_numbers params offer length Hp Ho Hlen) as Hn.
  pose proof (negotiate_ip params offer length Hp Ho Hnul) as (Hip & Hipl & Hz & He).
  pose proof (negotiate_wf params offer length Hp Ho Hlen Hnul) as Hwf.
  cbv zeta in Hn |- *. destruct Hn as (N1 & N2 & N3 & N4 & N5 & N6 & N7 & N8 & N9 & N10 & N11).
  split_and!; try done; lia.
Qed.

Lemma negotiate_usable_witness :
  let p := negotiate zero_params example_params 1000 in
  prm_mtu_bytes p = prm_mtu_bytes example_params ∧ 0 < prm_num_channels p ∧
  prm_udp_server_port p = 9999.
Proof.
  intros p. destruct (negotiate_usable zero_params example_params 1000 zero_params_wf
    example_params_wf ltac:(lia) eq_refl) as (_ & _ & _ & Hn & _).
  split; [vm_compute; reflexivity|]. split; [exact Hn|vm_compute; reflexivity].
Defined.

(** C14: The data phase puts the whole message on the wire: [sdr_send_post]'s
    loop offers every packet to [sendto] once, in order, on channel
    [i mod num_channels]; accepted and failed packets add up; packet [i] is a
    valid data packet of the CTS's transfer with offset [i] (in 18 bits), the
    chunk number that belongs to it and bytes [i*mtu ..] of the buffer; the
    payloads joined are exactly the [length] bytes to send. *)
Theorem send_puts_message_on_wire sendto params msg_id data length : sendable params data length →
  0 ≤ msg_id < 1024 →
  let total := total_packets_of params length in
  let packet := built_packet params msg_id data length in
  ∃ log, send_data_loop sendto params msg_id data length total = Some log ∧
    sl_wire log = (λ i, (channel_port params i, packet_datagram (packet i))) <$>
      List.filter (λ i, sendto i >? 0) (zrange 0 total) ∧
    sl_sent log = Z.of_nat (List.length (sl_wire log)) ∧ sl_sent log + sl_failed log = total ∧
    (∀ i, 0 ≤ i < total → wf_header (pkt_header (packet i)) ∧
       is_valid (pkt_header (packet i)) = true ∧
       h_transfer_id (pkt_header (packet i)) = prm_transfer_id params ∧
       h_msg_id (pkt_header (packet i)) = msg_id ∧
       h_packet_offset (pkt_header (packet i)) = i mod 262144 ∧
       h_chunk_seq (pkt_header (packet i)) = i mod 262144 / prm_packets_per_chunk params ∧
       h_payload_len (pkt_header (packet i)) = Z.of_nat (List.length (pkt_payload (packet i)))) ∧
    concat ((λ i, pkt_payload (packet i)) <$> zrange 0 total) = take (Z.to_nat length) data.
Proof.
  intros Hs Hid total packet.
  assert (0 ≤ total) as Ht by (destruct Hs; apply ceil_div_bound; lia).
  rewrite send_data_loop_eq by (done || lia). eexists. split; [done|]. cbn [sl_wire sl_sent sl_failed].
  rewrite length_fmap. split_and!; [done|done|lia| |].
  - intros i Hi. pose proof (built_packet_ok params msg_id data length i Hs Hid Hi) as H.
    cbv zeta in H. fold packet in H. tauto.
  - assert (∀ l, (∀ i, i ∈ l → 0 ≤ i < total) → (λ i, pkt_payload (packet i)) <$> l =
      packet_bytes data length (prm_mtu_bytes params) <$> l) as ->.
    { intros l Hl. apply list_fmap_ext. intros k i Hi%list_elem_of_lookup_2.
      pose proof (built_packet_ok params msg_id data length i Hs Hid (Hl i Hi)) as H.
      cbv zeta in H. tauto. }
    2: { intros i. by rewrite elem_of_zrange. }
    destruct Hs. rewrite concat_packet_bytes; [|lia|lia|lia|].
    + f_equal. f_equal. apply Z.min_r.
      pose proof (ceil_div_spec length (prm_mtu_bytes params)) as H. cbv zeta in H.
      unfold total, total_packets_of. lia.
    + intros i Hi. apply (ceil_div_lt length (prm_mtu_bytes params) i); lia || apply Hi.
Qed.

(** A CTS for packets of 5 bytes in chunks of 2, on two channels. *)
Definition example_cts_params : ConnectionParams :=
  mkParams 1 0 5 0 0 2 0 0 0 0 0 0 2 9000 (strncpy_ip loopback) 9000.

Lemma example_cts_params_wf : wf_params example_cts_params.
Proof. constructor; cbn [example_cts_params prm_transfer_id prm_total_bytes prm_mtu_bytes
  prm_packet_bytes prm_chunk_bytes prm_packets_per_chunk prm_total_chunks prm_fec_k prm_fec_m
  prm_max_inflight prm_rto_ms prm_rtt_alpha_ms prm_num_channels prm_channel_base_port
  prm_udp_server_ip prm_udp_server_port]; try uint_lia.
  apply (strncpy_ip_wf loopback). repeat apply Forall_cons_2; try apply Forall_nil_2; uint_lia.
Qed.

Lemma example_sendable data : List.length data = 12%nat → sendable example_cts_params data 12.
Proof.
  intros Hl. constructor; [apply example_cts_params_wf|..]; rewrite ?Hl;
    cbn [example_cts_params prm_mtu_bytes prm_packets_per_chunk];
    unfold MAX_PAYLOAD_SIZE, sizeof_SDRPacketHeader; lia.
Qed.

Lemma send_puts_message_on_wire_witness :
  ∃ log, send_data_loop (λ i, if i =? 1 then -1 else 37) example_cts_params 3 (zrange 1 13) 12 3 =
      Some log ∧ sl_sent log = 2 ∧ sl_failed log = 1 ∧ fst <$> sl_wire log = [9000; 9000].
Proof.
  destruct (send_puts_message_on_wire (λ i, if i =? 1 then -1 else 37) example_cts_params 3
    (zrange 1 13) 12 (example_sendable (zrange 1 13) eq_refl) ltac:(lia))
    as (log & Hl & Hw & Hs & Hf & _).
  assert (fst <$> sl_wire log = [9000; 9000]) as Hports
    by (rewrite Hw, <-list_fmap_compose; vm_compute; reflexivity).
  assert (sl_sent log = 2) as Hsent.
  { rewrite Hs, <-(length_fmap fst), Hports. reflexivity. }
  exists log. split; [exact Hl|]. split; [exact Hsent|]. split; [|exact Hports].
  change (total_packets_of example_cts_params 12) with 3 in Hf. lia.
Defined.

(** C27: Posting a receive arms the slot it names: on success the slot holds a new
    ACTIVE transfer into the user's buffer with nothing received and nothing
    marked, bitmaps sized for the negotiated parameters ([p] is a packet
    exactly when its first byte is inside the buffer), the poller running;
    other slots are untouched, the receive path's invariant holds again, the
    counters advance, and the CTS sent over the live connection carries the
    parameters of the slot. *)
Theorem recv_post_arms_slot pad uninit env ps c id m mem length offer ps' c' h :
  wf_params (cx_params (cn_connection_ctx c)) → wf_params (cm_params offer) →
  wf_rx (mkRx (cn_connection_ctx c) mem) → mem !! id = Some m →
  receivable length → length ≤ Z.of_nat (List.length m) →
  recv_post_setup pad uninit env ps c (BufUser id) length offer = (None, ps', c', Some h) →
  let params := cts_params ps c offer length in
  wf_rx (mkRx (cn_connection_ctx c') mem) ∧
  (∃ mc b fb, cx_msg_table (cn_connection_ctx c') =
       <[rh_msg_id h := mc]> (cx_msg_table (cn_connection_ctx c)) ∧
     mc_state mc = ACTIVE ∧ mc_buffer mc = BufUser id ∧ mc_buffer_size mc = length ∧
     mc_params mc = params ∧ wf_transfer mc b fb ∧ fb_joinable fb = true ∧
     (∀ q, received b q = false) ∧ (∀ q, marked fb q = false) ∧
     (∀ p, 0 ≤ p → p < bb_total_packets b ↔ p * prm_mtu_bytes params < length)) ∧
  rh_msg_id h = ps_next_msg_id ps mod 1024 ∧
  rh_generation h = prm_transfer_id params ∧
  ps_receiver_generation_counter ps' = ps_receiver_generation_counter ps +u32 1 ∧
  match cn_tcp_server c with
  | Some server => 0 ≤ ts_client_fd server → ∃ server', cn_tcp_server c' = Some server' ∧
      server_send_message pad server (message_with uninit CTS
        (cx_connection_id (cn_connection_ctx c)) params) = (true, server')
  | None => True
  end.
Proof.
  intros Hp Ho Hwf Hm Hl Hlm Hsetup params.
  apply recv_post_setup_armed in Hsetup as ([[Hid Hslot] Hg [_ Hn] Ht] & _ & Hsend).
  destruct (cts_params_sizes ps c offer length Hp Ho Hl) as [Hmtu Hppc].
  unfold MAX_PAYLOAD_SIZE, sizeof_SDRPacketHeader in Hmtu. fold params in Ht, Hsend, Hmtu, Hppc.
  assert (prm_transfer_id params = ps_receiver_generation_counter ps) as Htid by done.
  clearbody params. split.
  { eapply (posted_wf_rx (cn_connection_ctx c) _ mem _ _ id m length params); [exact Hwf|exact Hm|exact Hl|exact Hlm|lia|exact Hppc|exact Ht]. }
  split; [|split_and!; [done|congruence|done|]].
  - destruct (posted_context_wf (rh_msg_id h) (cx_generation_counters (cn_connection_ctx c) !!!
      Z.to_nat (rh_msg_id h)) (BufUser id) length params Hl ltac:(lia) Hppc)
      as (b & fb & Hwt & Hj & Hr & Hmk & Htp & _).
    eexists _, b, fb. split; [exact Ht|]. split_and!; try done. intros p Hp0. rewrite Htp.
    apply ceil_div_lt; [unfold receivable in Hl; lia|lia|lia].
  - destruct (cn_tcp_server c) as [server|]; [|done]. intros Hfd.
    destruct (Hsend eq_refl Hfd) as (server' & ? & ?). by exists server'.
Qed.

(** A listening connection with a live client, channels that open, and an offer
    of 12 bytes. *)
Definition example_rx_conn : SDRConnection :=
  mkConnection new_connection_context None (Some (example_server [])) None true.

Definition example_channels (i : Z) : channel_env := mkChannelEnv (20 + i) true (λ _, true).

Definition example_offer : ControlMessage :=
  message_with zero_message OFFER 1 (with_transfer_id example_cts_params 0).

Lemma example_offer_wf : wf_params (cm_params example_offer).
Proof.
  destruct example_cts_params_wf. by constructor.
Qed.

Lemma new_connection_wf_rx mem : wf_rx (mkRx new_connection_context mem).
Proof. intros s mc. cbn [rx_cx new_connection_context cx_msg_table]. by rewrite lookup_empty. Qed.

Lemma recv_post_arms_slot_witness :
  ∃ ps' c' h mc, recv_post_setup example_padding zero_message example_channels new_process
      example_rx_conn (BufUser 0) 12 example_offer = (None, ps', c', Some h) ∧
    cx_msg_table (cn_connection_ctx c') !! 0 = Some mc ∧ mc_state mc = ACTIVE ∧
    mc_buffer_size mc = 12.
Proof.
  destruct (recv_post_setup example_padding zero_message example_channels new_process
    example_rx_conn (BufUser 0) 12 example_offer) as [[[ret ps'] c'] h] eqn:E.
  pose proof (f_equal (λ r, r.1.1.1) E) as Eret. vm_compute in Eret.
  pose proof (f_equal (λ r, r.2) E) as Eh. vm_compute in Eh. subst ret h.
  exists ps', c', (mkRecvHandle 0 1 0 (BufUser 0) 12).
  destruct (recv_post_arms_slot example_padding zero_message example_channels new_process
    example_rx_conn 0 (replicate 12 0) {[0 := replicate 12 0]} 12 example_offer ps' c'
    (mkRecvHandle 0 1 0 (BufUser 0) 12) zero_params_wf example_offer_wf)
    as (_ & (mc & b & fb & Ht & Hst & _ & Hsz & _) & _);
    [apply new_connection_wf_rx|apply lookup_singleton_eq|unfold receivable; lia
    |rewrite length_replicate; lia|exact E|].
  exists mc. split; [reflexivity|]. split; [|split; [exact Hst|exact Hsz]].
  rewrite Ht. apply lookup_insert_eq.
Defined.

(** C30: The generation a receive announces is not always the one its slot has:
    the CTS carries the process-wide [receiver_generation_counter], the slot
    the counter of the slot.  When they differ - for every receive of a process
    but the first, as the witness shows for the second - every packet a sender
    builds with the CTS's parameters for this message is dropped, and the
    transfer cannot complete. *)
Theorem generations_out_of_step pad uninit env ps c id mem length offer ret ps' c' h :
  wf_rx (mkRx (cn_connection_ctx c') mem) →
  recv_post_setup pad uninit env ps c (BufUser id) length offer = (ret, ps', c', Some h) →
  cx_generation_counters (cn_connection_ctx c) !!! Z.to_nat (rh_msg_id h) ≠
    ps_receiver_generation_counter ps →
  let params := cts_params ps c offer length in
  ∀ data i, sendable params data length → 0 ≤ i < total_packets_of params length →
  handle_datagram (mkRx (cn_connection_ctx c') mem)
    (packet_datagram (built_packet params (rh_msg_id h) data length i)) =
  Some (mkRx (cn_connection_ctx c') mem).
Proof.
  intros Hwf Hsetup Hne params data i Hs Hi.
  apply recv_post_setup_armed in Hsetup as ([[Hid _] _ _ Ht] & _).
  assert (0 ≤ rh_msg_id h < 1024) as Hr by (rewrite Hid; apply Z.mod_pos_bound; lia).
  destruct (built_packet_ok params _ data length i Hs Hr Hi)
    as (Hh & Hv & Htid & Hmid & _ & _ & _ & _ & Hlen).
  apply handle_dropped; [done|]. rewrite parse_packet_datagram by (done || lia).
  rewrite Hmid. cbn [rx_cx]. rewrite Ht, lookup_insert_eq. left.
  unfold accepts. rewrite Htid. apply andb_false_iff. left. apply Z.eqb_neq. exact Hne.
Qed.

(** The state a first receive leaves: message number 1 is next, the process's
    counter is 2, slot 1's counter is still 1. *)
Definition second_process : Process := mkProcess 1 2 2.

Lemma generations_out_of_step_witness :
  ∃ ps' c' h, recv_post_setup example_padding zero_message example_channels second_process
      example_rx_conn (BufUser 0) 12 example_offer = (None, ps', c', Some h) ∧
    let st := mkRx (cn_connection_ctx c') {[0 := replicate 12 0]} in
    handle_datagram st (packet_datagram (built_packet
      (cts_params second_process example_rx_conn example_offer 12) 1 (zrange 1 13) 12 0)) = Some st.
Proof.
  destruct (recv_post_setup example_padding zero_message example_channels second_process
    example_rx_conn (BufUser 0) 12 example_offer) as [[[ret ps'] c'] h] eqn:E.
  pose proof (f_equal (λ r, r.1.1.1) E) as Eret. vm_compute in Eret.
  pose proof (f_equal (λ r, r.2) E) as Eh. vm_compute in Eh. subst ret h.
  exists ps', c', (mkRecvHandle 1 2 1 (BufUser 0) 12). split; [reflexivity|].
  assert (receivable 12) as Hr by (unfold receivable; lia).
  assert (sendable (cts_params second_process example_rx_conn example_offer 12) (zrange 1 13) 12) as Hs.
  { constructor; [|split; [reflexivity|vm_compute; congruence]|reflexivity
      |split; [reflexivity|vm_compute; congruence]|reflexivity].
    constructor; try (split; [vm_compute; congruence|reflexivity]); [|reflexivity].
    apply (strncpy_ip_wf (prm_udp_server_ip example_cts_params)), example_cts_params_wf. }
  intros st.
  eapply (generations_out_of_step example_padding zero_message example_channels second_process
    example_rx_conn 0 _ 12 example_offer None ps' c' (mkRecvHandle 1 2 1 (BufUser 0) 12));
    [|exact E|vm_compute; congruence|exact Hs|split; [vm_compute; congruence|reflexivity]].
  pose proof (recv_post_setup_armed _ _ _ _ _ _ _ _ _ _ _ _ E) as [Ha _].
  eapply (posted_wf_rx (cn_connection_ctx example_rx_conn) _ _ 1 1 0 (replicate 12 0) 12);
    [apply new_connection_wf_rx|apply lookup_singleton_eq|exact Hr|rewrite length_replicate; lia| | |
     exact (ar_table _ _ _ _ _ _ _ _ Ha)]; split; reflexivity.
Defined.

(** [sdr_recv_complete] on a live connection, by what [transfer_complete] finds. *)
Lemma recv_complete_sends pad uninit c h mc fb server complete :
  cn_is_receiver c = true → cn_tcp_server c = Some server → server_ready server →
  cx_msg_table (cn_connection_ctx c) !! rh_msg_id h = Some mc → rh_msg_ctx h = rh_msg_id h →
  rh_msg_id h < MAX_MESSAGES → mc_frontend mc = Some fb →
  transfer_complete (mc_set_frontend mc (stop_polling fb)) = Some complete →
  (∀ t, wf_message (message_with uninit t (cx_connection_id (cn_connection_ctx c)) zero_params)) →
  ∃ c' server', sdr_recv_complete pad uninit c h = Some (0, c') ∧
    cn_tcp_server c' = Some server' ∧
    sk_out (ts_sock server') = sk_out (ts_sock server) ++ message_image pad
      (message_with uninit (if complete then COMPLETE_ACK else INCOMPLETE_NACK)
         (cx_connection_id (cn_connection_ctx c)) zero_params) ∧
    cx_msg_table (cn_connection_ctx c') =
      <[rh_msg_id h := mc_set_state (mc_set_frontend mc (stop_polling fb)) DEAD BufNullSink]>
        (cx_msg_table (cn_connection_ctx c)).
Proof.
  intros Hrx Hsrv [Hfd Hres] Hmc Hslot Hid Hfb Htc Hmsg.
  eexists _, _.
  unfold sdr_recv_complete, complete_message. rewrite Hslot, Hmc. cbn [mbind option_bind].
  rewrite Hfb, Htc. cbn [mbind option_bind].
  rewrite Z.geb_leb, (proj2 (Z.leb_gt _ _)) by done. cbn [cx_with_table cx_msg_table].
  rewrite lookup_insert_eq. cbn [cn_with_ctx cn_is_receiver cn_tcp_server cx_connection_id].
  rewrite Hrx, Hsrv, server_send_eq by done.
  split; [reflexivity|]. split; [reflexivity|]. split; [reflexivity|].
  cbn. by rewrite insert_insert_eq.
Qed.

Lemma recv_complete_eq pad uninit c h mc b fb server :
  cn_is_receiver c = true → cn_tcp_server c = Some server → 0 ≤ ts_client_fd server →
  sk_send_results (ts_sock server) = [] →
  cx_msg_table (cn_connection_ctx c) !! rh_msg_id h = Some mc → rh_msg_ctx h = rh_msg_id h →
  rh_msg_id h < MAX_MESSAGES → wf_transfer mc b fb → 0 < num_chunks b →
  (∀ t, wf_message (message_with uninit t (cx_connection_id (cn_connection_ctx c)) zero_params)) →
  ∃ c' server' (complete : bool), sdr_recv_complete pad uninit c h = Some (0, c') ∧
    cn_tcp_server c' = Some server' ∧
    sk_out (ts_sock server') = sk_out (ts_sock server) ++ message_image pad
      (message_with uninit (if complete then COMPLETE_ACK else INCOMPLETE_NACK)
         (cx_connection_id (cn_connection_ctx c)) zero_params) ∧
    (complete = true ↔ mc_state mc = COMPLETED ∨
       ∀ k, 0 ≤ k < num_chunks b → marked fb k = true) ∧
    cx_msg_table (cn_connection_ctx c') =
      <[rh_msg_id h := mc_set_state (mc_set_frontend mc (stop_polling fb)) DEAD BufNullSink]>
        (cx_msg_table (cn_connection_ctx c)).
Proof.
  intros Hrx Hsrv Hfd Hres Hmc Hslot Hid Hwt Hpos Hmsg.
  destruct (transfer_complete_eq mc b fb Hwt Hpos) as (complete & Htc & Hiff).
  destruct (recv_complete_sends pad uninit c h mc fb server complete) as (c' & server' & H1 & H2 & H3 & H4);
    [done..|apply Hwt|done|done|].
  by exists c', server', complete.
Qed.

(** A connection after a call that only sent on its control connection or changed
    the table. *)
Record goes_on (c c' : SDRConnection) : Prop := {
  go_receiver : cn_is_receiver c' = cn_is_receiver c;
  go_id : cx_connection_id (cn_connection_ctx c') = cx_connection_id (cn_connection_ctx c);
  go_server : ∀ server, cn_tcp_server c = Some server → server_ready server →
    ∃ server', cn_tcp_server c' = Some server' ∧ server_ready server'
}.

#[export] Instance goes_on_preorder : PreOrder goes_on.
Proof.
  split.
  - intros c. split; [done..|]. intros server Hs Hr. by exists server.
  - intros a b c [R1 I1 S1] [R2 I2 S2]. split; [congruence..|]. intros server Hs Hr.
    destruct (S1 server Hs Hr) as (server' & Hs' & Hr'). by apply (S2 server').
Qed.

Lemma goes_on_sent pad c server m ok server' : cn_tcp_server c = Some server →
  server_send_message pad server m = (ok, server') → goes_on c (cn_with_server c server').
Proof.
  intros Hs E. split; [done..|]. intros sv Hs' Hr. rewrite Hs in Hs'. injection Hs' as <-.
  exists server'. split; [done|]. by eapply server_send_ready.
Qed.

(** [sdr_recv_complete] tells the truth: on a live connection it sends
    COMPLETE_ACK exactly when all chunks are marked (or the reliability layer
    declared the message COMPLETED), and then, the bitmaps being in step, every
    packet has been received; otherwise it sends INCOMPLETE_NACK.  Either way
    it returns 0, the poller is stopped, the slot is DEAD and points at the
    null sink. *)
Theorem recv_complete_truthful pad uninit c h mc b fb server :
  cn_is_receiver c = true → cn_tcp_server c = Some server → 0 ≤ ts_client_fd server →
  sk_send_results (ts_sock server) = [] →
  cx_msg_table (cn_connection_ctx c) !! rh_msg_id h = Some mc → rh_msg_ctx h = rh_msg_id h →
  rh_msg_id h < MAX_MESSAGES → wf_transfer mc b fb → 0 < num_chunks b →
  (∀ t, wf_message (message_with uninit t (cx_connection_id (cn_connection_ctx c)) zero_params)) →
  ∃ c' server' mc' (complete : bool), sdr_recv_complete pad uninit c h = Some (0, c') ∧
    cn_tcp_server c' = Some server' ∧
    sk_out (ts_sock server') = sk_out (ts_sock server) ++ message_image pad
      (message_with uninit (if complete then COMPLETE_ACK else INCOMPLETE_NACK)
         (cx_connection_id (cn_connection_ctx c)) zero_params) ∧
    (complete = true ↔ mc_state mc = COMPLETED ∨
       ∀ k, 0 ≤ k < num_chunks b → marked fb k = true) ∧
    (complete = true → mc_state mc = ACTIVE →
       ∀ p, 0 ≤ p < bb_total_packets b → received b p = true) ∧
    cx_msg_table (cn_connection_ctx c') = <[rh_msg_id h := mc']> (cx_msg_table (cn_connection_ctx c)) ∧
    mc_state mc' = DEAD ∧ mc_buffer mc' = BufNullSink ∧
    option_map fb_joinable (mc_frontend mc') = Some false.
Proof.
  intros Hrx Hsrv Hfd Hres Hmc Hslot Hid Hwt Hpos Hmsg.
  destruct (recv_complete_eq pad uninit c h mc b fb server) as (c' & server' & complete & Hc & Hs & Ho & Hiff & Ht);
    [done..|].
  exists c', server', (mc_set_state (mc_set_frontend mc (stop_polling fb)) DEAD BufNullSink), complete.
  split_and!; try done.
  - intros -> Hact. destruct (proj1 Hiff eq_refl) as [Hst|Hall]; [congruence|].
    apply (all_marked_all_received b fb); [apply Hwt| |apply Hwt|].
    + apply Hwt.
    + by rewrite (proj2 (wft_chunks _ _ _ Hwt)).
  - cbn. unfold stop_polling. by destruct (fb_joinable fb) eqn:Hj; cbn; rewrite ?Hj.
Qed.

Definition example_complete_conn : SDRConnection :=
  cn_with_ctx example_rx_conn (cx_with_table new_connection_context
    {[0 := posted_context 0 1 (BufUser 0) 12 3 2 example_cts_params]}).

Lemma recv_complete_truthful_witness :
  ∃ c' server', sdr_recv_complete example_padding zero_message example_complete_conn
      (mkRecvHandle 0 1 0 (BufUser 0) 12) = Some (0, c') ∧ cn_tcp_server c' = Some server' ∧
    sk_out (ts_sock server') = message_image example_padding
      (message_with zero_message INCOMPLETE_NACK 0 zero_params).
Proof.
  destruct (posted_context_wf 0 1 (BufUser 0) 12 example_cts_params)
    as (b & fb & Hwt & _ & _ & Hmk & Htp & Hpc); [unfold receivable; lia|split; reflexivity..|].
  assert (num_chunks b = 2) as Hn by (unfold num_chunks; rewrite Htp, Hpc; reflexivity).
  destruct (recv_complete_truthful example_padding zero_message example_complete_conn
    (mkRecvHandle 0 1 0 (BufUser 0) 12)
    (posted_context 0 1 (BufUser 0) 12 3 2 example_cts_params) b fb (example_server []))
    as (c' & server' & mc' & complete & Hr & Hs & Ho & Hiff & _).
  - reflexivity.
  - reflexivity.
  - cbn. lia.
  - reflexivity.
  - apply lookup_singleton_eq.
  - reflexivity.
  - reflexivity.
  - exact Hwt.
  - rewrite Hn. lia.
  - intros t. apply message_with_wf; [apply zero_message_wf|uint_lia|apply zero_params_wf].
  - exists c', server'. split; [exact Hr|]. split; [exact Hs|]. rewrite Ho.
    destruct complete; [|reflexivity]. exfalso.
    destruct (proj1 Hiff eq_refl) as [H|H]; [discriminate H|].
    specialize (H 0). rewrite Hmk in H. discriminate H. rewrite Hn. lia.
Defined.

(** [sdr_send_poll] reports the receiver's verdict: over any traffic of other
    messages, garbage and timeouts, it returns 0 exactly when the first verdict
    in the stream is COMPLETE_ACK and -1 when it is INCOMPLETE_NACK; but a
    connection that is already lost makes it return 0 as well, without any
    verdict. *)
Theorem send_poll_verdict uninit c client ts evss pad m segs tail :
  cn_tcp_client c = Some client →
  Forall2 traffic_events ts evss →
  Forall (skipped (λ m, msg_is m COMPLETE_ACK || msg_is m INCOMPLETE_NACK)) ts →
  wf_padding pad → wf_message m → cm_magic m = CONTROL_MAGIC →
  msg_is m COMPLETE_ACK || msg_is m INCOMPLETE_NACK = true →
  concat segs = message_image pad m →
  sk_in (tc_sock client) = concat evss ++ (Data <$> segs) ++ tail →
  (tc_is_connected client = true →
     (sdr_send_poll uninit c).1 = Returned (if msg_is m COMPLETE_ACK then 0 else -1)) ∧
  (tc_is_connected client = false → sdr_send_poll uninit c = (Returned 0, c)).
Proof.
  intros Hc Hev Hs Hpad Hwf Hmagic Hx Hseg Hi. unfold sdr_send_poll. rewrite Hc.
  split; intros Hcon; rewrite Hcon; [|done]. cbn [negb].
  destruct (wait_skips_lemma client uninit (λ m, msg_is m COMPLETE_ACK || msg_is m INCOMPLETE_NACK)
    ts evss pad m segs tail) as (client' & Hw & _); [done..|].
  rewrite Hw. cbn. by destruct (msg_is m COMPLETE_ACK).
Qed.

Definition example_ack : ControlMessage := message_with zero_message INCOMPLETE_NACK 1 zero_params.

Definition example_tx_conn (connected : bool) (events : list recv_event) : SDRConnection :=
  mkConnection new_connection_context None None
    (Some (mkClient 5 connected (mkSocket events [] []))) false.

Lemma send_poll_verdict_witness :
  let image := message_image example_padding example_ack in
  (sdr_send_poll zero_message (example_tx_conn true [RecvTimeout; Data image])).1 = Returned (-1) ∧
  (sdr_send_poll zero_message (example_tx_conn false [RecvTimeout; Data image])).1 = Returned 0.
Proof.
  intros image.
  assert (wf_message example_ack) as Hwf.
  { apply message_with_wf; [apply zero_message_wf|uint_lia|apply zero_params_wf]. }
  split.
  - exact (proj1 (send_poll_verdict zero_message (example_tx_conn true [RecvTimeout; Data image]) _
      [TrafficTimeout] [[RecvTimeout]] example_padding example_ack [image] [] eq_refl
      ltac:(repeat constructor) ltac:(repeat constructor) example_padding_wf Hwf eq_refl eq_refl
      (app_nil_r image) eq_refl) eq_refl).
  - rewrite (proj2 (send_poll_verdict zero_message (example_tx_conn false [RecvTimeout; Data image]) _
      [TrafficTimeout] [[RecvTimeout]] example_padding example_ack [image] [] eq_refl
      ltac:(repeat constructor) ltac:(repeat constructor) example_padding_wf Hwf eq_refl eq_refl
      (app_nil_r image) eq_refl) eq_refl). reflexivity.
Defined.

(** A UDP receiver that fails to start is never started again: the failed
    [sdr_recv_post] keeps the stopped receiver, so every later post on the
    connection finds one, starts nothing and goes on to announce ports on which
    nobody listens. *)
Theorem failed_udp_start_sticks c params env c' params' env' :
  cn_udp_receiver c = None → 0 ≤ prm_num_channels params < 65536 →
  ensure_udp_receiver c params env = (false, c') →
  ensure_udp_receiver c' params' env' = (true, c') ∧
  ∃ u, cn_udp_receiver c' = Some u ∧ rv_is_running u = false ∧ rv_workers u = [].
Proof.
  intros Hc Hn. unfold ensure_udp_receiver. rewrite Hc.
  destruct (receiver_start _ _ _ _ _) as [[ok u] cx] eqn:Hs. intros [= -> <-]. cbn.
  split; [done|]. exists u. split; [done|].
  revert Hs. unfold receiver_start. cbn [new_receiver rv_is_running].
  destruct (open_channels _ _ _ _ _) as [[ok2 ws] closed]. destruct (negb ok2); by intros [= <- <-].
Qed.

Lemma failed_udp_start_sticks_witness :
  let broken i := mkChannelEnv (-1) true (λ _, true) in
  let '(_, c') := ensure_udp_receiver example_rx_conn example_cts_params broken in
  ensure_udp_receiver c' example_cts_params example_channels = (true, c').
Proof.
  intros broken.
  destruct (ensure_udp_receiver example_rx_conn example_cts_params broken) as [ok c'] eqn:E.
  pose proof (f_equal fst E) as Eok. vm_compute in Eok. subst ok.
  apply (failed_udp_start_sticks example_rx_conn example_cts_params broken c'
    example_cts_params example_channels); [reflexivity|cbn; lia|exact E].
Defined.
