(* ===== verification/Stream.v ===== *)
(** * Streaming sends (src/sdr_api.cpp)

    [sdr_send_stream_start] takes the CTS and makes a handle, each
    [sdr_send_stream_continue] sends the packets of a part of the buffer, and
    [sdr_send_stream_end] ends the stream and frees the handle.  The operations are in [Api]; here is
    their composition over a sequence of calls, with what it puts on the wire
    compared to the one-shot [sdr_send_post]. *)

From S2P Require Import Prelude Packet Backend Control Wait Connection Api.
Import ControlMsgType.

(** The calls of [sdr_send_stream_continue] a client makes: offsets and lengths;
    each must succeed. *)
Fixpoint stream_calls (os : data_calls) (params : ConnectionParams) (heap : StreamHeap) (handle : option Z)
    (data : list Z) (calls : list (Z * Z)) : option (StreamHeap * list (Z * list Z)) :=
  match calls with
  | [] => Some (heap, [])
  | (offset, length) :: calls =>
      '(code, heap, wire) ← sdr_send_stream_continue os params heap handle data offset length;
      if negb (code =? 0) then None else
      '(heap, wire') ← stream_calls os params heap handle data calls;
      Some (heap, wire ++ wire')
  end.

(** The handle of a stream: what [sdr_send_stream_start] fills in. *)
Definition stream_of (params : ConnectionParams) (msg_id length sent : Z) : SDRStreamHandle :=
  mkStreamHandle msg_id (prm_transfer_id params) length (total_packets_of params length) sent true.

(** Consecutive calls that cut [offset .. length) at packet boundaries. *)
Fixpoint packet_cuts (mtu offset length : Z) (calls : list (Z * Z)) : Prop :=
  match calls with
  | [] => offset = length
  | (o, l) :: calls =>
      o = offset ∧ (mtu | offset) ∧ 0 ≤ l ∧ offset + l ≤ length ∧ packet_cuts mtu (offset + l) length calls
  end.

(** The bytes of packet [i] reach into [offset .. offset + l); a call with [l = 0]
    inside a packet names that packet too. *)
Definition touches (mtu offset l i : Z) : bool := (i * mtu <? offset + l) && (offset <? (i + 1) * mtu).

(** ** Calls *)

Section Stream.
Context (params : ConnectionParams) (msg_id : Z) (data : list Z) (length : Z).
Context (Hsend : sendable params data length) (Hid : 0 ≤ msg_id < 1024) (Hsize : length < 4294967296).
Context (os : data_calls) (Hsock : 0 ≤ dc_socket os) (Hpton : 0 < dc_inet_pton os).

Notation total := (total_packets_of params length).
Notation mtu := (prm_mtu_bytes params).
Notation accepted l := (List.filter (λ i, dc_sendto os i >? 0) l).
Notation wire l := (wire_of params msg_id data length <$> accepted l).

(** A packet starts inside the message, before 2^32. *)
Lemma stream_start i : 0 ≤ i → i < total ↔ i * mtu < length.
Proof.
  intros Hi. pose proof (sd_mtu _ _ _ Hsend). pose proof (sd_length _ _ _ Hsend).
  apply ceil_div_lt; lia.
Qed.

(** The packet of a stream is the one of the data loop. *)
Lemma stream_packet_eq sent i : 0 ≤ i < total →
  stream_packet params (stream_of params msg_id length sent) data i =
    Some (Some (built_packet params msg_id data length i)).
Proof.
  intros Hi. destruct (data_packet_eq params msg_id data length i Hsend Hid Hi) as (p & Hp & _).
  unfold built_packet. rewrite Hp, <-Hp. unfold stream_packet, data_packet. cbn [stream_of sm_msg_id sm_buffer_size].
  pose proof (proj1 (stream_start i ltac:(lia)) (proj2 Hi)).
  pose proof (sd_mtu _ _ _ Hsend) as Hm. pose proof (sd_bound _ _ _ Hsend).
  assert (0 ≤ i ≤ i * mtu) by nia.
  rewrite (u32_small i), (u32_small (i * mtu)), (u64_small (i * mtu)), (u64_small (length - i * mtu)) by lia.
  by rewrite Z.gtb_ltb, (proj2 (Z.ltb_ge MAX_PAYLOAD_SIZE _)) by lia.
Qed.

(** The loop over some packets of the message. *)
Lemma stream_loop_eq sent l log : Forall (λ i, 0 ≤ i < total) l →
  foldl_opt (stream_one (dc_sendto os) params (stream_of params msg_id length sent) data) log l =
    Some (mkSendLog (sl_sent log + Z.of_nat (List.length (accepted l))) (sl_failed log)
      (sl_wire log ++ wire l)).
Proof.
  intros Hl. revert log. induction Hl as [|i l Hi _ IH]; intros log.
  { cbn. rewrite Z.add_0_r, app_nil_r. by destruct log. }
  cbn [foldl_opt].
  assert (stream_one (dc_sendto os) params (stream_of params msg_id length sent) data log i =
    Some (if dc_sendto os i >? 0
          then mkSendLog (sl_sent log + 1) (sl_failed log) (sl_wire log ++ [wire_of params msg_id data length i])
          else log)) as ->.
  { unfold stream_one. rewrite stream_packet_eq by done. cbn [mbind option_bind]. by case_match. }
  cbn [mbind option_bind]. rewrite IH. cbn [List.filter]. destruct (dc_sendto os i >? 0); [|done].
  cbn [sl_sent sl_failed sl_wire List.length]. rewrite fmap_cons, <-app_assoc. do 2 f_equal. lia.
Qed.

(** One call: the packets it touches, in order. *)
Lemma stream_continue_eq heap p sent offset l : heap !! p = Some (stream_of params msg_id length sent) →
  0 ≤ offset → 0 ≤ l → offset + l ≤ length →
  sdr_send_stream_continue os params heap (Some p) data offset l =
    Some (0, <[p := stream_of params msg_id length
               (sent + Z.of_nat (List.length (accepted (zrange (offset / mtu) ((offset + l + mtu - 1) / mtu)))))]> heap,
          wire (zrange (offset / mtu) ((offset + l + mtu - 1) / mtu))).
Proof.
  intros Hp Ho Hl Hle. pose proof (sd_mtu _ _ _ Hsend) as Hm. unfold MAX_PAYLOAD_SIZE, sizeof_SDRPacketHeader in Hm.
  unfold sdr_send_stream_continue. rewrite Hp. cbn [mbind option_bind stream_of sm_is_active negb].
  rewrite (proj2 (Z.eqb_neq _ _)), (proj2 (Z.ltb_ge _ _)), (proj2 (Z.leb_gt _ _)) by lia.
  rewrite (u64_small (offset + l + mtu - 1)) by lia.
  assert (0 ≤ (offset + l + mtu - 1) / mtu ≤ total) as Hend.
  { split; [apply Z.div_pos; lia|]. apply Z.div_le_mono; lia. }
  pose proof (ceil_div_bound length mtu ltac:(lia) ltac:(lia)) as Hb.
  rewrite u32_small by (unfold total_packets_of in Hend; lia).
  change (sm_total_packets (stream_of params msg_id length sent)) with total.
  rewrite Z.min_l by lia.
  assert (Forall (λ i, 0 ≤ i < total) (zrange (offset / mtu) ((offset + l + mtu - 1) / mtu))) as Hr.
  { apply Forall_forall. intros i Hi%elem_of_zrange.
    assert (0 ≤ offset / mtu) by (apply Z.div_pos; lia). lia. }
  by rewrite (stream_loop_eq _ _ _ Hr).
Qed.

(** A packet is sent by a call that touches it. *)
Lemma touches_range offset l i : 0 ≤ offset → 0 ≤ l → 0 ≤ i →
  i ∈ zrange (offset / mtu) ((offset + l + mtu - 1) / mtu) ↔ touches mtu offset l i = true.
Proof.
  intros Ho Hl Hi. pose proof (sd_mtu _ _ _ Hsend) as Hm. rewrite elem_of_zrange. unfold touches.
  rewrite andb_true_iff, !Z.ltb_lt, (ceil_div_lt (offset + l) mtu i) by lia.
  assert (offset / mtu ≤ i ↔ offset < (i + 1) * mtu); [|tauto].
  pose proof (Z.div_mod offset mtu ltac:(lia)). pose proof (Z.mod_pos_bound offset mtu ltac:(lia)). nia.
Qed.

(** Consecutive calls that cut at packet boundaries send consecutive packets. *)
Lemma stream_calls_eq calls : ∀ heap p offset sent, heap !! p = Some (stream_of params msg_id length sent) →
  0 ≤ offset → packet_cuts mtu offset length calls →
  stream_calls os params heap (Some p) data calls =
    let packets := zrange ((offset + mtu - 1) / mtu) total in
    Some (<[p := stream_of params msg_id length (sent + Z.of_nat (List.length (accepted packets)))]> heap,
          wire packets).
Proof.
  pose proof (sd_mtu _ _ _ Hsend) as Hm.
  induction calls as [|[o l] calls IH]; intros heap p offset sent Hp Ho Hcuts; cbn [packet_cuts stream_calls] in *.
  { subst offset. rewrite zrange_nil by done. cbn. by rewrite Z.add_0_r, insert_id. }
  destruct Hcuts as (-> & [k ->] & Hl & Hle & Hcuts).
  rewrite (stream_continue_eq heap p sent) by done. cbn [mbind option_bind]. change (negb (0 =? 0)) with false. cbv iota.
  rewrite (IH _ p (k * mtu + l) _ (lookup_insert_eq _ _ _)) by (lia || done). rewrite insert_insert_eq. cbn [mbind option_bind]. cbv zeta.
  assert (k * mtu / mtu = k) as -> by (apply Z.div_mul; lia).
  assert ((k * mtu + mtu - 1) / mtu = k) as ->.
  { replace (k * mtu + mtu - 1) with (mtu - 1 + k * mtu) by lia.
    rewrite Z.div_add, Z.div_small by lia. lia. }
  set (mid := (k * mtu + l + mtu - 1) / mtu).
  assert (k ≤ mid ≤ total) as Hmid.
  { split; [apply Z.div_le_lower_bound; lia|apply Z.div_le_mono; lia]. }
  rewrite (zrange_app k mid total) by lia. rewrite List.filter_app, fmap_app, length_app. do 3 f_equal.
  unfold stream_of. f_equal. lia.
Qed.
End Stream.

(** ** The start of a stream *)

(** A stream that starts: its handle, at an address of its own, and the parameters
    of the CTS. *)
Lemma stream_start_eq uninit ps c heap length ps' c' heap' handle :
  sdr_send_stream_start uninit ps c heap false length = Some (Returned 0, ps', c', heap', handle) →
  let params := cx_params (cn_connection_ctx c') in
  ∃ msg_id p, 0 ≤ msg_id < 1024 ∧ handle = Some p ∧ heap !! p = None ∧
    heap' = <[p := mkStreamHandle msg_id (prm_transfer_id params) length
                     (u64 (length + prm_mtu_bytes params - 1) / prm_mtu_bytes params) 0 true]> heap.
Proof.
  unfold sdr_send_stream_start. destruct (cn_is_receiver c); [done|].
  destruct (cn_tcp_client c) as [client|]; [|done]. destruct (negb (tc_is_connected client)); [done|].
  destruct (ep_receive client uninit) as [[[[] cts] client']|]; [|done..]. cbn [negb].
  destruct (negb (msg_is cts CTS)); [done|].
  destruct (allocate_msg_id ps) as [msg_id ps1] eqn:Hid. destruct (prm_mtu_bytes _ =? 0); [done|].
  intros [= _ <- <- <-]. eexists msg_id, _. split; [|split; [done|split; [|done]]].
  - unfold allocate_msg_id in Hid. injection Hid as <- _. apply Z.mod_pos_bound. lia.
  - apply not_elem_of_dom, is_fresh.
Qed.

(** ** Properties *)

(** C15: Streaming is posting in parts: a stream that starts has a handle of its own;
    continued over consecutive parts of the message cut at packet boundaries it
    sends what [sdr_send_post] sends after the same CTS - the same packets, each
    once and in order - and counts as many; [sdr_send_stream_end] returns 0 and
    frees the handle, nothing else; and any use of the handle after that, to
    continue or to end again, is undefined: a use after free. *)
Theorem streamed_like_posted uninit ps c heap length ps' c' heap1 handle os data calls :
  sdr_send_stream_start uninit ps c heap false length = Some (Returned 0, ps', c', heap1, handle) →
  let params := cx_params (cn_connection_ctx c') in
  sendable params data length → length < 4294967296 → 0 ≤ dc_socket os → 0 < dc_inet_pton os →
  packet_cuts (prm_mtu_bytes params) 0 length calls →
  ∃ p h heap2 h' log, handle = Some p ∧ heap !! p = None ∧ heap1 = <[p := h]> heap ∧
    send_data_loop (dc_sendto os) params (sm_msg_id h) data length (total_packets_of params length) = Some log ∧
    stream_calls os params heap1 handle data calls = Some (heap2, sl_wire log) ∧
    heap2 = <[p := h']> heap ∧ sm_packets_sent h' = sl_sent log ∧
    sdr_send_stream_end heap2 handle = Some (0, heap) ∧
    (∀ offset l, sdr_send_stream_continue os params heap handle data offset l = None) ∧
    sdr_send_stream_end heap handle = None.
Proof.
  intros Hstart params Hs Hsize Hsock Hpton Hcuts.
  destruct (stream_start_eq _ _ _ _ _ _ _ _ _ Hstart) as (msg_id & p & Hid & -> & Hnew & Hh). fold params in Hh.
  pose proof (sd_mtu _ _ _ Hs) as Hm. pose proof (sd_length _ _ _ Hs). pose proof (sd_bound _ _ _ Hs).
  unfold MAX_PAYLOAD_SIZE, sizeof_SDRPacketHeader in Hm. rewrite u64_small in Hh by lia.
  change (heap1 = <[p := stream_of params msg_id length 0]> heap) in Hh. subst heap1.
  pose proof (ceil_div_bound length (prm_mtu_bytes params) ltac:(lia) ltac:(lia)) as Hb.
  rewrite (stream_calls_eq params msg_id data length Hs Hid Hsize os Hsock Hpton calls _ p 0 0)
    by (lia || done || apply lookup_insert_eq). cbv zeta. rewrite insert_insert_eq.
  assert ((0 + prm_mtu_bytes params - 1) / prm_mtu_bytes params = 0) as -> by (apply Z.div_small; lia).
  do 5 eexists. split; [done|]. split; [done|]. split; [reflexivity|].
  cbn [stream_of sm_msg_id]. split; [apply send_data_loop_eq; done || unfold total_packets_of; lia|].
  split; [reflexivity|]. split; [reflexivity|]. split; [done|]. unfold sdr_send_stream_end, sdr_send_stream_continue.
  rewrite lookup_insert_eq, Hnew. cbn [mbind option_bind]. by rewrite insert_insert_eq, delete_insert_id.
Qed.

(** A part that is not cut at packet boundaries: exactly the packets it touches
    are offered, so the packet at a cut is sent by both calls. *)
Theorem stream_continue_touches params msg_id data length os heap p sent offset l :
  heap !! p = Some (stream_of params msg_id length sent) → sendable params data length → 0 ≤ msg_id < 1024 → length < 4294967296 →
  0 ≤ dc_socket os → 0 < dc_inet_pton os → 0 ≤ offset → 0 ≤ l → offset + l ≤ length →
  ∃ packets heap',
    sdr_send_stream_continue os params heap (Some p) data offset l =
      Some (0, heap', wire_of params msg_id data length <$> List.filter (λ i, dc_sendto os i >? 0) packets) ∧
    NoDup packets ∧
    ∀ i, i ∈ packets ↔ 0 ≤ i ∧ touches (prm_mtu_bytes params) offset l i = true.
Proof.
  intros Hp Hs Hid Hsize Hsock Hpton Ho Hl Hle. pose proof (sd_mtu _ _ _ Hs).
  eexists _, _. split; [by apply (stream_continue_eq params msg_id data length Hs Hid Hsize os Hsock Hpton heap p sent)|]. split; [apply NoDup_zrange|].
  intros i. split.
  - intros Hi. assert (0 ≤ i) by (apply elem_of_zrange in Hi; pose proof (Z.div_pos offset (prm_mtu_bytes params)); lia).
    split; [done|]. by eapply touches_range in Hi.
  - intros [Hi Ht]. by eapply touches_range.
Qed.

Definition example_stream_cts : ControlMessage := message_with zero_message CTS 1 example_cts_params.

(** Twelve bytes in packets of five, in parts of five and seven; the second packet
    is refused by [sendto]. *)
Lemma streamed_like_posted_witness :
  let c := example_tx_conn true [Data (message_image example_padding example_stream_cts)] in
  let os := mkDataCalls 6 1 (λ i, if i =? 1 then -1 else 37) in
  ∃ ps' c' heap1 p h' wire,
    sdr_send_stream_start zero_message new_process c ∅ false 12 = Some (Returned 0, ps', c', heap1, Some p) ∧
    stream_calls os example_cts_params heap1 (Some p) (zrange 1 13) [(0, 5); (5, 7)] = Some (<[p := h']> ∅, wire) ∧
    sm_packets_sent h' = 2 ∧ wire = wire_of example_cts_params 0 (zrange 1 13) 12 <$> [0; 2] ∧
    sdr_send_stream_end (<[p := h']> ∅) (Some p) = Some (0, ∅) ∧ sdr_send_stream_end ∅ (Some p) = None.
Proof.
  intros c os.
  destruct (sdr_send_stream_start zero_message new_process c ∅ false 12)
    as [[[[[rc ps'] c'] heap1] handle]|] eqn:Hstart; [|vm_compute in Hstart; discriminate].
  assert (rc = Returned 0 ∧ cx_params (cn_connection_ctx c') = example_cts_params ∧
    heap1 = <[fresh (dom (∅ : StreamHeap)) := stream_of example_cts_params 0 12 0]> ∅) as (-> & Hp & Hheap)
    by (revert Hstart; vm_compute; intros [= <- _ <- <- _]; by split_and!).
  destruct (streamed_like_posted zero_message new_process c ∅ 12 ps' c' heap1 handle os (zrange 1 13)
    [(0, 5); (5, 7)] Hstart)
    as (p & h & heap2 & h' & log & -> & _ & Hh & Hlog & Hcalls & -> & Hsent & Hend & _ & Hdangling).
  - rewrite Hp. apply example_sendable. reflexivity.
  - lia.
  - vm_compute. discriminate.
  - reflexivity.
  - rewrite Hp. cbn. split_and!; try lia; first [by exists 0|by exists 1].
  - rewrite Hp in Hlog, Hcalls.
    assert (sm_msg_id h = 0) as Hid.
    { assert (heap1 !! p = Some h) as E by (rewrite Hh; apply lookup_insert_eq). rewrite Hheap in E.
      apply lookup_insert_Some in E as [[_ <-]|[_ E]]; [reflexivity|by rewrite lookup_empty in E]. }
    rewrite Hid in Hlog.
    exists ps', c', heap1, p, h', (sl_wire log). split; [reflexivity|]. split; [exact Hcalls|].
    assert (log = mkSendLog 2 1 (wire_of example_cts_params 0 (zrange 1 13) 12 <$> [0; 2])) as ->
      by (revert Hlog; vm_compute; by intros [= <-]).
    split; [exact Hsent|]. split; [reflexivity|]. split; [exact Hend|exact Hdangling].
Defined.

(** Two parts cut inside a packet send it twice. *)
Example cut_inside_packet :
  stream_calls (mkDataCalls 6 1 (λ _, 37)) example_cts_params {[0 := stream_of example_cts_params 0 12 0]} (Some 0)
    (zrange 1 13) [(0, 7); (7, 5)] =
  Some ({[0 := stream_of example_cts_params 0 12 4]}, wire_of example_cts_params 0 (zrange 1 13) 12 <$> [0; 1; 1; 2]).
Proof. vm_compute. reflexivity. Qed.
