(* ===== verification/Transfer.v ===== *)
(** * A transfer under concurrency

    The UDP workers (include/sdr_receiver.h), the poller (include/sdr_frontend.h)
    and the main thread (src/sdr_api.cpp) run at the same time on one connection.
    Here a worker's handling of a packet is cut into the steps at which other
    threads can come in between, the copy byte by byte; the poller takes one
    chunk per step, with loads as old as they can be; the network delivers any
    datagram it likes, any number of times. *)

From S2P Require Import Prelude Bits Bytes Packet Backend Frontend Control Connection Receiver Api.
Import MessageState.

(** ** Threads *)

(** Where a worker is in its handling of a datagram. *)
Inductive WorkerPc : Type :=
| WIdle                                                   (* in [recvfrom] *)
| WLookup (h : SDRPacketHeader) (payload : list Z) (len : Z)
| WTarget (slot : Z) (h : SDRPacketHeader) (payload : list Z) (len : Z)
| WFresh (slot : Z) (h : SDRPacketHeader) (payload : list Z) (len : Z)
| WCopy (slot po : Z) (buf : Buffer) (off : Z) (bs : list Z)  (* bytes left *)
| WMark (slot po : Z).

(** A datagram read from the socket. *)
Definition arrive (datagram : list Z) : WorkerPc :=
  match parse_datagram datagram with
  | None => WIdle
  | Some (h, payload, len) => WLookup h payload len
  end.

(** One step of a worker; [None] is undefined behaviour. *)
Definition worker_step (st : RxState) (pc : WorkerPc) : option (RxState * WorkerPc) :=
  match pc with
  | WIdle => Some (st, WIdle)
  | WLookup h payload len =>
      Some (st, match find_target (rx_cx st) h with
                | None => WIdle | Some slot => WTarget slot h payload len end)
  | WTarget slot h payload len =>
      dup ← is_duplicate (rx_cx st) slot (h_packet_offset h);
      Some (st, if (dup : bool) then WIdle else WFresh slot h payload len)
  | WFresh slot h payload len =>
      mc ← cx_msg_table (rx_cx st) !! slot;
      match write_extent mc (h_packet_offset h) len with
      | None => Some (st, WMark slot (h_packet_offset h))
      | Some (off, len) =>
          bs ← mem_read payload 0 len;
          Some (st, WCopy slot (h_packet_offset h) (mc_buffer mc) off bs)
      end
  | WCopy slot po buf off [] => Some (st, WMark slot po)
  | WCopy slot po buf off (b :: bs) =>
      st ← store_bytes st buf off [b];
      Some (st, WCopy slot po buf (off + 1) bs)
  | WMark slot po =>
      st ← mark_received st slot po;
      Some (st, WIdle)
  end.

(** The poller's look at a chunk while bits are being set: a backend and the
    words its loads returned. *)
Record Scan : Type := mkScan { scan_backend : BackendBitmap; scan_load : Z → option Z }.

Definition scan_result (s : Scan) (c : Z) : option bool :=
  let '(first, last) := chunk_bounds (scan_backend s) c in
  check_chunk_range (scan_load s) first last.

#[export] Instance scan_source : ChunkSource Scan := {|
  src_is_chunk_complete := scan_result;
  src_packets_per_chunk s := bb_packets_per_chunk (scan_backend s)
|}.

Lemma scan_result_eq s c :
  wf_backend (scan_backend s) ∧ stale_load (scan_backend s) (scan_load s) →
  chunk_in_range (scan_backend s) c → scan_result s c = Some (default false (scan_result s c)).
Proof.
  intros [Hwf Hst] Hc. destruct (stale_scan _ c _ Hwf Hc Hst) as (r & Hr & _).
  unfold scan_result. by rewrite Hr.
Qed.

#[export] Instance scan_source_ok : ChunkSourceOk Scan := {|
  src_wf s := wf_backend (scan_backend s) ∧ stale_load (scan_backend s) (scan_load s);
  src_in_range s := chunk_in_range (scan_backend s);
  src_complete s c := default false (scan_result s c);
  src_le := eq;
  src_is_chunk_complete_eq := scan_result_eq;
  src_complete_mono s s' c H := match H with eq_refl => λ H, H end;
  src_le_trans s1 s2 s3 := @eq_trans _ s1 s2 s3
|}.

Definition poll_chunk (st : RxState) (slot c : Z) (load : Z → option Z) : option RxState :=
  mc ← cx_msg_table (rx_cx st) !! slot;
  fb ← mc_frontend mc;
  b ← mc_backend mc;
  '(_, fb) ← check_and_set_chunk (mkScan b load) fb c;
  Some (rx_set_slot st slot (mc_set_frontend mc fb)).

(** ** The system *)

Record TransferState : Type := mkTransfer {
  tr_rx : RxState;
  tr_workers : list WorkerPc
}.

Definition set_worker (s : TransferState) (i : nat) (st : RxState) (pc : WorkerPc)
    : TransferState := mkTransfer st (<[i := pc]> (tr_workers s)).

(** One step of some thread; [completes]: the main thread may call
    [complete_message] meanwhile. *)
Inductive tr_step (net : list Z → Prop) (completes : bool) (slot : Z)
    : TransferState → TransferState → Prop :=
| StepArrive s i d : tr_workers s !! i = Some WIdle → net d →
    tr_step net completes slot s (set_worker s i (tr_rx s) (arrive d))
| StepWorker s i pc st' pc' : tr_workers s !! i = Some pc →
    worker_step (tr_rx s) pc = Some (st', pc') →
    tr_step net completes slot s (set_worker s i st' pc')
| StepPoll s mc b fb c load st' : cx_msg_table (rx_cx (tr_rx s)) !! slot = Some mc →
    mc_backend mc = Some b → mc_frontend mc = Some fb → 0 ≤ c < fb_total_chunks fb →
    stale_load b load → poll_chunk (tr_rx s) slot c load = Some st' →
    tr_step net completes slot s (mkTransfer st' (tr_workers s))
| StepComplete s : completes = true →
    tr_step net completes slot s
      (mkTransfer (mkRx (complete_message (rx_cx (tr_rx s)) slot) (rx_mem (tr_rx s)))
         (tr_workers s)).

(** A worker is about to do something undefined. *)
Definition worker_undefined (s : TransferState) : Prop :=
  ∃ i pc, tr_workers s !! i = Some pc ∧ worker_step (tr_rx s) pc = None.

(** So is the poller, at its next look at some chunk of the slot, with loads that may
    be as old as they can be. *)
Definition poller_undefined (slot : Z) (s : TransferState) : Prop :=
  ∃ mc b fb c load, cx_msg_table (rx_cx (tr_rx s)) !! slot = Some mc ∧
    mc_backend mc = Some b ∧ mc_frontend mc = Some fb ∧ 0 ≤ c < fb_total_chunks fb ∧
    stale_load b load ∧ poll_chunk (tr_rx s) slot c load = None.

Definition undefined (slot : Z) (s : TransferState) : Prop :=
  worker_undefined s ∨ poller_undefined slot s.

(** ** The abstract worker: [handle_datagram] *)

(** A worker alone, until it is back in [recvfrom]. *)
Fixpoint run_worker (fuel : nat) (st : RxState) (pc : WorkerPc) : option RxState :=
  match pc, fuel with
  | WIdle, _ => Some st
  | _, O => None
  | _, S fuel => '(st, pc) ← worker_step st pc; run_worker fuel st pc
  end.

(** ** Copying byte by byte *)

Lemma list_inserts_cons_step (m : list Z) off b bs :
  list_inserts (S off) bs (list_inserts off [b] m) = list_inserts off (b :: bs) m.
Proof.
  cbn [list_inserts]. revert off m. enough (∀ bs k off m, (off < k)%nat →
    list_inserts k bs (<[off := b]> m) = <[off := b]> (list_inserts k bs m)) as H
    by (intros; apply H; lia).
  clear bs. induction bs as [|b' bs IH]; intros k off m Hk; [done|]. cbn [list_inserts].
  rewrite IH by lia. apply list_insert_insert_ne. lia.
Qed.

Lemma mem_write_cons m off b bs m' : mem_write m off (b :: bs) = Some m' →
  ∃ m1, mem_write m off [b] = Some m1 ∧ mem_write m1 (off + 1) bs = Some m'.
Proof.
  unfold mem_write. cbn [length].
  destruct ((0 <=? off) && _) eqn:Hg; [|done]. bool_to_prop. intros [= <-].
  rewrite (proj2 (Z.leb_le 0 off)), (proj2 (Z.leb_le (off + Z.of_nat 1) _)) by lia. cbn [andb].
  eexists. split; [done|]. rewrite length_inserts.
  rewrite (proj2 (Z.leb_le 0 (off + 1))), (proj2 (Z.leb_le _ _)) by lia. cbn [andb].
  replace (Z.to_nat (off + 1)) with (S (Z.to_nat off)) by lia.
  by rewrite list_inserts_cons_step.
Qed.

Lemma store_bytes_cons st buf off b bs st' : store_bytes st buf off (b :: bs) = Some st' →
  ∃ st1, store_bytes st buf off [b] = Some st1 ∧ store_bytes st1 buf (off + 1) bs = Some st'.
Proof.
  destruct buf as [|id|]; cbn [store_bytes]; [done|..].
  - destruct (rx_mem st !! id) as [m|] eqn:Hm; [|done]. cbn [mbind option_bind].
    destruct (mem_write m off (b :: bs)) as [m'|] eqn:Hw; [|done]. cbn. intros [= <-].
    apply mem_write_cons in Hw as (m1 & -> & Hw). eexists. split; [done|]. cbn.
    rewrite lookup_insert_eq. cbn. rewrite Hw. cbn. by rewrite insert_insert_eq.
  - destruct (mem_write _ off (b :: bs)) as [m'|] eqn:Hw; [|done]. cbn. intros [= <-].
    apply mem_write_cons in Hw as (m1 & -> & Hw). eexists. split; [done|]. cbn.
    by rewrite Hw.
Qed.

Lemma store_bytes_nil st buf off st' : store_bytes st buf off [] = Some st' → st' = st.
Proof.
  destruct buf as [|id|]; cbn [store_bytes]; [done|..].
  - destruct (rx_mem st !! id) as [m|] eqn:Hm; [|done]. cbn. unfold mem_write.
    destruct (_ && _); [|done]. cbn. intros [= <-]. rewrite insert_id by done. by destruct st.
  - unfold mem_write. destruct (_ && _); [|done]. cbn. intros [= <-]. by destruct st as [[] ?].
Qed.

Lemma run_worker_copy bs : ∀ st slot po buf off st' fuel, store_bytes st buf off bs = Some st' →
  run_worker (S (length bs) + fuel) st (WCopy slot po buf off bs) =
  run_worker fuel st' (WMark slot po).
Proof.
  induction bs as [|b bs IH]; intros st slot po buf off st' fuel Hs.
  { apply store_bytes_nil in Hs as ->. done. }
  apply store_bytes_cons in Hs as (st1 & H1 & H2). cbn [length Nat.add run_worker worker_step].
  rewrite H1. cbn [mbind option_bind]. apply (IH _ _ _ _ _ _ _ H2).
Qed.

Lemma run_worker_idle fuel st : run_worker fuel st WIdle = Some st.
Proof. by destruct fuel. Qed.

(** A worker alone does what [process_packet] does. *)
Lemma run_worker_process st h payload len st' fuel : (length payload + 8 ≤ fuel)%nat →
  process_packet st h payload len = Some st' → run_worker fuel st (WLookup h payload len) = Some st'.
Proof.
  intros Hf. unfold process_packet.
  destruct fuel as [|[|[|fuel]]]; [lia..|]. cbn [run_worker worker_step mbind option_bind].
  destruct (find_target (rx_cx st) h) as [slot|]; [|done].
  cbn [run_worker worker_step mbind option_bind].
  destruct (is_duplicate _ _ _) as [dup|]; [|done]. cbn [mbind option_bind].
  destruct dup; [done|]. unfold write_packet_to_buffer.
  cbn [run_worker worker_step mbind option_bind].
  destruct (cx_msg_table (rx_cx st) !! slot) as [mc|]; [|done]. cbn [mbind option_bind].
  destruct (write_extent mc (h_packet_offset h) len) as [[off l]|]; cbn [mbind option_bind].
  - destruct (mem_read payload 0 l) as [bs|] eqn:Hr; [|done]. cbn [mbind option_bind].
    destruct (store_bytes st (mc_buffer mc) off bs) as [st1|] eqn:Hs; [|done].
    assert (length bs ≤ length payload)%nat as Hl.
    { unfold mem_read in Hr. destruct (_ && _); [|done]. injection Hr as <-.
      rewrite length_take, length_drop. lia. }
    replace fuel with (S (length bs) + S (fuel - length bs - 2))%nat by lia.
    rewrite (run_worker_copy _ _ _ _ _ _ _ _ Hs). cbn [run_worker worker_step mbind option_bind].
    destruct (mark_received st1 slot _) as [st2|]; [|done]. cbn [mbind option_bind].
    intros [= <-]. apply run_worker_idle.
  - destruct fuel as [|fuel]; [lia|]. cbn [run_worker worker_step mbind option_bind].
    destruct (mark_received st slot _) as [st2|]; [|done]. cbn [mbind option_bind].
    intros [= <-]. apply run_worker_idle.
Qed.

(** ** Bitmaps of a transfer in step *)

Lemma mark_effect_transfer mc b fb po : wf_transfer mc b fb → 0 ≤ po →
  ∃ b', wf_transfer (mark_effect mc po) b' fb ∧ bb_total_packets b' = bb_total_packets b ∧
    ∀ q, received b' q = ((po <? bb_total_packets b) && (q =? po)) || received b q.
Proof.
  intros [Hb Hf Hwb Hwf Hp [Hc Hc'] Hs] Hpo. unfold mark_effect. rewrite Hb.
  destruct (set_packet_received_eq b po Hwb Hpo) as (b' & -> & Hwb' & Ht & Hpc & Hr).
  exists b'. split; [|done].
  assert (num_chunks b' = num_chunks b) as Hn by (unfold num_chunks; by rewrite Ht, Hpc).
  constructor; try done; cbn; rewrite ?Hn, ?Ht; try done.
  intros c Hm. apply (chunk_received_le b); [|by apply Hs].
  split_and!; [done..|]. intros q Hq. rewrite Hr, Hq. apply orb_true_r.
Qed.

(** One look of the poller, however stale its loads. *)
Lemma poll_chunk_eq st slot mc b fb c load : cx_msg_table (rx_cx st) !! slot = Some mc →
  wf_transfer mc b fb → 0 ≤ c < fb_total_chunks fb → stale_load b load →
  ∃ fb', poll_chunk st slot c load = Some (rx_set_slot st slot (mc_set_frontend mc fb')) ∧
    wf_transfer (mc_set_frontend mc fb') b fb'.
Proof.
  intros Hmc [Hb Hf Hwb Hwf Hp [Hc Hc'] Hs] Hcr Hst. unfold poll_chunk.
  rewrite Hmc. cbn [mbind option_bind]. rewrite Hf, Hb. cbn [mbind option_bind].
  assert (chunk_in_range b c) as Hin by (apply num_chunks_range; [done|lia|lia]).
  destruct (check_and_set_chunk_eq (mkScan b load) fb c) as (fb' & -> & Hwf' & [Ht _ _] & Hm);
    [by split|done|done|done|].
  exists fb'. split; [done|]. constructor; try done; cbn; rewrite ?Ht; try done.
  intros d Hd. rewrite Hm in Hd. apply orb_true_iff in Hd as [Hd|Hd]; [|by apply Hs].
  apply andb_true_iff in Hd as [->%Z.eqb_eq Hd]. cbn [src_complete scan_source_ok] in Hd.
  destruct (stale_scan b c load Hwb Hin Hst) as (r & Hr & Hsound).
  change (scan_result (mkScan b load) c = Some r) in Hr. rewrite Hr in Hd. by apply Hsound.
Qed.

Lemma parse_datagram_payload d h payload len : parse_datagram d = Some (h, payload, len) →
  Z.of_nat (length payload) + 32 ≤ 65528.
Proof.
  unfold parse_datagram. cbv zeta. set (buf := take _ d).
  assert (Z.of_nat (length buf) ≤ max_packet_size) as Hb.
  { subst buf. rewrite length_take. unfold max_packet_size, MAX_PAYLOAD_SIZE. lia. }
  unfold max_packet_size, MAX_PAYLOAD_SIZE in Hb.
  set (hd := to_host_order _). clearbody hd buf. destruct (_ || _) eqn:Hg; [done|].
  apply orb_false_iff in Hg as [Hn%Z.ltb_ge _]. intros [= <- <- <-].
  rewrite length_drop. unfold sizeof_SDRPacketHeader in *. lia.
Qed.

(** Where the slot's bitmaps are in step, the poller's looks are defined. *)
Lemma poller_defined slot s mc b fb : cx_msg_table (rx_cx (tr_rx s)) !! slot = Some mc →
  wf_transfer mc b fb → ¬ poller_undefined slot s.
Proof.
  intros Hmc Hwt (mc' & b' & fb' & c & load & Hmc' & Hb & Hf & Hc & Hst & Hnone).
  rewrite Hmc in Hmc'. injection Hmc' as <-.
  rewrite (wft_backend _ _ _ Hwt) in Hb. injection Hb as <-.
  rewrite (wft_frontend _ _ _ Hwt) in Hf. injection Hf as <-.
  destruct (poll_chunk_eq _ _ _ _ _ _ _ Hmc Hwt Hc Hst) as (? & H & _). congruence.
Qed.

(** ** The transfer's invariant *)

Section Transfer.
Context (params : ConnectionParams) (slot id length : Z) (data : list Z).
Context (Hsend : sendable params data length) (Hslot : 0 ≤ slot < 1024).
Context (Hfits : total_packets_of params length ≤ 262144).

Notation mtu := (prm_mtu_bytes params).
Notation total := (total_packets_of params length).

(** The payload of packet [i], and what a datagram that claims to belong to the
    transfer must hold. *)
Definition own (h : SDRPacketHeader) (payload : list Z) (len : Z) : Prop :=
  ∃ i, 0 ≤ i < total ∧ h_packet_offset h = i ∧ payload = packet_bytes data length mtu i ∧
    len = Z.of_nat (List.length payload).

(** Networks that may lose, repeat, reorder and make up datagrams, but not forge
    one with this transfer's message number and generation. *)
Definition honest (d : list Z) : Prop :=
  ∀ h payload len, parse_datagram d = Some (h, payload, len) → h_msg_id h = slot →
    h_transfer_id h = prm_transfer_id params → own h payload len.

(** Byte [x] of the user's buffer is the message's. *)
Definition byte_ok (mem : gmap Z (list Z)) (x : Z) : Prop :=
  ∃ m, mem !! id = Some m ∧ m !! Z.to_nat x = data !! Z.to_nat x.

Definition packet_ok (mem : gmap Z (list Z)) (i : Z) : Prop :=
  ∀ x, i * mtu ≤ x < Z.min ((i + 1) * mtu) length → byte_ok mem x.

(** A context stays the same transfer. *)
Definition same_target (mc mc' : MessageContext) : Prop :=
  mc_msg_id mc' = mc_msg_id mc ∧ mc_generation mc' = mc_generation mc ∧
  mc_state mc' = mc_state mc ∧ mc_buffer mc' = mc_buffer mc ∧
  mc_buffer_size mc' = mc_buffer_size mc ∧ mc_params mc' = mc_params mc.

(** The shared state: the receive path's invariant, the transfer's context, the
    buffer it owns, and bits only for packets whose bytes are in place. *)
Record shared_ok (st : RxState) : Prop := {
  so_wf : wf_rx st;
  so_slot : ∃ mc b fb, cx_msg_table (rx_cx st) !! slot = Some mc ∧ mc_state mc = ACTIVE ∧
    mc_generation mc = prm_transfer_id params ∧ mc_buffer mc = BufUser id ∧
    mc_buffer_size mc = length ∧ mc_params mc = params ∧ wf_transfer mc b fb ∧
    bb_total_packets b = total ∧ ∀ q, received b q = true → packet_ok (rx_mem st) q;
  so_private : ∀ s mc, s ≠ slot → cx_msg_table (rx_cx st) !! s = Some mc →
    mc_buffer mc ≠ BufUser id
}.

(** What later states keep of earlier ones. *)
Record shared_le (st st' : RxState) : Prop := {
  sl_slots : ∀ s mc, cx_msg_table (rx_cx st) !! s = Some mc →
    ∃ mc', cx_msg_table (rx_cx st') !! s = Some mc' ∧ same_target mc mc';
  sl_grown : mem_grown (rx_mem st) (rx_mem st');
  sl_bytes : ∀ x, 0 ≤ x → byte_ok (rx_mem st) x → byte_ok (rx_mem st') x
}.

#[local] Instance shared_le_refl : Reflexive shared_le.
Proof. intros st. constructor; try done. intros s mc Hs. by exists mc. Qed.

(** A packet in a worker's hands: its ranges, and its bytes if it is ours. *)
Definition packet_in_hand (s : Z) (h : SDRPacketHeader) (payload : list Z) (len : Z) : Prop :=
  0 ≤ h_packet_offset h < 262144 ∧ 0 ≤ len < 65536 ∧ len ≤ Z.of_nat (List.length payload) ∧
  (s = slot → own h payload len).

Definition active_slot (st : RxState) (s : Z) (mc : MessageContext) : Prop :=
  cx_msg_table (rx_cx st) !! s = Some mc ∧ mc_state mc = ACTIVE.

(** A copy in progress stays inside its buffer; ours has copied up to [off] and
    holds the message's bytes for the rest. *)
Definition copy_ok (st : RxState) (s po : Z) (buf : Buffer) (off : Z) (bs : list Z) : Prop :=
  (∃ b m, buf = BufUser b ∧ rx_mem st !! b = Some m ∧ 0 ≤ off ∧
     off + Z.of_nat (List.length bs) ≤ Z.of_nat (List.length m)) ∧
  (s ≠ slot → buf ≠ BufUser id) ∧
  (s = slot → buf = BufUser id ∧ 0 ≤ po < total ∧ po * mtu ≤ off ∧
     off + Z.of_nat (List.length bs) = Z.min ((po + 1) * mtu) length ∧
     (∀ x, po * mtu ≤ x < off → byte_ok (rx_mem st) x) ∧
     (∀ k, (k < List.length bs)%nat → bs !! k = data !! (Z.to_nat off + k)%nat)).

Definition worker_ok (st : RxState) (pc : WorkerPc) : Prop :=
  match pc with
  | WIdle => True
  | WLookup h payload len =>
      0 ≤ h_msg_id h ∧ 0 ≤ h_packet_offset h < 262144 ∧ 0 ≤ len < 65536 ∧
      len ≤ Z.of_nat (List.length payload) ∧
      (h_msg_id h = slot → h_transfer_id h = prm_transfer_id params → own h payload len)
  | WTarget s h payload len | WFresh s h payload len =>
      (∃ mc, active_slot st s mc) ∧ packet_in_hand s h payload len
  | WCopy s po buf off bs => (∃ mc, active_slot st s mc) ∧ 0 ≤ po ∧ copy_ok st s po buf off bs
  | WMark s po => (∃ mc, active_slot st s mc) ∧ 0 ≤ po ∧
      (s = slot → 0 ≤ po < total ∧ packet_ok (rx_mem st) po)
  end.

Definition transfer_ok (s : TransferState) : Prop :=
  shared_ok (tr_rx s) ∧ ∀ i pc, tr_workers s !! i = Some pc → worker_ok (tr_rx s) pc.

(** ** Stability *)

Lemma active_slot_le st st' s mc : shared_le st st' → active_slot st s mc →
  ∃ mc', active_slot st' s mc'.
Proof.
  intros [Hs _ _] [Hmc Ha]. destruct (Hs s mc Hmc) as (mc' & Hmc' & (_ & _ & Hst & _)).
  exists mc'. split; [done|congruence].
Qed.

Lemma packet_ok_le st st' i : shared_le st st' → 0 ≤ i → packet_ok (rx_mem st) i →
  packet_ok (rx_mem st') i.
Proof.
  intros [_ _ Hb] Hi Hp x Hx. apply Hb; [|by apply Hp].
  destruct Hsend. nia.
Qed.

Lemma copy_ok_le st st' s po buf off bs : shared_le st st' → copy_ok st s po buf off bs →
  copy_ok st' s po buf off bs.
Proof.
  intros [_ Hg Hb] ((b & m & -> & Hm & Ho & Hl) & Hother & Hown). split; [|split; [done|]].
  - destruct (Hg _ _ Hm) as (m' & Hm' & Hlen). exists b, m'. rewrite Hlen. by split_and!.
  - intros Hs. destruct (Hown Hs) as (? & Hpo & ? & ? & Hx & ?). split_and!; try done; try lia.
    intros x Hxr. apply Hb; [destruct Hsend; nia|by apply Hx].
Qed.

Lemma worker_ok_le st st' pc : shared_le st st' → worker_ok st pc → worker_ok st' pc.
Proof.
  intros Hle. destruct pc as [|h p l|s h p l|s h p l|s po buf off bs|s po]; cbn; try done.
  - intros [(mc & Ha) ?]. split; [by eapply active_slot_le|done].
  - intros [(mc & Ha) ?]. split; [by eapply active_slot_le|done].
  - intros [(mc & Ha) [? ?]]. split; [by eapply active_slot_le|]. split; [done|by eapply copy_ok_le].
  - intros [(mc & Ha) [? Hown]]. split; [by eapply active_slot_le|]. split; [done|].
    intros Hs. destruct (Hown Hs). split; [done|]. by eapply packet_ok_le; [| lia|].
Qed.

(** ** Steps *)

Lemma own_packet h payload len s : packet_in_hand s h payload len → s = slot →
  ∃ i, 0 ≤ i < total ∧ h_packet_offset h = i ∧ payload = packet_bytes data length mtu i ∧
    i * mtu < length ∧ len = Z.min mtu (length - i * mtu) ∧
    Z.of_nat (List.length payload) = len.
Proof.
  intros (_ & _ & _ & Hown) Hs. destruct (Hown Hs) as (i & Hi & Ho & -> & ->).
  destruct Hsend as [_ Hm _ Hl _].
  assert (i * mtu < length) as Hlt by (apply (ceil_div_lt length mtu i); [lia..|apply Hi]).
  exists i. split_and!; try done; [lia..|].
  unfold packet_bytes. rewrite length_take, length_drop. nia.
Qed.

Lemma shared_ok_store st b m off x m' : shared_ok st → rx_mem st !! b = Some m →
  mem_write m off [x] = Some m' → (b = id → data !! Z.to_nat off = Some x) →
  let st' := mkRx (rx_cx st) (<[b := m']> (rx_mem st)) in shared_ok st' ∧ shared_le st st'.
Proof.
  intros [Hwf Hs Hpriv] Hm Hw Hx st'.
  pose proof (mem_write_length _ _ _ _ Hw) as Hlen.
  assert (0 ≤ off) as Hoff by (unfold mem_write in Hw; by destruct (0 <=? off) eqn:?; [apply Z.leb_le|]).
  assert (shared_le st st') as Hle.
  { constructor.
    - intros s mc Hmc. by exists mc.
    - intros i bs Hi. cbn. rewrite lookup_insert. case_decide; [subst i|by exists bs].
      exists m'. split; [done|congruence].
    - intros y Hy (m0 & Hm0 & Hy0). unfold byte_ok. cbn. rewrite lookup_insert.
      case_decide as Hb; [subst b|by exists m0]. exists m'. split; [done|].
      assert (m0 = m) as -> by congruence.
      rewrite (mem_write_lookup _ _ _ _ y Hw Hy). cbn [List.length].
      destruct ((off <=? y) && _) eqn:Hin; [|done].
      apply andb_true_iff in Hin as [?%Z.leb_le ?%Z.ltb_lt].
      assert (y = off) as -> by lia. rewrite Z.sub_diag. cbn. symmetry. by apply Hx. }
  split; [|done]. constructor; [| |done].
  - intros s mc Hmc. eapply wf_slot_mem; [by eapply Hwf|]. apply (sl_grown _ _ Hle).
  - destruct Hs as (mc & bb & fb & Hmc & ? & ? & ? & ? & ? & Hwt & ? & Hr).
    exists mc, bb, fb. split_and!; try done. intros q Hq.
    eapply packet_ok_le; [done| |by apply Hr].
    unfold received in Hq. apply andb_true_iff in Hq as [[?%Z.leb_le _]%andb_true_iff _]. done.
Qed.

(** A context of the transfer replaced by one of the same target. *)
Lemma shared_ok_slot st s mc mc' : shared_ok st → cx_msg_table (rx_cx st) !! s = Some mc →
  same_target mc mc' → wf_slot (rx_mem st) mc' →
  (s = slot → ∃ b fb, wf_transfer mc' b fb ∧ bb_total_packets b = total ∧
     ∀ q, received b q = true → packet_ok (rx_mem st) q) →
  shared_ok (rx_set_slot st s mc') ∧ shared_le st (rx_set_slot st s mc').
Proof.
  intros [Hwf Hs Hpriv] Hmc (E1 & E2 & E3 & E4 & E5 & E6) Hwf' Hnew. split.
  - constructor.
    + intros t mc2. cbn. rewrite lookup_insert. case_decide; [by intros [= <-]|apply Hwf].
    + destruct Hs as (mc0 & b & fb & Hmc0 & ? & ? & ? & ? & ? & Hwt & ? & Hr).
      cbn. rewrite lookup_insert. case_decide as Hd; [subst s|by exists mc0, b, fb].
      assert (mc0 = mc) as -> by congruence. destruct (Hnew eq_refl) as (b' & fb' & ? & ? & ?).
      exists mc', b', fb'. by split_and!; try congruence.
    + intros t mc2 Ht. cbn. rewrite lookup_insert. case_decide as Hd; [|by apply Hpriv].
      subst t. intros [= <-]. rewrite E4. by apply (Hpriv s mc).
  - constructor; [|done|done]. intros t mc2 Hmc2. cbn. rewrite lookup_insert. case_decide as Hd.
    + subst t. exists mc'. assert (mc2 = mc) as -> by congruence. done.
    + by exists mc2.
Qed.

(** A step that leaves the shared state alone. *)
Lemma step_stays st pc pc' : shared_ok st → worker_ok st pc' →
  worker_step st pc = Some (st, pc') →
  ∃ st' pc2, worker_step st pc = Some (st', pc2) ∧ shared_ok st' ∧ shared_le st st' ∧
    worker_ok st' pc2.
Proof. intros Hok Hpc Hst. by exists st, pc'. Qed.

Definition worker_step_fine (st : RxState) (pc : WorkerPc) : Prop :=
  ∃ st' pc', worker_step st pc = Some (st', pc') ∧ shared_ok st' ∧ shared_le st st' ∧
    worker_ok st' pc'.

Lemma lookup_step_ok st h payload len : shared_ok st → worker_ok st (WLookup h payload len) →
  worker_step_fine st (WLookup h payload len).
Proof.
  intros Hok (Hid & Hpo & Hlen & Hpl & Hown).
  eapply step_stays; [done| |done].
  destruct (find_target (rx_cx st) h) as [s|] eqn:Ht; [|done].
  apply find_target_some in Ht as (-> & mc & Hmc & Ha & Hg & _). split; [by exists mc|].
  split_and!; try done; try lia. intros Hs. apply Hown; [done|].
  destruct (so_slot _ Hok) as (mc0 & b & fb & Hmc0 & _ & Hg0 & _).
  rewrite <-Hg, <-Hg0. congruence.
Qed.

Lemma target_step_ok st s h payload len : shared_ok st → worker_ok st (WTarget s h payload len) →
  worker_step_fine st (WTarget s h payload len).
Proof.
  intros Hok ((mc & Hmc & Ha) & Hp).
  pose proof (so_wf _ Hok _ _ Hmc) as Hwf. destruct Hp as (Hpo & Hp).
  assert (is_duplicate (rx_cx st) s (h_packet_offset h) = Some (has_packet mc (h_packet_offset h)))
    as Hd by (apply (is_duplicate_eq (rx_mem st)); done || lia).
  eapply step_stays with (pc' := if has_packet mc (h_packet_offset h) then WIdle
    else WFresh s h payload len); [done| |].
  - destruct (has_packet _ _); [done|]. split; [by exists mc|done].
  - cbn. by rewrite Hd.
Qed.

Lemma eff_mtu_params mc : mc_params mc = params → eff_mtu mc = mtu.
Proof. intros H. unfold eff_mtu. rewrite H. destruct Hsend. case_bool; lia. Qed.

Lemma fresh_step_ok st s h payload len : shared_ok st → worker_ok st (WFresh s h payload len) →
  worker_step_fine st (WFresh s h payload len).
Proof.
  intros Hok ((mc & Hmc & Ha) & Hp).
  pose proof (so_wf _ Hok _ _ Hmc) as Hwf. pose proof Hp as (Hpo & Hlen & Hpl & _).
  pose proof (write_extent_eq (rx_mem st) mc (h_packet_offset h) len Hwf Hpo Hlen) as He.
  assert (0 < eff_mtu mc) as Hmpos by (destruct Hwf; unfold eff_mtu; case_bool; lia).
  assert (s = slot → ∃ i, 0 ≤ i < total ∧ h_packet_offset h = i ∧
    payload = packet_bytes data length mtu i ∧ i * mtu < length ∧
    len = Z.min mtu (length - i * mtu) ∧ Z.of_nat (List.length payload) = len ∧
    mc_buffer mc = BufUser id ∧ mc_buffer_size mc = length ∧ eff_mtu mc = mtu) as Hours.
  { intros Hs. destruct (own_packet h payload len s Hp Hs) as (i & ? & ? & ? & ? & ? & ?).
    destruct (so_slot _ Hok) as (mc0 & b & fb & Hmc0 & _ & _ & Hb & Hsz & Hprm & _).
    assert (mc0 = mc) as -> by congruence. exists i. split_and!; try done; try lia.
    by apply eff_mtu_params. }
  destruct (bool_decide (mc_buffer mc = BufNull) || (mc_buffer_size mc <=? h_packet_offset h * eff_mtu mc))
    eqn:Hg.
  - eapply step_stays with (pc' := WMark s (h_packet_offset h)); [done| |].
    2: { cbn. rewrite Hmc. cbn [mbind option_bind]. by rewrite He. }
    split; [by exists mc|]. split; [lia|]. intros Hs. exfalso.
    destruct (Hours Hs) as (i & _ & Hi & _ & Hlt & _ & _ & Hb & Hsz & Hm).
    rewrite Hb, Hsz, Hm, Hi, bool_decide_false in Hg by done. cbn in Hg. apply Z.leb_le in Hg. lia.
  - apply orb_false_iff in Hg as [Hb%bool_decide_eq_false Hlt%Z.leb_gt].
    set (off := h_packet_offset h * eff_mtu mc) in *. set (l := Z.min len (mc_buffer_size mc - off)) in *.
    assert (mem_read payload 0 l = Some (take (Z.to_nat l) payload)) as Hr.
    { unfold mem_read. rewrite (proj2 (Z.leb_le 0 l)), (proj2 (Z.leb_le (0 + l) _)) by lia.
      cbn [andb Z.leb]. change (Z.to_nat 0) with 0%nat. by rewrite drop_0. }
    eapply step_stays with (pc' := WCopy s (h_packet_offset h) (mc_buffer mc) off
      (take (Z.to_nat l) payload)); [done| |].
    2: { cbn. rewrite Hmc. cbn [mbind option_bind]. rewrite He. cbn [mbind option_bind].
      by rewrite Hr. }
    split; [by exists mc|]. split; [lia|]. assert (0 ≤ off) as Hoff by (subst off; nia).
    rewrite <-(Z2Nat.id l) in Hr by lia. split; [|split].
    + destruct (mc_buffer mc) as [|b|] eqn:Hbuf; [done| |by destruct (wfs_sink _ _ Hwf Hbuf)].
      destruct (wfs_user _ _ Hwf b Hbuf) as (m & Hm & Hsz). exists b, m.
      rewrite length_take. split_and!; [done|done|lia|lia].
    + intros Hs. by apply (so_private _ Hok s mc).
    + intros Hs. destruct (Hours Hs) as (i & Hi & Hpi & Hpay & Hilt & Hle & Hpl2 & Hbuf & Hsz & Hm).
      assert (off = i * mtu) as Ho by (subst off; by rewrite Hpi, Hm).
      assert (l = len) as Hll by (subst l; rewrite Hsz, Ho; lia).
      rewrite Hpi. split_and!; try done; try lia.
      * rewrite length_take. rewrite Hll, Ho. lia.
      * intros k Hk. rewrite length_take in Hk. rewrite lookup_take_lt by lia. rewrite Hpay.
        unfold packet_bytes. rewrite lookup_take_lt by lia. rewrite lookup_drop, Ho. done.
Qed.

Lemma copy_step_ok st s po buf off bs : shared_ok st → worker_ok st (WCopy s po buf off bs) →
  worker_step_fine st (WCopy s po buf off bs).
Proof.
  intros Hok ((mc & Ha) & Hpo & (b & m & -> & Hm & Hoff & Hl) & Hother & Hours).
  destruct bs as [|x bs].
  { eapply step_stays with (pc' := WMark s po); [done| |done].
    split; [by exists mc|]. split; [done|]. intros Hs.
    destruct (Hours Hs) as (_ & Hp & _ & He & Hx & _). split; [done|].
    intros y Hy. apply Hx. cbn in He. lia. }
  cbn [List.length] in Hl.
  assert (mem_write m off [x] = Some (list_inserts (Z.to_nat off) [x] m)) as Hw.
  { unfold mem_write. cbn [List.length].
    by rewrite (proj2 (Z.leb_le 0 off)), (proj2 (Z.leb_le (off + Z.of_nat 1) _)) by lia. }
  assert (b = id → data !! Z.to_nat off = Some x) as Hdata.
  { intros ->. destruct (decide (s = slot)) as [Hs|Hs]; [|by destruct (Hother Hs)].
    destruct (Hours Hs) as (_ & _ & _ & _ & _ & Hk). specialize (Hk 0%nat).
    rewrite Nat.add_0_r in Hk. rewrite <-Hk by (cbn; lia). done. }
  destruct (shared_ok_store st b m off x _ Hok Hm Hw Hdata) as [Hok' Hle].
  set (st' := mkRx _ _) in *. exists st', (WCopy s po (BufUser b) (off + 1) bs).
  split; [|split; [done|split; [done|]]].
  { cbn [worker_step store_bytes]. rewrite Hm. cbn [mbind option_bind]. by rewrite Hw. }
  split; [by eapply active_slot_le|]. split; [done|]. split; [|split; [done|]].
  - destruct (sl_grown _ _ Hle _ _ Hm) as (m' & Hm' & Hlen). exists b, m'. rewrite Hlen.
    split_and!; [done|done|lia|lia].
  - intros Hs. destruct (Hours Hs) as (Hb & Hp & Hlo & He & Hx & Hk). cbn [List.length] in He, Hk.
    split_and!; try done; try lia.
    + intros y Hy. destruct (decide (y = off)) as [->|].
      * injection Hb as ->. exists (list_inserts (Z.to_nat off) [x] m).
        split; [by cbn; rewrite lookup_insert_eq|]. rewrite Hdata by done.
        rewrite (mem_write_lookup _ _ _ _ off Hw) by lia.
        rewrite (proj2 (Z.leb_le _ _)), (proj2 (Z.ltb_lt _ _)) by (cbn; lia).
        by rewrite Z.sub_diag.
      * apply (sl_bytes _ _ Hle); [destruct Hsend; nia|]. apply Hx. lia.
    + intros k Hklt. transitivity ((x :: bs) !! S k); [done|]. rewrite Hk by lia. f_equal. lia.
Qed.

Lemma mark_step_ok st s po : shared_ok st → worker_ok st (WMark s po) →
  worker_step_fine st (WMark s po).
Proof.
  intros Hok ((mc & Hmc & Ha) & Hpo & Hours). pose proof (so_wf _ Hok _ _ Hmc) as Hwf.
  destruct (mark_received_eq st s mc po Hmc Hwf Hpo) as [Hm Hwf'].
  destruct (mark_effect_same mc po) as (E1 & E2 & E3 & E4 & E5 & E6 & _).
  destruct (shared_ok_slot st s mc (mark_effect mc po) Hok Hmc) as [Hok' Hle];
    [by split_and!|done| |].
  { intros Hs. destruct (Hours Hs) as [Hp Hpk].
    destruct (so_slot _ Hok) as (mc0 & b & fb & Hmc0 & _ & _ & _ & _ & _ & Hwt & Ht & Hr).
    assert (mc0 = mc) as -> by congruence.
    destruct (mark_effect_transfer mc b fb po Hwt Hpo) as (b' & Hwt' & Ht' & Hr').
    exists b', fb. split_and!; [done|congruence|]. intros q Hq. rewrite Hr' in Hq.
    apply orb_true_iff in Hq as [Hq|Hq]; [|by apply Hr].
    apply andb_true_iff in Hq as [_ ->%Z.eqb_eq]. done. }
  exists (rx_set_slot st s (mark_effect mc po)), WIdle. split_and!; try done.
  cbn. by rewrite Hm.
Qed.

(** No worker does anything undefined, and every step keeps the invariant. *)
Lemma worker_step_ok st pc : shared_ok st → worker_ok st pc → worker_step_fine st pc.
Proof.
  intros Hok. destruct pc as [|h p l|s h p l|s h p l|s po buf off bs|s po].
  - intros _. by eapply step_stays with (pc' := WIdle).
  - by apply lookup_step_ok.
  - by apply target_step_ok.
  - by apply fresh_step_ok.
  - by apply copy_step_ok.
  - by apply mark_step_ok.
Qed.

Lemma arrive_ok st d : honest d → worker_ok st (arrive d).
Proof.
  intros Hh. unfold arrive. destruct (parse_datagram d) as [[[h p] l]|] eqn:Hp; [|done].
  destruct (parse_datagram_ranges _ _ _ _ Hp) as (? & ? & ? & ?). cbn.
  split_and!; try done; try lia. intros ? ?. by apply (Hh h p l).
Qed.

Lemma set_worker_ok s i st pc : transfer_ok s → shared_ok st → shared_le (tr_rx s) st →
  worker_ok st pc → transfer_ok (set_worker s i st pc).
Proof.
  intros [_ Hw] Hok Hle Hpc. split; [done|]. cbn. intros j pc'. rewrite list_lookup_insert.
  case_decide; [by intros [= <-]|]. intros Hj. eapply worker_ok_le; [done|]. by eapply Hw.
Qed.

Lemma tr_step_ok net s s' : (∀ d, net d → honest d) → transfer_ok s →
  tr_step net false slot s s' → transfer_ok s'.
Proof.
  intros Hnet Hok Hst. pose proof Hok as [Hsh Hw].
  inversion Hst as [? i d Hi Hd|? i pc st' pc' Hi Hstep|? mc b fb c load st' Hmc Hb Hf Hc Hload Hpoll|];
    subst; [| | |done].
  - apply set_worker_ok; [done|done|reflexivity|by apply arrive_ok, Hnet].
  - destruct (worker_step_ok _ _ Hsh (Hw _ _ Hi)) as (st2 & pc2 & H2 & ? & ? & ?).
    rewrite H2 in Hstep. injection Hstep as <- <-. by apply set_worker_ok.
  - destruct (so_slot _ Hsh) as (mc0 & b0 & fb0 & Hmc0 & Ha & Hg & Hbuf & Hsz & Hprm & Hwt & Ht & Hr).
    assert (mc0 = mc) as -> by congruence.
    assert (b0 = b) as -> by (rewrite (wft_backend _ _ _ Hwt) in Hb; congruence).
    assert (fb0 = fb) as -> by (rewrite (wft_frontend _ _ _ Hwt) in Hf; congruence).
    destruct (poll_chunk_eq (tr_rx s) slot mc b fb c load Hmc Hwt Hc Hload) as (fb' & Hp & Hwt').
    rewrite Hp in Hpoll. injection Hpoll as <-.
    destruct (shared_ok_slot (tr_rx s) slot mc (mc_set_frontend mc fb') Hsh Hmc) as [Hok' Hle];
      [by split_and!| | |].
    + destruct (so_wf _ Hsh _ _ Hmc). by constructor.
    + intros _. exists b, fb'. by split_and!.
    + split; [done|]. intros j pc Hj. eapply worker_ok_le; [done|]. by eapply Hw.
Qed.

Lemma tr_steps_ok net s s' : (∀ d, net d → honest d) → transfer_ok s →
  rtc (tr_step net false slot) s s' → transfer_ok s'.
Proof. intros Hnet Hok Hr. induction Hr; [done|]. eauto using tr_step_ok. Qed.

(** When every packet's bytes are in place, so is the message. *)
Lemma all_packets_message mem m : mem !! id = Some m → length ≤ Z.of_nat (List.length m) →
  (∀ i, 0 ≤ i < total → packet_ok mem i) → take (Z.to_nat length) m = take (Z.to_nat length) data.
Proof.
  intros Hm Hlm Hall. pose proof (sd_length _ _ _ Hsend) as Hl. pose proof (sd_mtu _ _ _ Hsend) as Hmtu.
  apply list_eq. intros k. destruct (decide (k < Z.to_nat length)%nat) as [Hk|Hk].
  2: { rewrite !lookup_ge_None_2; [done|rewrite length_take; lia..]. }
  rewrite !lookup_take_lt by done.
  assert (0 ≤ Z.of_nat k / mtu < total) as Hi.
  { split; [apply Z.div_pos; lia|]. apply (ceil_div_lt length mtu); [lia|lia|apply Z.div_pos; lia|].
    pose proof (Z.mul_div_le (Z.of_nat k) mtu ltac:(lia)). lia. }
  destruct (Hall _ Hi (Z.of_nat k)) as (m0 & Hm0 & Hx).
  { pose proof (Z.mul_div_le (Z.of_nat k) mtu ltac:(lia)).
    pose proof (Z.mul_succ_div_gt (Z.of_nat k) mtu ltac:(lia)). lia. }
  rewrite Nat2Z.id in Hx. congruence.
Qed.

(** ** Receiving in sequence *)

Lemma run_worker_ok fuel : ∀ st pc st', shared_ok st → worker_ok st pc →
  run_worker fuel st pc = Some st' → shared_ok st' .
Proof.
  induction fuel as [|fuel IH]; intros st pc st' Hok Hpc.
  { destruct pc; cbn; try done. by intros [= <-]. }
  destruct (worker_step_ok st pc Hok Hpc) as (st1 & pc1 & Hs & Hok1 & _ & Hpc1).
  destruct pc; [by intros [= <-]|..]; cbn [run_worker]; rewrite Hs; cbn [mbind option_bind];
    by apply IH.
Qed.

Lemma datagram_effect_ok st d : shared_ok st → honest d → shared_ok (datagram_effect st d).
Proof.
  intros Hok Hh. destruct (handle_datagram_eq st d (so_wf _ Hok)) as [He _].
  pose proof (arrive_ok st d Hh) as Hpc. unfold arrive, datagram_effect in *.
  destruct (parse_datagram d) as [[[h p] l]|] eqn:Hp; [|done].
  destruct (parse_datagram_ranges _ _ _ _ Hp) as (? & ? & ? & ?).
  destruct (process_packet_eq st h p l (so_wf _ Hok)) as [Hpp _]; [done..|].
  eapply run_worker_ok; [exact Hok|exact Hpc|]. by apply run_worker_process, Hpp.
Qed.

Lemma receiver_loop_shared_ok ds : ∀ st st', shared_ok st → Forall honest ds →
  receiver_loop st (RxDatagram <$> ds) = Some st' → shared_ok st'.
Proof.
  induction ds as [|d ds IH]; intros st st' Hok Hh; [by intros [= <-]|].
  inversion Hh as [|? ? Hd Hds]; subst. cbn.
  destruct (handle_datagram_eq st d (so_wf _ Hok)) as [-> _]. cbn.
  apply IH; [|done]. by apply datagram_effect_ok.
Qed.

(** The sender's own datagrams. *)
Lemma built_parse i : 0 ≤ i < total →
  let p := built_packet params slot data length i in
  parse_datagram (packet_datagram p) =
    Some (pkt_header p, packet_bytes data length mtu i, Z.of_nat (List.length (pkt_payload p))) ∧
  h_msg_id (pkt_header p) = slot ∧ h_transfer_id (pkt_header p) = prm_transfer_id params ∧
  h_packet_offset (pkt_header p) = i ∧ pkt_payload p = packet_bytes data length mtu i ∧
  0 < Z.of_nat (List.length (pkt_payload p)).
Proof.
  intros Hi p. destruct (built_packet_ok params slot data length i Hsend Hslot Hi)
    as (Hwf & Hv & Ht & Hm & Ho & _ & Hpay & Hlen & Hl). fold p in Hwf, Hv, Ht, Hm, Ho, Hpay, Hlen, Hl.
  rewrite Z.mod_small in Ho by lia. split; [|split_and!; first [done|lia]].
  rewrite parse_packet_datagram by (done || lia). rewrite Hlen, Z.min_id. by rewrite <-Hpay.
Qed.

Lemma built_honest i : 0 ≤ i < total → honest (packet_datagram (built_packet params slot data length i)).
Proof.
  intros Hi h payload len. destruct (built_parse i Hi) as (-> & _ & _ & Ho & Hpay & _).
  set (q := built_packet _ _ _ _ _) in *. clearbody q.
  intros [= <- <- <-] _ _. exists i. split_and!; [lia|lia|done|done|by rewrite Hpay].
Qed.

(** A delivered packet has its bit. *)
Lemma delivered_bit st i mc : shared_ok st → 0 ≤ i < total →
  cx_msg_table (rx_cx (datagram_effect st
    (packet_datagram (built_packet params slot data length i)))) !! slot = Some mc →
  has_packet mc i = true.
Proof.
  intros Hok Hi. destruct (built_parse i Hi) as (Hp & Hm & Ht & Ho & _).
  unfold datagram_effect. rewrite Hp. unfold packet_effect. rewrite find_target_eq, Hm.
  rewrite (proj2 (Z.ltb_lt _ MAX_MESSAGES)) by (unfold MAX_MESSAGES; lia).
  destruct (so_slot _ Hok) as (mc0 & b & fb & Hmc0 & Ha & Hg & _ & _ & _ & Hwt & Htot & _).
  rewrite Hmc0. assert (accepts mc0 (pkt_header (built_packet params slot data length i)) = true) as ->.
  { unfold accepts. rewrite Hg, Ht, Z.eqb_refl, Ha. done. }
  rewrite Hmc0, Ho. destruct (has_packet mc0 i) eqn:Hh; [by rewrite Hmc0; intros [= <-]|].
  cbn. rewrite lookup_insert_eq. intros [= <-].
  rewrite (mark_effect_has (rx_mem st)) by (lia || by eapply (so_wf _ Hok)).
  rewrite (wft_backend _ _ _ Hwt), Htot, (proj2 (Z.ltb_lt _ _)), Z.eqb_refl by lia. done.
Qed.

Lemma delivered_bits ds : ∀ st st' i mc, shared_ok st → Forall honest ds →
  receiver_loop st (RxDatagram <$> ds) = Some st' → 0 ≤ i < total →
  packet_datagram (built_packet params slot data length i) ∈ ds →
  cx_msg_table (rx_cx st') !! slot = Some mc → has_packet mc i = true.
Proof.
  induction ds as [|d ds IH]; intros st st' i mc Hok Hh Hl Hi Hin Hmc; [by apply not_elem_of_nil in Hin|].
  inversion Hh as [|? ? Hd Hds]; subst. cbn in Hl.
  destruct (handle_datagram_eq st d (so_wf _ Hok)) as [He Hwf1]. rewrite He in Hl. cbn in Hl.
  pose proof (datagram_effect_ok st d Hok Hd) as Hok1.
  apply elem_of_cons in Hin as [<-|Hin]; [|by eapply IH].
  destruct (receiver_loop_keeps _ _ _ Hwf1 Hl) as [_ Hb].
  destruct (Hb _ _ Hmc) as (mc1 & Hmc1 & _ & Hq). apply Hq. exact (delivered_bit st i mc1 Hok Hi Hmc1).
Qed.
End Transfer.

(** A state in which a transfer has just been armed. *)
Record ready (params : ConnectionParams) (slot id length : Z) (st : RxState) : Prop := {
  rd_wf : wf_rx st;
  rd_slot : ∃ mc b fb, cx_msg_table (rx_cx st) !! slot = Some mc ∧ mc_state mc = ACTIVE ∧
    mc_generation mc = prm_transfer_id params ∧ mc_buffer mc = BufUser id ∧
    mc_buffer_size mc = length ∧ mc_params mc = params ∧ wf_transfer mc b fb ∧
    bb_total_packets b = total_packets_of params length ∧ ∀ q, received b q = false;
  rd_private : ∀ s mc, s ≠ slot → cx_msg_table (rx_cx st) !! s = Some mc →
    mc_buffer mc ≠ BufUser id
}.

Lemma ready_shared_ok params slot id length data st : ready params slot id length st →
  shared_ok params slot id length data st.
Proof.
  intros [Hwf (mc & b & fb & ? & ? & ? & ? & ? & ? & ? & ? & Hr) Hp]. constructor; try done.
  exists mc, b, fb. split_and!; try done. intros q. by rewrite Hr.
Qed.

(** A worker that finds the context completed under its hands. *)
Lemma race_extent params slot length data st st' mc h bytes len i : sendable params data length →
  0 ≤ len < 65536 → 0 < len → bytes = packet_bytes data length (prm_mtu_bytes params) i →
  len ≤ Z.of_nat (List.length bytes) →
  0 < i < total_packets_of params length → total_packets_of params length ≤ 262144 →
  h_packet_offset h = i → wf_slot (rx_mem st) mc → mc_params mc = params →
  mc_buffer_size mc = length →
  cx_msg_table (rx_cx st') !! slot = Some (mc_set_state mc DEAD BufNullSink) →
  ∃ off x bs, worker_step st' (WFresh slot h bytes len) =
      Some (st', WCopy slot i BufNullSink off (x :: bs)) ∧ 1 ≤ off.
Proof.
  intros Hsend Hlen Hlpos Hb Hll Hi Hfits Ho Hwf Hprm Hsz Hmc.
  pose proof (sd_mtu _ _ _ Hsend) as Hmtu. pose proof (sd_length _ _ _ Hsend) as Hl.
  assert (i * prm_mtu_bytes params < length) as Hlt
    by (apply (ceil_div_lt length (prm_mtu_bytes params) i); [lia..|apply Hi]).
  set (mc' := mc_set_state mc DEAD BufNullSink).
  assert (wf_slot (rx_mem st) mc') as Hwf' by (destruct Hwf; by constructor).
  assert (eff_mtu mc' = prm_mtu_bytes params) as Hm
    by (apply (eff_mtu_params params length data Hsend mc'); done).
  set (off := i * prm_mtu_bytes params) in *. set (l := Z.min len (length - off)).
  assert (write_extent mc' i len = Some (off, l)) as He.
  { rewrite (write_extent_eq (rx_mem st)) by (done || lia). rewrite Hm.
    change (mc_buffer_size mc') with (mc_buffer_size mc). rewrite Hsz. fold off.
    rewrite bool_decide_false by done. cbn [orb]. by rewrite (proj2 (Z.leb_gt _ _)) by lia. }
  assert (0 < l) as Hlp by (subst l; lia).
  destruct (take (Z.to_nat l) bytes) as [|x bs] eqn:Ht.
  { apply (f_equal List.length) in Ht. rewrite length_take in Ht. cbn in Ht. lia. }
  exists off, x, bs. split; [|subst off; nia].
  cbn [worker_step]. rewrite Hmc. cbn [mbind option_bind]. rewrite Ho. fold mc'. rewrite He.
  cbn [mbind option_bind]. unfold mem_read.
  rewrite (proj2 (Z.leb_le 0 l)), (proj2 (Z.leb_le (0 + l) _)) by lia. cbn [andb Z.leb].
  change (Z.to_nat 0) with 0%nat. rewrite drop_0, Ht. done.
Qed.

(** A worker alone, from the arrival of a datagram. *)
Lemma run_worker_arrive st d fuel : wf_rx st → 65536 ≤ Z.of_nat fuel →
  run_worker fuel st (arrive d) = handle_datagram st d.
Proof.
  intros Hwf Hf. destruct (handle_datagram_eq st d Hwf) as [-> _]. unfold arrive, datagram_effect.
  destruct (parse_datagram d) as [[[h p] l]|] eqn:Hp; [|apply run_worker_idle].
  destruct (parse_datagram_ranges _ _ _ _ Hp) as (? & ? & ? & ?).
  apply run_worker_process; [|by apply process_packet_eq].
  apply parse_datagram_payload in Hp. lia.
Qed.

(** ** Sequential runs are runs of the system *)

Lemma run_worker_steps net completes slot fuel : ∀ st pc st', run_worker fuel st pc = Some st' →
  rtc (tr_step net completes slot) (mkTransfer st [pc]) (mkTransfer st' [WIdle]).
Proof.
  induction fuel as [|fuel IH]; intros st pc st'.
  { destruct pc; cbn; try done. by intros [= <-]. }
  assert (pc = WIdle ∨ run_worker (S fuel) st pc = '(st, pc) ← worker_step st pc; run_worker fuel st pc)
    as [->| ->] by (destruct pc; auto); [by intros [= <-]|].
  destruct (worker_step st pc) as [[st1 pc1]|] eqn:Hs; [|done]. cbn [mbind option_bind]. intros Hr.
  eapply rtc_l; [eapply (StepWorker net completes slot _ 0); [done|exact Hs]|]. by apply IH.
Qed.

Lemma sequential_steps net completes slot ds : ∀ st st', wf_rx st → Forall net ds →
  receiver_loop st (RxDatagram <$> ds) = Some st' →
  rtc (tr_step net completes slot) (mkTransfer st [WIdle]) (mkTransfer st' [WIdle]).
Proof.
  induction ds as [|d ds IH]; intros st st' Hwf Hn; [by intros [= <-]|].
  inversion Hn as [|? ? Hd Hds]; subst. cbn.
  destruct (handle_datagram_eq st d Hwf) as [He Hwf1]. rewrite He. cbn. intros Hl.
  eapply rtc_l; [by apply (StepArrive net completes slot _ 0 d)|].
  etrans; [|by apply IH]. apply (run_worker_steps _ _ _ (Z.to_nat 65536)).
  rewrite <-He. apply run_worker_arrive; [done|lia].
Qed.

Lemma stale_load_self b :
  forallb (λ w, (0 <=? w) && (w <? 18446744073709551616)) (bb_words b) = true →
  stale_load b (atomic_load (bb_words b)).
Proof.
  intros Hwf w cur Hc. exists cur. split; [done|]. split; [|by intros i].
  rewrite forallb_elem in Hwf. unfold atomic_load in Hc.
  apply list_elem_of_lookup_2, Hwf in Hc. apply andb_true_iff in Hc as [?%Z.leb_le ?%Z.ltb_lt].
  by split.
Qed.

(** ** An example transfer: 12 bytes in 3 packets and 2 chunks *)

Definition armed_state (slot length packets chunks : Z) : RxState :=
  mkRx (cx_with_table new_connection_context
    {[slot := posted_context slot 1 (BufUser 0) length packets chunks example_cts_params]})
    {[0 := replicate (Z.to_nat length) 0]}.

Definition example_armed (slot : Z) : RxState := armed_state slot 12 3 2.

Definition example_transfer : RxState := example_armed 3.

Lemma armed_ready slot length packets chunks : receivable length →
  calculate_bitmap_sizes length (prm_mtu_bytes example_cts_params)
    (prm_packets_per_chunk example_cts_params) = (packets, chunks) →
  ready example_cts_params slot 0 length (armed_state slot length packets chunks).
Proof.
  intros Hr Hsizes. set (posted := posted_context slot 1 (BufUser 0) length packets chunks example_cts_params).
  assert (cx_msg_table (rx_cx (armed_state slot length packets chunks)) !! slot = Some posted) as Hslot
    by apply lookup_singleton_eq.
  assert (∀ s mc, cx_msg_table (rx_cx (armed_state slot length packets chunks)) !! s = Some mc →
    s = slot ∧ mc = posted) as Hone.
  { intros s mc. change (cx_msg_table _) with ({[slot := posted]} : gmap Z MessageContext).
    by intros [<- <-]%lookup_singleton_Some. }
  constructor.
  - eapply (posted_wf_rx new_connection_context _ _ slot 1 0 (replicate (Z.to_nat length) 0) length
      example_cts_params); [apply new_connection_wf_rx|apply lookup_singleton_eq|exact Hr
      |rewrite length_replicate; unfold receivable in Hr; lia|split; reflexivity|split; reflexivity
      |by rewrite Hsizes].
  - destruct (posted_context_wf slot 1 (BufUser 0) length example_cts_params Hr)
      as (b & fb & Hwt & _ & Hb & _ & Ht & _); [split; reflexivity..|]. rewrite Hsizes in Hwt.
    exists posted, b, fb. split_and!; try exact Hslot; try reflexivity; [exact Hwt|exact Ht|exact Hb].
  - intros s mc Hs Hmc. by destruct (Hone s mc Hmc).
Qed.

Lemma example_armed_ready slot : ready example_cts_params slot 0 12 (example_armed slot).
Proof. by apply armed_ready. Qed.

Lemma example_ready : ready example_cts_params 3 0 12 example_transfer.
Proof. apply example_armed_ready. Qed.

Definition example_data : list Z := zrange 0 12.

Definition example_net (d : list Z) : Prop :=
  ∃ i, 0 ≤ i < 3 ∧ d = packet_datagram (built_packet example_cts_params 3 example_data 12 i).

Lemma example_net_honest d : example_net d → honest example_cts_params 3 12 example_data d.
Proof.
  intros (i & Hi & ->). apply built_honest; [apply example_sendable; reflexivity|lia|..].
  - change (total_packets_of example_cts_params 12) with 3. lia.
  - exact Hi.
Qed.

(** The packets out of order, one twice. *)
Definition example_arrivals : list (list Z) :=
  (λ i, packet_datagram (built_packet example_cts_params 3 example_data 12 i)) <$> [2; 0; 2; 1].

Definition example_context (st : RxState) : MessageContext :=
  default new_context (cx_msg_table (rx_cx st) !! 3).

Definition example_backend_of (st : RxState) : BackendBitmap :=
  default (make_backend 0 1) (mc_backend (example_context st)).

Definition example_frontend_of (st : RxState) : FrontendBitmap :=
  default (make_frontend (None : option BackendBitmap) 0) (mc_frontend (example_context st)).

Definition example_poll (st : RxState) (c : Z) : RxState :=
  default st (poll_chunk st 3 c (atomic_load (bb_words (example_backend_of st)))).

Lemma example_poll_step net st c ws :
  cx_msg_table (rx_cx st) !! 3 = Some (example_context st) →
  mc_backend (example_context st) = Some (example_backend_of st) →
  mc_frontend (example_context st) = Some (example_frontend_of st) →
  (0 <=? c) && (c <? fb_total_chunks (example_frontend_of st)) = true →
  forallb (λ w, (0 <=? w) && (w <? 18446744073709551616)) (bb_words (example_backend_of st)) = true →
  is_Some (poll_chunk st 3 c (atomic_load (bb_words (example_backend_of st)))) →
  tr_step net false 3 (mkTransfer st ws) (mkTransfer (example_poll st c) ws).
Proof.
  intros H1 H2 H3 [?%Z.leb_le ?%Z.ltb_lt]%andb_true_iff H5 [st' H6]. unfold example_poll.
  rewrite H6. eapply (StepPoll net false 3 (mkTransfer st ws)); [done|done|done|done| |done].
  by apply stale_load_self.
Qed.

Definition example_delivered : RxState :=
  default example_transfer (receiver_loop example_transfer (RxDatagram <$> example_arrivals)).

(** The transfer after the four arrivals and a look at each chunk. *)
Definition example_final : TransferState :=
  mkTransfer (example_poll (example_poll example_delivered 0) 1) [WIdle].

Lemma example_fits : total_packets_of example_cts_params 12 ≤ 262144.
Proof. change (total_packets_of example_cts_params 12) with 3. lia. Qed.

Lemma example_steps :
  rtc (tr_step example_net false 3) (mkTransfer example_transfer [WIdle])
    example_final.
Proof.
  etrans.
  - apply (sequential_steps _ _ _ example_arrivals _ example_delivered);
      [apply example_ready| |vm_compute; reflexivity].
    repeat constructor; (eexists; split; [|reflexivity]; lia).
  - apply (rtc_l _ _ (mkTransfer (example_poll example_delivered 0) [WIdle]));
      [apply example_poll_step; vm_compute; eauto|].
    apply rtc_once. apply example_poll_step; vm_compute; eauto.
Qed.

Lemma example_final_complete :
  cx_msg_table (rx_cx (tr_rx example_final)) !! 3 = Some (example_context (tr_rx example_final)) ∧
  mc_frontend (example_context (tr_rx example_final)) = Some (example_frontend_of (tr_rx example_final)) ∧
  get_total_chunks_completed (example_frontend_of (tr_rx example_final)) = Some 2 ∧
  fb_total_chunks (example_frontend_of (tr_rx example_final)) ≤ 2.
Proof. split_and!; vm_compute; congruence. Qed.

(** When all chunks are counted, the message is in place. *)
Lemma counted_message params slot id length data st mc fb k : sendable params data length →
  shared_ok params slot id length data st → cx_msg_table (rx_cx st) !! slot = Some mc →
  mc_frontend mc = Some fb → get_total_chunks_completed fb = Some k → fb_total_chunks fb ≤ k →
  ∃ m, rx_mem st !! id = Some m ∧ length ≤ Z.of_nat (List.length m) ∧
    take (Z.to_nat length) m = take (Z.to_nat length) data.
Proof.
  intros Hsend Hok Hmc Hf Hk Hle.
  destruct (so_slot _ _ _ _ _ _ Hok) as (mc0 & b & fb0 & Hmc0 & _ & _ & Hbuf & Hsz & _ & Hwt & Ht & Hb).
  assert (mc0 = mc) as -> by congruence.
  assert (fb0 = fb) as -> by (rewrite (wft_frontend _ _ _ Hwt) in Hf; congruence).
  destruct (wfs_user _ _ (so_wf _ _ _ _ _ _ Hok _ _ Hmc) id Hbuf) as (m & Hm & Hlm).
  exists m. rewrite Hsz in Hlm. split; [done|]. split; [done|].
  eapply (all_packets_message params id length data Hsend); [done..|].
  intros i Hi. apply Hb.
  destruct (completed_count_all fb (wft_fb _ _ _ Hwt)) as (k' & Hk' & _ & Hall).
  assert (k' = k) as -> by congruence.
  apply (all_marked_all_received b fb (wft_b _ _ _ Hwt) (proj2 (wft_chunks _ _ _ Hwt))
    (wft_sound _ _ _ Hwt)); [by apply Hall|lia].
Qed.

(** The slot with its chunk bitmap polled. *)
Lemma shared_ok_polled params slot id length data st mc b fb' : sendable params data length →
  shared_ok params slot id length data st → cx_msg_table (rx_cx st) !! slot = Some mc →
  mc_backend mc = Some b → wf_transfer (mc_set_frontend mc fb') b fb' →
  shared_ok params slot id length data (rx_set_slot st slot (mc_set_frontend mc fb')).
Proof.
  intros Hsend Hok Hmc Hb Hwt.
  eapply (shared_ok_slot params slot id length data st slot mc); [done..| | |].
  - by split_and!.
  - destruct (so_wf _ _ _ _ _ _ Hok _ _ Hmc). by constructor.
  - intros _. destruct (so_slot _ _ _ _ _ _ Hok) as (mc0 & b0 & fb0 & Hmc0 & _ & _ & _ & _ & _ & Hwt0 & Ht0 & Hr).
    assert (mc0 = mc) as -> by congruence.
    assert (b0 = b) as -> by (pose proof (wft_backend _ _ _ Hwt0); congruence).
    exists b, fb'. by split_and!.
Qed.

(** Every packet among honest datagrams: the next poll marks every chunk, and the
    message is in place. *)
Lemma all_delivered params slot id length data st ds :
  sendable params data length → 0 ≤ slot < 1024 → total_packets_of params length ≤ 262144 →
  shared_ok params slot id length data st → Forall (honest params slot length data) ds →
  (∀ i, 0 ≤ i < total_packets_of params length →
     packet_datagram (built_packet params slot data length i) ∈ ds) →
  ∃ st' mc b fb fb' m, receiver_loop st (RxDatagram <$> ds) = Some st' ∧
    shared_ok params slot id length data st' ∧
    cx_msg_table (rx_cx st') !! slot = Some mc ∧ mc_backend mc = Some b ∧
    mc_frontend mc = Some fb ∧ poll_once (Some b) fb = Some fb' ∧
    wf_transfer (mc_set_frontend mc fb') b fb' ∧ fb_total_chunks fb' = fb_total_chunks fb ∧
    (∀ c, 0 ≤ c < fb_total_chunks fb' → marked fb' c = true) ∧
    rx_mem st' !! id = Some m ∧ take (Z.to_nat length) m = take (Z.to_nat length) data.
Proof.
  intros Hsend Hslot Hfits Hok0 Hh Hall.
  destruct (receiver_loop_ok (RxDatagram <$> ds) st (so_wf _ _ _ _ _ _ Hok0)) as (st' & Hl & Hwf' & _).
  pose proof (receiver_loop_shared_ok params slot id length data Hsend Hfits ds st st' Hok0 Hh Hl) as Hok.
  pose proof Hok as [_ (mc & b & fb & Hmc & _ & _ & Hbuf & Hsz & _ & Hwt & Ht & Hb) _].
  assert (∀ i, 0 ≤ i < bb_total_packets b → received b i = true) as Hrec.
  { intros i Hi. rewrite Ht in Hi.
    pose proof (delivered_bits params slot id length data Hsend Hslot Hfits ds st st' i mc Hok0 Hh Hl
      Hi (Hall i Hi) Hmc) as Hbit. unfold has_packet in Hbit. by rewrite (wft_backend _ _ _ Hwt) in Hbit. }
  destruct Hwt as [Hbk Hf Hwb Hwfb Hpk [Hc0 Hc] Hs].
  destruct (update_chunk_bitmap_sound b fb) as (fb' & Hp & Hwfb' & [Hc' _ _] & Hs' & Hm); [done..| |done|].
  { intros c Hcr. apply num_chunks_range; [done|lia|lia]. }
  destruct (wfs_user _ _ (Hwf' _ _ Hmc) id Hbuf) as (m & Hm' & Hlm). rewrite Hsz in Hlm.
  exists st', mc, b, fb, fb', m. split_and!; try done.
  - constructor; try done; cbn; lia.
  - intros c Hcr. rewrite Hm by lia. apply (all_chunks_all_packets b Hwb); [done|lia].
  - eapply (all_packets_message params id length data Hsend); [done..|].
    intros i Hi. apply Hb, Hrec. by rewrite Ht.
Qed.

(** In a transfer in order no thread is about to do anything undefined. *)
Lemma transfer_defined params slot id length data s : sendable params data length →
  total_packets_of params length ≤ 262144 →
  transfer_ok params slot id length data s → ¬ undefined slot s.
Proof.
  intros Hsend Hfits [Hok Hw] [(i & pc & Hi & Hnone)|Hu].
  2: { destruct (so_slot _ _ _ _ _ _ Hok) as (mc & b & fb & Hmc & _ & _ & _ & _ & _ & Hwt & _).
       by apply (poller_defined slot s mc b fb Hmc Hwt). }
  destruct (worker_step_ok params slot id length data Hsend Hfits _ _ Hok (Hw _ _ Hi)) as (? & ? & H & _).
  congruence.
Qed.

(** ** Properties *)

(** C3: The transfer is correct under concurrency: however the workers' steps
    (lookups, duplicate tests, single bytes of copies, bit sets), the poller's
    looks with stale loads and a network that loses, repeats, reorders and adds
    datagrams interleave, neither a worker nor the poller ever does anything
    undefined, and whenever the frontend counts all chunks complete the user's buffer holds exactly the
    message that was sent - provided nobody forges packets of this generation
    and the message has at most 2^18 packets. *)
Theorem concurrent_transfer_correct params slot id length data st n net s :
  sendable params data length → 0 ≤ slot < 1024 → total_packets_of params length ≤ 262144 →
  ready params slot id length st → (∀ d, net d → honest params slot length data d) →
  rtc (tr_step net false slot) (mkTransfer st (replicate n WIdle)) s →
  ¬ undefined slot s ∧
  ∀ mc fb k, cx_msg_table (rx_cx (tr_rx s)) !! slot = Some mc → mc_frontend mc = Some fb →
    get_total_chunks_completed fb = Some k → fb_total_chunks fb ≤ k →
    ∃ m, rx_mem (tr_rx s) !! id = Some m ∧ take (Z.to_nat length) m = take (Z.to_nat length) data.
Proof.
  intros Hsend Hslot Hfits Hready Hnet Hr.
  assert (transfer_ok params slot id length data s) as [Hok Hw].
  { eapply tr_steps_ok; [done..| |done]. split; [by apply ready_shared_ok|].
    intros i pc [-> _]%lookup_replicate. done. }
  split; [by eapply transfer_defined|].
  intros mc fb k Hmc Hf Hk Hle.
  destruct (counted_message params slot id length data (tr_rx s) mc fb k Hsend Hok Hmc Hf Hk Hle)
    as (m & Hm & _ & Htake). by exists m.
Qed.

Lemma concurrent_transfer_correct_witness :
  rtc (tr_step example_net false 3) (mkTransfer example_transfer [WIdle]) example_final ∧
  ∃ m, rx_mem (tr_rx example_final) !! 0 = Some m ∧
    take (Z.to_nat 12) m = take (Z.to_nat 12) example_data.
Proof.
  split; [exact example_steps|].
  destruct (concurrent_transfer_correct example_cts_params 3 0 12 example_data example_transfer 1
    example_net _ (example_sendable example_data eq_refl) ltac:(lia) example_fits example_ready
    example_net_honest example_steps) as [_ Hm].
  destruct example_final_complete as (H1 & H2 & H3 & H4).
  exact (Hm (example_context (tr_rx example_final)) (example_frontend_of (tr_rx example_final)) 2 H1 H2 H3 H4).
Defined.

(** C4: Delivery completes: if, among any datagrams that are not forgeries, each
    packet of the message arrives at least once - in any order, with any
    repetitions - the receiver stores the whole message, and the next poll
    counts every chunk complete. *)
Theorem delivery_completes params slot id length data st ds :
  sendable params data length → 0 ≤ slot < 1024 → total_packets_of params length ≤ 262144 →
  ready params slot id length st → Forall (honest params slot length data) ds →
  (∀ i, 0 ≤ i < total_packets_of params length →
     packet_datagram (built_packet params slot data length i) ∈ ds) →
  ∃ st' mc b fb fb' m, receiver_loop st (RxDatagram <$> ds) = Some st' ∧
    cx_msg_table (rx_cx st') !! slot = Some mc ∧ mc_backend mc = Some b ∧
    mc_frontend mc = Some fb ∧ poll_once (Some b) fb = Some fb' ∧
    get_total_chunks_completed fb' = Some (fb_total_chunks fb) ∧
    rx_mem st' !! id = Some m ∧ take (Z.to_nat length) m = take (Z.to_nat length) data.
Proof.
  intros Hsend Hslot Hfits Hready Hh Hall.
  destruct (all_delivered params slot id length data st ds)
    as (st' & mc & b & fb & fb' & m & Hl & _ & Hmc & Hb & Hf & Hp & Hwt & Ht & Hm & Hmem & Htake);
    [done..|by apply ready_shared_ok|done|done|].
  exists st', mc, b, fb, fb', m. split_and!; try done.
  destruct (completed_count_all fb' (wft_fb _ _ _ Hwt)) as (k & -> & Hk & Hkall). f_equal.
  enough (fb_total_chunks fb' ≤ k) by lia. by apply Hkall.
Qed.

Lemma delivery_completes_witness :
  ∃ st' m, receiver_loop example_transfer (RxDatagram <$> example_arrivals) = Some st' ∧
    rx_mem st' !! 0 = Some m ∧ take 12 m = example_data.
Proof.
  assert (Forall (honest example_cts_params 3 12 example_data) example_arrivals) as Hh.
  { apply Forall_fmap, Forall_forall. intros i Hi. apply example_net_honest. exists i.
    split; [|reflexivity]. repeat (apply elem_of_cons in Hi as [->|Hi]; [lia|]). by apply not_elem_of_nil in Hi. }
  destruct (delivery_completes example_cts_params 3 0 12 example_data example_transfer
    example_arrivals (example_sendable example_data eq_refl) ltac:(lia)
    ltac:(change (total_packets_of example_cts_params 12) with 3; lia) example_ready Hh)
    as (st' & mc & b & fb & fb' & m & Hl & _ & _ & _ & _ & _ & Hm & Hd).
  - intros i Hi. change (total_packets_of example_cts_params 12) with 3 in Hi.
    unfold example_arrivals. apply list_elem_of_fmap. exists i. split; [reflexivity|].
    assert (i = 0 ∨ i = 1 ∨ i = 2) as [->|[->| ->]] by lia; set_solver.
  - exists st', m. split; [exact Hl|]. split; [exact Hm|exact Hd].
Defined.

(** C33: The steps implement the handler: a worker that runs without interference
    from the arrival of a datagram until it waits again does exactly what
    [handle_datagram] does, byte by byte copies included. *)
Theorem worker_refines_handler st d fuel : wf_rx st → 65536 ≤ Z.of_nat fuel →
  run_worker fuel st (arrive d) = handle_datagram st d.
Proof. apply run_worker_arrive. Qed.

Lemma worker_refines_handler_witness :
  run_worker (Z.to_nat 65536) example_rx (arrive (packet_datagram (example_rx_packet 2 [1; 2; 3]))) =
  handle_datagram example_rx (packet_datagram (example_rx_packet 2 [1; 2; 3])).
Proof. apply worker_refines_handler; [apply example_rx_wf|lia]. Defined.

(** C34: The null sink does not protect: when the main thread completes the message
    after a worker's state test and before its copy, the worker goes on with
    the old [buffer_size] and the one-byte null sink, so for every packet but
    the first one it writes outside the sink - undefined behaviour reachable
    from every armed transfer with a single packet of the sender's own. *)
Theorem completion_race_out_of_bounds params slot id length data st i :
  sendable params data length → 0 ≤ slot < 1024 → total_packets_of params length ≤ 262144 →
  ready params slot id length st → List.length (cx_null_sink (rx_cx st)) = 1%nat →
  0 < i < total_packets_of params length →
  ∃ s, rtc (tr_step (λ d, d = packet_datagram (built_packet params slot data length i)) true slot)
         (mkTransfer st [WIdle]) s ∧ worker_undefined s.
Proof.
  intros Hsend Hslot Hfits Hready Hsink Hi.
  pose proof (ready_shared_ok params slot id length data st Hready) as Hok.
  destruct (built_parse params slot length data Hsend Hslot Hfits i ltac:(lia))
    as (Hp & Hm & Ht & Ho & Hpay & Hpos). set (h := pkt_header _) in *.
  set (len := Z.of_nat _) in *. set (bytes := packet_bytes _ _ _ _) in *.
  pose proof (arrive_ok params slot id length data st _
    (built_honest params slot length data Hsend Hslot Hfits i ltac:(lia))) as Hpc.
  unfold arrive in Hpc. rewrite Hp in Hpc. destruct Hpc as (_ & Hpo & Hlr & Hll & _).
  destruct (rd_slot _ _ _ _ _ Hready) as (mc & b & fb & Hmc & Ha & Hg & Hbuf & Hsz & Hprm & Hwt & Htot & Hr).
  pose proof (rd_wf _ _ _ _ _ Hready _ _ Hmc) as Hwfs.
  set (net := λ d, d = packet_datagram (built_packet params slot data length i)).
  set (mc' := mc_set_state mc DEAD BufNullSink).
  set (st' := mkRx (complete_message (rx_cx st) slot) (rx_mem st)).
  assert (st' = mkRx (cx_with_table (rx_cx st) (<[slot := mc']> (cx_msg_table (rx_cx st)))) (rx_mem st)) as Hst'.
  { unfold st', complete_message. rewrite Z.geb_leb, (proj2 (Z.leb_gt _ _)), Hmc
      by (unfold MAX_MESSAGES; lia). done. }
  destruct (race_extent params slot length data st st' mc h bytes len i) as (off & x & bs & Hw & Hoff); try done.
  { rewrite Hst'. apply lookup_insert_eq. }
  exists (mkTransfer st' [WCopy slot i BufNullSink off (x :: bs)]). split.
  - eapply rtc_l; [apply (StepArrive net true slot _ 0 (packet_datagram (built_packet params slot data length i)));
      [done|reflexivity]|].
    unfold set_worker, arrive. rewrite Hp. cbn [tr_rx tr_workers list_insert].
    eapply rtc_l; [eapply (StepWorker net true slot _ 0 _ st (WTarget slot h bytes len)); [done|]|].
    { cbn. rewrite find_target_eq, Hm, (proj2 (Z.ltb_lt _ _)), Hmc by (unfold MAX_MESSAGES; lia).
      assert (accepts mc h = true) as -> by (unfold accepts; by rewrite Hg, Ht, Z.eqb_refl, Ha).
      done. }
    eapply rtc_l; [eapply (StepWorker net true slot _ 0 _ st (WFresh slot h bytes len)); [done|]|].
    { cbn. rewrite (is_duplicate_eq (rx_mem st) _ _ mc) by (done || lia). cbn.
      unfold has_packet. by rewrite (wft_backend _ _ _ Hwt), Hr. }
    eapply rtc_l; [by apply (StepComplete net true slot)|]. fold st'.
    eapply rtc_l; [eapply (StepWorker net true slot _ 0); [done|exact Hw]|]. reflexivity.
  - exists 0%nat. eexists. split; [reflexivity|]. cbn [tr_rx worker_step store_bytes].
    rewrite Hst'. cbn [rx_cx cx_with_table cx_null_sink]. unfold mem_write. rewrite Hsink.
    cbn [List.length]. by rewrite (proj2 (Z.leb_gt (off + _) _)), andb_false_r by lia.
Qed.

Lemma completion_race_out_of_bounds_witness :
  ∃ s, rtc (tr_step (λ d, d = packet_datagram (built_packet example_cts_params 3 example_data 12 2))
      true 3) (mkTransfer example_transfer [WIdle]) s ∧ worker_undefined s.
Proof.
  apply (completion_race_out_of_bounds example_cts_params 3 0 12 example_data example_transfer 2
    (example_sendable example_data eq_refl)); [lia| |apply example_ready|reflexivity|];
    change (total_packets_of example_cts_params 12) with 3; lia.
Defined.

(** A posted receive starts such a transfer: when [sdr_recv_post] has armed its
    slot and the slot's counter is in step with the process's, the state is one
    the transfer theorems start from, and the parameters of the CTS are ones
    with which the sender can send any buffer of that length: receive, send and
    delivery compose. *)
Theorem posted_receive_ready pad uninit env ps c id m mem length offer ps' c' h :
  wf_params (cx_params (cn_connection_ctx c)) → wf_params (cm_params offer) →
  nth 15 (prm_udp_server_ip (cx_params (cn_connection_ctx c))) 1 = 0 →
  0 ≤ ps_receiver_generation_counter ps < 4294967296 →
  wf_rx (mkRx (cn_connection_ctx c) mem) → mem !! id = Some m →
  receivable length → length ≤ Z.of_nat (List.length m) →
  (∀ s mc, cx_msg_table (cn_connection_ctx c) !! s = Some mc → mc_buffer mc ≠ BufUser id) →
  recv_post_setup pad uninit env ps c (BufUser id) length offer = (None, ps', c', Some h) →
  cx_generation_counters (cn_connection_ctx c) !!! Z.to_nat (rh_msg_id h) =
    ps_receiver_generation_counter ps →
  let params := cts_params ps c offer length in
  ready params (rh_msg_id h) id length (mkRx (cn_connection_ctx c') mem) ∧
  0 ≤ rh_msg_id h < 1024 ∧
  ∀ data, length ≤ Z.of_nat (List.length data) → sendable params data length.
Proof.
  intros Hp Ho Hnul Hg Hwf Hm Hl Hlm Hpriv Hsetup Hstep params.
  apply recv_post_setup_armed in Hsetup as ([[Hid _] _ _ Ht] & _ & _).
  destruct (cts_params_sizes ps c offer length Hp Ho Hl) as [Hmtu Hppc]. fold params in Ht, Hmtu, Hppc.
  assert (wf_params params) as Hwp by (by apply cts_params_wf).
  assert (prm_transfer_id params = ps_receiver_generation_counter ps) as Htid by done.
  assert (0 < prm_mtu_bytes params < 4294967296) as Hmtu'
    by (unfold MAX_PAYLOAD_SIZE, sizeof_SDRPacketHeader in Hmtu; lia).
  rewrite Hstep in Ht. clearbody params. split; [|split].
  - destruct (posted_context_wf (rh_msg_id h) (ps_receiver_generation_counter ps) (BufUser id)
      length params Hl Hmtu' Hppc) as (b & fb & Hwt & _ & Hr & _ & Htp & _).
    constructor.
    + eapply (posted_wf_rx (cn_connection_ctx c) _ mem _ _ id m length params); done.
    + eexists _, b, fb. split; [cbn; rewrite Ht; apply lookup_insert_eq|].
      split_and!; try done.
    + intros s mc Hs. cbn. rewrite Ht, lookup_insert_ne by done. apply Hpriv.
  - rewrite Hid. apply Z.mod_pos_bound. lia.
  - intros data Hd. unfold receivable in Hl. constructor; try done; lia.
Qed.

Lemma posted_receive_ready_witness :
  ∃ ps' c' h, recv_post_setup example_padding zero_message example_channels new_process
      example_rx_conn (BufUser 0) 12 example_offer = (None, ps', c', Some h) ∧
    ready (cts_params new_process example_rx_conn example_offer 12) 0 0 12
      (mkRx (cn_connection_ctx c') {[0 := replicate 12 0]}).
Proof.
  destruct (recv_post_setup example_padding zero_message example_channels new_process
    example_rx_conn (BufUser 0) 12 example_offer) as [[[ret ps'] c'] h] eqn:E.
  pose proof (f_equal (λ r, r.1.1.1) E) as Eret. vm_compute in Eret.
  pose proof (f_equal (λ r, r.2) E) as Eh. vm_compute in Eh. subst ret h.
  exists ps', c', (mkRecvHandle 0 1 0 (BufUser 0) 12). split; [reflexivity|].
  apply (posted_receive_ready example_padding zero_message example_channels new_process
    example_rx_conn 0 (replicate 12 0) {[0 := replicate 12 0]} 12 example_offer ps' c'
    (mkRecvHandle 0 1 0 (BufUser 0) 12) zero_params_wf example_offer_wf);
    [reflexivity|cbn; lia|apply new_connection_wf_rx|apply lookup_singleton_eq|unfold receivable; lia
    |by rewrite length_replicate| |exact E|reflexivity].
  intros s mc. cbn [example_rx_conn cn_connection_ctx new_connection_context cx_msg_table].
  by rewrite lookup_empty.
Defined.
