(* ===== verification/ConfigParser.v ===== *)
(** * Configuration files (include/config_parser.h, src/config_parser.cpp)

    [ConfigParser]: lines [key = value], kept in a map, read with getters that
    fall back to a default.  A [std::string] is the list of its characters; a
    position is a [nat], [npos] is [None].  The file a path names is an
    argument, [None] when it does not open. *)

From Stdlib Require Import Ascii String.
From stdpp Require Import strings.
From S2P Require Import Prelude.

(** ** Strings of the standard library *)

Definition cpp_string : Set := list ascii.

Definition str (s : string) : cpp_string := String.list_ascii_of_string s.

Definition char_in (set : cpp_string) (c : ascii) : bool := existsb (Ascii.eqb c) set.
#[global] Arguments char_in : simpl never.

(** [find_first_not_of], [find_last_not_of], [find] and [substr]. *)
Fixpoint find_first_not_of (set s : cpp_string) : option nat :=
  match s with
  | [] => None
  | c :: s => if char_in set c then S <$> find_first_not_of set s else Some 0%nat
  end.

Fixpoint find_last_not_of (set s : cpp_string) : option nat :=
  match s with
  | [] => None
  | c :: s =>
      match find_last_not_of set s with
      | Some n => Some (S n)
      | None => if char_in set c then None else Some 0%nat
      end
  end.

Fixpoint find_char (x : ascii) (s : cpp_string) : option nat :=
  match s with
  | [] => None
  | c :: s => if Ascii.eqb c x then Some 0%nat else S <$> find_char x s
  end.

Definition substr (s : cpp_string) (pos len : nat) : cpp_string := take len (drop pos s).
Definition substr_from (s : cpp_string) (pos : nat) : cpp_string := drop pos s.

Definition newline : ascii := "010".

(** The lines successive [std::getline] calls read: the text up to each newline,
    and what is left at the end unless that is nothing. *)
Fixpoint getlines (line content : cpp_string) : list cpp_string :=
  match content with
  | [] => match line with [] => [] | _ => [rev line] end
  | c :: content =>
      if Ascii.eqb c newline then rev line :: getlines [] content
      else getlines (c :: line) content
  end.

(** [isspace] in the C locale, and decimal digits. *)
Definition is_space (c : ascii) : bool :=
  char_in [" "; "009"; newline; "011"; "012"; "013"]%char c.

Definition digit_value (c : ascii) : option Z :=
  let n := Z.of_N (N_of_ascii c) in
  if (48 <=? n) && (n <=? 57) then Some (n - 48) else None.

Fixpoint skip_spaces (s : cpp_string) : cpp_string :=
  match s with
  | [] => []
  | c :: s' => if is_space c then skip_spaces s' else s
  end.

(** The digits [strtoul] converts: whether there is one, and their value. *)
Fixpoint read_digits (some : bool) (acc : Z) (s : cpp_string) : option Z :=
  match s with
  | [] => if some then Some acc else None
  | c :: s =>
      match digit_value c with
      | Some d => read_digits true (acc * 10 + d) s
      | None => if some then Some acc else None
      end
  end.

(** [std::stoul(s)]: leading space, a sign, digits, anything; [None] when it
    throws.  A negative number wraps to [unsigned long]. *)
Definition stoul (s : cpp_string) : option Z :=
  let s := skip_spaces s in
  let '(negative, s) :=
    match s with
    | c :: s' => if Ascii.eqb c "-" then (true, s') else if Ascii.eqb c "+" then (false, s') else (false, s)
    | [] => (false, s)
    end in
  value ← read_digits false 0 s;
  if value >? UINT64_MAX then None else Some (if (negative : bool) then u64 (- value) else value).

(** ** The parser *)

Definition ConfigParser : Type := gmap cpp_string cpp_string.

Definition white : cpp_string := [" "; "009"; "013"; newline]%char.

Definition trim (s : cpp_string) : cpp_string :=
  match find_first_not_of white s with
  | None => []
  | Some first =>
      let last := default 0%nat (find_last_not_of white s) in
      substr s first (last - first + 1)
  end.

Definition parse_line (config : ConfigParser) (line : cpp_string) : bool * ConfigParser :=
  let trimmed := trim line in
  let skipped := match trimmed with
                 | [] => true
                 | c :: _ => Ascii.eqb c "#" || Ascii.eqb c ";"
                 end in
  if skipped then (true, config) else
  match find_char "=" trimmed with
  | None => (false, config)
  | Some eq_pos =>
      let key := trim (substr trimmed 0 eq_pos) in
      let value := trim (substr_from trimmed (eq_pos + 1)) in
      match key with
      | [] => (false, config)
      | _ => (true, <[key := value]> config)
      end
  end.

Definition load_from_file (config : ConfigParser) (file : option cpp_string)
    : bool * ConfigParser :=
  match file with
  | None => (false, ∅)
  | Some content =>
      (true, foldl (λ config line, snd (parse_line config line)) ∅ (getlines [] content))
  end.

Definition get_uint32 (config : ConfigParser) (key : cpp_string) (default_value : Z) : Z :=
  match config !! key with
  | None => default_value
  | Some value => match stoul value with Some n => u32 n | None => default_value end
  end.

Definition get_string (config : ConfigParser) (key default_value : cpp_string) : cpp_string :=
  default default_value (config !! key).

Definition has_key (config : ConfigParser) (key : cpp_string) : bool :=
  bool_decide (is_Some (config !! key)).

(** ** Lemmas: trimming *)

Definition is_white (c : ascii) : Prop := char_in white c = true.
Definition not_white (c : ascii) : Prop := char_in white c = false.

(** Text with no white character at either end. *)
Definition trimmed (s : cpp_string) : Prop :=
  match head s, last s with Some a, Some b => not_white a ∧ not_white b | _, _ => True end.

Lemma find_first_not_of_white pre s : Forall is_white pre →
  find_first_not_of white (pre ++ s) = (λ n, length pre + n)%nat <$> find_first_not_of white s.
Proof.
  induction 1 as [|c pre Hc _ IH]; cbn; [by destruct (find_first_not_of _ _)|].
  rewrite Hc, IH. by destruct (find_first_not_of white s).
Qed.

Lemma find_last_not_of_white s post : Forall is_white post →
  find_last_not_of white (s ++ post) = find_last_not_of white s.
Proof.
  intros Hp. induction s as [|c s IH]; cbn [app find_last_not_of]; [|by rewrite IH].
  induction Hp as [|c post Hc _ IH]; cbn; [done|]. by rewrite IH, Hc.
Qed.

Lemma find_last_not_of_app pre s n : find_last_not_of white s = Some n →
  find_last_not_of white (pre ++ s) = Some (length pre + n)%nat.
Proof. intros Hs. induction pre as [|c pre IH]; cbn; [done|by rewrite IH]. Qed.

Lemma find_last_not_of_last s c : not_white c →
  find_last_not_of white (s ++ [c]) = Some (length s).
Proof.
  intros Hc. rewrite (find_last_not_of_app s [c] 0); [f_equal; lia|]. cbn. by rewrite Hc.
Qed.

(** [trim] removes exactly the white space around a text. *)
Lemma trim_spec pre s post : Forall is_white pre → Forall is_white post → trimmed s →
  trim (pre ++ s ++ post) = s.
Proof.
  intros Hpre Hpost Hs. unfold trim. rewrite find_first_not_of_white by done.
  destruct s as [|a s'].
  { cbn [app]. replace (find_first_not_of white post) with (@None nat); [done|].
    induction Hpost as [|c post Hc _ IH]; cbn; [done|]. by rewrite Hc, <-IH. }
  destruct (exists_last (l := a :: s') ltac:(done)) as (s1 & b & Hab).
  assert (last (a :: s') = Some b) as Hl by (rewrite Hab; apply last_snoc).
  unfold trimmed in Hs. rewrite Hl in Hs. cbn [head] in Hs.
  destruct Hs as [Ha Hb].
  cbn [app find_first_not_of]. rewrite Ha. cbn [fmap option_fmap option_map].
  rewrite app_comm_cons, (app_assoc pre), find_last_not_of_white, Hab by done.
  rewrite (find_last_not_of_app pre _ (length s1)) by by apply find_last_not_of_last.
  cbn [default]. unfold substr. rewrite <-app_assoc, Nat.add_0_r, drop_app_length.
  apply take_app_length'. rewrite length_app. cbn. lia.
Qed.

Lemma trim_trimmed s : trimmed s → trim s = s.
Proof.
  intros Hs. pose proof (trim_spec [] s []) as H. rewrite app_nil_r in H. by apply H.
Qed.

Lemma find_char_app x s rest : x ∉ s → find_char x (s ++ x :: rest) = Some (length s).
Proof.
  induction s as [|c s IH]; intros Hx; cbn.
  { by rewrite Ascii.eqb_refl. }
  apply not_elem_of_cons in Hx as [Hc Hs]. destruct (Ascii.eqb_spec c x); [congruence|].
  by rewrite IH.
Qed.

Lemma find_char_none x s : x ∉ s → find_char x s = None.
Proof.
  induction s as [|c s IH]; intros Hx; cbn; [done|].
  apply not_elem_of_cons in Hx as [Hc Hs]. destruct (Ascii.eqb_spec c x); [congruence|].
  by rewrite IH.
Qed.

Lemma white_not_trimming a s : not_white a → trim (a :: s) ≠ [] ∧ head (trim (a :: s)) = Some a.
Proof.
  intros Ha. unfold trim. cbn [find_first_not_of]. rewrite Ha. unfold substr. cbn [drop].
  replace (default 0%nat _ - 0 + 1)%nat
    with (S (default 0%nat (find_last_not_of white (a :: s)))) by lia. done.
Qed.

Lemma trim_skip pre s : Forall is_white pre → trim (pre ++ s) = trim s.
Proof.
  intros Hpre. unfold trim. rewrite find_first_not_of_white by done.
  destruct (find_first_not_of white s) as [first|] eqn:Hf; cbn; [|done].
  assert (∃ n, find_last_not_of white s = Some n ∧ (first ≤ n)%nat) as (n & Hn & Hle).
  { revert first Hf. induction s as [|c s IH]; intros first Hf; cbn in *; [done|].
    destruct (char_in white c).
    - destruct (find_first_not_of white s) as [k|]; [|done]. injection Hf as <-.
      destruct (IH k eq_refl) as (n & -> & ?). exists (S n). split; [done|lia].
    - injection Hf as <-. destruct (find_last_not_of white s) as [n|]; eexists; (split; [done|lia]). }
  rewrite (find_last_not_of_app pre s n Hn), Hn. cbn. unfold substr.
  rewrite drop_app_ge by lia. f_equal; [lia|]. f_equal. lia.
Qed.

(** ** Lemmas: lines *)

Lemma getlines_line acc line rest : newline ∉ line →
  getlines acc (line ++ newline :: rest) = (rev acc ++ line) :: getlines [] rest.
Proof.
  revert acc. induction line as [|c line IH]; intros acc Hn; cbn [app getlines].
  { by rewrite Ascii.eqb_refl, app_nil_r. }
  apply not_elem_of_cons in Hn as [Hc Hn].
  destruct (Ascii.eqb_spec c newline); [congruence|].
  rewrite IH by done. cbn [rev]. by rewrite <-app_assoc.
Qed.

Lemma getlines_last line : newline ∉ line → line ≠ [] → getlines [] line = [line].
Proof.
  enough (∀ acc, newline ∉ line → rev acc ++ line ≠ [] → getlines acc line = [rev acc ++ line]) as H
    by (intros; by apply (H [])).
  induction line as [|c line IH]; intros acc Hn Hne; cbn [getlines].
  { rewrite app_nil_r in *. by destruct acc. }
  apply not_elem_of_cons in Hn as [Hc Hn]. destruct (Ascii.eqb_spec c newline); [congruence|].
  rewrite IH by (cbn [rev]; rewrite <-?app_assoc; done). cbn [rev]. by rewrite <-app_assoc.
Qed.

(** ** What a configuration file holds *)

(** A line of a file: an entry with white space where it may stand, a comment,
    white space only, a line without [=], or one without a key. *)
Inductive config_line : Type :=
| Entry (indent key before after value tail : cpp_string)
| Comment (indent : cpp_string) (mark : ascii) (text : cpp_string)
| Blank (spaces : cpp_string)
| NoEquals (text : cpp_string)
| NoKey (indent text : cpp_string).

Definition line_text (l : config_line) : cpp_string :=
  match l with
  | Entry indent key before after value tail =>
      indent ++ key ++ before ++ "="%char :: after ++ value ++ tail
  | Comment indent mark text => indent ++ mark :: text
  | Blank spaces => spaces
  | NoEquals text => text
  | NoKey indent text => indent ++ "="%char :: text
  end.

Definition key_ok (key : cpp_string) : Prop :=
  trimmed key ∧ "="%char ∉ key ∧
  ∃ c rest, key = c :: rest ∧ c ≠ "#"%char ∧ c ≠ ";"%char ∧ not_white c.

Definition line_ok (l : config_line) : Prop :=
  newline ∉ line_text l ∧
  match l with
  | Entry indent key before after value tail =>
      key_ok key ∧ trimmed value ∧
      Forall is_white indent ∧ Forall is_white before ∧ Forall is_white after ∧ Forall is_white tail
  | Comment indent mark text => Forall is_white indent ∧ (mark = "#"%char ∨ mark = ";"%char)
  | Blank spaces => Forall is_white spaces
  | NoEquals text => "="%char ∉ text
  | NoKey indent text => Forall is_white indent
  end.

(** The map after the line. *)
Definition line_effect (config : ConfigParser) (l : config_line) : ConfigParser :=
  match l with
  | Entry _ key _ _ value _ => <[key := value]> config
  | _ => config
  end.

Lemma trim_sublist s c : c ∈ trim s → c ∈ s.
Proof.
  unfold trim, substr. destruct (find_first_not_of white s); [|by intros ?%not_elem_of_nil].
  intros Hc. rewrite <-(take_drop n s). apply elem_of_app. right.
  rewrite <-(take_drop (default 0%nat (find_last_not_of white s) - n + 1) (drop n s)).
  apply elem_of_app. by left.
Qed.

Lemma parse_entry config indent key before after value tail :
  line_ok (Entry indent key before after value tail) →
  parse_line config (line_text (Entry indent key before after value tail)) =
    (true, <[key := value]> config).
Proof.
  intros (_ & (Hkt & Hke & c & key' & -> & Hc1 & Hc2 & Hcw) & Hv & Hi & Hb & Ha & Ht).
  unfold parse_line. cbn [line_text]. rewrite trim_skip by done.
  set (rest := if decide (value = []) then [] else after ++ value).
  assert (trim ((c :: key') ++ before ++ "="%char :: after ++ value ++ tail) =
    (c :: key') ++ before ++ "="%char :: rest) as ->.
  { subst rest. destruct (decide (value = [])) as [->|Hne].
    - replace ((c :: key') ++ before ++ "="%char :: after ++ [] ++ tail)
        with ([] ++ ((c :: key') ++ before ++ ["="%char]) ++ (after ++ tail))
        by (cbn; by rewrite <-!app_assoc).
      apply trim_spec; [done|by apply Forall_app|]. unfold trimmed.
      rewrite app_assoc, last_snoc. cbn. done.
    - replace ((c :: key') ++ before ++ "="%char :: after ++ value ++ tail)
        with ([] ++ ((c :: key') ++ before ++ "="%char :: after ++ value) ++ tail)
        by (cbn; by rewrite <-!app_assoc; cbn; rewrite <-!app_assoc).
      apply trim_spec; [done..|]. unfold trimmed.
      destruct (exists_last Hne) as (v1 & b & ->). unfold trimmed in Hv.
      rewrite last_snoc in Hv.
      replace ((c :: key') ++ before ++ "="%char :: after ++ v1 ++ [b])
        with (((c :: key') ++ before ++ "="%char :: after ++ v1) ++ [b])
        by (cbn; by rewrite <-!app_assoc; cbn; rewrite <-!app_assoc).
      rewrite last_snoc. cbn. split; [done|]. destruct (v1 ++ [b]) eqn:E; [by destruct v1|].
      cbn in Hv. by destruct Hv. }
  cbn [app]. destruct (Ascii.eqb_spec c "#"); [congruence|].
  destruct (Ascii.eqb_spec c ";"); [congruence|]. cbn [orb].
  assert ("="%char ∉ (c :: key') ++ before) as Hno.
  { intros [?|Hin]%elem_of_app; [done|]. rewrite Forall_forall in Hb. by apply Hb in Hin. }
  rewrite app_comm_cons, app_assoc, find_char_app by done.
  assert (substr (((c :: key') ++ before) ++ "="%char :: rest) 0 (length ((c :: key') ++ before)) =
    (c :: key') ++ before) as -> by (unfold substr; cbn [drop]; by apply take_app_length).
  assert (trim ((c :: key') ++ before) = c :: key') as ->.
  { by apply (trim_spec [] (c :: key') before). }
  do 2 f_equal. unfold substr_from.
  replace (((c :: key') ++ before) ++ "="%char :: rest)
    with ((((c :: key') ++ before) ++ ["="%char]) ++ rest) by (by rewrite <-app_assoc).
  rewrite drop_app_length' by (rewrite (length_app _ ["="%char]); cbn; lia).
  subst rest. destruct (decide (value = [])) as [->|]; [done|].
  rewrite trim_skip by done. by apply trim_trimmed.
Qed.

Lemma parse_other config l : line_ok l →
  (∀ indent key before after value tail, l ≠ Entry indent key before after value tail) →
  snd (parse_line config (line_text l)) = config.
Proof.
  intros [_ Hok] Hne. unfold parse_line. destruct l as [|indent mark text|spaces|text|indent text];
    cbn [line_text] in *.
  - exfalso. by eapply Hne.
  - destruct Hok as [Hi Hm]. rewrite trim_skip by done.
    destruct (white_not_trimming mark text) as [_ Hh]; [by destruct Hm as [->| ->]|].
    destruct (trim (mark :: text)) as [|c ?]; [done|]. injection Hh as ->.
    by destruct Hm as [->| ->].
  - pose proof (trim_spec spaces [] [] Hok (Forall_nil_2 _)) as Ht.
    cbn in Ht. rewrite app_nil_r in Ht. by rewrite Ht.
  - assert ("="%char ∉ trim text) as Hno by (by intros ?%trim_sublist).
    rewrite find_char_none by done. by destruct (match trim text with [] => _ | _ => _ end).
  - rewrite trim_skip by done.
    destruct (white_not_trimming "=" text) as [_ Hh]; [done|].
    destruct (trim ("="%char :: text)) as [|c rest]; [done|]. by injection Hh as ->.
Qed.

Lemma parse_line_effect config l : line_ok l →
  snd (parse_line config (line_text l)) = line_effect config l.
Proof.
  intros Hok. destruct l as [indent key before after value tail| | | |];
    [by rewrite parse_entry|by apply parse_other..].
Qed.

Lemma getlines_lines ls : Forall line_ok ls →
  getlines [] (concat ((λ l, line_text l ++ [newline]) <$> ls)) = line_text <$> ls.
Proof.
  induction 1 as [|l ls [Hl _] _ IH]; [done|]. cbn [fmap list_fmap concat].
  rewrite <-app_assoc. cbn [app]. rewrite getlines_line by done. cbn. by rewrite IH.
Qed.

(** ** Lemmas: numbers *)

Definition is_digit (c : ascii) : Prop := is_Some (digit_value c).

(** The number a text of digits denotes. *)
Definition digits_number (ds : cpp_string) : Z :=
  foldl (λ n c, n * 10 + default 0 (digit_value c)) 0 ds.

Lemma read_digits_spec ds rest : Forall is_digit ds →
  (∀ c rest', rest = c :: rest' → digit_value c = None) →
  ∀ acc some, some || negb (bool_decide (ds = [])) = true →
  read_digits some acc (ds ++ rest) =
    Some (foldl (λ n c, n * 10 + default 0 (digit_value c)) acc ds).
Proof.
  intros Hds Hrest. induction Hds as [|c ds [d Hd] _ IH]; intros acc some Hs.
  - rewrite orb_false_r in Hs. subst some. destruct rest as [|c rest]; [done|]. cbn.
    by rewrite (Hrest c rest).
  - cbn [app read_digits foldl]. rewrite Hd. by rewrite IH.
Qed.

Lemma digits_number_nonneg ds : 0 ≤ digits_number ds.
Proof.
  unfold digits_number. enough (∀ acc, 0 ≤ acc →
    0 ≤ foldl (λ n c, n * 10 + default 0 (digit_value c)) acc ds) by auto with lia.
  induction ds as [|c ds IH]; intros acc Ha; cbn; [done|]. apply IH.
  unfold digit_value. case_bool; cbn; lia.
Qed.

Lemma skip_spaces_app pre s : Forall (λ c, is_space c = true) pre →
  (∀ c s', s = c :: s' → is_space c = false) → skip_spaces (pre ++ s) = s.
Proof.
  induction 1 as [|c pre Hc _ IH]; intros Hs; cbn; [|rewrite Hc; by apply IH].
  destruct s as [|c s']; [done|]. cbn. by rewrite (Hs c s').
Qed.

(** Digits, spaces and signs are different characters. *)
Lemma digit_class c : is_digit c →
  is_space c = false ∧ Ascii.eqb c "-" = false ∧ Ascii.eqb c "+" = false.
Proof. intros [d Hd]. by destruct c as [[] [] [] [] [] [] [] []]. Qed.

Lemma stoul_number pre sign ds rest : Forall (λ c, is_space c = true) pre →
  sign ∈ [str ""; str "+"; str "-"] → Forall is_digit ds → ds ≠ [] →
  (∀ c rest', rest = c :: rest' → digit_value c = None) →
  stoul (pre ++ sign ++ ds ++ rest) =
    if digits_number ds >? UINT64_MAX then None
    else Some (if bool_decide (sign = str "-") then u64 (- digits_number ds) else digits_number ds).
Proof.
  intros Hpre Hsign Hds Hne Hrest. unfold stoul.
  destruct ds as [|c ds']; [done|]. pose proof Hds as [Hc _]%Forall_cons.
  destruct (digit_class c Hc) as (H1 & H2 & H3).
  assert (∀ acc, read_digits false acc ((c :: ds') ++ rest) =
    Some (foldl (λ n c, n * 10 + default 0 (digit_value c)) acc (c :: ds'))) as Hr
    by (intros; by apply read_digits_spec).
  rewrite skip_spaces_app; [|done|].
  2: { intros a s' E. rewrite !elem_of_cons, elem_of_nil in Hsign.
       destruct Hsign as [->|[->|[->|[]]]]; cbn in E; by injection E as <- _. }
  rewrite !elem_of_cons, elem_of_nil in Hsign.
  destruct Hsign as [->|[->|[->|[]]]]; cbn [str String.list_ascii_of_string app].
  - rewrite H2, H3. cbn [app] in Hr. rewrite Hr. reflexivity.
  - cbn [Ascii.eqb Bool.eqb]. cbn [app] in Hr. rewrite Hr. reflexivity.
  - cbn [Ascii.eqb Bool.eqb]. cbn [app] in Hr. rewrite Hr. reflexivity.
Qed.

(** ** Properties *)

(** C38: Loading a configuration file gives exactly its entries: for any file made
    of entries with white space around keys and values, comments, blank lines
    and malformed lines, the load succeeds and the map holds for each key the
    value of its last entry; malformed lines change nothing, and what was
    loaded before is forgotten. *)
Theorem load_reads_entries config ls : Forall line_ok ls →
  load_from_file config (Some (concat ((λ l, line_text l ++ [newline]) <$> ls))) =
    (true, foldl line_effect ∅ ls).
Proof.
  intros Hls. unfold load_from_file. rewrite getlines_lines by done. f_equal.
  generalize (∅ : ConfigParser). induction Hls as [|l ls Hl _ IH]; intros cfg; cbn; [done|].
  by rewrite parse_line_effect, IH.
Qed.

Definition example_lines : list config_line :=
  [Comment [] "#" (str " receiver"); Blank (str "  ");
   Entry [] (str "mtu_bytes") (str " ") (str " ") (str "1500") [];
   NoEquals (str "nonsense"); NoKey (str " ") (str " 5");
   Entry (str " ") (str "udp_server_ip") [] [] (str "a=b") (str " ");
   Entry [] (str "mtu_bytes") [] [] (str "900") []].

Lemma example_lines_ok : Forall line_ok example_lines.
Proof.
  repeat constructor; try (eexists _, _; split; [reflexivity|]); repeat split;
    try discriminate; cbn; rewrite ?not_elem_of_cons; repeat split;
    discriminate || apply not_elem_of_nil.
Qed.

Lemma load_reads_entries_witness :
  let config := snd (load_from_file ∅
    (Some (concat ((λ l, line_text l ++ [newline]) <$> example_lines)))) in
  get_uint32 config (str "mtu_bytes") 0 = 900 ∧
  get_string config (str "udp_server_ip") [] = str "a=b" ∧ has_key config (str "nonsense") = false.
Proof.
  intros config. subst config. rewrite (load_reads_entries ∅ example_lines example_lines_ok).
  split_and!; vm_compute; reflexivity.
Defined.

(** C39: [get_uint32] on a number: white space, an optional sign and digits,
    whatever follows them, give the number reduced to 32 bits - not only those
    that fit, and a negative one wraps; a number above 2^64 - 1 gives the
    default. *)
Theorem get_uint32_number (config : ConfigParser) (key pre sign ds rest : cpp_string) d :
  config !! key = Some (pre ++ sign ++ ds ++ rest : cpp_string) → Forall (λ c, is_space c = true) pre →
  sign ∈ [str ""; str "+"; str "-"] → Forall is_digit ds → ds ≠ [] →
  (∀ c rest', rest = c :: rest' → digit_value c = None) →
  get_uint32 config key d =
    if digits_number ds >? UINT64_MAX then d
    else if bool_decide (sign = str "-") then u32 (- digits_number ds)
    else u32 (digits_number ds).
Proof.
  intros Hk Hpre Hsign Hds Hne Hrest. unfold get_uint32. rewrite Hk, stoul_number by done.
  destruct (digits_number ds >? UINT64_MAX); [done|].
  repeat case_bool_decide; try done.
  unfold u32, u64. symmetry. apply Znumtheory.Zmod_div_mod; [lia|lia|by exists 4294967296].
Qed.

Lemma get_uint32_number_witness :
  get_uint32 {[str "k" := str " -1 ms"]} (str "k") 7 = 4294967295.
Proof.
  rewrite (get_uint32_number _ _ (str " ") (str "-") (str "1") (str " ms")).
  - vm_compute. reflexivity.
  - reflexivity.
  - repeat constructor.
  - rewrite !elem_of_cons. auto.
  - repeat constructor. eexists. reflexivity.
  - discriminate.
  - intros c rest' H. injection H as <- _. reflexivity.
Defined.
