(* ===== verification/Resend.v ===== *)
(** * What the reliability layers share (reliability/sr.cpp, reliability/ec.cpp)

    The sender's surroundings - clock, UDP sockets, the datagrams handed to
    [sendto] -, the bitmap of a control message applied to the acknowledged
    chunks, and the geometry of chunks and packets. *)

From S2P Require Import Prelude Bits Bytes Packet Backend Control Connection Api.

(** ** Surroundings of a sender *)

(** [ev_time] is the last reading of [steady_clock], in nanoseconds; a reading
    advances it by the next of [ev_ticks].  [ev_sockets] tells whether the next
    calls of [socket] and [inet_pton] succeed (they do when it is used up). *)
Record SendEnv : Set := mkEnv {
  ev_time : Z;
  ev_ticks : list Z;
  ev_sockets : list bool;
  ev_wire : list (Z * list Z)
}.

Definition clock_now (e : SendEnv) : Z * SendEnv :=
  let t := ev_time e + hd 0 (ev_ticks e) in
  (t, mkEnv t (tl (ev_ticks e)) (ev_sockets e) (ev_wire e)).

Definition open_udp (e : SendEnv) : bool * SendEnv :=
  (hd true (ev_sockets e), mkEnv (ev_time e) (ev_ticks e) (tl (ev_sockets e)) (ev_wire e)).

Definition ev_send (e : SendEnv) (datagrams : list (Z * list Z)) : SendEnv :=
  mkEnv (ev_time e) (ev_ticks e) (ev_sockets e) (ev_wire e ++ datagrams).

(** [duration_cast<milliseconds>(now - last).count()]. *)
Definition elapsed_ms (now last : Z) : Z := (now - last) ÷ 1000000.

(** A clock that does not go back, and its next reading. *)
Definition wf_env (e : SendEnv) : Prop := Forall (λ t, 0 ≤ t) (ev_ticks e).

Definition next_reading (e : SendEnv) : Z := ev_time e + hd 0 (ev_ticks e).

Lemma next_reading_tick e : wf_env e → next_reading e ≤ next_reading e + hd 0 (tl (ev_ticks e)).
Proof.
  unfold wf_env. intros Hw. destruct (ev_ticks e) as [|t [|t' ts]]; cbn; [lia|lia|].
  apply Forall_cons in Hw as [_ Hw]. apply Forall_cons in Hw as [? _]. lia.
Qed.

(** ** Bitmaps of control messages *)

(** The inner loop of [apply_bitmap]: the bits of one word. *)
Definition apply_word (total w word : Z) (acked : list bool) : list bool :=
  foldl (λ acked bit,
    let chunk_id := w * 64 + bit in
    if chunk_id >=? total then acked else
    if negb (Z.land word (bit_mask bit) =? 0) then <[Z.to_nat chunk_id := true]> acked
    else acked) acked (zrange 0 64).

(** [apply_bitmap]: at most [limit] words; a word outside the array is undefined. *)
Definition apply_bitmap (limit total : Z) (msg : ControlMessage) (acked : list bool)
    : option (list bool) :=
  foldl_opt (λ acked w,
      word ← cm_chunk_bitmap msg !! Z.to_nat w;
      Some (apply_word total w word acked))
    acked (zrange 0 (Z.min (cm_chunk_bitmap_words msg) limit)).

(** Chunk [c] as the message reports it. *)
Definition bitmap_has (limit : Z) (msg : ControlMessage) (c : Z) : bool :=
  (0 <=? c) && (c <? 64 * Z.min (cm_chunk_bitmap_words msg) limit) &&
  bit_at (cm_chunk_bitmap msg) c.

Definition acked_at (acked : list bool) (c : Z) : bool :=
  (0 <=? c) && default false (acked !! Z.to_nat c).

(** ** Geometry *)

Definition chunk_bytes_of (params : ConnectionParams) : Z :=
  prm_mtu_bytes params * prm_packets_per_chunk params.

Definition total_chunks_of (params : ConnectionParams) (length : Z) : Z :=
  (length + chunk_bytes_of params - 1) / chunk_bytes_of params.

(** The packets of chunk [c]. *)
Definition packets_of_chunk (params : ConnectionParams) (length c : Z) : list Z :=
  zrange (c * prm_packets_per_chunk params)
    (Z.min ((c + 1) * prm_packets_per_chunk params) (total_packets_of params length)).

(** The datagrams of chunk [c] when it is sent again. *)
Definition chunk_wire (params : ConnectionParams) (msg_id : Z) (data : list Z) (length c : Z)
    : list (Z * list Z) :=
  (λ i, (prm_udp_server_port params, packet_datagram (built_packet params msg_id data length i)))
    <$> packets_of_chunk params length c.

(** ** Lemmas: setting a range of a list *)

Lemma length_foldl_insert {A} (P : Z → bool) (v : A) l xs :
  length (foldl (λ l c, if P c then <[Z.to_nat c := v]> l else l) l xs) = length l.
Proof.
  revert l. induction xs as [|x xs IH]; intros l; cbn; [done|].
  rewrite IH. destruct (P x); [apply length_insert|done].
Qed.

Lemma foldl_insert_lookup {A} (P : Z → bool) (v : A) l lo hi c : 0 ≤ lo → 0 ≤ c →
  foldl (λ l c, if P c then <[Z.to_nat c := v]> l else l) l (zrange lo hi) !! Z.to_nat c =
    if (lo <=? c) && (c <? hi) && P c && (c <? Z.of_nat (length l)) then Some v
    else l !! Z.to_nat c.
Proof.
  intros Hlo Hc. destruct (Z.le_gt_cases hi lo).
  { rewrite zrange_nil by lia. cbn. destruct (Z.leb_spec lo c), (Z.ltb_spec c hi); cbn; try done; lia. }
  replace hi with (lo + Z.of_nat (Z.to_nat (hi - lo))) by lia.
  induction (Z.to_nat (hi - lo)) as [|n IH].
  { rewrite zrange_nil by lia. cbn. destruct (Z.leb_spec lo c), (Z.ltb_spec c (lo + Z.of_nat 0)); cbn; try done; lia. }
  replace (lo + Z.of_nat (S n)) with (lo + Z.of_nat n + 1) by lia.
  rewrite zrange_snoc, foldl_app by lia. cbn [foldl].
  set (l' := foldl _ l _) in *. assert (length l' = length l) as Hl by apply length_foldl_insert.
  destruct (Z.eqb_spec c (lo + Z.of_nat n)) as [->|Hne].
  - rewrite (proj2 (Z.leb_le lo _)), (proj2 (Z.ltb_lt _ (_ + 1))) by lia. cbn [andb].
    rewrite Z.ltb_irrefl, andb_false_r in IH. cbn [andb] in IH.
    destruct (P (lo + Z.of_nat n)); cbn [andb]; [|done].
    rewrite list_lookup_insert. destruct (Z.ltb_spec (lo + Z.of_nat n) (Z.of_nat (length l))).
    + rewrite decide_True by (split; [done|lia]). done.
    + rewrite decide_False by lia. done.
  - assert ((if P (lo + Z.of_nat n) then <[Z.to_nat (lo + Z.of_nat n) := v]> l' else l') !! Z.to_nat c =
      l' !! Z.to_nat c) as ->.
    { clear IH. destruct (P (lo + Z.of_nat n)); [|reflexivity]. apply list_lookup_insert_ne. lia. }
    rewrite IH. destruct (Z.leb_spec lo c), (Z.ltb_spec c (lo + Z.of_nat n)),
      (Z.ltb_spec c (lo + Z.of_nat n + 1)); try done; lia.
Qed.

Lemma foldl_ext_elem {A B} (f g : A → B → A) a l :
  (∀ a x, x ∈ l → f a x = g a x) → foldl f a l = foldl g a l.
Proof.
  revert a. induction l as [|x l IH]; intros a Hfg; cbn; [done|].
  rewrite Hfg by (by left). apply IH. intros. apply Hfg. by right.
Qed.

Lemma zrange_shift lo n : zrange lo (lo + n) = (λ i, lo + i) <$> zrange 0 n.
Proof.
  unfold zrange. rewrite fmap_add_seqZ. f_equal; lia.
Qed.

Lemma foldl_fmap' {A B C} (f : A → C → A) (g : B → C) a l :
  foldl f a (g <$> l) = foldl (λ a x, f a (g x)) a l.
Proof. revert a. induction l as [|x l IH]; intros a; cbn; [done|apply IH]. Qed.

Lemma apply_word_eq total w word acked : 0 ≤ w →
  apply_word total w word acked =
    foldl (λ l c, if (c <? total) && Z.testbit word (c - w * 64) then <[Z.to_nat c := true]> l else l)
      acked (zrange (w * 64) (w * 64 + 64)).
Proof.
  intros Hw. rewrite zrange_shift, foldl_fmap'. apply foldl_ext_elem.
  intros l i Hi%elem_of_zrange. cbv beta zeta. rewrite land_bit_mask by lia.
  replace (w * 64 + i - w * 64) with i by lia.
  rewrite Z.geb_leb. destruct (Z.leb_spec total (w * 64 + i)), (Z.ltb_spec (w * 64 + i) total);
    try lia; [done|]. cbn [andb]. by destruct (Z.testbit word i).
Qed.

Lemma length_apply_word total w word acked : 0 ≤ w →
  length (apply_word total w word acked) = length acked.
Proof. intros Hw. rewrite apply_word_eq by done. apply length_foldl_insert. Qed.

Lemma acked_at_lookup acked c : 0 ≤ c < Z.of_nat (length acked) →
  acked !! Z.to_nat c = Some (acked_at acked c).
Proof.
  intros Hc. unfold acked_at. rewrite (proj2 (Z.leb_le 0 c)) by lia. cbn.
  by destruct (lookup_lt_is_Some_2 acked (Z.to_nat c) ltac:(lia)) as [b ->].
Qed.

Lemma acked_at_range acked c : acked_at acked c = true → 0 ≤ c < Z.of_nat (length acked).
Proof.
  unfold acked_at. intros [Hc Hl]%andb_true_iff. apply Z.leb_le in Hc.
  destruct (acked !! Z.to_nat c) eqn:E; [|done]. apply lookup_lt_Some in E. lia.
Qed.

(** Setting the chunks of a range that pass a test. *)
Lemma acked_at_foldl (P : Z → bool) acked lo hi c : 0 ≤ lo →
  acked_at (foldl (λ l c, if P c then <[Z.to_nat c := true]> l else l) acked (zrange lo hi)) c =
    ((lo <=? c) && (c <? hi) && P c && (c <? Z.of_nat (length acked))) || acked_at acked c.
Proof.
  intros Hlo. unfold acked_at. destruct (Z.leb_spec 0 c); cbn [andb].
  - rewrite foldl_insert_lookup by lia. by case_match.
  - by rewrite (proj2 (Z.leb_gt lo c)) by lia.
Qed.

Lemma acked_at_word total w word acked c : 0 ≤ w → total = Z.of_nat (length acked) →
  acked_at (apply_word total w word acked) c =
    ((w * 64 <=? c) && (c <? w * 64 + 64) && Z.testbit word (c - w * 64) && (c <? total))
    || acked_at acked c.
Proof.
  intros Hw Ht. rewrite apply_word_eq, acked_at_foldl, <-Ht by lia. f_equal.
  rewrite <-!andb_assoc. do 2 f_equal.
  by destruct (c <? total), (Z.testbit word (c - w * 64)).
Qed.

(** Applying the bitmap of a message marks exactly the chunks it reports. *)
Lemma apply_bitmap_eq limit total msg acked : limit ≤ 16 → length (cm_chunk_bitmap msg) = 16%nat →
  total = Z.of_nat (length acked) →
  ∃ acked', apply_bitmap limit total msg acked = Some acked' ∧ length acked' = length acked ∧
    ∀ c, acked_at acked' c = ((c <? total) && bitmap_has limit msg c) || acked_at acked c.
Proof.
  intros Hlim Hlen Ht. unfold apply_bitmap, bitmap_has.
  set (n := Z.min (cm_chunk_bitmap_words msg) limit).
  assert (n ≤ 16) as Hn by lia. clearbody n.
  destruct (Z.le_gt_cases n 0).
  { rewrite zrange_nil by lia. exists acked. split_and!; [done|done|]. intros c.
    destruct (Z.leb_spec 0 c); [|by rewrite andb_false_r].
    by rewrite (proj2 (Z.ltb_ge c (64 * n))), andb_false_r by lia. }
  replace n with (Z.of_nat (Z.to_nat n)) in * by lia. generalize dependent (Z.to_nat n).
  clear n. intros n Hn _. induction n as [|n IH].
  { exists acked. split_and!; [done|done|]. intros c.
    destruct (Z.leb_spec 0 c); [|by rewrite andb_false_r].
    by rewrite (proj2 (Z.ltb_ge c (64 * Z.of_nat 0))), andb_false_r by lia. }
  destruct IH as (acked1 & H1 & Hl1 & Hb1); [lia|].
  replace (Z.of_nat (S n)) with (Z.of_nat n + 1) by lia.
  rewrite zrange_snoc, foldl_opt_app by lia.
  rewrite H1. cbn [mbind option_bind foldl_opt].
  destruct (lookup_lt_is_Some_2 (cm_chunk_bitmap msg) (Z.to_nat (Z.of_nat n)) ltac:(lia)) as [word Hword].
  rewrite Hword. cbn [mbind option_bind]. eexists. split; [done|].
  rewrite length_apply_word by lia. split; [done|]. intros c.
  rewrite acked_at_word, Hb1 by (lia || congruence).
  destruct (Z.leb_spec 0 c) as [Hc|Hc]; cbn [andb].
  2: { rewrite !andb_false_r. cbn. by rewrite (proj2 (Z.leb_gt (Z.of_nat n * 64) c)) by lia. }
  destruct (Z.leb_spec (Z.of_nat n * 64) c), (Z.ltb_spec c (Z.of_nat n * 64 + 64)),
    (Z.ltb_spec c (64 * Z.of_nat n)), (Z.ltb_spec c (64 * (Z.of_nat n + 1))); try lia; cbn [andb].
  - replace (bit_at (cm_chunk_bitmap msg) c) with (Z.testbit word (c - Z.of_nat n * 64)).
    { rewrite andb_false_r. cbn. by rewrite andb_comm. }
    unfold bit_at. replace (c / 64) with (Z.of_nat n) by (Z.div_mod_to_equations; lia).
    replace (c mod 64) with (c - Z.of_nat n * 64) by (Z.div_mod_to_equations; lia).
    by rewrite Hword.
  - by rewrite andb_false_r.
  - done.
Qed.

(** ** Lemmas: geometry *)

Section Geometry.
Context (params : ConnectionParams) (data : list Z) (length : Z).
Context (Hsend : sendable params data length).
Notation mtu := (prm_mtu_bytes params).
Notation ppc := (prm_packets_per_chunk params).

Lemma geometry_pos : 0 < mtu ≤ MAX_PAYLOAD_SIZE ∧ 0 < ppc < 65536 ∧ 0 < length < 281474976710656.
Proof.
  destruct Hsend as [Hwf Hm Hp Hl Hb]. destruct (wf_params_numbers params Hwf) as (?&?&?&?&_). lia.
Qed.

Lemma chunk_bytes_pos : 0 < chunk_bytes_of params < 4294967296.
Proof.
  destruct geometry_pos as (?&?&?). unfold chunk_bytes_of, MAX_PAYLOAD_SIZE, sizeof_SDRPacketHeader in *. nia.
Qed.

Lemma chunk_starts c : 0 ≤ c → c < total_chunks_of params length ↔ c * chunk_bytes_of params < length.
Proof.
  intros Hc. pose proof chunk_bytes_pos. destruct geometry_pos as (?&?&?).
  unfold total_chunks_of. apply ceil_div_lt; lia.
Qed.

Lemma packet_starts i : 0 ≤ i → i < total_packets_of params length ↔ i * mtu < length.
Proof. intros Hi. destruct geometry_pos as (?&?&?). apply ceil_div_lt; lia. Qed.

Lemma chunk_has_packet c : 0 ≤ c → c < total_chunks_of params length ↔
  c * ppc < total_packets_of params length.
Proof.
  intros Hc. destruct geometry_pos as (?&?&?). rewrite chunk_starts, packet_starts by nia.
  unfold chunk_bytes_of. rewrite (Z.mul_comm mtu), Z.mul_assoc. lia.
Qed.

Lemma elem_of_packets_of_chunk c i : 0 ≤ c → i ∈ packets_of_chunk params length c ↔
  0 ≤ i < total_packets_of params length ∧ i / ppc = c.
Proof.
  intros Hc. destruct geometry_pos as (?&?&?). unfold packets_of_chunk.
  rewrite elem_of_zrange. pose proof (Z.div_mod i ppc ltac:(lia)) as Hdm.
  pose proof (Z.mod_pos_bound i ppc ltac:(lia)). split.
  - intros [Hl Hu]. split; [nia|]. symmetry. apply (Z.div_unique i ppc c (i - ppc * c)); [left; nia|lia].
  - intros [Hi <-]. nia.
Qed.

Lemma chunk_of_packet i : 0 ≤ i < total_packets_of params length →
  0 ≤ i / ppc < total_chunks_of params length.
Proof.
  intros Hi. destruct geometry_pos as (?&?&?).
  assert (0 ≤ i / ppc) by (apply Z.div_pos; lia). split; [done|].
  apply chunk_has_packet; [done|]. pose proof (Z.mul_div_le i ppc ltac:(lia)). lia.
Qed.

Lemma total_chunks_bound : 0 < total_chunks_of params length ≤ total_packets_of params length.
Proof.
  destruct geometry_pos as (?&?&?). pose proof chunk_bytes_pos. split.
  - apply chunk_starts; lia.
  - destruct (Z.le_gt_cases (total_chunks_of params length) (total_packets_of params length)); [done|].
    assert (0 ≤ total_packets_of params length) by (apply Z.div_pos; lia).
    assert (total_packets_of params length * ppc < total_packets_of params length) by
      (apply chunk_has_packet; lia). nia.
Qed.

Lemma elem_of_chunk_wire msg_id c x : 0 ≤ c → x ∈ chunk_wire params msg_id data length c ↔
  ∃ i, 0 ≤ i < total_packets_of params length ∧ i / ppc = c ∧
    x = (prm_udp_server_port params, packet_datagram (built_packet params msg_id data length i)).
Proof.
  intros Hc. unfold chunk_wire. rewrite list_elem_of_fmap. split.
  - intros (i & -> & Hi). apply (elem_of_packets_of_chunk c i Hc) in Hi as [??]. by exists i.
  - intros (i & Hi & Hd & ->). exists i. split; [done|]. by apply elem_of_packets_of_chunk.
Qed.

End Geometry.
