(* ===== verification/SrSender.v ===== *)
(** * Selective repeat: the sender (reliability/sr.h, reliability/sr.cpp)

    [SRSender] sends the message in chunks, keeps which of them the receiver has
    acknowledged, and sends the others again when a control message or the end
    of a wait says so.  A time point is in nanoseconds. *)

From S2P Require Import Prelude Bits Bytes Packet Backend Control Wait Connection Api Resend.
Import ControlMsgType.

(** ** State *)

(** [struct SRConfig]. *)
Record SRConfig : Set := mkSRConfig {
  sc_rto_ms : Z; sc_nack_delay_ms : Z; sc_max_inflight_chunks : Z;
  sc_base_rtt_ms : Z; sc_alpha_ms : Z
}.

(** [struct SRStats]. *)
Record SRStats : Set := mkSRStats {
  st_acks_sent : Z; st_nacks_sent : Z; st_retransmits : Z
}.

(** [class SRSender].  [ss_data] are the bytes at [send_handle_->user_buffer],
    [ss_env] the surroundings. *)
Record SRSender : Set := mkSRSender {
  ss_cfg : SRConfig;
  ss_stats : SRStats;
  ss_total_chunks : Z;
  ss_mtu_bytes : Z;
  ss_packets_per_chunk : Z;
  ss_ack_base : Z;
  ss_next_chunk_to_send : Z;
  ss_max_inflight : Z;
  ss_chunk_acked : list bool;
  ss_last_tx : list Z;
  ss_last_control_tx : Z;
  ss_send_handle : option SDRSendHandle;
  ss_conn : option SDRConnection;
  ss_data : list Z;
  ss_env : SendEnv
}.

Definition new_sr_sender (cfg : SRConfig) (env : SendEnv) : SRSender :=
  mkSRSender cfg (mkSRStats 0 0 0) 0 0 0 0 0 0 [] [] 0 None None [] env.

(** Assignments to one or two fields. *)
Definition ss_with_acked (s : SRSender) (l : list bool) : SRSender :=
  mkSRSender (ss_cfg s) (ss_stats s) (ss_total_chunks s) (ss_mtu_bytes s)
    (ss_packets_per_chunk s) (ss_ack_base s) (ss_next_chunk_to_send s) (ss_max_inflight s)
    l (ss_last_tx s) (ss_last_control_tx s) (ss_send_handle s) (ss_conn s) (ss_data s) (ss_env s).
Definition ss_with_base (s : SRSender) (base : Z) : SRSender :=
  mkSRSender (ss_cfg s) (ss_stats s) (ss_total_chunks s) (ss_mtu_bytes s)
    (ss_packets_per_chunk s) base (ss_next_chunk_to_send s) (ss_max_inflight s)
    (ss_chunk_acked s) (ss_last_tx s) (ss_last_control_tx s) (ss_send_handle s) (ss_conn s)
    (ss_data s) (ss_env s).
Definition ss_with_next (s : SRSender) (next : Z) : SRSender :=
  mkSRSender (ss_cfg s) (ss_stats s) (ss_total_chunks s) (ss_mtu_bytes s)
    (ss_packets_per_chunk s) (ss_ack_base s) next (ss_max_inflight s)
    (ss_chunk_acked s) (ss_last_tx s) (ss_last_control_tx s) (ss_send_handle s) (ss_conn s)
    (ss_data s) (ss_env s).
Definition ss_with_stats (s : SRSender) (st : SRStats) : SRSender :=
  mkSRSender (ss_cfg s) st (ss_total_chunks s) (ss_mtu_bytes s)
    (ss_packets_per_chunk s) (ss_ack_base s) (ss_next_chunk_to_send s) (ss_max_inflight s)
    (ss_chunk_acked s) (ss_last_tx s) (ss_last_control_tx s) (ss_send_handle s) (ss_conn s)
    (ss_data s) (ss_env s).
Definition ss_with_last_tx (s : SRSender) (l : list Z) : SRSender :=
  mkSRSender (ss_cfg s) (ss_stats s) (ss_total_chunks s) (ss_mtu_bytes s)
    (ss_packets_per_chunk s) (ss_ack_base s) (ss_next_chunk_to_send s) (ss_max_inflight s)
    (ss_chunk_acked s) l (ss_last_control_tx s) (ss_send_handle s) (ss_conn s)
    (ss_data s) (ss_env s).
Definition ss_with_env (s : SRSender) (env : SendEnv) : SRSender :=
  mkSRSender (ss_cfg s) (ss_stats s) (ss_total_chunks s) (ss_mtu_bytes s)
    (ss_packets_per_chunk s) (ss_ack_base s) (ss_next_chunk_to_send s) (ss_max_inflight s)
    (ss_chunk_acked s) (ss_last_tx s) (ss_last_control_tx s) (ss_send_handle s) (ss_conn s)
    (ss_data s) env.
Definition ss_with_conn (s : SRSender) (c : SDRConnection) : SRSender :=
  mkSRSender (ss_cfg s) (ss_stats s) (ss_total_chunks s) (ss_mtu_bytes s)
    (ss_packets_per_chunk s) (ss_ack_base s) (ss_next_chunk_to_send s) (ss_max_inflight s)
    (ss_chunk_acked s) (ss_last_tx s) (ss_last_control_tx s) (ss_send_handle s) (Some c)
    (ss_data s) (ss_env s).

(** [steady_clock::now()]. *)
Definition ss_now (s : SRSender) : Z * SRSender :=
  let '(now, env) := clock_now (ss_env s) in (now, ss_with_env s env).

(** ** Sending again *)

(** The packet [send_packets_range] builds: [None] undefined, [Some None] when
    [create_data_packet] refuses. *)
Definition range_packet (s : SRSender) (params : ConnectionParams) (h : SDRSendHandle)
    (packet_offset data_offset : Z) : option (option SDRPacket) :=
  let remaining := sh_buffer_size h -u64 data_offset in
  let packet_data_len := Z.min (ss_mtu_bytes s) remaining in
  let packet_data_len :=
    if packet_data_len >? MAX_PAYLOAD_SIZE then MAX_PAYLOAD_SIZE else packet_data_len in
  if Z.of_nat (length (ss_data s)) <? data_offset then None else
  packet ← create_data_packet (prm_transfer_id params) (sh_msg_id h) packet_offset
    (ss_packets_per_chunk s) (drop (Z.to_nat data_offset) (ss_data s)) packet_data_len;
  Some (option_map set_chunk_seq packet).

(** The loop of [send_packets_range] over the values of [i]: what is handed to
    [sendto]. *)
Fixpoint send_range_loop (s : SRSender) (params : ConnectionParams) (h : SDRSendHandle)
    (start_packet : Z) (indices : list Z) : option (list (Z * list Z)) :=
  match indices with
  | [] => Some []
  | i :: indices =>
      let packet_offset := start_packet +u32 i in
      let data_offset := packet_offset *u64 ss_mtu_bytes s in
      if data_offset >=? sh_buffer_size h then Some [] else
      packet ← range_packet s params h packet_offset data_offset;
      rest ← send_range_loop s params h start_packet indices;
      Some (match packet with
            | None => rest
            | Some p => (prm_udp_server_port params, packet_datagram p) :: rest
            end)
  end.

Definition send_packets_range (s : SRSender) (start_packet packet_count : Z) : option SRSender :=
  match ss_conn s, ss_send_handle s with
  | Some conn, Some h =>
      let params := cx_params (cn_connection_ctx conn) in
      let '(ok, env) := open_udp (ss_env s) in
      if negb ok then Some (ss_with_env s env) else
      datagrams ← send_range_loop s params h start_packet (zrange 0 packet_count);
      Some (ss_with_env s (ev_send env datagrams))
  | _, _ => Some s
  end.

(** [retransmit_range]; [None] also for a missing handle and a zero MTU. *)
Definition retransmit_range (s : SRSender) (start_chunk count : Z) : option SRSender :=
  h ← ss_send_handle s;
  let chunk_bytes := ss_packets_per_chunk s *u64 ss_mtu_bytes s in
  let offset := start_chunk *u64 chunk_bytes in
  let length := count *u64 chunk_bytes in
  if offset >=? sh_buffer_size h then Some s else
  let length :=
    if offset +u64 length >? sh_buffer_size h then sh_buffer_size h -u64 offset else length in
  if ss_mtu_bytes s =? 0 then None else
  let start_packet := u32 (offset / ss_mtu_bytes s) in
  let packet_count := u32 (u64 (length + ss_mtu_bytes s - 1) / ss_mtu_bytes s) in
  s ← send_packets_range s start_packet packet_count;
  let st := ss_stats s in
  let s := ss_with_stats s
    (mkSRStats (st_acks_sent st) (st_nacks_sent st) (st_retransmits st +u64 count)) in
  let '(now, s) := ss_now s in
  Some (ss_with_last_tx s
    (foldl (λ l c, <[Z.to_nat c := now]> l) (ss_last_tx s)
       (zrange start_chunk (Z.min (start_chunk +u32 count) (ss_total_chunks s))))).

(** ** Starting a send *)

(** The loop over the first chunks. *)
Definition send_initial (s : SRSender) (c : Z) : option SRSender :=
  s ← retransmit_range s c 1; Some (ss_with_next s (c + 1)).

(** The chunk tracking [start_send] sets up. *)
Definition init_tracking (s : SRSender) (conn : SDRConnection) (raw_handle : option SDRSendHandle)
    (data : list Z) (length : Z) : SRSender :=
  let params := cx_params (cn_connection_ctx conn) in
  let mtu_bytes := or_else (prm_mtu_bytes params) MAX_PAYLOAD_SIZE in
  let packets_per_chunk := or_else (prm_packets_per_chunk params) 1 in
  let chunk_bytes := mtu_bytes *u64 packets_per_chunk in
  let total_chunks := u32 (u64 (length + chunk_bytes - 1) / chunk_bytes) in
  let '(now, s) := ss_now s in
  let '(now', s) := ss_now s in
  let max_inflight := or_else (sc_max_inflight_chunks (ss_cfg s)) (u16 total_chunks) in
  let max_inflight := or_else max_inflight (u16 total_chunks) in
  mkSRSender (ss_cfg s) (ss_stats s) total_chunks mtu_bytes packets_per_chunk
    0 0 max_inflight (replicate (Z.to_nat total_chunks) false)
    (replicate (Z.to_nat total_chunks) now) now' raw_handle (Some conn) data (ss_env s).

(** [start_send]; the arguments of [sdr_send_post] are passed on. *)
Definition start_send (pad : Padding) (uninit : ControlMessage) (os : data_calls) (ps : Process)
    (s : SRSender) (conn : SDRConnection) (null_buffer : bool) (data : list Z) (length : Z)
    : option (call_result * Process * SRSender) :=
  let conn := cn_with_ctx conn (set_auto_send_data (cn_connection_ctx conn) false) in
  '(rc, ps, conn, raw_handle, wire) ← sdr_send_post pad uninit os ps conn null_buffer data length;
  match rc with
  | Blocked => Some (Blocked, ps, ss_with_conn s conn)
  | Returned code =>
      let conn := cn_with_ctx conn (set_auto_send_data (cn_connection_ctx conn) true) in
      let s := ss_with_env (ss_with_conn s conn) (ev_send (ss_env s) wire) in
      if negb (code =? 0) then Some (Returned code, ps, s) else
      let s := init_tracking s conn raw_handle data length in
      s ← foldl_opt send_initial s (zrange 0 (Z.min (ss_total_chunks s) (ss_max_inflight s)));
      Some (Returned 0, ps, s)
  end.

(** ** Acknowledgements *)

Definition guard_ms : Z := 50.

(** [if (elapsed < guard_ms) continue] of the loops that send missing chunks again. *)
Definition recently_sent (now last : Z) : bool := elapsed_ms now last <? guard_ms.

(** [retransmit_missing_from_bitmap(limit)]: its loop, [sent] chunks sent so far. *)
Fixpoint retransmit_missing_loop (now limit : Z) (chunks : list Z) (sent : Z) (s : SRSender)
    : option SRSender :=
  match chunks with
  | [] => Some s
  | c :: chunks =>
      if sent >=? limit then Some s else
      acked ← ss_chunk_acked s !! Z.to_nat c;
      if acked : bool then retransmit_missing_loop now limit chunks sent s else
      last ← ss_last_tx s !! Z.to_nat c;
      if recently_sent now last then retransmit_missing_loop now limit chunks sent s else
      s ← retransmit_range s c 1;
      retransmit_missing_loop now limit chunks (sent + 1) s
  end.

Definition retransmit_missing_from_bitmap (s : SRSender) (limit : Z) : option SRSender :=
  let '(now, s) := ss_now s in
  retransmit_missing_loop now limit (zrange 0 (ss_total_chunks s)) 0 s.

(** The lambda [apply_bitmap]. *)
Definition sr_apply_bitmap (s : SRSender) (msg : ControlMessage) : option SRSender :=
  acked ← apply_bitmap 8 (ss_total_chunks s) msg (ss_chunk_acked s);
  Some (ss_with_acked s acked).

(** The cumulative acknowledgement, carried in [max_inflight]. *)
Definition apply_cumulative (s : SRSender) (cum_chunk : Z) : SRSender :=
  if cum_chunk =? UINT32_MAX then s else
  let s := if cum_chunk + 1 >? ss_ack_base s then ss_with_base s (cum_chunk + 1) else s in
  ss_with_acked s
    (foldl (λ l c, <[Z.to_nat c := true]> l) (ss_chunk_acked s)
       (zrange 0 (Z.min (cum_chunk + 1) (ss_total_chunks s)))).

(** A reported gap, chunk by chunk: how many chunks were sent up to there. *)
Fixpoint retransmit_gap (limit : Z) (chunks : list Z) (sent : Z) (s : SRSender)
    : option (Z * SRSender) :=
  match chunks with
  | [] => Some (sent, s)
  | c :: chunks =>
      if sent >=? limit then Some (sent, s) else
      acked ← ss_chunk_acked s !! Z.to_nat c;
      if acked : bool then retransmit_gap limit chunks sent s else
      let '(now, s) := ss_now s in
      last ← ss_last_tx s !! Z.to_nat c;
      if recently_sent now last then retransmit_gap limit chunks sent s else
      s ← retransmit_range s c 1;
      retransmit_gap limit chunks (sent + 1) s
  end.

(** The chunks of gap [i] of a message. *)
Definition gap_chunks (msg : ControlMessage) (total i : Z) : option (list Z) :=
  gs ← cm_gap_start msg !! Z.to_nat i;
  gl ← cm_gap_len msg !! Z.to_nat i;
  Some (zrange gs (Z.min (gs +u32 gl) total)).

(** The walk over the gaps; reading past the end of [gap_start] is undefined. *)
Fixpoint retransmit_gaps (limit : Z) (msg : ControlMessage) (gaps : list Z) (sent : Z)
    (s : SRSender) : option SRSender :=
  match gaps with
  | [] => Some s
  | i :: gaps =>
      if sent >=? limit then Some s else
      chunks ← gap_chunks msg (ss_total_chunks s) i;
      '(sent, s) ← retransmit_gap limit chunks sent s;
      retransmit_gaps limit msg gaps sent s
  end.

(** New chunks while the window allows. *)
Fixpoint send_window_loop (fuel : nat) (s : SRSender) : option SRSender :=
  match fuel with
  | O => None
  | S fuel =>
      let next := ss_next_chunk_to_send s in
      if (next <? ss_total_chunks s) && (next <? ss_ack_base s +u32 ss_max_inflight s) then
        acked ← ss_chunk_acked s !! Z.to_nat next;
        s ← (if acked : bool then Some s else retransmit_range s next 1);
        send_window_loop fuel (ss_with_next s (ss_next_chunk_to_send s +u32 1))
      else Some s
  end.

Definition send_window (s : SRSender) : option SRSender :=
  send_window_loop (S (Z.to_nat (ss_total_chunks s - ss_next_chunk_to_send s))) s.

Definition count_ack (s : SRSender) : SRSender :=
  let st := ss_stats s in
  ss_with_stats s (mkSRStats (st_acks_sent st +u64 1) (st_nacks_sent st) (st_retransmits st)).

Definition count_nack (s : SRSender) : SRSender :=
  let st := ss_stats s in
  ss_with_stats s (mkSRStats (st_acks_sent st) (st_nacks_sent st +u64 1) (st_retransmits st)).

(** ** The control loop *)

(** How a round of [poll] ends. *)
Inductive poll_round : Set :=
| PollReturn (code : Z) (s : SRSender)
| PollBlocked (s : SRSender)
| PollAgain (s : SRSender).

(** SR_ACK. *)
Definition on_sr_ack (s : SRSender) (msg : ControlMessage) : option poll_round :=
  let cum_chunk := prm_max_inflight (cm_params msg) in
  s ← sr_apply_bitmap s msg;
  let s := count_ack (apply_cumulative s cum_chunk) in
  s ← retransmit_missing_from_bitmap s 4;
  s ← send_window s;
  Some (if cum_chunk +u32 1 >=? prm_total_chunks (cm_params msg) then PollReturn 0 s
        else PollAgain s).

(** SR_NACK. *)
Definition on_sr_nack (s : SRSender) (msg : ControlMessage) : option poll_round :=
  s ← sr_apply_bitmap (count_nack s) msg;
  let s := apply_cumulative s (prm_max_inflight (cm_params msg)) in
  s ← retransmit_gaps 8 msg (zrange 0 (cm_num_gaps msg)) 0 s;
  s ← retransmit_missing_from_bitmap s 4;
  s ← send_window s;
  Some (PollAgain s).

Definition effective_rto_ms (cfg : SRConfig) : Z :=
  or_else (sc_rto_ms cfg) (sc_base_rtt_ms cfg +u32 sc_alpha_ms cfg).

(** The pass over the chunks after a failed receive. *)
Definition rto_step (now : Z) (s : SRSender) (c : Z) : option SRSender :=
  acked ← ss_chunk_acked s !! Z.to_nat c;
  if acked : bool then Some s else
  last ← ss_last_tx s !! Z.to_nat c;
  if elapsed_ms now last >? effective_rto_ms (ss_cfg s) then
    s ← retransmit_range s c 1;
    Some (ss_with_last_tx s (<[Z.to_nat c := now]> (ss_last_tx s)))
  else Some s.

Definition rto_pass (s : SRSender) : option SRSender :=
  let '(now, s) := ss_now s in
  foldl_opt (rto_step now) s (zrange 0 (ss_total_chunks s)).

(** [sdr_send_poll] on the sender's connection, and what [poll] does with its
    answer: return 0, or go on with [k]. *)
Definition ask_send_poll (uninit : ControlMessage) (s : SRSender) (conn : SDRConnection)
    (k : SRSender → option poll_round) : option poll_round :=
  let '(rc, conn) := sdr_send_poll uninit conn in
  let s := ss_with_conn s conn in
  match rc with
  | Blocked => Some (PollBlocked s)
  | Returned rc => if rc =? 0 then Some (PollReturn 0 s) else k s
  end.

(** A control message of any type. *)
Definition on_message (uninit : ControlMessage) (s : SRSender) (conn : SDRConnection)
    (msg : ControlMessage) : option poll_round :=
  if msg_is msg SR_ACK then on_sr_ack s msg
  else if msg_is msg SR_NACK then on_sr_nack s msg
  else if msg_is msg COMPLETE_ACK then Some (PollReturn 0 (count_ack s))
  else if msg_is msg INCOMPLETE_NACK then Some (PollReturn (-1) s)
  else ask_send_poll uninit s conn (λ s, Some (PollAgain s)).

(** A round of the [while (true)] of [poll]. *)
Definition poll_once_round (uninit : ControlMessage) (s : SRSender) : option poll_round :=
  conn ← ss_conn s;
  client ← cn_tcp_client conn;
  match ep_receive client uninit with
  | None => Some (PollBlocked s)
  | Some (ok, msg, client) =>
      let conn := cn_with_client conn client in
      let s := ss_with_conn s conn in
      if negb ok then
        ask_send_poll uninit s conn (λ s, s ← rto_pass s; Some (PollAgain s))
      else on_message uninit s conn msg
  end.

(** The loop; the result is [None] when the fuel is used up. *)
Fixpoint poll_loop (uninit : ControlMessage) (fuel : nat) (s : SRSender)
    : option (option call_result * SRSender) :=
  match fuel with
  | O => Some (None, s)
  | S fuel =>
      round ← poll_once_round uninit s;
      match round with
      | PollReturn code s => Some (Some (Returned code), s)
      | PollBlocked s => Some (Some Blocked, s)
      | PollAgain s => poll_loop uninit fuel s
      end
  end.

(** What is left to read on the sender's control connection. *)
Definition ss_input (s : SRSender) : list recv_event :=
  match ss_conn s with
  | Some c => match cn_tcp_client c with Some t => ep_input t | None => [] end
  | None => []
  end.

(** [poll]: each round consumes input, so its size bounds the rounds. *)
Definition poll (uninit : ControlMessage) (s : SRSender)
    : option (option call_result * SRSender) :=
  match ss_send_handle s, ss_conn s with
  | Some _, Some conn =>
      match cn_tcp_client conn with
      | Some _ => poll_loop uninit (S (S (input_size (ss_input s)))) s
      | None => Some (Some (Returned (-1)), s)
      end
  | _, _ => Some (Some (Returned (-1)), s)
  end.

(** The chunks a message reports as missing, in the order of its gaps. *)
Definition reported_gaps (total : Z) (msg : ControlMessage) (gaps : list Z) : list Z :=
  concat ((λ i, default [] (gap_chunks msg total i)) <$> gaps).

(** ** Messages that may be handled *)

(** Control messages whose arrays are as the struct declares them and whose gap
    count is not above the length of the gap arrays. *)
Record msg_ok (msg : ControlMessage) : Prop := {
  mo_bitmap : List.length (cm_chunk_bitmap msg) = 16%nat;
  mo_gap_start : List.length (cm_gap_start msg) = 16%nat;
  mo_gap_len : List.length (cm_gap_len msg) = 16%nat;
  mo_starts : Forall (λ x, 0 ≤ x) (cm_gap_start msg);
  mo_cumulative : 0 ≤ prm_max_inflight (cm_params msg);
  mo_num_gaps : cm_num_gaps msg ≤ 16
}.

Lemma wf_message_ok m : wf_message m → cm_num_gaps m ≤ 16 → msg_ok m.
Proof.
  intros Hwf Hn. constructor; try apply Hwf; try done.
  eapply Forall_impl; [apply (wfm_gap_start _ Hwf)|]. by intros x [? _].
Qed.

Lemma gap_chunks_ok total msg i : msg_ok msg → 0 ≤ i < 16 →
  ∃ chunks, gap_chunks msg total i = Some chunks ∧ Forall (λ c, 0 ≤ c < total) chunks.
Proof.
  intros [_ H1 H2 H3 _ _] Hi. unfold gap_chunks.
  destruct (lookup_lt_is_Some_2 (cm_gap_start msg) (Z.to_nat i) ltac:(lia)) as [gs Hgs].
  destruct (lookup_lt_is_Some_2 (cm_gap_len msg) (Z.to_nat i) ltac:(lia)) as [gl Hgl].
  rewrite Hgs, Hgl. cbn [mbind option_bind]. eexists. split; [done|].
  rewrite Forall_lookup in H3. pose proof (H3 _ _ Hgs).
  apply Forall_forall. intros c Hc%elem_of_zrange. lia.
Qed.

Lemma message_gaps msg : msg_ok msg → Forall (λ i, 0 ≤ i < 16) (zrange 0 (cm_num_gaps msg)).
Proof.
  intros Hm. apply Forall_forall. intros i Hi%elem_of_zrange. pose proof (mo_num_gaps _ Hm). lia.
Qed.

Lemma reported_gaps_range total msg gaps : msg_ok msg → Forall (λ i, 0 ≤ i < 16) gaps →
  Forall (λ c, 0 ≤ c < total) (reported_gaps total msg gaps).
Proof.
  intros Hm. induction 1 as [|i gaps Hi _ IH]; [done|]. unfold reported_gaps in *. cbn.
  apply Forall_app. split; [|done].
  destruct (gap_chunks_ok total msg i Hm Hi) as (chunks & -> & ?). done.
Qed.

(** ** What holds of a sender that has started *)

Section Started.
Context (params : ConnectionParams) (msg_id : Z) (data : list Z) (length : Z).
Context (Hsend : sendable params data length) (Hid : 0 ≤ msg_id < 1024).
Context (Hfits : total_packets_of params length ≤ 262144).

Notation total := (total_chunks_of params length).
Notation chunk_wire := (chunk_wire params msg_id data length).

Record sr_ok (s : SRSender) : Prop := {
  sro_handle : ∃ h, ss_send_handle s = Some h ∧ sh_msg_id h = msg_id ∧ sh_buffer_size h = length;
  sro_conn : ∃ conn client, ss_conn s = Some conn ∧ cx_params (cn_connection_ctx conn) = params ∧
    cn_tcp_client conn = Some client;
  sro_data : ss_data s = data;
  sro_total : ss_total_chunks s = total;
  sro_mtu : ss_mtu_bytes s = prm_mtu_bytes params;
  sro_ppc : ss_packets_per_chunk s = prm_packets_per_chunk params;
  sro_acked : Z.of_nat (List.length (ss_chunk_acked s)) = total;
  sro_last : Z.of_nat (List.length (ss_last_tx s)) = total;
  sro_next : 0 ≤ ss_next_chunk_to_send s ≤ total;
  sro_env : wf_env (ss_env s)
}.

(** Chunk [c] is one of the message the sender has no acknowledgement for. *)
Definition unacked (s : SRSender) (c : Z) : Prop :=
  0 ≤ c < total ∧ acked_at (ss_chunk_acked s) c = false.

(** [s'] is [s] after the chunks [cs] were sent again, in this order. *)
Record resent (cs : list Z) (s s' : SRSender) : Prop := {
  rs_cfg : ss_cfg s' = ss_cfg s;
  rs_conn : ss_conn s' = ss_conn s;
  rs_acked : ss_chunk_acked s' = ss_chunk_acked s;
  rs_base : ss_ack_base s' = ss_ack_base s;
  rs_max : ss_max_inflight s' = ss_max_inflight s;
  rs_time : next_reading (ss_env s) ≤ next_reading (ss_env s');
  rs_chunks : Forall (unacked s) cs;
  rs_wire : ∃ w, ev_wire (ss_env s') = ev_wire (ss_env s) ++ w ∧
    (∀ x, x ∈ w → ∃ c, c ∈ cs ∧ x ∈ chunk_wire c) ∧
    (ev_sockets (ss_env s) = [] → ev_sockets (ss_env s') = [] ∧ w = concat (chunk_wire <$> cs));
  rs_last : ∀ c, 0 ≤ c → c ∉ cs → ss_last_tx s' !! Z.to_nat c = ss_last_tx s !! Z.to_nat c
}.

Lemma resent_refl s : resent [] s s.
Proof.
  constructor; try done. exists []. rewrite app_nil_r. split_and!; [done| |done].
  by intros x ?%not_elem_of_nil.
Qed.

Lemma resent_trans cs cs' s s' s'' : resent cs s s' → resent cs' s' s'' → resent (cs ++ cs') s s''.
Proof.
  intros [H1 H2 H3 H4 H5 H6 H7 (w & Hw & Hin & Hex) H9]
    [K1 K2 K3 K4 K5 K6 K7 (w' & Kw & Kin & Kex) K9]. constructor; try congruence; try lia.
  - apply Forall_app. split; [done|]. eapply Forall_impl; [exact K7|].
    intros c Hc. unfold unacked in *. by rewrite <-H3.
  - exists (w ++ w'). split_and!.
    + by rewrite Kw, Hw, app_assoc.
    + intros x [(c & ? & ?)%Hin|(c & ? & ?)%Kin]%elem_of_app; exists c; (split; [|done]);
        apply elem_of_app; auto.
    + intros [E ->]%Hex. apply Kex in E as [? ->]. split; [done|].
      by rewrite fmap_app, concat_app.
  - intros c Hc Hn. rewrite K9, H9; [done|done| |done|]; set_solver.
Qed.

(** A step that touches no more than the clock. *)
Lemma resent_now s : wf_env (ss_env s) → ∃ s', ss_now s = (next_reading (ss_env s), s') ∧ resent [] s s' ∧
  wf_env (ss_env s') ∧ s' = ss_with_env s (ss_env s') ∧ ev_wire (ss_env s') = ev_wire (ss_env s) ∧
  ev_sockets (ss_env s') = ev_sockets (ss_env s).
Proof.
  intros Hw. exists (snd (ss_now s)). unfold ss_now, clock_now. split; [reflexivity|]. split_and!; try done.
  - constructor; try done; cbn.
    + by apply next_reading_tick.
    + exists []. rewrite app_nil_r. split_and!; [done| |done]. by intros x ?%not_elem_of_nil.
  - cbn. unfold wf_env in *. cbn. destruct (ev_ticks (ss_env s)); [done|].
    by apply Forall_cons in Hw as [_ ?].
Qed.

Lemma acked_lookup s c : sr_ok s → 0 ≤ c < total →
  ss_chunk_acked s !! Z.to_nat c = Some (acked_at (ss_chunk_acked s) c).
Proof. intros Hs Hc. apply acked_at_lookup. rewrite (sro_acked s Hs). lia. Qed.

Lemma last_lookup s c : sr_ok s → 0 ≤ c < total → is_Some (ss_last_tx s !! Z.to_nat c).
Proof. intros Hs Hc. apply lookup_lt_is_Some_2. pose proof (sro_last s Hs). lia. Qed.

(** The packet of the retransmission is the one of the first transmission. *)
Lemma range_packet_eq s h i : sr_ok s → sh_msg_id h = msg_id → sh_buffer_size h = length →
  0 ≤ i < total_packets_of params length →
  range_packet s params h i (i * prm_mtu_bytes params) =
    Some (Some (built_packet params msg_id data length i)).
Proof.
  intros Hs Hh1 Hh2 Hi.
  destruct (data_packet_eq params msg_id data length i Hsend Hid Hi) as (p & Hp & _).
  unfold built_packet. rewrite Hp, <-Hp. unfold range_packet, data_packet.
  destruct (geometry_pos _ _ _ Hsend) as (?&?&?).
  pose proof (proj1 (packet_starts _ _ _ Hsend i ltac:(lia)) (proj2 Hi)).
  assert (0 ≤ i * prm_mtu_bytes params) by nia.
  rewrite (sro_mtu s Hs), (sro_ppc s Hs), (sro_data s Hs), Hh1, Hh2.
  by rewrite (u32_small i), (u64_small (i * prm_mtu_bytes params)) by lia.
Qed.

Lemma send_range_loop_eq s h start indices : sr_ok s → sh_msg_id h = msg_id → sh_buffer_size h = length →
  Forall (λ i, 0 ≤ start + i < total_packets_of params length) indices →
  send_range_loop s params h start indices =
    Some ((λ i, (prm_udp_server_port params,
                 packet_datagram (built_packet params msg_id data length (start + i)))) <$> indices).
Proof.
  intros Hs Hh1 Hh2 Hin. destruct (geometry_pos _ _ _ Hsend) as (?&?&?).
  induction Hin as [|i indices Hi _ IH]; [done|]. cbn [send_range_loop].
  rewrite (u32_small (start + i)) by lia. rewrite (sro_mtu s Hs), Hh2.
  pose proof (proj1 (packet_starts _ _ _ Hsend (start + i) ltac:(lia)) (proj2 Hi)).
  rewrite (u64_small (_ * _)) by nia. rewrite Z.geb_leb, (proj2 (Z.leb_gt _ _)) by lia.
  rewrite range_packet_eq by done. cbn [mbind option_bind]. by rewrite IH.
Qed.

(** The number of packets [retransmit_range] computes for a chunk. *)
Lemma packet_count_eq c : 0 ≤ c < total →
  let mtu := prm_mtu_bytes params in
  let offset := c * chunk_bytes_of params in
  let len := if offset + chunk_bytes_of params >? length then length - offset
             else chunk_bytes_of params in
  (len + mtu - 1) / mtu =
    Z.min (prm_packets_per_chunk params) (total_packets_of params length - c * prm_packets_per_chunk params).
Proof.
  intros Hc mtu offset len. destruct (geometry_pos _ _ _ Hsend) as (Hm&Hp&Hl).
  pose proof (proj1 (chunk_starts _ _ _ Hsend c ltac:(lia)) (proj2 Hc)) as Hlt.
  unfold chunk_bytes_of in *. set (ppc := prm_packets_per_chunk params) in *. fold mtu in Hm, Hlt, offset.
  assert (total_packets_of params length = c * ppc + (length - offset + mtu - 1) / mtu) as ->.
  { unfold total_packets_of. fold mtu.
    replace (length + mtu - 1) with (length - offset + mtu - 1 + (c * ppc) * mtu) by (subst offset; nia).
    rewrite Z.div_add by lia. lia. }
  replace (c * ppc + _ - c * ppc) with ((length - offset + mtu - 1) / mtu) by lia.
  assert ((mtu * ppc + mtu - 1) / mtu = ppc) as Hfull.
  { replace (mtu * ppc + mtu - 1) with (mtu - 1 + ppc * mtu) by lia.
    rewrite Z.div_add, Z.div_small by lia. lia. }
  subst len. fold mtu. rewrite Z.gtb_ltb. destruct (Z.ltb_spec length (offset + mtu * ppc)).
  - rewrite Z.min_r; [done|]. rewrite <-Hfull. apply Z.div_le_mono; lia.
  - rewrite Hfull, Z.min_l; [done|]. rewrite <-Hfull at 1. apply Z.div_le_mono; lia.
Qed.

Lemma send_packets_range_eq s c : sr_ok s → 0 ≤ c < total →
  let start := c * prm_packets_per_chunk params in
  ∃ s' w, send_packets_range s start
      (Z.min (prm_packets_per_chunk params) (total_packets_of params length - start)) = Some s' ∧
    s' = ss_with_env s (ev_send (snd (open_udp (ss_env s))) w) ∧
    (∀ x, x ∈ w → x ∈ chunk_wire c) ∧ (ev_sockets (ss_env s) = [] → w = chunk_wire c).
Proof.
  intros Hs Hc start. destruct (sro_conn s Hs) as (conn & client & Hconn & Hpar & _).
  destruct (sro_handle s Hs) as (h & Hh & Hh1 & Hh2).
  destruct (geometry_pos _ _ _ Hsend) as (Hm&Hp&Hl).
  unfold send_packets_range. rewrite Hconn, Hh, Hpar. unfold open_udp.
  destruct (hd true (ev_sockets (ss_env s))) eqn:Hhd; cbn [negb].
  - rewrite send_range_loop_eq; [|done..|].
    2: { apply Forall_forall. intros i Hi%elem_of_zrange. subst start. nia. }
    cbn [mbind option_bind]. eexists _, (chunk_wire c). split; [|split; [reflexivity|done]].
    do 3 f_equal. unfold Resend.chunk_wire, packets_of_chunk. fold start.
    replace (Z.min ((c + 1) * prm_packets_per_chunk params) (total_packets_of params length))
      with (start + Z.min (prm_packets_per_chunk params) (total_packets_of params length - start))
      by (subst start; lia).
    rewrite zrange_shift, <-list_fmap_compose. done.
  - eexists _, []. split; [|split; [reflexivity|]].
    + unfold ev_send. cbn. by rewrite app_nil_r.
    + split; [by intros x ?%not_elem_of_nil|]. intros E. by rewrite E in Hhd.
Qed.

(** Sending a chunk again: its datagrams and nothing else, and its time. *)
Lemma retransmit_range_eq s c : sr_ok s → unacked s c →
  ∃ s', retransmit_range s c 1 = Some s' ∧ sr_ok s' ∧ resent [c] s s' ∧
    ss_next_chunk_to_send s' = ss_next_chunk_to_send s ∧
    ss_last_tx s' !! Z.to_nat c = Some (ev_time (ss_env s')).
Proof.
  intros Hs [Hc Hacked]. destruct (sro_handle s Hs) as (h & Hh & Hh1 & Hh2).
  destruct (geometry_pos _ _ _ Hsend) as (Hm&Hp&Hl).
  pose proof (chunk_bytes_pos _ _ _ Hsend) as Hcb.
  pose proof (proj1 (chunk_starts _ _ _ Hsend c ltac:(lia)) (proj2 Hc)) as Hlt.
  pose proof (proj1 (chunk_has_packet _ _ _ Hsend c ltac:(lia)) (proj2 Hc)) as Hlp.
  unfold retransmit_range. rewrite Hh. cbn [mbind option_bind].
  rewrite (sro_mtu s Hs), (sro_ppc s Hs), Hh2.
  rewrite (Z.mul_comm (prm_packets_per_chunk params)). fold (chunk_bytes_of params).
  rewrite (u64_small (chunk_bytes_of params)) by lia.
  rewrite (u64_small (c * _)) by nia. rewrite Z.mul_1_l, (u64_small (chunk_bytes_of params)) by lia.
  rewrite Z.geb_leb, (proj2 (Z.leb_gt _ _)) by lia.
  rewrite (u64_small (c * chunk_bytes_of params + _)) by nia.
  rewrite (u64_small (length - _)) by nia.
  rewrite (proj2 (Z.eqb_neq _ _)) by lia.
  pose proof (packet_count_eq c Hc) as Hcount. cbv zeta in Hcount.
  rewrite (u64_small (_ + prm_mtu_bytes params - 1)), Hcount.
  2: { case_bool; unfold MAX_PAYLOAD_SIZE, sizeof_SDRPacketHeader in *; nia. }
  assert (c * chunk_bytes_of params / prm_mtu_bytes params = c * prm_packets_per_chunk params) as ->.
  { unfold chunk_bytes_of. replace (c * (prm_mtu_bytes params * prm_packets_per_chunk params))
      with (c * prm_packets_per_chunk params * prm_mtu_bytes params) by lia.
    apply Z.div_mul. lia. }
  rewrite !u32_small by nia.
  destruct (send_packets_range_eq s c Hs Hc) as (s1 & w & -> & -> & Hin & Hex).
  cbn [mbind option_bind]. unfold ss_now, clock_now. cbv zeta.
  eexists. split; [reflexivity|].
  cbn [ss_with_env ss_with_stats ss_with_last_tx ss_env ss_last_tx ss_total_chunks ev_send open_udp
    ss_chunk_acked ss_cfg ss_conn ss_ack_base ss_max_inflight ss_next_chunk_to_send
    ev_time ev_wire ev_sockets ev_ticks snd].
  rewrite (sro_total s Hs).
  replace (Z.min (c + 1) total) with (c + 1) by lia.
  rewrite zrange_cons, zrange_nil by lia. cbn [foldl].
  pose proof (sro_env s Hs) as Henv. unfold wf_env in Henv.
  split_and!.
  - destruct Hs as [S1 S2 S3 S4 S5 S6 S7 S8 S9 S10]. constructor; try done; cbn.
    + by rewrite length_insert.
    + unfold wf_env. cbn. destruct (ev_ticks (ss_env s)); [done|by apply Forall_cons in Henv as [_ ?]].
  - constructor; try done; cbn.
    + by apply (next_reading_tick (ss_env s)).
    + by apply Forall_singleton.
    + exists w. split; [done|]. split.
      { intros x Hx. exists c. split; [by apply list_elem_of_singleton|by apply Hin]. }
      intros E. split; [by rewrite E|]. rewrite Hex by done. by rewrite app_nil_r.
    + intros c' Hc' Hn. apply list_lookup_insert_ne. rewrite list_elem_of_singleton in Hn. lia.
  - done.
  - apply list_lookup_insert_eq. pose proof (sro_last s Hs). lia.
Qed.

(** *** The loops that send missing chunks again *)

(** A step that may send chunks again and keeps the window. *)
Definition resends (s s' : SRSender) : Prop :=
  sr_ok s' ∧ ss_next_chunk_to_send s' = ss_next_chunk_to_send s ∧ ∃ cs, resent cs s s'.

Lemma resends_refl s : sr_ok s → resends s s.
Proof. intros Hs. split_and!; [done|done|]. exists []. apply resent_refl. Qed.

Lemma resends_trans s s' s'' : resends s s' → resends s' s'' → resends s s''.
Proof.
  intros (H1 & H2 & cs & H3) (K1 & K2 & cs' & K3). split_and!; [done|congruence|].
  exists (cs ++ cs'). by eapply resent_trans.
Qed.

Lemma resends_now s : sr_ok s → ∃ now s', ss_now s = (now, s') ∧ resends s s'.
Proof.
  intros Hs. destruct (resent_now s (sro_env s Hs)) as (s' & Hn & Hr & Hw & E & _).
  exists (next_reading (ss_env s)), s'. split; [done|]. rewrite E in *.
  destruct Hs. split_and!; [by constructor|done|by exists []].
Qed.

Lemma resends_range s c : sr_ok s → 0 ≤ c < total → acked_at (ss_chunk_acked s) c = false →
  ∃ s', retransmit_range s c 1 = Some s' ∧ resends s s'.
Proof.
  intros Hs Hc Ha. destruct (retransmit_range_eq s c Hs (conj Hc Ha)) as (s' & H & Hs' & Hr & Hn & _).
  exists s'. split; [done|]. split_and!; [done|done|by exists [c]].
Qed.

Lemma retransmit_missing_loop_ok now limit chunks : ∀ sent s, sr_ok s →
  Forall (λ c, 0 ≤ c < total) chunks →
  ∃ s', retransmit_missing_loop now limit chunks sent s = Some s' ∧ resends s s'.
Proof.
  induction chunks as [|c chunks IH]; intros sent s Hs Hin; cbn [retransmit_missing_loop].
  { exists s. split; [done|by apply resends_refl]. }
  apply Forall_cons in Hin as [Hc Hin].
  destruct (sent >=? limit); [exists s; split; [done|by apply resends_refl]|].
  rewrite acked_lookup by done. cbn [mbind option_bind].
  destruct (acked_at (ss_chunk_acked s) c) eqn:Ha; [by apply IH|].
  destruct (last_lookup s c Hs Hc) as [l ->]. cbn [mbind option_bind].
  destruct (recently_sent now l); [by apply IH|].
  destruct (resends_range s c Hs Hc Ha) as (s1 & -> & H1). cbn [mbind option_bind].
  destruct (IH (sent + 1) s1 (proj1 H1) Hin) as (s' & -> & H2).
  exists s'. split; [done|by eapply resends_trans].
Qed.

Lemma chunks_in_range : Forall (λ c, 0 ≤ c < total) (zrange 0 total).
Proof. apply Forall_forall. intros c Hc%elem_of_zrange. lia. Qed.

Lemma retransmit_missing_ok s limit : sr_ok s →
  ∃ s', retransmit_missing_from_bitmap s limit = Some s' ∧ resends s s'.
Proof.
  intros Hs. unfold retransmit_missing_from_bitmap.
  destruct (resends_now s Hs) as (now & s1 & -> & H1).
  rewrite (sro_total s1 (proj1 H1)).
  destruct (retransmit_missing_loop_ok now limit _ 0 s1 (proj1 H1) chunks_in_range) as (s' & -> & H2).
  exists s'. split; [done|by eapply resends_trans].
Qed.

Lemma retransmit_gap_ok limit chunks : ∀ sent s, sr_ok s → Forall (λ c, 0 ≤ c < total) chunks →
  ∃ sent' s', retransmit_gap limit chunks sent s = Some (sent', s') ∧ resends s s'.
Proof.
  induction chunks as [|c chunks IH]; intros sent s Hs Hin; cbn [retransmit_gap].
  { exists sent, s. split; [done|by apply resends_refl]. }
  apply Forall_cons in Hin as [Hc Hin].
  destruct (sent >=? limit); [exists sent, s; split; [done|by apply resends_refl]|].
  rewrite acked_lookup by done. cbn [mbind option_bind].
  destruct (acked_at (ss_chunk_acked s) c) eqn:Ha; [by apply IH|].
  destruct (resends_now s Hs) as (now & s1 & -> & H1).
  destruct (last_lookup s1 c (proj1 H1) Hc) as [l ->]. cbn [mbind option_bind].
  assert (acked_at (ss_chunk_acked s1) c = false) as Ha1.
  { destruct H1 as (_ & _ & cs & Hr). by rewrite (rs_acked _ _ _ Hr). }
  destruct (recently_sent now l).
  - destruct (IH sent s1 (proj1 H1) Hin) as (sent' & s' & -> & H2).
    exists sent', s'. split; [done|by eapply resends_trans].
  - destruct (resends_range s1 c (proj1 H1) Hc Ha1) as (s2 & -> & H2). cbn [mbind option_bind].
    destruct (IH (sent + 1) s2 (proj1 H2) Hin) as (sent' & s' & -> & H3).
    exists sent', s'. split; [done|]. by eapply resends_trans, resends_trans.
Qed.

Lemma retransmit_gaps_ok limit msg gaps : msg_ok msg → Forall (λ i, 0 ≤ i < 16) gaps →
  ∀ sent s, sr_ok s → ∃ s', retransmit_gaps limit msg gaps sent s = Some s' ∧ resends s s'.
Proof.
  intros Hm. induction gaps as [|i gaps IH]; intros Hg sent s Hs; cbn [retransmit_gaps].
  { exists s. split; [done|by apply resends_refl]. }
  apply Forall_cons in Hg as [Hi Hg].
  destruct (sent >=? limit); [exists s; split; [done|by apply resends_refl]|].
  rewrite (sro_total s Hs).
  destruct (gap_chunks_ok total msg i Hm Hi) as (chunks & -> & Hc). cbn [mbind option_bind].
  destruct (retransmit_gap_ok limit chunks sent s Hs Hc) as (sent' & s1 & -> & H1).
  cbn [mbind option_bind]. destruct (IH Hg sent' s1 (proj1 H1)) as (s' & -> & H2).
  exists s'. split; [done|by eapply resends_trans].
Qed.

Lemma rto_step_ok now s c : sr_ok s → 0 ≤ c < total →
  ∃ s', rto_step now s c = Some s' ∧ resends s s'.
Proof.
  intros Hs Hc. unfold rto_step. rewrite acked_lookup by done. cbn [mbind option_bind].
  destruct (acked_at (ss_chunk_acked s) c) eqn:Ha.
  { exists s. split; [done|by apply resends_refl]. }
  destruct (last_lookup s c Hs Hc) as [l ->]. cbn [mbind option_bind].
  destruct (_ >? _); [|exists s; split; [done|by apply resends_refl]].
  destruct (retransmit_range_eq s c Hs (conj Hc Ha)) as (s1 & -> & Hs1 & Hr & Hn & _).
  cbn [mbind option_bind]. eexists. split; [done|]. split_and!.
  - destruct Hs1 as [S1 S2 S3 S4 S5 S6 S7 S8 S9 S10]. constructor; try done. cbn.
    by rewrite length_insert.
  - done.
  - exists [c]. destruct Hr as [R1 R2 R3 R4 R5 R6 R7 R8 R9]. constructor; try done. cbn.
    intros c' Hc' Hn'. rewrite list_lookup_insert_ne; [by apply R9|].
    rewrite list_elem_of_singleton in Hn'. lia.
Qed.

Lemma rto_pass_ok s : sr_ok s → ∃ s', rto_pass s = Some s' ∧ resends s s'.
Proof.
  intros Hs. unfold rto_pass. destruct (resends_now s Hs) as (now & s1 & -> & H1).
  rewrite (sro_total s1 (proj1 H1)).
  enough (∀ l s, sr_ok s → Forall (λ c, 0 ≤ c < total) l →
    ∃ s', foldl_opt (rto_step now) s l = Some s' ∧ resends s s') as H.
  { destruct (H _ s1 (proj1 H1) chunks_in_range) as (s' & -> & H2).
    exists s'. split; [done|by eapply resends_trans]. }
  clear s Hs s1 H1. intros l. induction l as [|c l IH]; intros s Hs Hl; cbn [foldl_opt].
  { exists s. split; [done|by apply resends_refl]. }
  apply Forall_cons in Hl as [Hc Hl].
  destruct (rto_step_ok now s c Hs Hc) as (s1 & -> & H1). cbn [mbind option_bind].
  destruct (IH s1 (proj1 H1) Hl) as (s' & -> & H2). exists s'. split; [done|by eapply resends_trans].
Qed.

(** *** The window *)

(** A step that may send chunks again and may move the window. *)
Definition progress (s s' : SRSender) : Prop := sr_ok s' ∧ ∃ cs, resent cs s s'.

Lemma resends_progress s s' : resends s s' → progress s s'.
Proof. intros (? & _ & ?). by split. Qed.

Lemma progress_trans s s' s'' : progress s s' → progress s' s'' → progress s s''.
Proof.
  intros (_ & cs & H) (? & cs' & K). split; [done|]. exists (cs ++ cs'). by eapply resent_trans.
Qed.

Lemma progress_next s n : sr_ok s → 0 ≤ n ≤ total → progress s (ss_with_next s n).
Proof.
  intros Hs Hn. split; [destruct Hs; by constructor|]. exists [].
  destruct (resent_refl s). by constructor.
Qed.

(** End of the window: where [send_window] stops. *)
Definition window_end (s : SRSender) : Z :=
  Z.max (ss_next_chunk_to_send s) (Z.min total (ss_ack_base s +u32 ss_max_inflight s)).

Lemma send_window_loop_ok fuel : ∀ s, sr_ok s → total - ss_next_chunk_to_send s < Z.of_nat fuel →
  ∃ s', send_window_loop fuel s = Some s' ∧ progress s s' ∧ ss_next_chunk_to_send s' = window_end s.
Proof.
  induction fuel as [|fuel IH]; intros s Hs Hf; [pose proof (sro_next s Hs); lia|].
  cbn [send_window_loop]. rewrite (sro_total s Hs). pose proof (sro_next s Hs) as Hn.
  pose proof (total_chunks_bound params data length Hsend) as Htot.
  destruct ((_ <? _) && (_ <? _)) eqn:Hc.
  2: { exists s. split; [done|]. split; [apply resends_progress, resends_refl, Hs|].
       unfold window_end. apply andb_false_iff in Hc as [?%Z.ltb_ge|?%Z.ltb_ge]; lia. }
  bool_to_prop. rewrite acked_lookup by (done || lia). cbn [mbind option_bind].
  set (next := ss_next_chunk_to_send s) in *.
  assert (∃ s1, (if acked_at (ss_chunk_acked s) next then Some s else retransmit_range s next 1) = Some s1
    ∧ resends s s1) as (s1 & Hs1 & H1).
  { destruct (acked_at (ss_chunk_acked s) next) eqn:Ha.
    - exists s. split; [done|by apply resends_refl].
    - apply resends_range; [done|lia|done]. }
  rewrite Hs1. cbn [mbind option_bind]. pose proof H1 as (Hok1 & Hn1 & cs & Hr1).
  rewrite Hn1. fold next. rewrite u32_small by lia.
  pose proof (progress_next s1 (next + 1) Hok1 ltac:(lia)) as H2.
  destruct (IH (ss_with_next s1 (next + 1)) (proj1 H2)) as (s' & -> & H3 & H4); [cbn; lia|].
  exists s'. split; [done|]. split.
  - eapply progress_trans; [by apply resends_progress|]. by eapply progress_trans.
  - rewrite H4. unfold window_end. cbn [ss_next_chunk_to_send ss_with_next ss_ack_base ss_max_inflight].
    rewrite (rs_base _ _ _ Hr1), (rs_max _ _ _ Hr1). fold next. lia.
Qed.

Lemma send_window_ok s : sr_ok s → ∃ s', send_window s = Some s' ∧ progress s s' ∧
  ss_next_chunk_to_send s' = window_end s.
Proof.
  intros Hs. unfold send_window. apply send_window_loop_ok; [done|].
  rewrite (sro_total s Hs). pose proof (sro_next s Hs). lia.
Qed.

(** *** Acknowledgements *)

(** What a message acknowledges: its bitmap and its cumulative number. *)
Definition reports (msg : ControlMessage) (c : Z) : bool :=
  bitmap_has 8 msg c ||
  (negb (prm_max_inflight (cm_params msg) =? UINT32_MAX) && (0 <=? c) &&
   (c <=? prm_max_inflight (cm_params msg))).

(** The acknowledged chunks become those the message reports and those before;
    nothing is sent. *)
Lemma acknowledge_ok s msg : sr_ok s → msg_ok msg →
  ∃ s', (s ← sr_apply_bitmap s msg;
         Some (apply_cumulative s (prm_max_inflight (cm_params msg)))) = Some s' ∧
    sr_ok s' ∧ ss_env s' = ss_env s ∧ ss_conn s' = ss_conn s ∧ ss_last_tx s' = ss_last_tx s ∧
    ss_cfg s' = ss_cfg s ∧
    ∀ c, 0 ≤ c < total → acked_at (ss_chunk_acked s') c = acked_at (ss_chunk_acked s) c || reports msg c.
Proof.
  intros Hs Hm. unfold sr_apply_bitmap.
  destruct (apply_bitmap_eq 8 (ss_total_chunks s) msg (ss_chunk_acked s)) as (acked & -> & Hl & Hb);
    [lia|apply Hm|by rewrite (sro_total s Hs), (sro_acked s Hs)|].
  cbn [mbind option_bind]. eexists. split; [done|].
  assert (sr_ok (ss_with_acked s acked)) as Hs1.
  { destruct Hs. constructor; try done. cbn. by rewrite Hl. }
  unfold apply_cumulative, reports. set (cum := prm_max_inflight (cm_params msg)).
  destruct (cum =? UINT32_MAX) eqn:Hcum; cbn [negb andb].
  { split_and!; try done. intros c Hc. cbn [ss_with_acked ss_chunk_acked].
    rewrite Hb, (sro_total s Hs), (proj2 (Z.ltb_lt c total)), orb_false_r by lia. apply orb_comm. }
  set (s1 := if _ >? _ then _ else _).
  assert (s1 = ss_with_base (ss_with_acked s acked) (ss_ack_base s1)) as E.
  { subst s1. by destruct (_ >? _). }
  set (base := ss_ack_base s1) in *. clearbody base. rewrite E. clear s1 E.
  split_and!; try done.
  - destruct Hs1 as [S1 S2 S3 S4 S5 S6 S7 S8 S9 S10]. constructor; try done.
    cbn [ss_with_acked ss_with_base ss_chunk_acked]. rewrite <-S7. f_equal.
    apply (length_foldl_insert (λ _, true)).
  - intros c Hc. cbn [ss_with_acked ss_with_base ss_chunk_acked ss_total_chunks].
    rewrite (acked_at_foldl (λ _, true)), Hb, Hl by lia.
    pose proof (sro_acked s Hs). rewrite (sro_total s Hs).
    rewrite (proj2 (Z.leb_le 0 c)), (proj2 (Z.ltb_lt c total)),
      (proj2 (Z.ltb_lt c (Z.of_nat _))) by lia. cbn [andb]. rewrite !andb_true_r.
    destruct (Z.leb_spec c cum), (Z.ltb_spec c (Z.min (cum + 1) total)); try lia; cbn [orb];
      by rewrite ?orb_true_r, ?orb_false_r, 1?orb_comm.
Qed.

(** *** The handlers *)

(** [s'] is [s] after a message that acknowledges [ack] and some chunks sent
    again, none of them acknowledged. *)
Record handled (ack : Z → bool) (s s' : SRSender) : Prop := {
  hd_ok : sr_ok s';
  hd_conn : ss_conn s' = ss_conn s;
  hd_cfg : ss_cfg s' = ss_cfg s;
  hd_acked : ∀ c, 0 ≤ c < total →
    acked_at (ss_chunk_acked s') c = acked_at (ss_chunk_acked s) c || ack c;
  hd_wire : ∃ cs w, Forall (unacked s') cs ∧ ev_wire (ss_env s') = ev_wire (ss_env s) ++ w ∧
    (∀ x, x ∈ w → ∃ c, c ∈ cs ∧ x ∈ chunk_wire c) ∧
    (ev_sockets (ss_env s) = [] → ev_sockets (ss_env s') = [] ∧ w = concat (chunk_wire <$> cs))
}.

(** Acknowledgements, then progress. *)
Lemma handled_progress ack s s1 s' : ss_env s1 = ss_env s → ss_conn s1 = ss_conn s →
  ss_cfg s1 = ss_cfg s →
  (∀ c, 0 ≤ c < total → acked_at (ss_chunk_acked s1) c = acked_at (ss_chunk_acked s) c || ack c) →
  progress s1 s' → handled ack s s'.
Proof.
  intros E Ec Ef Ha (Hok & cs & [R1 R2 R3 R4 R5 R6 R7 (w & Rw & Rin & Rex) R9]).
  rewrite E in *. constructor; try congruence; try done.
  - intros c Hc. rewrite R3. by apply Ha.
  - exists cs, w. split_and!; try done. eapply Forall_impl; [exact R7|].
    intros c. unfold unacked. by rewrite R3.
Qed.

Lemma sr_ok_stats s st : sr_ok s → sr_ok (ss_with_stats s st).
Proof. intros []. by constructor. Qed.

Lemma on_sr_ack_ok s msg : sr_ok s → msg_ok msg →
  ∃ s', handled (reports msg) s s' ∧
    on_sr_ack s msg = Some (if prm_max_inflight (cm_params msg) +u32 1 >=? prm_total_chunks (cm_params msg)
                            then PollReturn 0 s' else PollAgain s').
Proof.
  intros Hs Hm. destruct (acknowledge_ok s msg Hs Hm) as (s1 & H1 & Hok1 & He & Hc & Hl & Hf & Ha).
  unfold on_sr_ack. destruct (sr_apply_bitmap s msg) as [s0|]; [|done]. cbn [mbind option_bind] in *.
  injection H1 as ->. pose proof (sr_ok_stats s1 _ Hok1 : sr_ok (count_ack s1)) as Hok2.
  destruct (retransmit_missing_ok (count_ack s1) 4 Hok2) as (s2 & -> & H2). cbn [mbind option_bind].
  destruct (send_window_ok s2 (proj1 H2)) as (s3 & -> & H3 & _). cbn [mbind option_bind].
  exists s3. split; [|done].
  apply (handled_progress _ s (count_ack s1)); try done.
  eapply progress_trans; [by apply resends_progress|done].
Qed.

Lemma on_sr_nack_ok s msg : sr_ok s → msg_ok msg →
  ∃ s', handled (reports msg) s s' ∧ on_sr_nack s msg = Some (PollAgain s').
Proof.
  intros Hs Hm. pose proof (sr_ok_stats s _ Hs : sr_ok (count_nack s)) as Hs0.
  destruct (acknowledge_ok (count_nack s) msg Hs0 Hm) as (s1 & H1 & Hok1 & He & Hc & Hl & Hf & Ha).
  unfold on_sr_nack. destruct (sr_apply_bitmap (count_nack s) msg) as [s0|]; [|done].
  cbn [mbind option_bind] in *. injection H1 as ->.
  destruct (retransmit_gaps_ok 8 msg _ Hm (message_gaps msg Hm) 0 s1 Hok1) as (s2 & -> & H2).
  cbn [mbind option_bind].
  destruct (retransmit_missing_ok s2 4 (proj1 H2)) as (s3 & -> & H3). cbn [mbind option_bind].
  destruct (send_window_ok s3 (proj1 H3)) as (s4 & -> & H4 & _). cbn [mbind option_bind].
  exists s4. split; [|done]. apply (handled_progress _ s s1); try done.
  eapply progress_trans; [by apply resends_progress, (resends_trans _ _ _ H2 H3)|done].
Qed.

(** *** The control loop *)

Lemma sr_ok_conn s conn conn' : sr_ok s → ss_conn s = Some conn →
  cn_connection_ctx conn' = cn_connection_ctx conn → is_Some (cn_tcp_client conn') →
  sr_ok (ss_with_conn s conn').
Proof.
  intros Hs Hc Hx [client Hcl]. destruct (sro_conn s Hs) as (conn0 & ? & Hc0 & Hp & _).
  assert (conn0 = conn) as -> by congruence.
  destruct Hs as [S1 _ S3 S4 S5 S6 S7 S8 S9 S10]. constructor; try done. cbn.
  exists conn', client. split_and!; [done|by rewrite Hx|done].
Qed.

(** [sdr_send_poll] only reads from the control connection. *)
Lemma send_poll_conn uninit conn client r conn' : cn_tcp_client conn = Some client →
  sdr_send_poll uninit conn = (r, conn') →
  cn_connection_ctx conn' = cn_connection_ctx conn ∧
  ∃ client', cn_tcp_client conn' = Some client' ∧ rtc input_step (ep_input client) (ep_input client').
Proof.
  intros Hc. unfold sdr_send_poll. rewrite Hc. destruct (negb (tc_is_connected client)).
  { intros [= <- <-]. by split; [|exists client]. }
  destruct (wait_message client uninit _) as [got client'] eqn:Hw.
  intros [= <- <-]. split; [done|]. exists client'. split; [done|]. by eapply wait_message_step.
Qed.

Context (R : Z → Prop).

(** Every message still to come may be handled, and reports only chunks of [R]. *)
Definition truthful (msg : ControlMessage) : Prop :=
  msg_ok msg ∧ ∀ c, 0 ≤ c < total → reports msg c = true → R c.

(** [s'] is [s] after some rounds. *)
Record rounds (s s' : SRSender) : Prop := {
  rd_ok : sr_ok s';
  rd_input : rtc input_step (ss_input s) (ss_input s');
  rd_cfg : ss_cfg s' = ss_cfg s;
  rd_acked : ∀ c, 0 ≤ c < total → acked_at (ss_chunk_acked s') c = true →
    acked_at (ss_chunk_acked s) c = true ∨ R c;
  rd_wire : ∃ w, ev_wire (ss_env s') = ev_wire (ss_env s) ++ w ∧
    ∀ x, x ∈ w → ∃ c, 0 ≤ c < total ∧ x ∈ chunk_wire c
}.

Lemma rounds_refl s : sr_ok s → rounds s s.
Proof.
  intros Hs. constructor; try done; [by left|]. exists []. rewrite app_nil_r. split; [done|].
  by intros x ?%not_elem_of_nil.
Qed.

Lemma rounds_trans s s' s'' : rounds s s' → rounds s' s'' → rounds s s''.
Proof.
  intros [H1 H2 H3 H4 (w & H5 & H6)] [K1 K2 K3 K4 (w' & K5 & K6)]. constructor; try done.
  - by etrans.
  - congruence.
  - intros c Hc [Ha|?]%K4; [by apply H4|by right|done].
  - exists (w ++ w'). split; [by rewrite K5, H5, app_assoc|].
    intros x [?|?]%elem_of_app; [by apply H6|by apply K6].
Qed.

Lemma rounds_handled ack s s' : handled ack s s' →
  (∀ c, 0 ≤ c < total → ack c = true → R c) → rounds s s'.
Proof.
  intros [H1 H2 H3 H4 (cs & w & H6 & H7 & H8 & _)] Hack. constructor; try done.
  - unfold ss_input. by rewrite H2.
  - intros c Hc. rewrite H4 by done. rewrite orb_true_iff. intros [?|?]; [by left|right; auto].
  - exists w. split; [done|]. intros x (c & Hc & Hx)%H8. exists c. split; [|done].
    rewrite Forall_forall in H6. by destruct (H6 c Hc).
Qed.

Lemma rounds_progress s s' : progress s s' → rounds s s'.
Proof.
  intros H. apply (rounds_handled (λ _, false)); [|done].
  apply (handled_progress _ s s); try done. intros c Hc. by rewrite orb_false_r.
Qed.

Lemma rounds_conn s conn conn' : sr_ok s → ss_conn s = Some conn →
  cn_connection_ctx conn' = cn_connection_ctx conn →
  (∃ client client', cn_tcp_client conn = Some client ∧ cn_tcp_client conn' = Some client' ∧
     rtc input_step (ep_input client) (ep_input client')) →
  rounds s (ss_with_conn s conn').
Proof.
  intros Hs Hc Hx (client & client' & H1 & H2 & H3). constructor.
  - by apply (sr_ok_conn s conn); [..|by exists client'].
  - unfold ss_input. cbn. by rewrite Hc, H1, H2.
  - done.
  - by left.
  - exists []. rewrite app_nil_r. split; [done|]. by intros x ?%not_elem_of_nil.
Qed.

(** The state a round ends in. *)
Definition round_state (r : poll_round) : SRSender :=
  match r with PollReturn _ s | PollBlocked s | PollAgain s => s end.

Lemma ask_send_poll_ok uninit s conn client (k : SRSender → option poll_round) : sr_ok s →
  ss_conn s = Some conn → cn_tcp_client conn = Some client →
  (∀ s, sr_ok s → ∃ s', k s = Some (PollAgain s') ∧ progress s s') →
  ∃ r, ask_send_poll uninit s conn k = Some r ∧ rounds s (round_state r).
Proof.
  intros Hs Hc Hcl Hk. unfold ask_send_poll.
  destruct (sdr_send_poll uninit conn) as [rc conn'] eqn:Hp.
  destruct (send_poll_conn uninit conn client rc conn' Hcl Hp) as (Hx & client' & Hcl' & Hst).
  assert (rounds s (ss_with_conn s conn')) as H1
    by (apply (rounds_conn s conn); [done..|by exists client, client']).
  destruct rc as [code|]; [|by eexists].
  destruct (code =? 0); [by eexists|].
  destruct (Hk _ (rd_ok _ _ H1)) as (s' & -> & H2). eexists. split; [done|].
  eapply rounds_trans; [done|by apply rounds_progress].
Qed.

Lemma on_message_ok uninit s conn client msg : sr_ok s → truthful msg → ss_conn s = Some conn →
  cn_tcp_client conn = Some client →
  ∃ r, on_message uninit s conn msg = Some r ∧ rounds s (round_state r).
Proof.
  intros Hs [Hm Hr] Hc Hcl. unfold on_message.
  destruct (msg_is msg SR_ACK).
  { destruct (on_sr_ack_ok s msg Hs Hm) as (s' & H & ->). eexists. split; [done|].
    destruct (_ >=? _); by apply (rounds_handled (reports msg)). }
  destruct (msg_is msg SR_NACK).
  { destruct (on_sr_nack_ok s msg Hs Hm) as (s' & H & ->). eexists. split; [done|].
    by apply (rounds_handled (reports msg)). }
  destruct (msg_is msg COMPLETE_ACK).
  { eexists. split; [done|]. cbn [round_state].
    destruct (rounds_refl s Hs) as [_ H2 H3 H4 H5].
    constructor; try done. by apply sr_ok_stats. }
  destruct (msg_is msg INCOMPLETE_NACK); [eexists; split; [done|by apply rounds_refl]|].
  apply (ask_send_poll_ok uninit s conn client); try done.
  intros s0 Hs0. exists s0. split; [done|]. by apply resends_progress, resends_refl.
Qed.

(** A round is defined, and one that goes on has consumed input. *)
Lemma poll_round_ok uninit s : sr_ok s → all_messages truthful (ss_input s) →
  ∃ r, poll_once_round uninit s = Some r ∧ rounds s (round_state r) ∧
    ∀ s', r = PollAgain s' → (input_size (ss_input s') < input_size (ss_input s))%nat.
Proof.
  intros Hs Hall. destruct (sro_conn s Hs) as (conn & client & Hc & Hp & Hcl).
  unfold poll_once_round. rewrite Hc. cbn [mbind option_bind]. rewrite Hcl. cbn [mbind option_bind].
  assert (ss_input s = ep_input client) as Hin by (unfold ss_input; by rewrite Hc, Hcl).
  rewrite Hin in Hall.
  destruct (ep_receive client uninit) as [[[ok msg] client']|] eqn:Hr.
  2: { eexists. split; [done|]. split; [by apply rounds_refl|done]. }
  destruct (ep_receive_step _ _ _ _ _ Hr) as [Hstep _].
  set (conn' := cn_with_client conn client').
  assert (rounds s (ss_with_conn s conn')) as H1
    by (apply (rounds_conn s conn); [done..|by exists client, client']).
  assert (∃ r, (if negb ok then ask_send_poll uninit (ss_with_conn s conn') conn'
      (λ s, s ← rto_pass s; Some (PollAgain s)) else on_message uninit (ss_with_conn s conn') conn' msg)
      = Some r ∧ rounds (ss_with_conn s conn') (round_state r)) as (r & Hk & H2).
  { destruct ok; cbn [negb].
    - destruct (received_message _ _ _ _ _ Hall Hr) as [Ht _].
      by apply (on_message_ok uninit _ conn' client'); [apply (rd_ok _ _ H1)|..].
    - apply (ask_send_poll_ok uninit _ conn' client'); [apply (rd_ok _ _ H1)|done|done|].
      intros s0 Hs0. destruct (rto_pass_ok s0 Hs0) as (s1 & -> & H). exists s1.
      split; [done|by apply resends_progress]. }
  exists r. split; [exact Hk|]. split; [by eapply rounds_trans|].
  intros s' ->. destruct (ep_alive client) eqn:Ha.
  - pose proof (ep_receive_consumes client _ _ _ _ Ha Hr).
    pose proof (input_steps_le _ _ (rd_input _ _ H2)) as Hle. cbn [round_state] in Hle.
    change (ss_input (ss_with_conn s conn')) with (ep_input client') in Hle. rewrite Hin. lia.
  - rewrite (ep_receive_dead client uninit Ha) in Hr. injection Hr as <- <- <-. cbn [negb] in Hk.
    unfold ask_send_poll, sdr_send_poll in Hk. cbn in Ha, Hk. rewrite Ha in Hk. by cbn in Hk.
Qed.

(** The loop, with any fuel above the size of the input. *)
Lemma poll_loop_ok uninit fuel : ∀ s, sr_ok s → all_messages truthful (ss_input s) →
  (input_size (ss_input s) < fuel)%nat →
  ∃ r s', poll_loop uninit fuel s = Some (Some r, s') ∧ rounds s s' ∧
    ∀ fuel', (fuel ≤ fuel')%nat → poll_loop uninit fuel' s = Some (Some r, s').
Proof.
  induction fuel as [|fuel IH]; intros s Hs Hall Hf; [lia|].
  destruct (poll_round_ok uninit s Hs Hall) as (r & Hr & H1 & Hless).
  assert (∀ n, poll_loop uninit (S n) s = match r with
    | PollReturn code s' => Some (Some (Returned code), s')
    | PollBlocked s' => Some (Some Blocked, s')
    | PollAgain s' => poll_loop uninit n s' end) as Hn
    by (intros n; cbn; by rewrite Hr).
  destruct r as [code s'|s'|s'].
  - exists (Returned code), s'. rewrite Hn. split_and!; [done|done|].
    intros [|fuel'] ?; [lia|by rewrite Hn].
  - exists Blocked, s'. rewrite Hn. split_and!; [done|done|]. intros [|fuel'] ?; [lia|by rewrite Hn].
  - destruct (IH s' (rd_ok _ _ H1)) as (r & s'' & H2 & H3 & H4).
    { eapply all_messages_step; [done|apply (rd_input _ _ H1)]. }
    { specialize (Hless s' eq_refl). lia. }
    exists r, s''. rewrite Hn. split_and!; [done|by eapply rounds_trans|].
    intros [|fuel'] ?; [lia|]. rewrite Hn. apply H4. lia.
Qed.

(** *** Gaps: exactly what is sent *)

(** Chunk [c] was sent long enough ago to be sent again when the clock is read
    next. *)
Definition due (s : SRSender) (c : Z) : Prop :=
  ∃ last, ss_last_tx s !! Z.to_nat c = Some last ∧ guard_ms ≤ elapsed_ms (next_reading (ss_env s)) last.

Lemma recently_sent_later now now' last : now ≤ now' → guard_ms ≤ elapsed_ms now last →
  recently_sent now' last = false.
Proof.
  intros Hn Hd. unfold recently_sent. apply Z.ltb_ge. etrans; [exact Hd|].
  unfold elapsed_ms. apply Z.quot_le_mono; lia.
Qed.

Lemma due_resent cs s s' c : resent cs s s' → 0 ≤ c → c ∉ cs → due s c → due s' c.
Proof.
  intros Hr Hc Hn (last & Hl & Hd). exists last. rewrite (rs_last _ _ _ Hr) by done. split; [done|].
  pose proof (recently_sent_later _ _ _ (rs_time _ _ _ Hr) Hd) as H.
  unfold recently_sent in H. by apply Z.ltb_ge in H.
Qed.

Definition missing_of (s : SRSender) (chunks : list Z) : list Z :=
  List.filter (λ c, negb (acked_at (ss_chunk_acked s) c)) chunks.

Lemma missing_of_resent cs s s' chunks : resent cs s s' → missing_of s' chunks = missing_of s chunks.
Proof. intros Hr. unfold missing_of. by rewrite (rs_acked _ _ _ Hr). Qed.

(** Over chunks that are all due, a walk sends the first missing ones, up to
    the limit. *)
Lemma retransmit_gap_exact limit chunks : ∀ sent s, sr_ok s → Forall (λ c, 0 ≤ c < total) chunks →
  NoDup chunks → Forall (due s) (missing_of s chunks) → sent ≤ limit →
  ∃ s' cs, cs = take (Z.to_nat (limit - sent)) (missing_of s chunks) ∧
    retransmit_gap limit chunks sent s = Some (sent + Z.of_nat (List.length cs), s') ∧
    sr_ok s' ∧ resent cs s s'.
Proof.
  induction chunks as [|c chunks IH]; intros sent s Hs Hin Hnd Hdue Hle; cbn [retransmit_gap].
  { exists s, []. cbn. rewrite take_nil, Z.add_0_r. split_and!; try done. apply resent_refl. }
  apply Forall_cons in Hin as [Hc Hin]. apply NoDup_cons in Hnd as [Hcn Hnd].
  rewrite Z.geb_leb. destruct (Z.leb_spec limit sent).
  { exists s, []. replace (Z.to_nat (limit - sent)) with 0%nat by lia. cbn. rewrite Z.add_0_r.
    split_and!; try done. apply resent_refl. }
  rewrite acked_lookup by done. cbn [mbind option_bind].
  assert (missing_of s (c :: chunks) =
    if acked_at (ss_chunk_acked s) c then missing_of s chunks else c :: missing_of s chunks) as Em.
  { unfold missing_of. cbn. by destruct (acked_at _ c). }
  rewrite Em in *. destruct (acked_at (ss_chunk_acked s) c) eqn:Ha; [by apply IH|].
  apply Forall_cons in Hdue as [(last & Hlast & Hd) Hdue].
  destruct (resent_now s (sro_env s Hs)) as (s1 & -> & Hr1 & Hw1 & E1 & _).
  assert (sr_ok s1) as Hs1 by (rewrite E1 in *; destruct Hs; by constructor).
  rewrite (rs_last _ _ _ Hr1), Hlast by (lia || apply not_elem_of_nil). cbn [mbind option_bind].
  rewrite (recently_sent_later _ _ _ (Z.le_refl _) Hd).
  destruct (retransmit_range_eq s1 c Hs1) as (s2 & -> & Hs2 & Hr2 & _ & _).
  { split; [done|]. by rewrite (rs_acked _ _ _ Hr1). }
  cbn [mbind option_bind]. pose proof (resent_trans _ _ _ _ _ Hr1 Hr2) as Hr12. cbn [app] in Hr12.
  destruct (IH (sent + 1) s2 Hs2 Hin Hnd) as (s3 & cs & Hcs & -> & Hs3 & Hr3).
  { rewrite (missing_of_resent _ _ _ _ Hr12). apply Forall_forall. intros c' Hc'.
    rewrite Forall_forall in Hdue. apply (due_resent _ _ _ c' Hr12).
    - unfold missing_of in Hc'. apply elem_of_filter_bool in Hc' as [Hc' _].
      rewrite Forall_forall in Hin. apply Hin in Hc'. lia.
    - intros ->%list_elem_of_singleton. unfold missing_of in Hc'.
      by apply elem_of_filter_bool in Hc' as [Hc' _].
    - by apply Hdue. }
  { lia. }
  exists s3, (c :: cs). split.
  - rewrite Hcs, (missing_of_resent _ _ _ _ Hr12).
    by replace (Z.to_nat (limit - sent)) with (S (Z.to_nat (limit - (sent + 1)))) by lia.
  - split; [do 2 f_equal; cbn; lia|]. split; [done|]. apply (resent_trans [c] cs _ s2); done.
Qed.

Lemma missing_of_app s l1 l2 : missing_of s (l1 ++ l2) = missing_of s l1 ++ missing_of s l2.
Proof. apply List.filter_app. Qed.

Lemma retransmit_gaps_exact limit msg gaps : msg_ok msg → Forall (λ i, 0 ≤ i < 16) gaps →
  ∀ sent s, sr_ok s → NoDup (reported_gaps total msg gaps) →
  Forall (due s) (missing_of s (reported_gaps total msg gaps)) → sent ≤ limit →
  ∃ s', retransmit_gaps limit msg gaps sent s = Some s' ∧ sr_ok s' ∧
    resent (take (Z.to_nat (limit - sent)) (missing_of s (reported_gaps total msg gaps))) s s'.
Proof.
  intros Hm. induction gaps as [|i gaps IH]; intros Hg sent s Hs Hnd Hdue Hle; cbn [retransmit_gaps].
  { exists s. split_and!; [done|done|]. cbn. rewrite take_nil. apply resent_refl. }
  rewrite Z.geb_leb. destruct (Z.leb_spec limit sent).
  { exists s. split_and!; [done|done|]. replace (Z.to_nat (limit - sent)) with 0%nat by lia.
    apply resent_refl. }
  apply Forall_cons in Hg as [Hi Hg]. rewrite (sro_total s Hs).
  destruct (gap_chunks_ok total msg i Hm Hi) as (chunks & Hch & Hin).
  assert (reported_gaps total msg (i :: gaps) = chunks ++ reported_gaps total msg gaps) as E.
  { unfold reported_gaps. cbn. by rewrite Hch. }
  rewrite E, missing_of_app in *. rewrite Hch. cbn [mbind option_bind].
  apply NoDup_app in Hnd as (Hnd1 & Hdis & Hnd2). apply Forall_app in Hdue as [Hd1 Hd2].
  destruct (retransmit_gap_exact limit chunks sent s Hs Hin Hnd1 Hd1 Hle)
    as (s1 & cs & Hcs & -> & Hs1 & Hr1). cbn [mbind option_bind].
  assert (sent + Z.of_nat (List.length cs) ≤ limit) as Hle1.
  { rewrite Hcs, length_take. lia. }
  destruct (IH Hg (sent + Z.of_nat (List.length cs)) s1 Hs1 Hnd2) as (s2 & -> & Hs2 & Hr2); [|done|].
  { rewrite (missing_of_resent _ _ _ _ Hr1). apply Forall_forall. intros c Hc.
    rewrite Forall_forall in Hd2. apply (due_resent _ _ _ c Hr1); [| |by apply Hd2].
    - apply elem_of_filter_bool in Hc as [Hc _].
      pose proof (reported_gaps_range total msg gaps Hm Hg) as Hrange. rewrite Forall_forall in Hrange.
      apply Hrange in Hc. lia.
    - rewrite Hcs. intros Hc2%elem_of_take. destruct Hc2 as (j & Hj & _).
      apply list_elem_of_lookup_2, elem_of_filter_bool in Hj as [Hj _].
      apply elem_of_filter_bool in Hc as [Hc _]. by apply (Hdis c). }
  exists s2. split_and!; [done|done|].
  rewrite (missing_of_resent _ _ _ _ Hr1) in Hr2.
  rewrite take_app. rewrite <-Hcs.
  replace (Z.to_nat (limit - sent) - List.length (missing_of s chunks))%nat
    with (Z.to_nat (limit - (sent + Z.of_nat (List.length cs))) -
      (List.length (missing_of s chunks) - List.length cs))%nat.
  2: { rewrite Hcs, length_take. lia. }
  destruct (decide (List.length cs = List.length (missing_of s chunks))) as [El|Hne].
  - rewrite El, Nat.sub_diag, Nat.sub_0_r. rewrite <-El. by eapply resent_trans.
  - assert (List.length cs = Z.to_nat (limit - sent)) as El by (rewrite Hcs, length_take in *; lia).
    replace (Z.to_nat (limit - (sent + Z.of_nat (List.length cs)))) with 0%nat in * by lia.
    eapply resent_trans; [done|]. exact Hr2.
Qed.

End Started.

(** *** Starting *)

(** The window [start_send] starts with. *)
Definition initial_window (cfg : SRConfig) (total_chunks : Z) : Z :=
  or_else (or_else (sc_max_inflight_chunks cfg) (u16 total_chunks)) (u16 total_chunks).

(** [sdr_send_post] when it succeeds: the handle, and the data loop if sending is
    automatic. *)
Lemma send_post_sent pad uninit os ps conn null data length ps' conn' handle wire :
  sdr_send_post pad uninit os ps conn null data length = Some (Returned 0, ps', conn', handle, wire) →
  ∃ h, handle = Some h ∧ 0 ≤ sh_msg_id h < 1024 ∧ sh_buffer_size h = length ∧
    is_Some (cn_tcp_client conn') ∧
    let params := cx_params (cn_connection_ctx conn') in
    if cx_auto_send_data (cn_connection_ctx conn) then
      ∃ log, send_data_loop (dc_sendto os) params (sh_msg_id h) data length
          (u64 (length + prm_mtu_bytes params - 1) / prm_mtu_bytes params) = Some log ∧ wire = sl_wire log
    else wire = [].
Proof.
  unfold sdr_send_post.
  destruct (null || (length =? 0)); [done|]. destruct (cn_is_receiver conn); [done|].
  destruct (cn_tcp_client conn) as [client|]; [|done].
  destruct (negb (tc_is_connected client)); [done|].
  destruct (client_send_message pad client _) as [ok client1]. destruct (negb ok); [done|].
  destruct (wait_message client1 uninit _) as [[cts| |] client2]; [|done|done].
  unfold send_post_data. cbn [cn_with_client cn_tcp_client cn_with_ctx cn_connection_ctx mbind option_bind].
  destruct (initialize _ _ _) as [b cx] eqn:Hinit.
  destruct (client_send_message pad client2 _) as [ok3 client3].
  destruct (prm_mtu_bytes _ =? 0); [done|]. destruct (prm_packets_per_chunk _ =? 0); [done|].
  destruct (allocate_msg_id ps) as [msg_id ps1] eqn:Hid.
  destruct (dc_socket os <? 0); [done|]. destruct (dc_inet_pton os <=? 0); [done|].
  assert (cx_auto_send_data cx = cx_auto_send_data (cn_connection_ctx conn) ∧ cx_params cx = cm_params cts)
    as [Hcx Hpar] by (unfold initialize in Hinit; by injection Hinit as _ <-).
  assert (0 ≤ msg_id < 1024) as Hm
    by (unfold allocate_msg_id in Hid; injection Hid as <- _; apply Z.mod_pos_bound; lia).
  rewrite Hcx. destruct (cx_auto_send_data (cn_connection_ctx conn)).
  - destruct (send_data_loop _ _ _ _ _ _) as [log|] eqn:Hlog; [|done]. cbn [mbind option_bind].
    intros [= <- <- <- <-]. eexists. split; [done|]. split; [done|]. split; [done|]. split; [by eexists|].
    cbn. rewrite Hpar. exists log. by split.
  - intros [= <- <- <- <-]. eexists. split; [done|]. split; [done|]. split; [done|]. split; [by eexists|].
    done.
Qed.

Section Starting.
Context (params : ConnectionParams) (msg_id : Z) (data : list Z) (length : Z).
Context (Hsend : sendable params data length) (Hid : 0 ≤ msg_id < 1024).
Context (Hfits : total_packets_of params length ≤ 262144).
Notation total := (total_chunks_of params length).
Notation sr_ok := (sr_ok params msg_id data length).
Notation resent := (resent params msg_id data length).

(** The loop over the first window. *)
Lemma send_initial_loop s n : sr_ok s → 0 ≤ n ≤ total → ss_next_chunk_to_send s = 0 →
  (∀ c, acked_at (ss_chunk_acked s) c = false) →
  ∃ s', foldl_opt send_initial s (zrange 0 n) = Some s' ∧ sr_ok s' ∧ resent (zrange 0 n) s s' ∧
    ss_next_chunk_to_send s' = n.
Proof.
  intros Hs [Hn Hle] H0 Hu. revert Hle. pattern n. apply natlike_ind; [| |done].
  { intros _. rewrite zrange_nil by lia. exists s. split_and!; try done. apply resent_refl. }
  clear n Hn. intros n Hn IH Hle. rewrite <-Z.add_1_r, zrange_snoc, foldl_opt_app by lia.
  destruct IH as (s1 & -> & Hs1 & Hr1 & Hn1); [lia|]. cbn [mbind option_bind foldl_opt].
  unfold send_initial.
  destruct (retransmit_range_eq params msg_id data length Hsend Hid Hfits s1 n Hs1)
    as (s2 & -> & Hs2 & Hr2 & _ & _).
  { split; [lia|]. by rewrite (rs_acked _ _ _ _ _ _ _ Hr1). }
  cbn [mbind option_bind]. eexists. split; [done|]. split_and!.
  - destruct Hs2. constructor; try done. cbn. lia.
  - eapply resent_trans; [done..|exact Hr1|]. destruct Hr2. by constructor.
  - done.
Qed.

End Starting.

Lemma initial_window_range cfg n : 0 ≤ sc_max_inflight_chunks cfg → 0 ≤ initial_window cfg n.
Proof.
  intros Hc. unfold initial_window, or_else. pose proof (u16_range n).
  repeat case_inner_bool; lia.
Qed.

(** Sending again keeps the connection. *)
Lemma retransmit_range_conn s c n s' : retransmit_range s c n = Some s' → ss_conn s' = ss_conn s.
Proof.
  unfold retransmit_range. destruct (ss_send_handle s) as [h|]; cbn [mbind option_bind]; [|done].
  cbv zeta. case_match; [by intros [= <-]|]. case_match; [done|].
  unfold send_packets_range. destruct (ss_conn s) as [conn|] eqn:Hc, (ss_send_handle s) eqn:Hh;
    cbn [mbind option_bind open_udp].
  - case_match; [by intros [= <-]|]. destruct (send_range_loop _ _ _ _ _); [|done].
    by intros [= <-].
  - by intros [= <-].
  - by intros [= <-].
  - by intros [= <-].
Qed.

(** The tracking that is set up: nothing acknowledged, the window of the start. *)
Lemma init_tracking_ok s conn client h data length :
  let params := cx_params (cn_connection_ctx conn) in
  let s0 := init_tracking s conn (Some h) data length in
  wf_env (ss_env s) → sendable params data length → total_packets_of params length ≤ 262144 →
  sh_buffer_size h = length → cn_tcp_client conn = Some client →
  sr_ok params (sh_msg_id h) data length s0 ∧ ss_total_chunks s0 = total_chunks_of params length ∧
  ss_max_inflight s0 = initial_window (ss_cfg s) (total_chunks_of params length) ∧
  (∀ c, acked_at (ss_chunk_acked s0) c = false) ∧ ev_wire (ss_env s0) = ev_wire (ss_env s) ∧
  ev_sockets (ss_env s0) = ev_sockets (ss_env s).
Proof.
  intros params s0 Hw Hsend Hfits Hsz Hcl.
  destruct (geometry_pos _ _ _ Hsend) as (Hm&Hpp&Hlen).
  pose proof (chunk_bytes_pos _ _ _ Hsend) as Hcb.
  pose proof (total_chunks_bound _ _ _ Hsend) as Htb.
  assert (or_else (prm_mtu_bytes params) MAX_PAYLOAD_SIZE = prm_mtu_bytes params) as Emtu
    by (unfold or_else; by rewrite (proj2 (Z.eqb_neq _ 0)) by lia).
  assert (or_else (prm_packets_per_chunk params) 1 = prm_packets_per_chunk params) as Eppc
    by (unfold or_else; by rewrite (proj2 (Z.eqb_neq _ 0)) by lia).
  assert (u64 (chunk_bytes_of params) = chunk_bytes_of params) as Ecb by (apply u64_small; lia).
  assert (u32 (u64 (length + chunk_bytes_of params - 1) / chunk_bytes_of params) =
    total_chunks_of params length) as Etot.
  { rewrite u64_small by lia. fold (total_chunks_of params length). rewrite u32_small; lia. }
  subst s0. unfold init_tracking. fold params. rewrite Emtu, Eppc. fold (chunk_bytes_of params). rewrite Ecb, Etot.
  cbn -[Z.mul Z.add total_chunks_of or_else]. split_and!; try done.
  - constructor; cbn -[total_chunks_of]; try done.
    + by exists h.
    + by exists conn, client.
    + rewrite length_replicate. apply Z2Nat.id, Z.lt_le_incl, Htb.
    + rewrite length_replicate. apply Z2Nat.id, Z.lt_le_incl, Htb.
    + split; [done|apply Z.lt_le_incl, Htb].
    + unfold wf_env in *. cbn. by do 2 apply Forall_tail.
  - intros c. unfold acked_at. destruct (replicate _ false !! Z.to_nat c) eqn:E; [|by rewrite andb_false_r].
    apply lookup_replicate in E as [-> _]. by rewrite andb_false_r.
Qed.

(** The first window leaves the connection alone. *)
Lemma send_initial_conn conn chunks s s' : foldl_opt send_initial s chunks = Some s' →
  ss_conn s = Some conn → ss_conn s' = Some conn.
Proof.
  intros Hl Hs. apply (foldl_opt_inv _ (λ s, ss_conn s = Some conn) _ _ _) in Hl; [done|done|].
  intros s2 c s3 _ Hc. unfold send_initial. destruct (retransmit_range s2 c 1) eqn:Hr; [|done].
  cbn. intros [= <-]. cbn. by rewrite (retransmit_range_conn _ _ _ _ Hr).
Qed.

(** A successful start: nothing acknowledged, the first window on the wire. *)
Lemma start_send_ok pad uninit os ps s conn null data length ps' s' conn' :
  wf_env (ss_env s) → 0 ≤ sc_max_inflight_chunks (ss_cfg s) →
  start_send pad uninit os ps s conn null data length = Some (Returned 0, ps', s') →
  ss_conn s' = Some conn' →
  let params := cx_params (cn_connection_ctx conn') in
  sendable params data length → total_packets_of params length ≤ 262144 →
  ∃ msg_id, 0 ≤ msg_id < 1024 ∧ sr_ok params msg_id data length s' ∧
    (∀ c, acked_at (ss_chunk_acked s') c = false) ∧
    let n := Z.min (total_chunks_of params length) (initial_window (ss_cfg s) (total_chunks_of params length)) in
    ss_next_chunk_to_send s' = n ∧
    (ev_sockets (ss_env s) = [] → ev_sockets (ss_env s') = [] ∧
     ev_wire (ss_env s') = ev_wire (ss_env s) ++
       concat (chunk_wire params msg_id data length <$> zrange 0 n)).
Proof.
  intros Hw Hcfg Hstart Hconn' params Hsend Hfits. revert Hstart. unfold start_send.
  set (conn0 := cn_with_ctx conn _).
  destruct (sdr_send_post _ _ _ _ _ _ _ _) as [[[[[rc ps1] conn1] handle] wire]|] eqn:Hp; [|done].
  cbn [mbind option_bind]. destruct rc as [code|]; [|done].
  destruct (code =? 0) eqn:Hcode; cbn [negb]; [|by intros [= -> _ _]]. apply Z.eqb_eq in Hcode as ->.
  destruct (send_post_sent pad uninit os ps conn0 null data length ps1 conn1 handle wire)
    as (h & -> & Hid & Hsz & [client Hcl] & Hwire); [done|]. cbn in Hwire. subst wire.
  set (conn2 := cn_with_ctx conn1 _). set (sent := ss_with_env _ _). set (s0 := init_tracking _ _ _ _ _).
  destruct (foldl_opt send_initial s0 _) as [s1|] eqn:Hl; [|done]. cbn [mbind option_bind].
  intros [= <- <-].
  assert (conn' = conn2) as ->.
  { enough (ss_conn s1 = Some conn2) by congruence. by apply (send_initial_conn conn2) in Hl. }
  destruct (init_tracking_ok sent conn2 client h data length) as (Hs0 & Ht0 & Hm0 & Ha0 & Hw0 & Hk0); [done..|].
  fold s0 params in Hs0, Ht0, Hm0, Ha0, Hw0, Hk0.
  pose proof (total_chunks_bound _ _ _ Hsend) as Htb. destruct (geometry_pos _ _ _ Hsend) as (Hm&Hpp&Hlen).
  change (ss_cfg sent) with (ss_cfg s) in Hm0.
  exists (sh_msg_id h). split; [done|].
  rewrite Ht0, Hm0 in Hl.
  set (n := Z.min (total_chunks_of params length) _) in *.
  assert (0 ≤ n ≤ total_chunks_of params length) as Hn.
  { subst n. pose proof (initial_window_range (ss_cfg s) (total_chunks_of params length) Hcfg). lia. }
  destruct (send_initial_loop params (sh_msg_id h) data length Hsend Hid Hfits s0 n Hs0 Hn)
    as (s2 & Hl2 & Hs2 & Hr2 & Hn2); [done|done|].
  assert (s2 = s1) as -> by congruence. split; [done|].
  split; [intros c; by rewrite (rs_acked _ _ _ _ _ _ _ Hr2)|]. split; [done|].
  intros Hsock. change (ev_sockets (ss_env s)) with (ev_sockets (ss_env sent)) in Hsock. rewrite <-Hk0 in Hsock.
  replace (ev_wire (ss_env s)) with (ev_wire (ss_env s0)).
  2: { rewrite Hw0. cbn. apply app_nil_r. }
  destruct (rs_wire _ _ _ _ _ _ _ Hr2) as (w & Hw2 & _ & Hex).
  destruct (Hex Hsock) as [? ->]. by split.
Qed.

(** ** Properties *)

(** A started send puts its first window on the wire: when [start_send]
    returns 0, no chunk is acknowledged, the window has been sent and, if the
    sockets open, exactly the datagrams of its chunks were sent, in order, each
    as the one-shot send would build it.  The window is the configured one, or
    the number of chunks cut to 16 bits. *)
Theorem start_send_first_window pad uninit os ps s conn null data length ps' s' conn' :
  wf_env (ss_env s) → 0 ≤ sc_max_inflight_chunks (ss_cfg s) →
  start_send pad uninit os ps s conn null data length = Some (Returned 0, ps', s') →
  ss_conn s' = Some conn' →
  let params := cx_params (cn_connection_ctx conn') in
  sendable params data length → total_packets_of params length ≤ 262144 →
  ∃ msg_id, 0 ≤ msg_id < 1024 ∧ sr_ok params msg_id data length s' ∧
    (∀ c, acked_at (ss_chunk_acked s') c = false) ∧
    let n := Z.min (total_chunks_of params length) (initial_window (ss_cfg s) (total_chunks_of params length)) in
    ss_next_chunk_to_send s' = n ∧
    (ev_sockets (ss_env s) = [] → ev_wire (ss_env s') = ev_wire (ss_env s) ++
       concat (chunk_wire params msg_id data length <$> zrange 0 n)).
Proof.
  intros Hw Hc Hs Hconn params Hsend Hfits.
  destruct (start_send_ok pad uninit os ps s conn null data length ps' s' conn')
    as (id & Hid & Hok & Ha & Hn & Hwire); [done..|].
  exists id. do 4 (split; [done|]). intros Hk. by apply Hwire.
Qed.

(** A send of 12 bytes in 3 packets and 2 chunks, with control traffic to come. *)
Definition example_payload : list Z := zrange 1 13.

Definition example_cts : ControlMessage := message_with zero_message CTS 1 example_cts_params.

Definition example_fresh (ticks : list Z) : SRSender :=
  new_sr_sender (mkSRConfig 500 200 0 100 100) (mkEnv 0 ticks [] []).

Notation example_start ticks events :=
  (start_send example_padding zero_message (mkDataCalls 6 1 (λ _, 1)) new_process
    (example_fresh ticks)
    (example_tx_conn true (Data (message_image example_padding example_cts) :: events))
    false example_payload 12).

Definition example_sender (ticks : list Z) (events : list recv_event) : SRSender :=
  match example_start ticks events with
  | Some (_, _, s) => s
  | None => example_fresh ticks
  end.

Lemma example_payload_sendable : sendable example_cts_params example_payload 12.
Proof. apply example_sendable. reflexivity. Qed.

Lemma example_payload_fits : total_packets_of example_cts_params 12 ≤ 262144.
Proof. by vm_compute. Qed.

Lemma start_send_first_window_witness :
  ev_wire (ss_env (example_sender [] [])) =
    concat (chunk_wire example_cts_params 0 example_payload 12 <$> zrange 0 2).
Proof.
  destruct (start_send_first_window example_padding zero_message (mkDataCalls 6 1 (λ _, 1)) new_process
    (example_fresh []) (example_tx_conn true [Data (message_image example_padding example_cts)])
    false example_payload 12 (mkProcess 1 1 1) (example_sender [] [])
    (default (example_tx_conn true []) (ss_conn (example_sender [] []))))
    as (id & _ & Hok & _ & _ & Hwire).
  - constructor.
  - cbn. lia.
  - vm_compute. reflexivity.
  - vm_compute. reflexivity.
  - exact example_payload_sendable.
  - exact example_payload_fits.
  - destruct (sro_handle _ _ _ _ _ Hok) as (h & Hh & <- & _). vm_compute in Hh. injection Hh as <-.
    exact (Hwire eq_refl).
Defined.

Lemma example_sender_ok ticks events ps' conn' h : Forall (λ t, 0 ≤ t) ticks →
  example_start ticks events = Some (Returned 0, ps', example_sender ticks events) →
  ss_conn (example_sender ticks events) = Some conn' →
  cx_params (cn_connection_ctx conn') = example_cts_params →
  ss_send_handle (example_sender ticks events) = Some h → sh_msg_id h = 0 →
  sr_ok example_cts_params 0 example_payload 12 (example_sender ticks events).
Proof.
  intros Ht Hs Hc Hp Hh Hi.
  destruct (start_send_ok _ _ _ _ (example_fresh ticks) _ _ _ _ _ _ conn' Ht ltac:(cbn; lia) Hs Hc)
    as (id & _ & Hok & _); [rewrite Hp; apply example_payload_sendable|rewrite Hp; exact example_payload_fits|].
  rewrite Hp in Hok. destruct (sro_handle _ _ _ _ _ Hok) as (h' & Hh' & Hid & _).
  rewrite Hh in Hh'. injection Hh' as <-. rewrite Hi in Hid. rewrite Hid. exact Hok.
Qed.

Ltac example_sender_started :=
  eapply example_sender_ok;
    [repeat (apply Forall_cons_2; [lia|]); apply Forall_nil_2|vm_compute; reflexivity
    |vm_compute; reflexivity|vm_compute; reflexivity
    |vm_compute; reflexivity|vm_compute; reflexivity].

(** SR_NACK of a receiver that has chunk 0 and misses chunk 1. *)
Definition example_nack : ControlMessage :=
  mkMessage CONTROL_MAGIC (value SR_NACK) 1
    (mkParams 0 0 0 0 0 0 2 0 0 0 1 1 0 0 (replicate 16 0) 0) 1 (1 :: replicate 15 0)
    1 (1 :: replicate 15 0) (1 :: replicate 15 0).

Lemma example_nack_wf : wf_message example_nack.
Proof.
  constructor; lazymatch goal with |- wf_params _ => constructor | _ => idtac end;
    cbn [example_nack cm_magic cm_msg_type cm_connection_id cm_params cm_chunk_bitmap_words cm_chunk_bitmap
      cm_num_gaps cm_gap_start cm_gap_len prm_transfer_id prm_total_bytes prm_mtu_bytes
      prm_packet_bytes prm_chunk_bytes prm_packets_per_chunk prm_total_chunks prm_fec_k prm_fec_m
      prm_max_inflight prm_rto_ms prm_rtt_alpha_ms prm_num_channels prm_channel_base_port
      prm_udp_server_ip prm_udp_server_port value replicate]; unfold CONTROL_MAGIC; solve_wf.
Qed.

Ltac solve_msg_ok :=
  constructor; [reflexivity|reflexivity|reflexivity
    |cbn; repeat (apply Forall_cons_2; [lia|]); apply Forall_nil_2|cbn; lia|cbn; lia].

Lemma example_nack_ok : msg_ok example_nack.
Proof. solve_msg_ok. Qed.

(** C22: The sender's control loop terminates and is safe: on any input whose
    messages keep to the message's arrays (at most 16 gaps), whatever they
    report, in any order and segmentation, with timeouts and lost connections,
    [poll] does nothing undefined, and any fuel above the size of the input
    gives the same answer. *)
Theorem sr_poll_terminates params msg_id data length uninit s fuel :
  sendable params data length → 0 ≤ msg_id < 1024 → total_packets_of params length ≤ 262144 →
  sr_ok params msg_id data length s → all_messages msg_ok (ss_input s) →
  (input_size (ss_input s) < fuel)%nat →
  ∃ r s', poll uninit s = Some (Some r, s') ∧ poll_loop uninit fuel s = Some (Some r, s') ∧
    sr_ok params msg_id data length s'.
Proof.
  intros Hsend Hid Hfits Hs Hall Hf.
  assert (all_messages (truthful params length (λ _, True)) (ss_input s)) as Hall'.
  { intros ev bs rest Hr Hl msg m Hd. split; [by eapply Hall|done]. }
  destruct (poll_loop_ok params msg_id data length Hsend Hid Hfits (λ _, True) uninit
    (S (input_size (ss_input s))) s Hs Hall') as (r & s' & H1 & H2 & H3); [lia|].
  exists r, s'. split_and!; [|apply H3; lia|apply (rd_ok _ _ _ _ _ _ _ H2)].
  unfold poll. destruct (sro_handle _ _ _ _ _ Hs) as (h & -> & _).
  destruct (sro_conn _ _ _ _ _ Hs) as (conn & client & Hc & _ & Hcl).
  assert (ss_input s = ep_input client) as Hin by (unfold ss_input; by rewrite Hc, Hcl).
  rewrite Hc, Hcl. apply H3. lia.
Qed.

Lemma sr_poll_terminates_witness :
  let s := example_sender [] [Data (message_image example_padding example_nack); RecvClosed] in
  ∃ r s', poll zero_message s = Some (Some r, s').
Proof.
  intros s.
  destruct (sr_poll_terminates example_cts_params 0 example_payload 12 zero_message s 400)
    as (r & s' & H & _).
  - exact example_payload_sendable.
  - lia.
  - exact example_payload_fits.
  - example_sender_started.
  - eapply all_messages_next; [vm_compute; reflexivity| |].
    + intros bs msg m [= <-] Hd. vm_compute in Hd. injection Hd as <-.
      solve_msg_ok.
    + eapply all_messages_next; [vm_compute; reflexivity|done|].
      apply all_messages_none. vm_compute. reflexivity.
  - apply Nat.ltb_lt. vm_compute. reflexivity.
  - exists r, s'. exact H.
Defined.

(** C11: The sender believes only what it was told and sends only the message: if
    the messages to come report only chunks of [R], then after [poll] every
    acknowledged chunk was acknowledged before or is in [R], and everything put
    on the wire are packets of the message as the one-shot send builds them. *)
Theorem sr_poll_sound params msg_id data length uninit s (R : Z → Prop) r s' :
  sendable params data length → 0 ≤ msg_id < 1024 → total_packets_of params length ≤ 262144 →
  sr_ok params msg_id data length s → all_messages (truthful params length R) (ss_input s) →
  poll uninit s = Some (r, s') →
  (∀ c, 0 ≤ c < total_chunks_of params length → acked_at (ss_chunk_acked s') c = true →
     acked_at (ss_chunk_acked s) c = true ∨ R c) ∧
  ∃ w, ev_wire (ss_env s') = ev_wire (ss_env s) ++ w ∧
    ∀ x, x ∈ w → ∃ i, 0 ≤ i < total_packets_of params length ∧
      x = (prm_udp_server_port params, packet_datagram (built_packet params msg_id data length i)).
Proof.
  intros Hsend Hid Hfits Hs Hall Hp. unfold poll in Hp.
  destruct (sro_handle _ _ _ _ _ Hs) as (h & Hh & _). rewrite Hh in Hp.
  destruct (sro_conn _ _ _ _ _ Hs) as (conn & client & Hc & _ & Hcl).
  rewrite Hc, Hcl in Hp.
  destruct (poll_loop_ok params msg_id data length Hsend Hid Hfits R uninit
    (S (S (input_size (ss_input s)))) s Hs Hall ltac:(lia)) as (r0 & s0 & H1 & H2 & _).
  rewrite H1 in Hp. injection Hp as <- <-. destruct H2 as [_ _ _ Hack (w & Hw & Hin)].
  split; [exact Hack|]. exists w. split; [done|]. intros x (c & Hcr & Hx)%Hin.
  apply (elem_of_chunk_wire _ _ _ Hsend) in Hx as (i & ? & _ & ->); [by exists i|lia].
Qed.

Lemma sr_poll_sound_witness :
  let s := example_sender [60000000; 60000000; 60000000; 60000000; 60000000; 60000000]
    [Data (message_image example_padding example_nack); RecvClosed] in
  ∃ r s', poll zero_message s = Some (r, s') ∧
    (∀ c, 0 ≤ c < 2 → acked_at (ss_chunk_acked s') c = true → c = 0).
Proof.
  intros s. destruct (poll zero_message s) as [[r s']|] eqn:Hp.
  2: { vm_compute in Hp. discriminate. }
  exists r, s'. split; [reflexivity|].
  destruct (sr_poll_sound example_cts_params 0 example_payload 12 zero_message s (λ c, c = 0) r s')
    as [Hack _].
  - exact example_payload_sendable.
  - lia.
  - exact example_payload_fits.
  - example_sender_started.
  - eapply all_messages_next; [vm_compute; reflexivity| |].
    + intros bs msg m [= <-] Hd. vm_compute in Hd. injection Hd as <-.
      split; [solve_msg_ok|].
      intros c Hc. change (total_chunks_of example_cts_params 12) with 2 in Hc.
      assert (c = 0 ∨ c = 1) as [->| ->] by lia; [done|by vm_compute].
    + eapply all_messages_next; [vm_compute; reflexivity|done|].
      apply all_messages_none. vm_compute. reflexivity.
  - exact Hp.
  - intros c Hc Ha. destruct (Hack c Hc Ha) as [Hbefore|H]; [|exact H].
    assert (c = 0 ∨ c = 1) as [->| ->] by lia; vm_compute in Hbefore; discriminate.
Defined.

(** What an SR_NACK over due chunks does: [nack_resends_missing] and the repair of
    a transfer rest on it. *)
Lemma nack_resent params msg_id data length s msg :
  sendable params data length → 0 ≤ msg_id < 1024 → total_packets_of params length ≤ 262144 →
  sr_ok params msg_id data length s → msg_ok msg → ev_sockets (ss_env s) = [] →
  let gaps := reported_gaps (total_chunks_of params length) msg (zrange 0 (cm_num_gaps msg)) in
  let missing := List.filter (λ c, negb (acked_at (ss_chunk_acked s) c || reports msg c)) gaps in
  NoDup gaps → Forall (due s) missing →
  ∃ s' cs, on_sr_nack s msg = Some (PollAgain s') ∧ sr_ok params msg_id data length s' ∧
    Forall (λ c, 0 ≤ c < total_chunks_of params length) cs ∧
    ev_wire (ss_env s') =
      ev_wire (ss_env s) ++ concat (chunk_wire params msg_id data length <$> take 8 missing ++ cs) ∧
    ∀ c, 0 ≤ c < total_chunks_of params length →
      acked_at (ss_chunk_acked s') c = acked_at (ss_chunk_acked s) c || reports msg c.
Proof.
  intros Hsend Hid Hfits Hs Hm Hsock gaps missing Hnd Hdue.
  pose proof (message_gaps msg Hm) as Hg.
  pose proof (reported_gaps_range (total_chunks_of params length) msg _ Hm Hg) as Hrange. fold gaps in Hrange.
  pose proof (sr_ok_stats _ _ _ _ s _ Hs : sr_ok params msg_id data length (count_nack s)) as Hs0.
  destruct (acknowledge_ok params msg_id data length (count_nack s) msg Hs0 Hm)
    as (s1 & H1 & Hok1 & He & _ & Hl & _ & Ha).
  unfold on_sr_nack. destruct (sr_apply_bitmap (count_nack s) msg) as [s0|]; [|done].
  cbn [mbind option_bind] in *. injection H1 as ->.
  assert (missing_of s1 gaps = missing) as Emiss.
  { unfold missing_of, missing. clear Hdue Hnd missing. clearbody gaps.
    induction Hrange as [|c l Hc _ IH]; [done|]. cbn [List.filter]. rewrite IH, (Ha c Hc). done. }
  destruct (retransmit_gaps_exact params msg_id data length Hsend Hid Hfits 8 msg _ Hm Hg 0 s1 Hok1)
    as (s2 & -> & Hs2 & Hr2); [done| |lia|].
  { fold gaps. rewrite Emiss. apply Forall_forall. intros c Hc. rewrite Forall_forall in Hdue.
    destruct (Hdue c Hc) as (last & Hlast & Hd). exists last. rewrite Hl, He. by split. }
  fold gaps in Hr2. rewrite Emiss in Hr2. cbn [mbind option_bind].
  destruct (retransmit_missing_ok params msg_id data length Hsend Hid Hfits s2 4 Hs2) as (s3 & -> & H3).
  cbn [mbind option_bind].
  destruct (send_window_ok params msg_id data length Hsend Hid Hfits s3 (proj1 H3)) as (s4 & -> & H4 & _).
  cbn [mbind option_bind].
  assert (∃ cs, resent params msg_id data length cs s2 s4) as (cs & Hr4).
  { destruct H3 as (_ & _ & cs3 & Hr3), H4 as (_ & cs4 & Hr4). exists (cs3 ++ cs4).
    eapply resent_trans; [done..|exact Hr3|exact Hr4]. }
  assert (resent params msg_id data length (take 8 missing ++ cs) s1 s4) as Hr
    by (eapply resent_trans; [done..|exact Hr2|exact Hr4]).
  destruct (rs_wire _ _ _ _ _ _ _ Hr) as (w & Hw & _ & Hex).
  rewrite He in Hw, Hex. destruct (Hex Hsock) as [_ ->].
  exists s4, cs. split; [done|]. split; [apply H4|]. split.
  - eapply Forall_impl; [apply (rs_chunks _ _ _ _ _ _ _ Hr4)|]. intros c [Hc _]. exact Hc.
  - split; [exact Hw|]. intros c Hc. rewrite (rs_acked _ _ _ _ _ _ _ Hr). by apply Ha.
Qed.

(** C7: An SR_NACK is answered with what is missing: after a message whose gaps
    do not overlap, over chunks not sent in the last 50 ms and sockets that open, exactly the chunks
    of the message's bitmap and cumulative number are newly acknowledged, and
    the first eight chunks that the gaps report and nothing acknowledges are
    sent again at once, whole and in order. *)
Theorem nack_resends_missing params msg_id data length s msg :
  sendable params data length → 0 ≤ msg_id < 1024 → total_packets_of params length ≤ 262144 →
  sr_ok params msg_id data length s → msg_ok msg → ev_sockets (ss_env s) = [] →
  let gaps := reported_gaps (total_chunks_of params length) msg (zrange 0 (cm_num_gaps msg)) in
  let missing := List.filter (λ c, negb (acked_at (ss_chunk_acked s) c || reports msg c)) gaps in
  NoDup gaps → Forall (due s) missing →
  ∃ s' rest, on_sr_nack s msg = Some (PollAgain s') ∧
    ev_wire (ss_env s') =
      ev_wire (ss_env s) ++ concat (chunk_wire params msg_id data length <$> take 8 missing) ++ rest ∧
    ∀ c, 0 ≤ c < total_chunks_of params length →
      acked_at (ss_chunk_acked s') c = acked_at (ss_chunk_acked s) c || reports msg c.
Proof.
  intros Hsend Hid Hfits Hs Hm Hsock gaps missing Hnd Hdue.
  destruct (nack_resent params msg_id data length s msg Hsend Hid Hfits Hs Hm Hsock Hnd Hdue)
    as (s' & cs & H1 & _ & _ & Hw & Ha).
  exists s', (concat (chunk_wire params msg_id data length <$> cs)). split; [exact H1|]. split; [|exact Ha].
  by rewrite Hw, fmap_app, concat_app.
Qed.

Lemma nack_resends_missing_witness :
  let s := example_sender (replicate 8 60000000) [] in
  ∃ s' rest, on_sr_nack s example_nack = Some (PollAgain s') ∧
    ev_wire (ss_env s') =
      ev_wire (ss_env s) ++ concat (chunk_wire example_cts_params 0 example_payload 12 <$> [1]) ++ rest.
Proof.
  intros s.
  destruct (nack_resends_missing example_cts_params 0 example_payload 12 s example_nack)
    as (s' & rest & H1 & H2 & _).
  - exact example_payload_sendable.
  - lia.
  - exact example_payload_fits.
  - example_sender_started.
  - exact example_nack_ok.
  - vm_compute. reflexivity.
  - apply (bool_decide_unpack _). vm_compute. reflexivity.
  - match goal with |- Forall _ ?l => replace l with [1] by (vm_compute; reflexivity) end.
    apply Forall_singleton. exists 240000000. split; vm_compute; [reflexivity|discriminate].
  - exists s', rest. split; [exact H1|exact H2].
Defined.

(** A timeout silences selective repeat: once a receive of [poll] times out,
    the loop waits inside [sdr_send_poll], which reads and drops the SR_ACKs and
    SR_NACKs of the receiver; until the verdict comes nothing is sent again and
    nothing is acknowledged, whatever the receiver asks for. *)
Theorem timeout_ignores_nacks uninit s h conn client ts evss pad m segs tail :
  ss_send_handle s = Some h → ss_conn s = Some conn → cn_tcp_client conn = Some client →
  tc_is_connected client = true →
  Forall2 traffic_events ts evss →
  Forall (skipped (λ m, msg_is m COMPLETE_ACK || msg_is m INCOMPLETE_NACK)) ts →
  wf_padding pad → wf_message m → cm_magic m = CONTROL_MAGIC → msg_is m COMPLETE_ACK = true →
  concat segs = message_image pad m →
  ss_input s = RecvTimeout :: concat evss ++ (Data <$> segs) ++ tail →
  ∃ s', poll uninit s = Some (Some (Returned 0), s') ∧
    ev_wire (ss_env s') = ev_wire (ss_env s) ∧ ss_chunk_acked s' = ss_chunk_acked s ∧
    ss_stats s' = ss_stats s.
Proof.
  intros Hh Hc Hcl Hcon Hev Hs Hpad Hwf Hmagic Hx Hseg Hi. unfold poll. rewrite Hh, Hc, Hcl.
  cbn [poll_loop]. unfold poll_once_round. rewrite Hc. cbn [mbind option_bind]. rewrite Hcl.
  cbn [mbind option_bind].
  assert (ep_input client = RecvTimeout :: concat evss ++ (Data <$> segs) ++ tail) as Hin
    by (revert Hi; unfold ss_input; by rewrite Hc, Hcl).
  destruct (ep_receive_timeout client uninit (concat evss ++ (Data <$> segs) ++ tail))
    as (client' & -> & Hcon' & Hin'); [exact Hcon|by rewrite Hin|].
  cbn [negb]. unfold ask_send_poll, sdr_send_poll. cbn [cn_with_client cn_tcp_client].
  cbn [ep_alive client_endpoint] in Hcon'. rewrite Hcon'. cbn [negb].
  destruct (wait_skips_lemma client' uninit (λ m, msg_is m COMPLETE_ACK || msg_is m INCOMPLETE_NACK)
    ts evss pad m segs tail) as (client'' & Hw & _); [done..|by rewrite Hx|done|done|].
  rewrite Hw, Hx. cbn. by eexists.
Qed.

Lemma timeout_ignores_nacks_witness :
  let complete := message_with zero_message COMPLETE_ACK 1 zero_params in
  let s := example_sender (replicate 8 60000000)
    [RecvTimeout; Data (message_image example_padding example_nack);
     Data (message_image example_padding complete)] in
  ∃ s', poll zero_message s = Some (Some (Returned 0), s') ∧
    ev_wire (ss_env s') = ev_wire (ss_env s).
Proof.
  intros complete s.
  destruct (timeout_ignores_nacks zero_message s (mkSendHandle 0 1 12 0)
    (default (example_tx_conn true []) (ss_conn s))
    (mkClient 5 true (mkSocket (ss_input s) []
       (sk_out (tc_sock (default new_client (cn_tcp_client (default (example_tx_conn true []) (ss_conn s))))))))
    [TrafficMessage example_padding example_nack]
    [[Data (message_image example_padding example_nack)]] example_padding complete
    [message_image example_padding complete] []) as (s' & H1 & H2 & _).
  - vm_compute. reflexivity.
  - vm_compute. reflexivity.
  - vm_compute. reflexivity.
  - reflexivity.
  - constructor; [|constructor]. exists [message_image example_padding example_nack].
    split; [reflexivity|]. split; [apply app_nil_r|]. split; [apply example_padding_wf|].
    split; [exact example_nack_wf|reflexivity].
  - repeat constructor.
  - apply example_padding_wf.
  - apply message_with_wf; [apply zero_message_wf|uint_lia|apply zero_params_wf].
  - reflexivity.
  - reflexivity.
  - apply app_nil_r.
  - vm_compute. reflexivity.
  - exists s'. split; [exact H1|exact H2].
Defined.

(** The walk over empty gaps sends nothing; past the arrays it is undefined. *)
Lemma empty_gaps_overread limit msg n s : 0 < limit → 0 ≤ n ≤ 16 →
  List.length (cm_gap_start msg) = 16%nat → List.length (cm_gap_len msg) = 16%nat →
  Forall (λ x, 0 ≤ x < 65536) (cm_gap_start msg) → Forall (λ x, x = 0) (cm_gap_len msg) →
  16 < cm_num_gaps msg →
  retransmit_gaps limit msg (zrange (16 - n) (cm_num_gaps msg)) 0 s = None.
Proof.
  intros Hlim [Hn Hle] Hl1 Hl2 Hgs Hgl Hnum. revert Hle. pattern n. apply natlike_ind; [| |done].
  { intros _. rewrite zrange_cons by lia. cbn [retransmit_gaps]. rewrite Z.geb_leb.
    rewrite (proj2 (Z.leb_gt _ _)) by lia. unfold gap_chunks.
    by rewrite (lookup_ge_None_2 (cm_gap_start msg)) by lia. }
  clear n Hn. intros n Hn IH Hle. rewrite zrange_cons by lia. cbn [retransmit_gaps].
  rewrite Z.geb_leb, (proj2 (Z.leb_gt _ _)) by lia. unfold gap_chunks.
  destruct (lookup_lt_is_Some_2 (cm_gap_start msg) (Z.to_nat (16 - Z.succ n)) ltac:(lia)) as [gs Hg1].
  destruct (lookup_lt_is_Some_2 (cm_gap_len msg) (Z.to_nat (16 - Z.succ n)) ltac:(lia)) as [gl Hg2].
  rewrite Hg1, Hg2. cbn [mbind option_bind].
  rewrite Forall_lookup in Hgs, Hgl. pose proof (Hgs _ _ Hg1) as Hr. cbv beta in Hr. rewrite (Hgl _ _ Hg2).
  rewrite Z.add_0_r, u32_small, (zrange_nil gs) by lia. cbn [retransmit_gap mbind option_bind].
  replace (16 - Z.succ n + 1) with (16 - n) by lia. apply IH. lia.
Qed.

(** [poll] trusts the gap count of the peer: an SR_NACK that announces more
    than the sixteen gaps a message holds, all empty, makes the sender read past
    the end of the message - undefined behaviour. *)
Theorem nack_gap_overread params msg_id data length s msg :
  sendable params data length → 0 ≤ msg_id < 1024 → total_packets_of params length ≤ 262144 →
  sr_ok params msg_id data length s → wf_message msg →
  Forall (λ x, x = 0) (cm_gap_len msg) → 16 < cm_num_gaps msg →
  on_sr_nack s msg = None.
Proof.
  intros Hsend Hid Hfits Hs Hwf Hgl Hnum. unfold on_sr_nack.
  destruct (sr_apply_bitmap (count_nack s) msg) as [s1|]; [|done]. cbn [mbind option_bind].
  set (s2 := apply_cumulative _ _).
  assert (retransmit_gaps 8 msg (zrange (16 - 16) (cm_num_gaps msg)) 0 s2 = None) as E.
  { apply empty_gaps_overread; try done; [apply Hwf|apply Hwf|].
    eapply Forall_impl; [apply (wfm_gap_start _ Hwf)|]. intros x Hx. unfold is_uint in Hx.
    change (256 ^ Z.of_nat 2) with 65536 in Hx. exact Hx. }
  change (16 - 16) with 0 in E. by rewrite E.
Qed.

Lemma nack_gap_overread_witness :
  on_sr_nack (example_sender [] []) (mkMessage CONTROL_MAGIC (value SR_NACK) 1 zero_params 0
    (replicate 16 0) 17 (replicate 16 0) (replicate 16 0)) = None.
Proof.
  apply (nack_gap_overread example_cts_params 0 example_payload 12).
  - exact example_payload_sendable.
  - lia.
  - exact example_payload_fits.
  - example_sender_started.
  - destruct example_nack_wf. constructor; try done; [apply zero_params_wf|cbn; solve_wf..].
  - cbn. repeat (apply Forall_cons_2; [lia|]). apply Forall_nil_2.
  - cbn. lia.
Defined.
