(* ===== verification/SrReceiver.v ===== *)
(** * Selective repeat: the receiver (reliability/sr.h, reliability/sr.cpp)

    [SRReceiver::pump] reports the chunk bitmap to the sender.  It reads the
    bitmap chunk by chunk while the poller may be setting bits: the [n]-th read
    sees the frontend [view n]. *)

From S2P Require Import Prelude Bits Bytes Packet Backend Frontend Control Wait Connection Receiver Api.
From S2P Require Import Resend SrSender.
Import ControlMsgType.

(** ** State *)

Record SRReceiver : Set := mkSRReceiver {
  sv_cfg : SRConfig;
  sv_stats : SRStats;
  sv_recv_handle : option SDRRecvHandle;
  sv_conn : option SDRConnection
}.

Definition new_sr_receiver (cfg : SRConfig) : SRReceiver :=
  mkSRReceiver cfg (mkSRStats 0 0 0) None None.

Definition sv_with_conn (r : SRReceiver) (st : SRStats) (c : SDRConnection) : SRReceiver :=
  mkSRReceiver (sv_cfg r) st (sv_recv_handle r) (Some c).

(** [post_receive]; the arguments of [sdr_recv_post] are passed on. *)
Definition sr_post_receive (pad : Padding) (uninit : ControlMessage) (env : Z → channel_env)
    (ps : Process) (r : SRReceiver) (conn : SDRConnection) (buffer : Buffer) (length : Z)
    : option (call_result * Process * SRReceiver) :=
  '(rc, ps, conn, raw_handle) ← sdr_recv_post pad uninit env ps conn false buffer length;
  let posted := match rc with Returned code => code =? 0 | Blocked => false end in
  Some (rc, ps, mkSRReceiver (sv_cfg r) (sv_stats r)
                  (if posted then raw_handle else sv_recv_handle r) (Some conn)).

(** ** Reading the bitmap *)

Section Pump.
Context (view : nat → FrontendBitmap).

(** [frontend_bitmap->is_chunk_complete(c)] as read number [n]. *)
Definition read_chunk (n : nat) (c : Z) : option (bool * nat) :=
  b ← frontend_is_chunk_complete (view n) c; Some (b, S n).

(** The highest chunk of the complete prefix, [idx] so far. *)
Fixpoint cumulative_loop (n : nat) (chunks : list Z) (idx : Z) : option (Z * nat) :=
  match chunks with
  | [] => Some (idx, n)
  | c :: chunks =>
      '(complete, n) ← read_chunk n c;
      if complete : bool then cumulative_loop n chunks c else Some (idx, n)
  end.

(** The bitmap snapshot: a step of its loop. *)
Definition snapshot_step (st : list Z * nat) (c : Z) : option (list Z * nat) :=
  let '(words, n) := st in
  '(complete, n) ← read_chunk n c;
  if complete : bool then
    '(_, words) ← atomic_fetch_or words (c / 64) (bit_mask (c mod 64));
    Some (words, n)
  else Some (words, n).

(** A run of missing chunks, [len] so far, until [stop len]. *)
Fixpoint missing_run (stop : Z → bool) (n : nat) (chunks : list Z) (len : Z) : option (Z * nat) :=
  match chunks with
  | [] => Some (len, n)
  | c :: chunks =>
      '(complete, n) ← read_chunk n c;
      if complete : bool then Some (len, n) else
      if stop len then Some (len, n) else missing_run stop n chunks (len + 1)
  end.

(** The first gap: [missing_start] and [missing_len]. *)
Fixpoint first_gap (n : nat) (total : Z) (chunks : list Z) : option (Z * Z * nat) :=
  match chunks with
  | [] => Some (0, 0, n)
  | c :: chunks =>
      '(complete, n) ← read_chunk n c;
      if complete : bool then first_gap n total chunks else
      '(run, n) ← missing_run (λ _, false) n (zrange c total) 0;
      Some (c, run, n)
  end.

(** The gaps of the message, from chunk [c] on, [gaps] found so far: start and
    length cut to 16 bits. *)
Fixpoint gap_scan (fuel : nat) (n : nat) (total c : Z) (gaps : list (Z * Z))
    : option (list (Z * Z) * nat) :=
  match fuel with
  | O => None
  | S fuel =>
      if (c <? total) && (Z.of_nat (length gaps) <? 4) then
        '(complete, n) ← read_chunk n c;
        if complete : bool then gap_scan fuel n total (c + 1) gaps else
        '(len, n) ← missing_run (λ len, len >=? 65535) n (zrange c total) 0;
        gap_scan fuel n total (c + len + 1) (gaps ++ [(u16 c, len)])
      else Some (gaps, n)
  end.

(** [get_total_chunks_completed] over the reads. *)
Fixpoint completed_loop (n : nat) (chunks : list Z) (count : Z) : option (Z * nat) :=
  match chunks with
  | [] => Some (count, n)
  | c :: chunks =>
      '(complete, n) ← read_chunk n c;
      completed_loop n chunks (if complete : bool then count + 1 else count)
  end.

(** The array [a] with [l] written over its beginning. *)
Definition write_array (l a : list Z) : list Z := l ++ drop (length l) a.

(** The report of [pump], its type and the first gap set last. *)
Definition sr_report (connection_id total_chunks cumulative : Z) (words : list Z)
    (gaps : list (Z * Z)) (t : ControlMsgType.t) (missing_start missing_len : Z) : ControlMessage :=
  let word_count := Z.min ((total_chunks +u32 63) / 64) 8 in
  mkMessage CONTROL_MAGIC (value t) connection_id
    (mkParams 0 0 0 0 0 0 (u16 total_chunks) 0 0 cumulative missing_start missing_len 0 0
       (replicate 16 0) 0)
    (u16 word_count) (write_array (take (Z.to_nat word_count) words) (replicate 16 0))
    (Z.of_nat (length gaps)) (write_array gaps.*1 (replicate 16 0))
    (write_array gaps.*2 (replicate 16 0)).

(** What [pump] reads, in order: prefix, snapshot, first gap, gaps. *)
Definition read_report (n : nat) (total_chunks connection_id : Z)
    : option (Z * (ControlMsgType.t → ControlMessage) * nat) :=
  '(cumulative_idx, n) ← cumulative_loop n (zrange 0 total_chunks) (-1);
  let cumulative := if cumulative_idx >=? 0 then cumulative_idx else UINT32_MAX in
  '(words, n) ← foldl_opt snapshot_step (replicate 8 0, n) (zrange 0 (Z.min total_chunks 512));
  '(missing_start, missing_len, n) ← first_gap n total_chunks (zrange 0 total_chunks);
  '(gaps, n) ← gap_scan (S (Z.to_nat total_chunks)) n total_chunks 0 [];
  Some (missing_len,
        λ t, match t with
             | SR_NACK => sr_report connection_id total_chunks cumulative words gaps t
                            missing_start missing_len
             | _ => sr_report connection_id total_chunks cumulative words gaps t 0 0
             end, n).

Definition count_sr (st : SRStats) (nack : bool) : SRStats :=
  if nack then mkSRStats (st_acks_sent st) (st_nacks_sent st +u64 1) (st_retransmits st)
  else mkSRStats (st_acks_sent st +u64 1) (st_nacks_sent st) (st_retransmits st).

(** [pump] once it is time to report: the answer, the message sent, and the
    receiver. *)
Definition pump_report (pad : Padding) (r : SRReceiver) (conn : SDRConnection)
    (server : TCPControlServer) (total_chunks : Z)
    : option (bool * ControlMessage * SRReceiver) :=
  '(missing_len, report, n) ← read_report 0 total_chunks
    (cx_connection_id (cn_connection_ctx conn));
  let send t :=
    let '(_, server) := server_send_message pad server (report t) in
    sv_with_conn r (count_sr (sv_stats r) (bool_decide (t = SR_NACK))) (cn_with_server conn server) in
  if missing_len >? 0 then
    '(count, _) ← completed_loop n (zrange 0 (fb_total_chunks (view n))) 0;
    Some (count >=? total_chunks, report SR_NACK, send SR_NACK)
  else
    '(count, n) ← completed_loop n (zrange 0 (fb_total_chunks (view n))) 0;
    if count >=? total_chunks then Some (true, report COMPLETE_ACK, send COMPLETE_ACK) else
    '(count, _) ← completed_loop n (zrange 0 (fb_total_chunks (view n))) 0;
    Some (count >=? total_chunks, report SR_ACK, send SR_ACK).

(** The time between reports. *)
Definition ctrl_interval_ms (cfg : SRConfig) : Z :=
  or_else (sc_nack_delay_ms cfg) (Z.max (sc_base_rtt_ms cfg / 2) 50).

(** [pump]: [last_ctrl] is the function's static, set up by the first call with
    the reading [first]; [now] is the reading after it. *)
Definition pump (pad : Padding) (last_ctrl : option Z) (first now : Z) (r : SRReceiver)
    : option (bool * option ControlMessage * option Z * SRReceiver) :=
  match sv_recv_handle r, sv_conn r with
  | Some h, Some conn =>
      match cn_tcp_server conn with
      | None => Some (false, None, last_ctrl, r)
      | Some server =>
          let last := default first last_ctrl in
          if elapsed_ms now last <? ctrl_interval_ms (sv_cfg r) then Some (false, None, Some last, r) else
          match sdr_recv_bitmap_get conn h, cx_msg_table (cn_connection_ctx conn) !! rh_msg_ctx h with
          | Some _, Some ctx =>
              '(done, msg, r) ← pump_report pad r conn server (u32 (mc_total_chunks ctx));
              Some (done, Some msg, Some now, r)
          | _, _ => Some (false, None, Some now, r)
          end
      end
  | _, _ => Some (false, None, last_ctrl, r)
  end.

(** ** What the reads saw *)

(** Some read in [n, n') found chunk [c] as [b]. *)
Definition seen (n n' : nat) (c : Z) (b : bool) : Prop :=
  ∃ m, (n ≤ m < n')%nat ∧ marked (view m) c = b.

Lemma seen_weaken n1 n2 n3 n4 c b : seen n2 n3 c b → (n1 ≤ n2)%nat → (n3 ≤ n4)%nat → seen n1 n4 c b.
Proof. intros (m & ? & ?) ? ?. exists m. split; [lia|done]. Qed.

Context (total : Z) (Htotal : 0 ≤ total).
Context (Hview : ∀ n, wf_frontend (view n) ∧ fb_total_chunks (view n) = total).

Lemma read_chunk_eq n c : 0 ≤ c → read_chunk n c = Some (marked (view n) c, S n).
Proof.
  intros Hc. unfold read_chunk. by rewrite frontend_is_chunk_complete_eq by (apply Hview || done).
Qed.

(** The prefix: its chunks were seen complete and the next one was not. *)
Lemma cumulative_loop_ok n c0 k : 0 ≤ c0 → c0 + Z.of_nat k = total →
  ∃ idx n', cumulative_loop n (zrange c0 total) (c0 - 1) = Some (idx, n') ∧ (n ≤ n')%nat ∧
    c0 - 1 ≤ idx < total ∧ (∀ c, c0 ≤ c ≤ idx → seen n n' c true) ∧
    (idx + 1 < total → seen n n' (idx + 1) false).
Proof.
  revert n c0. induction k as [|k IH]; intros n c0 Hc Hk.
  { rewrite zrange_nil by lia. exists (c0 - 1), n. split_and!; try done; lia. }
  rewrite zrange_cons by lia. cbn [cumulative_loop]. rewrite read_chunk_eq by done.
  cbn [mbind option_bind]. destruct (marked (view n) c0) eqn:Hm.
  - destruct (IH (S n) (c0 + 1)) as (idx & n' & H1 & H2 & H3 & H4 & H5); [lia..|].
    replace (c0 + 1 - 1) with c0 in H1 by lia. exists idx, n'. split; [done|].
    split; [lia|]. split; [lia|]. split.
    + intros c Hcr. destruct (decide (c = c0)) as [->|]; [exists n; split; [lia|done]|].
      apply (seen_weaken n (S n) n' n'); [apply H4|..]; lia.
    + intros Hlt. apply (seen_weaken n (S n) n' n'); [by apply H5|..]; lia.
  - exists (c0 - 1), (S n). split_and!; try lia; [done|].
    intros _. replace (c0 - 1 + 1) with c0 by lia. exists n. split; [lia|done].
Qed.

(** The snapshot: bit [c] is what a read of chunk [c] saw. *)
Lemma snapshot_ok n k : 0 ≤ k ≤ total → k ≤ 512 →
  ∃ words n', foldl_opt snapshot_step (replicate 8 0, n) (zrange 0 k) = Some (words, n') ∧
    (n ≤ n')%nat ∧ length words = 8%nat ∧ wf_words words ∧
    (∀ c, 0 ≤ c < k → seen n n' c (bit_at words c)) ∧ (∀ c, k ≤ c → bit_at words c = false).
Proof.
  intros [Hk Ht] Hle. revert Ht Hle. pattern k. apply natlike_ind; [| |done].
  { intros _ _. rewrite zrange_nil by lia. exists (replicate 8 0), n.
    split_and!; [done|done|done|apply (wf_zero_words 8)|intros c ?; lia|].
    intros c _. apply (bit_at_zero 8). }
  clear k Hk. intros k Hk IH Ht Hle. rewrite <-Z.add_1_r, zrange_snoc, foldl_opt_app by lia.
  destruct IH as (words & n1 & -> & Hn & Hl & Hw & Hs & Hz); [lia..|].
  cbn [mbind option_bind foldl_opt snapshot_step]. rewrite read_chunk_eq by done.
  cbn [mbind option_bind]. destruct (marked (view n1) k) eqn:Hm.
  - destruct (fetch_or_bit words k) as (old & words' & -> & _ & Hl' & Hw' & Hb); [lia|done|].
    cbn [mbind option_bind]. exists words', (S n1). split_and!; [done|lia|congruence|done|..].
    + intros c Hc. rewrite Hb by lia. destruct (Z.eqb_spec c k) as [->|].
      * exists n1. split; [lia|done].
      * apply (seen_weaken n n n1 (S n1)); [apply Hs; lia|lia..].
    + intros c Hc. rewrite Hb, Hz by lia. by destruct (Z.eqb_spec c k); [lia|].
  - exists words, (S n1). split_and!; [done|lia|done|done|..].
    + intros c Hc. destruct (decide (c = k)) as [->|].
      * rewrite Hz by lia. exists n1. split; [lia|done].
      * apply (seen_weaken n n n1 (S n1)); [apply Hs; lia|lia..].
    + intros c Hc. apply Hz. lia.
Qed.

(** A run: its chunks were seen missing; unless it was stopped, the next chunk,
    if there is one, was seen complete. *)
Lemma missing_run_ok stop n c0 len k : 0 ≤ c0 → c0 + Z.of_nat k = total →
  ∃ d n', missing_run stop n (zrange c0 total) len = Some (len + d, n') ∧ (n ≤ n')%nat ∧
    0 ≤ d ≤ total - c0 ∧ (∀ c, c0 ≤ c < c0 + d → seen n n' c false) ∧
    (c0 + d < total → seen n n' (c0 + d) true ∨ stop (len + d) = true).
Proof.
  revert n c0 len. induction k as [|k IH]; intros n c0 len Hc Hk.
  { rewrite zrange_nil by lia. exists 0, n. rewrite Z.add_0_r. split_and!; try done; [lia|lia..]. }
  rewrite zrange_cons by lia. cbn [missing_run]. rewrite read_chunk_eq by done.
  cbn [mbind option_bind]. destruct (marked (view n) c0) eqn:Hm.
  { exists 0, (S n). rewrite !Z.add_0_r. split_and!; try lia; [done|].
    intros _. left. exists n. split; [lia|done]. }
  destruct (stop len) eqn:Hstop.
  { exists 0, (S n). rewrite !Z.add_0_r. split_and!; try lia; [done|by right]. }
  destruct (IH (S n) (c0 + 1) (len + 1)) as (d & n' & H1 & H2 & H3 & H4 & H5); [lia..|].
  exists (d + 1), n'. rewrite H1. split; [do 2 f_equal; lia|]. split; [lia|]. split; [lia|]. split.
  - intros c Hcr. destruct (decide (c = c0)) as [->|]; [exists n; split; [lia|done]|].
    apply (seen_weaken n (S n) n' n'); [apply H4|..]; lia.
  - intros Hlt. replace (c0 + (d + 1)) with (c0 + 1 + d) by lia.
    replace (len + (d + 1)) with (len + 1 + d) by lia.
    destruct H5 as [Hs|Hs]; [lia| |by right]. left. apply (seen_weaken n (S n) n' n'); [done|lia..].
Qed.

(** The first gap: nothing was seen missing, or the run starts at a chunk seen
    missing. *)
Lemma first_gap_ok n c0 k : 0 ≤ c0 → c0 + Z.of_nat k = total →
  ∃ start len n', first_gap n total (zrange c0 total) = Some (start, len, n') ∧ (n ≤ n')%nat ∧
    0 ≤ start ∧ 0 ≤ len ≤ total ∧
    ((len = 0 ∧ ∀ c, c0 ≤ c < total → seen n n' c true) ∨
     (c0 ≤ start < total ∧ seen n n' start false ∧
      (∀ c, start ≤ c < start + len → seen n n' c false) ∧
      (∀ c, c0 ≤ c < start → seen n n' c true) ∧
      (start + len < total → seen n n' (start + len) true))).
Proof.
  revert n c0. induction k as [|k IH]; intros n c0 Hc Hk.
  { rewrite zrange_nil by lia. exists 0, 0, n. split_and!; try done. left. split; [done|]. intros; lia. }
  rewrite zrange_cons by lia. cbn [first_gap]. rewrite read_chunk_eq by done.
  cbn [mbind option_bind]. destruct (marked (view n) c0) eqn:Hm.
  - assert (∀ n', (n < n')%nat → seen n n' c0 true) as H0 by (intros n' ?; exists n; split; [lia|done]).
    destruct (IH (S n) (c0 + 1)) as (start & len & n' & H1 & H2 & H3 & H4 & H5); [lia..|].
    exists start, len, n'. split; [done|]. split; [lia|]. split; [done|]. split; [done|].
    destruct H5 as [[-> Hall]|(Hs & Hf & Hrun & Hpre & Hnext)]; [left|right].
    + split; [done|]. intros c Hcr. destruct (decide (c = c0)) as [->|]; [apply H0; lia|].
      apply (seen_weaken n (S n) n' n'); [apply Hall|..]; lia.
    + split; [lia|]. split; [by apply (seen_weaken n (S n) n' n'); [|lia..]|]. split_and!.
      * intros c ?. apply (seen_weaken n (S n) n' n'); [by apply Hrun|lia..].
      * intros c ?. destruct (decide (c = c0)) as [->|]; [apply H0; lia|].
        apply (seen_weaken n (S n) n' n'); [apply Hpre|..]; lia.
      * intros ?. apply (seen_weaken n (S n) n' n'); [by apply Hnext|lia..].
  - destruct (missing_run_ok (λ _, false) (S n) c0 0 (S k)) as (d & n' & -> & H2 & H3 & H4 & H5); [lia..|].
    cbn [mbind option_bind]. exists c0, (0 + d), n'. rewrite Z.add_0_l.
    split; [done|]. split; [lia|]. split; [done|]. split; [lia|]. right. split; [lia|].
    split; [exists n; split; [lia|done]|]. split_and!.
    + intros c ?. apply (seen_weaken n (S n) n' n'); [by apply H4|lia..].
    + intros c ?. lia.
    + intros ?. destruct H5 as [?|?]; [done| |done].
      by apply (seen_weaken n (S n) n' n'); [|lia..].
Qed.

(** The chunks the recorded gaps name. *)
Definition gap_range (g : Z * Z) : list Z := zrange g.1 (Z.min (g.1 +u32 g.2) total).

(** The chunks of [a, b) that a bitmap misses. *)
Definition missing_in (fb : FrontendBitmap) (a b : Z) : list Z :=
  List.filter (λ c, negb (marked fb c)) (zrange a b).

Lemma missing_in_app fb a b c : a ≤ b ≤ c → missing_in fb a c = missing_in fb a b ++ missing_in fb b c.
Proof. intros. unfold missing_in. by rewrite (zrange_app a b c), List.filter_app. Qed.

Lemma missing_in_nil fb a b : b ≤ a → missing_in fb a b = [].
Proof. intros. unfold missing_in. by rewrite zrange_nil. Qed.

Lemma missing_in_marked fb a b : marked fb a = true → missing_in fb a b = missing_in fb (a + 1) b.
Proof.
  intros Hm. destruct (Z.lt_ge_cases a b); [|by rewrite !missing_in_nil by lia].
  unfold missing_in. rewrite zrange_cons by done. cbn. by rewrite Hm.
Qed.

Lemma missing_in_run fb a b : (∀ c, a ≤ c < b → marked fb c = false) → missing_in fb a b = zrange a b.
Proof.
  intros Hm. apply forallb_filter_id, forallb_forall. intros c Hc.
  apply list_elem_of_In, elem_of_zrange in Hc. by rewrite Hm.
Qed.

Lemma missing_in_all fb a b : (∀ c, a ≤ c < b → marked fb c = true) → missing_in fb a b = [].
Proof.
  intros Hm. apply elem_of_nil_inv. intros c [Hc Hf]%list_elem_of_In%List.filter_In.
  apply list_elem_of_In, elem_of_zrange in Hc. by rewrite Hm in Hf.
Qed.

Lemma elem_of_missing_in fb a b c : c ∈ missing_in fb a b ↔ a ≤ c < b ∧ marked fb c = false.
Proof.
  unfold missing_in. by rewrite list_elem_of_In, List.filter_In, <-list_elem_of_In, elem_of_zrange,
    negb_true_iff.
Qed.

Lemma seen_constant fb n n' c b : (∀ m, view m = fb) → seen n n' c b → marked fb c = b.
Proof. intros Hv (m & _ & Hm). by rewrite Hv in Hm. Qed.

(** The gaps: how many, and, when the bitmap stands still, which chunks. *)
Definition gaps_exact (gaps' : list (Z * Z)) (count : nat) (c : Z) : Prop :=
  ∀ fb, (∀ m, view m = fb) → total < 65536 →
  ∃ e, Z.min c total ≤ e ≤ total ∧ concat (gap_range <$> gaps') = missing_in fb c e ∧
    (e = total ∨ count = 4%nat ∧ (gaps' = [] ∨ missing_in fb c e ≠ [])).

Lemma gaps_exact_skip n gaps' count c : marked (view n) c = true →
  gaps_exact gaps' count (c + 1) → gaps_exact gaps' count c.
Proof.
  intros Hm H fb Hv Ht. destruct (H fb Hv Ht) as (e & He & Hg & Hc). rewrite Hv in Hm.
  exists e. split; [lia|]. by rewrite Hg, (missing_in_marked fb c e).
Qed.

Lemma gaps_exact_run gaps' count c d n0 n n' : 0 ≤ c < total → 0 ≤ d ≤ total - c →
  marked (view n0) c = false →
  (∀ c', c ≤ c' < c + d → seen n n' c' false) →
  (c + d < total → seen n n' (c + d) true ∨ (d >=? 65535) = true) →
  gaps_exact gaps' count (c + d + 1) → gaps_exact ((u16 c, d) :: gaps') count c.
Proof.
  intros Hc Hd Hm Hrun Hnext H fb Hv Ht. destruct (H fb Hv Ht) as (e & He & Hg & Hcount).
  exists e. split; [lia|]. split.
  2: { destruct Hcount as [?|[? _]]; [by left|]. right. split; [done|]. right. intros E.
       assert (c ∈ missing_in fb c e) as Hin by (apply elem_of_missing_in; rewrite Hv in Hm; split; [lia|done]).
       rewrite E in Hin. by apply not_elem_of_nil in Hin. }
  rewrite fmap_cons. cbn [concat]. rewrite Hg.
  unfold gap_range at 1. cbn [fst snd].
  destruct (Z.lt_ge_cases c 65536) as [Hc'|]; [|lia].
  rewrite (u16_small c), (u32_small (c + d)), Z.min_l by lia.
  rewrite <-(missing_in_run fb c (c + d)) by (intros c' ?; by eapply seen_constant, Hrun).
  destruct (Z.lt_ge_cases (c + d) total) as [Hlt|Hge].
  - rewrite (missing_in_app fb c (c + d) e) by lia. f_equal.
    destruct (Hnext Hlt) as [Hs|Hs]; [|rewrite Z.geb_leb in Hs; apply Z.leb_le in Hs; lia].
    symmetry. apply missing_in_marked. by eapply seen_constant.
  - rewrite (missing_in_nil fb (c + d + 1)) by lia. rewrite app_nil_r. f_equal. lia.
Qed.

Lemma gap_scan_ok fuel : ∀ n c gaps, 0 ≤ c → (length gaps ≤ 4)%nat → Z.max 0 (total - c) < Z.of_nat fuel →
  ∃ gaps' n', gap_scan fuel n total c gaps = Some (gaps ++ gaps', n') ∧ (n ≤ n')%nat ∧
    (length (gaps ++ gaps') ≤ 4)%nat ∧ Forall (λ g, 0 ≤ g.1 < 65536 ∧ 0 ≤ g.2 ≤ total) gaps' ∧
    gaps_exact gaps' (length (gaps ++ gaps')) c.
Proof.
  induction fuel as [|fuel IH]; intros n c gaps Hc Hg Hf.
  { lia. }
  cbn [gap_scan]. destruct ((c <? total) && (Z.of_nat (length gaps) <? 4)) eqn:Hcond.
  2: { exists [], n. rewrite app_nil_r. split_and!; [done..|]. intros fb _ _.
       apply andb_false_iff in Hcond. rewrite !Z.ltb_ge in Hcond.
       exists (Z.min c total). split; [lia|]. split; [by rewrite missing_in_nil by lia|].
       destruct Hcond; [left; lia|right]. split; [lia|by left]. }
  bool_to_prop. rewrite read_chunk_eq by done. cbn [mbind option_bind].
  destruct (marked (view n) c) eqn:Hm.
  - destruct (IH (S n) (c + 1) gaps) as (gaps' & n' & H1 & H2 & H3 & H4 & H5); [lia..|].
    exists gaps', n'. split_and!; [done|lia|done|done|by apply (gaps_exact_skip n)].
  - destruct (missing_run_ok (λ len, len >=? 65535) (S n) c 0 (Z.to_nat (total - c)))
      as (d & n' & -> & H2 & H3 & Hrun & Hnext); [lia..|].
    cbn [mbind option_bind]. rewrite Z.add_0_l.
    destruct (IH n' (c + d + 1) (gaps ++ [(u16 c, d)])) as (gaps' & n'' & H4 & H5 & H6 & H7 & H8);
      [lia|rewrite length_app; cbn; lia|lia|].
    exists ((u16 c, d) :: gaps'), n''. rewrite <-app_assoc in H4, H6, H8.
    split_and!; [done|lia|done| |eapply (gaps_exact_run gaps' _ c d n (S n) n'); (done || lia)].
    constructor; [|done]. cbn. pose proof (u16_range c). lia.
Qed.

(** The count: it reaches the number of chunks only if all were seen complete. *)
Lemma completed_loop_ok n c0 count k : 0 ≤ c0 → c0 + Z.of_nat k = total →
  ∃ d n', completed_loop n (zrange c0 total) count = Some (count + d, n') ∧ (n ≤ n')%nat ∧
    0 ≤ d ≤ total - c0 ∧ (d = total - c0 → ∀ c, c0 ≤ c < total → seen n n' c true) ∧
    (d < total - c0 → ∃ c, c0 ≤ c < total ∧ seen n n' c false).
Proof.
  revert n c0 count. induction k as [|k IH]; intros n c0 count Hc Hk.
  { rewrite zrange_nil by lia. exists 0, n. rewrite Z.add_0_r. split_and!; try done; lia. }
  rewrite zrange_cons by lia. cbn [completed_loop]. rewrite read_chunk_eq by done.
  cbn [mbind option_bind].
  destruct (IH (S n) (c0 + 1) (if marked (view n) c0 then count + 1 else count))
    as (d & n' & H1 & H2 & H3 & H4 & H5); [lia..|].
  exists ((if marked (view n) c0 then 1 else 0) + d), n'. rewrite H1.
  split; [destruct (marked (view n) c0); do 2 f_equal; lia|]. split; [lia|].
  split; [destruct (marked (view n) c0); lia|]. split.
  - intros Hd c Hcr. destruct (marked (view n) c0) eqn:Hm; [|lia].
    destruct (decide (c = c0)) as [->|]; [exists n; split; [lia|done]|].
    apply (seen_weaken n (S n) n' n'); [apply H4|..]; lia.
  - intros Hd. destruct (marked (view n) c0) eqn:Hm.
    + destruct H5 as (c & ? & ?); [lia|]. exists c. split; [lia|].
      by apply (seen_weaken n (S n) n' n'); [|lia..].
    + exists c0. split; [lia|]. exists n. split; [lia|done].
Qed.

(** ** The report *)

(** The words of the bitmap a report carries. *)
Definition word_count : Z := Z.min ((total +u32 63) / 64) 8.

Lemma word_count_eq : total ≤ 4294967296 - 65536 →
  word_count = Z.min ((total + 63) / 64) 8 ∧ 0 ≤ word_count ≤ 8 ∧
  ∀ c, 0 ≤ c < Z.min total 512 → c < 64 * word_count.
Proof.
  intros Ht. unfold word_count. rewrite u32_small by lia.
  assert (0 ≤ (total + 63) / 64) by (apply Z.div_pos; lia).
  split; [done|]. split; [lia|]. intros c Hc. Z.div_mod_to_equations. lia.
Qed.

Lemma length_write_array l a : (length l ≤ length a)%nat → length (write_array l a) = length a.
Proof. intros. unfold write_array. rewrite length_app, length_drop. lia. Qed.

(** What a report says of a chunk: the snapshot's bit, or a place in the prefix. *)
Lemma report_reports id cum words gaps t a b c : total ≤ 4294967296 - 65536 → length words = 8%nat →
  0 ≤ c →
  reports (sr_report id total cum words gaps t a b) c =
    ((c <? 64 * word_count) && bit_at words c) ||
    (negb (cum =? UINT32_MAX) && (c <=? cum)).
Proof.
  intros Ht Hl Hc. destruct (word_count_eq Ht) as (_ & Hw & _).
  unfold reports, bitmap_has, sr_report. fold word_count.
  cbn [cm_chunk_bitmap_words cm_chunk_bitmap cm_params prm_max_inflight].
  rewrite (proj2 (Z.leb_le 0 c)), (u16_small word_count), (Z.min_l word_count) by lia.
  cbn [andb]. rewrite andb_true_r. f_equal.
  destruct (Z.ltb_spec c (64 * word_count)) as [Hlt|]; cbn [andb]; [|done].
  unfold bit_at, write_array.
  assert (c / 64 < word_count) by (apply Z.div_lt_upper_bound; lia).
  assert (0 ≤ c / 64) by (apply Z.div_pos; lia).
  rewrite lookup_app_l by (rewrite length_take; lia). by rewrite lookup_take_lt by lia.
Qed.

Lemma sr_report_ok id cum words gaps t a b : total ≤ 4294967296 - 65536 → length words = 8%nat →
  0 ≤ cum → (length gaps ≤ 4)%nat → Forall (λ g, 0 ≤ g.1 < 65536 ∧ 0 ≤ g.2 ≤ total) gaps →
  msg_ok (sr_report id total cum words gaps t a b).
Proof.
  intros Ht Hl Hc Hg Hgs. destruct (word_count_eq Ht) as (_ & Hw & _).
  constructor; unfold sr_report; cbn -[write_array take replicate]; fold word_count.
  - rewrite length_write_array; [by rewrite length_replicate|].
    rewrite length_take, length_replicate. lia.
  - rewrite length_write_array; [by rewrite length_replicate|].
    rewrite length_fmap, length_replicate. lia.
  - rewrite length_write_array; [by rewrite length_replicate|].
    rewrite length_fmap, length_replicate. lia.
  - unfold write_array. apply Forall_app. split.
    + apply Forall_fmap. eapply Forall_impl; [exact Hgs|]. intros g [Hg1 _]. cbn. lia.
    + apply Forall_drop, Forall_replicate. lia.
  - done.
  - lia.
Qed.

(** The chunks the gaps of a message stand for, read as the sender reads them. *)
Lemma written_gaps msg gaps a : cm_gap_start msg = write_array gaps.*1 a →
  cm_gap_len msg = write_array gaps.*2 a →
  reported_gaps total msg (zrange 0 (Z.of_nat (length gaps))) = concat (gap_range <$> gaps).
Proof.
  intros Hs Hl. unfold reported_gaps. f_equal. apply fmap_zrange_lookup. intros i g Hi _.
  unfold gap_chunks. rewrite Hs, Hl. unfold write_array.
  rewrite (lookup_app_l_Some gaps.*1 _ _ g.1), (lookup_app_l_Some gaps.*2 _ _ g.2)
    by (by rewrite list_lookup_fmap, Hi).
  done.
Qed.

Lemma sr_report_gaps id cum words gaps t a b :
  reported_gaps total (sr_report id total cum words gaps t a b) (zrange 0 (Z.of_nat (length gaps))) =
    concat (gap_range <$> gaps).
Proof. by eapply written_gaps. Qed.

(** What holds of a report: the sender may handle it, and what it says was
    seen by some read up to [n']. *)
Record report_ok (n' : nat) (msg : ControlMessage) : Prop := {
  rp_ok : msg_ok msg;
  rp_reports : ∀ c, 0 ≤ c < total → reports msg c = true → seen 0 n' c true;
  rp_missing : ∀ c, 0 ≤ c < Z.min total 512 → reports msg c = false → seen 0 n' c false;
  rp_num_gaps : 0 ≤ cm_num_gaps msg ≤ 4;
  rp_gaps : ∀ fb, (∀ m, view m = fb) → total < 65536 →
    ∃ e, 0 ≤ e ≤ total ∧
      reported_gaps total msg (zrange 0 (cm_num_gaps msg)) = missing_in fb 0 e ∧
      (e = total ∨ cm_num_gaps msg = 4 ∧ missing_in fb 0 e ≠ [])
}.

(** The first gap a report names. *)
Definition gap_seen (n' : nat) (start len : Z) : Prop :=
  (len = 0 ∧ ∀ c, 0 ≤ c < total → seen 0 n' c true) ∨
  (0 ≤ start < total ∧ seen 0 n' start false ∧
   (∀ c, start ≤ c < start + len → seen 0 n' c false) ∧
   (∀ c, 0 ≤ c < start → seen 0 n' c true) ∧
   (start + len < total → seen 0 n' (start + len) true)).

Lemma read_report_ok id : total ≤ 4294967296 - 65536 →
  ∃ start missing_len report n', read_report 0 total id = Some (missing_len, report, n') ∧
    (∀ t, report_ok n' (report t) ∧ cm_msg_type (report t) = value t) ∧
    prm_rto_ms (cm_params (report SR_NACK)) = start ∧
    prm_rtt_alpha_ms (cm_params (report SR_NACK)) = missing_len ∧
    0 ≤ missing_len ∧ gap_seen n' start missing_len.
Proof.
  intros Ht. unfold read_report.
  destruct (cumulative_loop_ok 0 0 (Z.to_nat total)) as (idx & n1 & Heq & Hn1 & Hidx & Hpre & Hnext); [lia..|].
  change (0 - 1) with (-1) in Heq. rewrite Heq. clear Heq. cbn [mbind option_bind].
  destruct (snapshot_ok n1 (Z.min total 512)) as (words & n2 & -> & Hn2 & Hl & Hw & Hbits & Hz); [lia..|].
  cbn [mbind option_bind].
  destruct (first_gap_ok n2 0 (Z.to_nat total)) as (start & len & n3 & -> & Hn3 & Hs0 & Hlen & Hgap); [lia..|].
  cbn [mbind option_bind].
  destruct (gap_scan_ok (S (Z.to_nat total)) n3 0 []) as (gaps & n4 & -> & Hn4 & Hg & Hgs & Hexact);
    [done|cbn; lia|lia|].
  cbn [mbind option_bind app] in *. exists start. eexists _, _, n4. split; [reflexivity|].
  set (cum := if idx >=? 0 then idx else UINT32_MAX).
  assert (0 ≤ cum) as Hcum by (subst cum; unfold UINT32_MAX; case_bool; lia).
  assert (∀ t a b, report_ok n4 (sr_report id total cum words gaps t a b)) as Hok.
  { intros t a b. constructor.
    - by apply sr_report_ok.
    - intros c Hc. rewrite report_reports by (done || lia). intros [[Hlt Hb]%andb_true_iff|Hcu]%orb_true_iff.
      + destruct (Z.lt_ge_cases c (Z.min total 512)) as [Hc'|Hc']; [|by rewrite Hz in Hb].
        rewrite <-Hb. apply (seen_weaken 0 n1 n2 n4); [apply Hbits|..]; lia.
      + apply andb_true_iff in Hcu as [Hne Hle]. apply negb_true_iff, Z.eqb_neq in Hne.
        apply Z.leb_le in Hle. subst cum. rewrite Z.geb_leb in *.
        destruct (Z.leb_spec 0 idx); [|done]. apply (seen_weaken 0 0 n1 n4); [apply Hpre|..]; lia.
    - intros c Hc. rewrite report_reports by (done || lia). intros [Hb _]%orb_false_iff.
      destruct (word_count_eq Ht) as (_ & _ & Hwc).
      rewrite (proj2 (Z.ltb_lt _ _) (Hwc c Hc)) in Hb. cbn [andb] in Hb. rewrite <-Hb.
      apply (seen_weaken 0 n1 n2 n4); [apply Hbits|..]; lia.
    - cbn. lia.
    - intros fb Hv Ht'. destruct (Hexact fb Hv Ht') as (e & He & Hg' & Hcount). exists e.
      split; [lia|]. cbn [sr_report cm_num_gaps]. rewrite sr_report_gaps. split; [done|].
      destruct Hcount as [->|[Hc4 [->|Hne]]]; [by left|done|right]. split; [lia|done]. }
  split; [intros []; (split; [apply Hok|done])|]. split; [done|]. split; [done|]. split; [lia|].
  destruct Hgap as [[-> Hall]|(Hs & Hf & Hrun & Hpr & Hnx)]; [left|right].
  - split; [done|]. intros c Hc. apply (seen_weaken 0 n2 n3 n4); [by apply Hall|lia..].
  - split; [done|]. split_and!.
    + apply (seen_weaken 0 n2 n3 n4); [done|lia..].
    + intros c Hc. apply (seen_weaken 0 n2 n3 n4); [by apply Hrun|lia..].
    + intros c Hc. apply (seen_weaken 0 n2 n3 n4); [by apply Hpr|lia..].
    + intros Hlt. apply (seen_weaken 0 n2 n3 n4); [by apply Hnx|lia..].
Qed.

(** ** The message sent *)

(** What [pump]'s answer and message promise, when the bitmap had at least the
    chunks of [before] marked and has at most those of [after]. *)
Record pump_ok (before after : FrontendBitmap) (done : bool) (msg : ControlMessage) : Prop := {
  po_ok : msg_ok msg;
  po_type : cm_msg_type msg = value SR_NACK ∨ cm_msg_type msg = value COMPLETE_ACK ∨
            cm_msg_type msg = value SR_ACK;
  po_reports : ∀ c, 0 ≤ c < total → reports msg c = true → marked after c = true;
  po_missing : ∀ c, 0 ≤ c < Z.min total 512 → reports msg c = false → marked before c = false;
  po_done : cm_msg_type msg = value COMPLETE_ACK ∨ done = true →
            ∀ c, 0 ≤ c < total → marked after c = true;
  po_complete : cm_msg_type msg = value COMPLETE_ACK → done = true;
  po_nack : cm_msg_type msg = value SR_NACK →
            ∃ start len, prm_rto_ms (cm_params msg) = start ∧ prm_rtt_alpha_ms (cm_params msg) = len ∧
              0 ≤ start < total ∧ 0 < len ∧ ∀ c, start ≤ c < start + len → marked before c = false;
  po_ack : cm_msg_type msg = value SR_ACK →
           ∃ c, 0 ≤ c < total ∧ marked before c = false ∧ marked after c = true;
  po_gaps : ∀ fb, (∀ m, view m = fb) → total < 65536 →
    ∃ e, 0 ≤ e ≤ total ∧
      reported_gaps total msg (zrange 0 (cm_num_gaps msg)) = missing_in fb 0 e ∧
      (e = total ∨ cm_num_gaps msg = 4 ∧ missing_in fb 0 e ≠ [])
}.

(** The message that leaves when the read reports number [n], and the count. *)
Lemma completed_ok n : ∃ count n', completed_loop n (zrange 0 (fb_total_chunks (view n))) 0 = Some (count, n') ∧
  (count >=? total = true → ∀ c, 0 ≤ c < total → seen n n' c true) ∧
  (count >=? total = false → ∃ c, 0 ≤ c < total ∧ seen n n' c false).
Proof.
  rewrite (proj2 (Hview n)).
  destruct (completed_loop_ok n 0 0 (Z.to_nat total)) as (d & n' & H1 & _ & H3 & H4 & H5); [lia..|].
  exists (0 + d), n'. rewrite !Z.geb_leb, Z.leb_le, Z.leb_gt. split_and!; [done|..].
  - intros ?. apply H4. lia.
  - intros ?. apply H5. lia.
Qed.

(** What a report is sent with. *)
Lemma sent_conn pad r conn server msg nack :
  sv_conn (let '(_, server') := server_send_message pad server msg in
    sv_with_conn r (count_sr (sv_stats r) nack) (cn_with_server conn server')) =
  Some (cn_with_server conn (snd (server_send_message pad server msg))).
Proof. by destruct (server_send_message pad server msg). Qed.

Section Truth.
Context (before after : FrontendBitmap).
Context (Hbefore : ∀ n c, marked before c = true → marked (view n) c = true).
Context (Hafter : ∀ n c, marked (view n) c = true → marked after c = true).

Lemma seen_true n n' c : seen n n' c true → marked after c = true.
Proof. intros (m & _ & Hm). by apply (Hafter m). Qed.

Lemma seen_false n n' c : seen n n' c false → marked before c = false.
Proof.
  intros (m & _ & Hm). destruct (marked before c) eqn:E; [|done]. by rewrite (Hbefore m c E) in Hm.
Qed.

(** The parts of the promise that each type of report keeps by its own reads. *)
Lemma report_promises n report t done : report_ok n report → cm_msg_type report = value t →
  t = SR_NACK ∨ t = COMPLETE_ACK ∨ t = SR_ACK →
  (t = COMPLETE_ACK ∨ done = true → ∀ c, 0 ≤ c < total → marked after c = true) →
  (t = COMPLETE_ACK → done = true) →
  (t = SR_NACK → ∃ start len, prm_rto_ms (cm_params report) = start ∧ prm_rtt_alpha_ms (cm_params report) = len ∧
    0 ≤ start < total ∧ 0 < len ∧ ∀ c, start ≤ c < start + len → marked before c = false) →
  (t = SR_ACK → ∃ c, 0 ≤ c < total ∧ marked before c = false ∧ marked after c = true) →
  pump_ok before after done report.
Proof.
  intros [R1 R2 R3 R4 R5] Hty Ht Hdone Hcomplete Hnack Hack.
  assert (∀ t', cm_msg_type report = value t' → t = t') as Hval.
  { intros t'. rewrite Hty. by destruct t, t'. }
  constructor; try done.
  - rewrite Hty. naive_solver.
  - intros c Hc Hr. by eapply seen_true, R2.
  - intros c Hc Hr. by eapply seen_false, R3.
  - intros [?%Hval|?]; auto.
  - intros ?%Hval. auto.
  - intros ?%Hval. auto.
  - intros ?%Hval. auto.
Qed.

Lemma pump_report_ok pad r conn server : total ≤ 4294967296 - 65536 →
  ∃ done msg r', pump_report pad r conn server total = Some (done, msg, r') ∧
    pump_ok before after done msg ∧
    sv_conn r' = Some (cn_with_server conn (snd (server_send_message pad server msg))).
Proof.
  intros Ht. unfold pump_report.
  destruct (read_report_ok (cx_connection_id (cn_connection_ctx conn)) Ht)
    as (start & len & report & n & -> & Hrep & Hp1 & Hp2 & Hlen & Hgap).
  cbn [mbind option_bind]. rewrite Z.gtb_ltb.
  destruct (completed_ok n) as (count & n1 & -> & Hall & Hnot). cbn [mbind option_bind].
  destruct (Z.ltb_spec 0 len) as [Hpos|Hzero].
  - eexists _, _, _. split; [reflexivity|]. split; [|apply sent_conn].
    apply (report_promises n _ SR_NACK); try apply Hrep; try done; [by left|..].
    + intros [?|Hdone] c Hc; [done|]. by eapply seen_true, Hall.
    + intros _. exists start, len. destruct Hgap as [[? _]|(Hs & _ & Hrun & _)]; [lia|].
      split_and!; [done..|lia|lia|done|]. intros c Hc. by eapply seen_false, Hrun.
  - destruct (count >=? total) eqn:Hcount.
    + eexists _, _, _. split; [reflexivity|]. split; [|apply sent_conn].
      apply (report_promises n _ COMPLETE_ACK); try apply Hrep; try done; [by right; left|].
      intros _ c Hc. by eapply seen_true, Hall.
    + destruct (completed_ok n1) as (count2 & n2 & -> & Hall2 & _). cbn [mbind option_bind].
      eexists _, _, _. split; [reflexivity|]. split; [|apply sent_conn].
      apply (report_promises n _ SR_ACK); try apply Hrep; try done; [by right; right|..].
      * intros [?|Hdone] c Hc; [done|]. by eapply seen_true, Hall2.
      * intros _. destruct Hgap as [[-> Hseen]|(Hs & Hf & _ & _ & Hnx)].
        -- destruct (Hnot eq_refl) as (c & Hc & Hfalse). exists c.
           split_and!; [lia|lia|by eapply seen_false|by eapply seen_true, Hseen].
        -- assert (len = 0) as -> by lia. rewrite Z.add_0_r in Hnx. exists start.
           split_and!; [lia|lia|by eapply seen_false|eapply seen_true, Hnx; lia].
Qed.
End Truth.

End Pump.

(** ** Properties *)

(** A receiver whose [pump] has a message of [total] chunks to report on. *)
Definition reporting (r : SRReceiver) (conn : SDRConnection) (server : TCPControlServer)
    (total : Z) : Prop :=
  ∃ h mc fb, sv_recv_handle r = Some h ∧ sv_conn r = Some conn ∧
    cn_tcp_server conn = Some server ∧
    cx_msg_table (cn_connection_ctx conn) !! rh_msg_ctx h = Some mc ∧
    mc_frontend mc = Some fb ∧ u32 (mc_total_chunks mc) = total.

Lemma pump_eq view pad last first now r conn server total : reporting r conn server total →
  ctrl_interval_ms (sv_cfg r) ≤ elapsed_ms now (default first last) →
  pump view pad last first now r =
    '(done, msg, r') ← pump_report view pad r conn server total;
    Some (done, Some msg, Some now, r').
Proof.
  intros (h & mc & fb & Hh & Hc & Hs & Hmc & Hf & Ht) Htime. unfold pump.
  rewrite Hh, Hc, Hs, (proj2 (Z.ltb_ge _ _)) by done. unfold sdr_recv_bitmap_get.
  rewrite Hmc. cbn [mbind option_bind]. rewrite Hf. cbn [mbind option_bind]. by rewrite Ht.
Qed.

(** The receiver after a report: the same handle and connection, up to the bytes
    its server has sent. *)
Lemma pump_report_keeps view pad r conn server total done' msg r' :
  pump_report view pad r conn server total = Some (done', msg, r') →
  sv_recv_handle r' = sv_recv_handle r ∧ sv_cfg r' = sv_cfg r ∧
  ∃ server', sv_conn r' = Some (cn_with_server conn server') ∧
    (cn_tcp_server conn = Some server → goes_on conn (cn_with_server conn server')).
Proof.
  unfold pump_report. destruct (read_report _ _ _ _) as [[[len report] n]|]; [|done]. cbn [mbind option_bind].
  assert (∀ t, let r1 := (let '(_, server') := server_send_message pad server (report t) in
      sv_with_conn r (count_sr (sv_stats r) (bool_decide (t = SR_NACK))) (cn_with_server conn server')) in
    sv_recv_handle r1 = sv_recv_handle r ∧ sv_cfg r1 = sv_cfg r ∧
    ∃ server', sv_conn r1 = Some (cn_with_server conn server') ∧
      (cn_tcp_server conn = Some server → goes_on conn (cn_with_server conn server'))) as Hsent.
  { intros t. destruct (server_send_message _ _ _) as [ok server'] eqn:E. split_and!; [done|done|].
    exists server'. split; [done|]. intros Hs. by eapply goes_on_sent. }
  destruct (len >? 0); (destruct (completed_loop _ _ _ _) as [[count n1]|]; [|done]); cbn [mbind option_bind].
  - intros [= _ _ <-]. apply Hsent.
  - destruct (count >=? total); [intros [= _ _ <-]; apply Hsent|].
    destruct (completed_loop _ _ _ _) as [[count2 n2]|]; [|done]. cbn [mbind option_bind].
    intros [= _ _ <-]. apply Hsent.
Qed.

Lemma pump_keeps_reporting view pad last first now r conn server total d msg last' r' :
  reporting r conn server total → pump view pad last first now r = Some (d, Some msg, last', r') →
  last' = Some now ∧ sv_cfg r' = sv_cfg r ∧ ∃ conn' server', reporting r' conn' server' total.
Proof.
  intros Hr. pose proof Hr as (h & mc & fb & Hh & Hc & Hs & Hmc & Hf & Ht).
  destruct (Z.lt_ge_cases (elapsed_ms now (default first last)) (ctrl_interval_ms (sv_cfg r))) as [Hlt|Hge].
  { unfold pump. rewrite Hh, Hc, Hs. by rewrite (proj2 (Z.ltb_lt _ _)) by done. }
  rewrite (pump_eq _ _ _ _ _ _ _ _ _ Hr Hge).
  destruct (pump_report _ _ _ _ _ _) as [[[d0 msg0] r0]|] eqn:E; [|done]. cbn [mbind option_bind].
  intros [= -> -> <- ->]. split; [done|].
  destruct (pump_report_keeps _ _ _ _ _ _ _ _ _ E) as (Hh' & Hcfg & server' & Hc' & _). split; [done|].
  exists (cn_with_server conn server'), server', h, mc, fb. rewrite Hh', Hc'. by split_and!.
Qed.

(** C8: [pump] never lies, even while the poller is setting bits under it:
    when the bitmap always has the chunks of [before] and never more than those
    of [after], every chunk the message reports - in its bitmap or its
    cumulative number - is complete in [after], every chunk missing from the
    snapshot and from the cumulative prefix was incomplete in [before], the
    chunks of a NACK's first gap were incomplete in [before], COMPLETE_ACK is
    sent and [true] returned only if all chunks are complete in [after], and the
    message is one the sender may handle. *)
Theorem pump_truthful view before after pad last first now r conn server total :
  reporting r conn server total →
  ctrl_interval_ms (sv_cfg r) ≤ elapsed_ms now (default first last) →
  (∀ n, wf_frontend (view n) ∧ fb_total_chunks (view n) = total) →
  (∀ n c, marked before c = true → marked (view n) c = true) →
  (∀ n c, marked (view n) c = true → marked after c = true) →
  ∃ done msg r', pump view pad last first now r = Some (done, Some msg, Some now, r') ∧
    sv_conn r' = Some (cn_with_server conn (snd (server_send_message pad server msg))) ∧
    msg_ok msg ∧ (∀ c, 0 ≤ c < total → reports msg c = true → marked after c = true) ∧
    (∀ c, 0 ≤ c < Z.min total 512 → reports msg c = false → marked before c = false) ∧
    (cm_msg_type msg = value COMPLETE_ACK ∨ done = true →
       ∀ c, 0 ≤ c < total → marked after c = true) ∧
    (cm_msg_type msg = value SR_NACK →
       ∃ start len, prm_rto_ms (cm_params msg) = start ∧ prm_rtt_alpha_ms (cm_params msg) = len ∧
         0 ≤ start < total ∧ 0 < len ∧ ∀ c, start ≤ c < start + len → marked before c = false) ∧
    (cm_msg_type msg = value SR_ACK →
       ∃ c, 0 ≤ c < total ∧ marked before c = false ∧ marked after c = true).
Proof.
  intros Hr Ht Hview Hb Ha. rewrite (pump_eq _ _ _ _ _ _ _ _ _ Hr Ht).
  destruct (Hview O) as [[Htot _ _] Heq]. rewrite Heq in Htot.
  destruct (pump_report_ok view total (proj1 Htot) Hview before after Hb Ha pad r conn server
    (proj2 Htot)) as (done' & msg & r' & -> & [H1 _ H3 H4 H5 _ H7 H8 _] & Hsent).
  by exists done', msg, r'.
Qed.

(** A receiver of 130 chunks in three words, and its bitmaps. *)
Definition example_bitmap (words : list Z) : FrontendBitmap :=
  mkFrontend words 3 130 2 true false 100.

Definition example_reporter : SRReceiver :=
  mkSRReceiver (mkSRConfig 500 200 0 100 100) (mkSRStats 0 0 0)
    (Some (mkRecvHandle 0 1 0 (BufUser 0) 1040))
    (Some (cn_with_ctx example_rx_conn (cx_with_table new_connection_context
      {[0 := posted_context 0 1 (BufUser 0) 1040 260 130 example_cts_params]}))).

Notation example_reporter_conn := (default example_rx_conn (sv_conn example_reporter)).

Lemma example_reporting : reporting example_reporter example_reporter_conn (example_server []) 130.
Proof.
  exists (mkRecvHandle 0 1 0 (BufUser 0) 1040), (posted_context 0 1 (BufUser 0) 1040 260 130 example_cts_params).
  eexists. split_and!; reflexivity.
Qed.

Lemma example_bitmap_wf a b c : is_uint 8 a → is_uint 8 b → is_uint 8 c →
  wf_frontend (example_bitmap [a; b; c]) ∧ fb_total_chunks (example_bitmap [a; b; c]) = 130.
Proof.
  intros. split; [|done]. constructor; [cbn; lia|done|].
  repeat (apply Forall_cons_2; [done|]). apply Forall_nil_2.
Qed.

(** Chunk 0 is completed between two reads of the scan for the first gap. *)
Definition example_race (n : nat) : FrontendBitmap :=
  example_bitmap [if (n <? 132)%nat then 0 else 1; 0; 0].

Lemma example_bitmap_zero c : marked (example_bitmap [0; 0; 0]) c = false.
Proof. unfold marked. cbn [fb_words]. by rewrite (bit_at_zero 3), andb_false_r. Qed.

Lemma example_race_marked n c : marked (example_race n) c = true →
  marked (example_bitmap [1; 0; 0]) c = true.
Proof.
  unfold example_race. destruct (n <? 132)%nat; [by rewrite example_bitmap_zero|done].
Qed.

Lemma pump_truthful_witness : ∃ msg r',
  pump example_race example_padding None 0 (300 * 1000000) example_reporter =
    Some (false, Some msg, Some (300 * 1000000), r') ∧ cm_msg_type msg = value SR_ACK ∧ msg_ok msg.
Proof.
  destruct (pump_truthful example_race (example_bitmap [0; 0; 0]) (example_bitmap [1; 0; 0])
    example_padding None 0 (300 * 1000000) example_reporter example_reporter_conn (example_server []) 130)
    as (done' & msg & r' & Hp & _ & Hok & _).
  - exact example_reporting.
  - vm_compute. discriminate.
  - intros n. unfold example_race. destruct (n <? 132)%nat; apply example_bitmap_wf; vm_compute; split; done.
  - intros n c. by rewrite example_bitmap_zero.
  - exact example_race_marked.
  - assert (done' = false ∧ cm_msg_type msg = value SR_ACK) as [-> Ht].
    { revert Hp. vm_compute. intros [= <- <- _]. split; reflexivity. }
    exists msg, r'. split_and!; done.
Defined.

Lemma reports_is msg c (b : bool) : (reports msg c = true → b = true) → (reports msg c = false → b = false) →
  reports msg c = b.
Proof. destruct (reports msg c); [symmetry; auto|symmetry; auto]. Qed.

(** The report over a bitmap that stands still. *)
Lemma pump_reports_exactly fb pad last first now r conn server :
  reporting r conn server (fb_total_chunks fb) →
  ctrl_interval_ms (sv_cfg r) ≤ elapsed_ms now (default first last) → wf_frontend fb →
  ∃ msg r', let total := fb_total_chunks fb in
    let missing := missing_in fb 0 total in
    pump (λ _, fb) pad last first now r =
      Some (bool_decide (missing = []), Some msg, Some now, r') ∧
    cm_msg_type msg = value (if decide (missing = []) then COMPLETE_ACK else SR_NACK) ∧
    msg_ok msg ∧ (∀ c, 0 ≤ c < total → reports msg c = true → marked fb c = true) ∧
    (∀ c, 0 ≤ c < Z.min total 512 → reports msg c = marked fb c) ∧
    (total < 65536 → ∃ e, 0 ≤ e ≤ total ∧
       reported_gaps total msg (zrange 0 (cm_num_gaps msg)) = missing_in fb 0 e ∧
       (e = total ∨ cm_num_gaps msg = 4 ∧ missing_in fb 0 e ≠ [])).
Proof.
  intros Hr Ht Hwf. pose proof (wff_total _ Hwf) as Htot.
  destruct (pump_report_ok (λ _, fb) (fb_total_chunks fb) (proj1 Htot) (λ _, conj Hwf eq_refl) fb fb
    (λ _ _ H, H) (λ _ _ H, H) pad r conn server (proj2 Htot)) as (done' & msg & r' & Hp & [H1 H2 H3 H4 H5 H6 H7 H8 H9] & _).
  exists msg, r'. cbv zeta. rewrite (pump_eq _ _ _ _ _ _ _ _ _ Hr Ht), Hp. cbn [mbind option_bind].
  destruct H2 as [Hn|[Hc|Ha]]; [| |destruct (H8 Ha) as (c & _ & ? & ?); congruence].
  - destruct (H7 Hn) as (start & len & _ & _ & Hs & Hl & Hm).
    assert (missing_in fb 0 (fb_total_chunks fb) ≠ []) as Hne.
    { intros E. assert (start ∈ missing_in fb 0 (fb_total_chunks fb)) as Hin.
      { apply elem_of_missing_in. split; [lia|]. apply Hm. lia. }
      rewrite E in Hin. by apply not_elem_of_nil in Hin. }
    destruct (decide (missing_in fb 0 (fb_total_chunks fb) = [])) as [?|_]; [done|].
    rewrite bool_decide_eq_false_2 by done.
    destruct done'.
    { specialize (H5 (or_intror eq_refl) start Hs). rewrite (Hm start) in H5 by lia. done. }
    split_and!; [done|done|done|done| |by apply H9].
    intros c Hc. apply reports_is; [intros; apply H3; [lia|done]|by apply H4].
  - assert (missing_in fb 0 (fb_total_chunks fb) = []) as E.
    { apply missing_in_all. intros c Hcr. apply H5; [by left|lia]. }
    rewrite E. rewrite (H6 Hc). split_and!; [done|done|done|done| |by apply H9].
    intros c Hcr. apply reports_is; [intros; apply H3; [lia|done]|by apply H4].
Qed.

(** C19: Over a bitmap that stands still the report is exact: [pump] sends a NACK
    and returns [false] if a chunk is missing and otherwise sends COMPLETE_ACK
    and returns [true], never SR_ACK; the snapshot is the bitmap's first 512
    chunks; and for fewer than 65536 chunks the gaps of the message are exactly
    the missing chunks, in order, up to the end of the message or until there are
    four gaps. *)
Theorem pump_exact fb pad last first now r conn server :
  reporting r conn server (fb_total_chunks fb) →
  ctrl_interval_ms (sv_cfg r) ≤ elapsed_ms now (default first last) → wf_frontend fb →
  ∃ msg r', let total := fb_total_chunks fb in
    let missing := missing_in fb 0 total in
    pump (λ _, fb) pad last first now r =
      Some (bool_decide (missing = []), Some msg, Some now, r') ∧
    cm_msg_type msg = value (if decide (missing = []) then COMPLETE_ACK else SR_NACK) ∧
    (∀ c, 0 ≤ c < Z.min total 512 → reports msg c = marked fb c) ∧
    (total < 65536 → ∃ e, 0 ≤ e ≤ total ∧
       reported_gaps total msg (zrange 0 (cm_num_gaps msg)) = missing_in fb 0 e ∧
       (e = total ∨ cm_num_gaps msg = 4)).
Proof.
  intros Hr Ht Hwf.
  destruct (pump_reports_exactly fb pad last first now r conn server Hr Ht Hwf)
    as (msg & r' & H1 & H2 & _ & _ & H3 & H4).
  exists msg, r'. split_and!; [exact H1|exact H2|exact H3|].
  intros Hlt. destruct (H4 Hlt) as (e & He & Hg & Hend). exists e.
  split_and!; [lia|lia|exact Hg|]. destruct Hend as [?|[? _]]; auto.
Qed.

Lemma pump_exact_witness : ∃ msg r',
  pump (λ _, example_bitmap [5; 18446744073709551615; 1]) example_padding None 0 (300 * 1000000)
    example_reporter = Some (false, Some msg, Some (300 * 1000000), r') ∧
  cm_msg_type msg = value SR_NACK ∧
  reported_gaps 130 msg (zrange 0 (cm_num_gaps msg)) = 1 :: zrange 3 64 ++ [129].
Proof.
  destruct (pump_exact (example_bitmap [5; 18446744073709551615; 1]) example_padding None 0
    (300 * 1000000) example_reporter example_reporter_conn (example_server []))
    as (msg & r' & Hp & Ht & _ & Hg).
  - exact example_reporting.
  - vm_compute. discriminate.
  - apply example_bitmap_wf; vm_compute; split; done.
  - exists msg, r'.
    assert (cm_num_gaps msg = 3) as Hn.
    { revert Hp. vm_compute. intros [= <- _]. reflexivity. }
    assert (missing_in (example_bitmap [5; 18446744073709551615; 1]) 0 130 = 1 :: zrange 3 64 ++ [129]) as E
      by (vm_compute; reflexivity).
    destruct (Hg eq_refl) as (e & _ & Hgaps & [->|H4]); [|congruence].
    cbn [fb_total_chunks example_bitmap] in *. rewrite E in *.
    split; [exact Hp|]. split; [exact Ht|exact Hgaps].
Defined.
