(* ===== verification/Repair.v ===== *)
(** * Selective repeat: sender, receiver, poller and transfer together

    What a NACK round of selective repeat (reliability/sr.cpp) does to a transfer:
    the report of [SRReceiver::pump], the answer of [SRSender::poll], the
    datagrams through [UDPReceiver] and the next poll of the chunk bitmap. *)

From S2P Require Import Prelude Bits Bytes Packet Backend Frontend Control Wait Connection Receiver Api Transfer.
From S2P Require Import Resend SrSender SrReceiver.
Import ControlMsgType.

(** ** Lemmas *)

Lemma length_filter_le {A} (p q : A → bool) (l : list A) :
  (∀ y, y ∈ l → q y = true → p y = true) →
  (List.length (List.filter q l) ≤ List.length (List.filter p l))%nat.
Proof.
  induction l as [|y l IH]; intros H; [done|]. cbn.
  assert (∀ z, z ∈ l → q z = true → p z = true) as H' by (intros z Hz; apply H; by right).
  specialize (IH H'). destruct (q y) eqn:Ey.
  - rewrite (H y) by (by left || done). cbn. lia.
  - destruct (p y); cbn; lia.
Qed.

Lemma length_filter_lt {A} (p q : A → bool) (l : list A) x :
  (∀ y, y ∈ l → q y = true → p y = true) → x ∈ l → p x = true → q x = false →
  (List.length (List.filter q l) < List.length (List.filter p l))%nat.
Proof.
  intros Hpq Hin Hp Hq. induction l as [|y l IH]; [by apply not_elem_of_nil in Hin|].
  assert (∀ z, z ∈ l → q z = true → p z = true) as H' by (intros z Hz; apply Hpq; by right).
  cbn. apply elem_of_cons in Hin as [<-|Hin].
  - rewrite Hp, Hq. cbn. pose proof (length_filter_le p q l H'). lia.
  - specialize (IH H' Hin). destruct (q y) eqn:Ey.
    + rewrite (Hpq y) by (by left || done). cbn. lia.
    + destruct (p y); cbn; lia.
Qed.

Section Repair.
Context (params : ConnectionParams) (slot id length : Z) (data : list Z).
Context (Hsend : sendable params data length) (Hslot : 0 ≤ slot < 1024).
Context (Hfits : total_packets_of params length ≤ 262144).

Notation total := (total_chunks_of params length).
Notation wire := (λ cs, concat (chunk_wire params slot data length <$> cs)).

(** The receiver's chunks are the sender's. *)
Lemma num_chunks_eq b : wf_backend b → bb_total_packets b = total_packets_of params length →
  bb_packets_per_chunk b = prm_packets_per_chunk params → num_chunks b = total.
Proof.
  intros Hb Ht Hp.
  assert (∀ c, 0 ≤ c → c < num_chunks b ↔ c < total) as H.
  { intros c Hc. rewrite num_chunks_range by done. unfold chunk_in_range.
    rewrite Ht, Hp, <-(chunk_has_packet _ _ _ Hsend) by done. intuition lia. }
  pose proof (total_chunks_bound _ _ _ Hsend).
  assert (0 ≤ num_chunks b).
  { destruct (Z.lt_ge_cases 0 (num_chunks b)); [lia|]. assert (0 < num_chunks b); [apply H; lia|lia]. }
  destruct (Z.lt_trichotomy (num_chunks b) total) as [?|[?|?]]; [|done|].
  - assert (num_chunks b < num_chunks b); [apply H; lia|lia].
  - assert (total < total); [apply H; lia|lia].
Qed.

Lemma elem_of_wire cs x : x ∈ wire cs ↔ ∃ c, c ∈ cs ∧ x ∈ chunk_wire params slot data length c.
Proof.
  rewrite list_elem_of_In, in_concat. split.
  - intros (l & Hl%list_elem_of_In & Hx%list_elem_of_In).
    apply list_elem_of_fmap in Hl as (c & -> & Hc). by exists c.
  - intros (c & Hc & Hx). exists (chunk_wire params slot data length c).
    split; apply list_elem_of_In; [|done]. apply list_elem_of_fmap. by exists c.
Qed.

(** What selective repeat puts on the wire is the message's. *)
Lemma wire_honest cs : Forall (λ c, 0 ≤ c < total) cs →
  Forall (honest params slot length data) (snd <$> wire cs).
Proof.
  intros Hcs. apply Forall_fmap, Forall_forall. intros x (c & Hc & Hx)%elem_of_wire.
  rewrite Forall_forall in Hcs. specialize (Hcs c Hc).
  apply (elem_of_chunk_wire _ _ _ Hsend) in Hx as (i & Hi & _ & ->); [|lia]. cbn.
  by apply built_honest.
Qed.

(** Honest datagrams, then a poll: the chunks whose packets are all among them are
    marked, no mark is lost, and the slot is in step with the polled bitmap. *)
Lemma datagrams_delivered st mc b fb ds :
  shared_ok params slot id length data st →
  cx_msg_table (rx_cx st) !! slot = Some mc → wf_transfer mc b fb →
  bb_packets_per_chunk b = prm_packets_per_chunk params → Forall (honest params slot length data) ds →
  ∃ st' mc' b' fb', receiver_loop st (RxDatagram <$> ds) = Some st' ∧
    shared_ok params slot id length data st' ∧
    cx_msg_table (rx_cx st') !! slot = Some mc' ∧ mc_frontend mc' = Some fb ∧ mc_backend mc' = Some b' ∧
    bb_packets_per_chunk b' = prm_packets_per_chunk params ∧
    poll_once (Some b') fb = Some fb' ∧ fb_total_chunks fb' = total ∧
    wf_transfer (mc_set_frontend mc' fb') b' fb' ∧
    (∀ c, marked fb c = true → marked fb' c = true) ∧
    bb_total_packets b' = total_packets_of params length ∧
    (∀ i, received b i = true → received b' i = true) ∧
    (∀ i, 0 ≤ i < total_packets_of params length →
       packet_datagram (built_packet params slot data length i) ∈ ds → received b' i = true) ∧
    ∀ c, 0 ≤ c < total → marked fb' c = chunk_received b' c.
Proof.
  intros Hok Hmc Hwt Hppc Hh.
  destruct (receiver_loop_ok (RxDatagram <$> ds) st (so_wf _ _ _ _ _ _ Hok)) as (st' & Hl & Hwf' & _).
  pose proof (receiver_loop_shared_ok params slot id length data Hsend Hfits _ st st' Hok Hh Hl) as Hok'.
  pose proof Hok' as [_ (mc' & b' & fb0 & Hmc' & _ & _ & _ & _ & _ & Hwt' & Ht' & _) _].
  destruct (receiver_loop_keeps _ _ _ (so_wf _ _ _ _ _ _ Hok) Hl) as [_ Hkeep].
  destruct (Hkeep slot mc' Hmc') as (mc0 & Hmc0 & (_ & _ & _ & _ & _ & _ & Hf & Hp) & Hbits).
  assert (mc0 = mc) as -> by congruence.
  rewrite (wft_frontend _ _ _ Hwt'), (wft_frontend _ _ _ Hwt) in Hf. injection Hf as ->.
  rewrite (wft_backend _ _ _ Hwt'), (wft_backend _ _ _ Hwt) in Hp. cbn in Hp. injection Hp as Hp.
  rewrite Hppc in Hp.
  pose proof Hwt' as [Hbk' Hf' Hwb' Hwfb' Hpk' [Hc0 Hc'] Hs'].
  pose proof (num_chunks_eq b' Hwb' Ht' Hp) as Hn.
  destruct (update_chunk_bitmap_sound b' fb) as (fb' & Hpoll & Hwfb2 & [Hc2 _ _] & Hs2 & Hm); [done..| |done|].
  { intros c Hcr. apply num_chunks_range; [done|lia|lia]. }
  unfold has_packet in Hbits. rewrite Hbk', (wft_backend _ _ _ Hwt) in Hbits.
  exists st', mc', b', fb'. split_and!; try done; [lia| | | |].
  - constructor; try done; cbn; lia.
  - intros c Hmk. pose proof (marked_range _ _ Hmk). rewrite Hm by done. by apply Hs'.
  - intros i Hi Hin.
    pose proof (delivered_bits params slot id length data Hsend Hslot Hfits _ st st' i mc' Hok Hh Hl Hi) as Hbit.
    unfold has_packet in Hbit. rewrite Hbk' in Hbit. by apply Hbit.
  - intros c Hc. apply Hm. lia.
Qed.

(** A chunk is complete once all its packets are in. *)
Lemma chunk_received_all b c : bb_total_packets b = total_packets_of params length →
  bb_packets_per_chunk b = prm_packets_per_chunk params → 0 ≤ c →
  chunk_received b c = true ↔ ∀ i, 0 ≤ i < total_packets_of params length →
    i / prm_packets_per_chunk params = c → received b i = true.
Proof.
  intros Ht Hp Hc. unfold chunk_received, chunk_packets. rewrite forallb_elem, Ht, Hp. split.
  - intros H i Hi Hic. apply H, (elem_of_packets_of_chunk _ _ _ Hsend); [done|by split].
  - intros H i Hi. apply (elem_of_packets_of_chunk _ _ _ Hsend) in Hi as [Hi Hic]; [by apply H|done].
Qed.

(** Chunks delivered whole are marked by the next poll, and no mark is lost. *)
Lemma chunks_delivered st mc b fb cs :
  shared_ok params slot id length data st →
  cx_msg_table (rx_cx st) !! slot = Some mc → wf_transfer mc b fb →
  bb_packets_per_chunk b = prm_packets_per_chunk params → Forall (λ c, 0 ≤ c < total) cs →
  ∃ st' b' fb', receiver_loop st (RxDatagram <$> (snd <$> wire cs)) = Some st' ∧
    shared_ok params slot id length data st' ∧
    (∃ mc', cx_msg_table (rx_cx st') !! slot = Some mc' ∧ mc_backend mc' = Some b' ∧
       mc_frontend mc' = Some fb) ∧
    bb_packets_per_chunk b' = prm_packets_per_chunk params ∧
    poll_once (Some b') fb = Some fb' ∧ fb_total_chunks fb' = total ∧
    (∀ c, marked fb c = true → marked fb' c = true) ∧ ∀ c, c ∈ cs → marked fb' c = true.
Proof.
  intros Hok Hmc Hwt Hppc Hcs.
  destruct (datagrams_delivered st mc b fb (snd <$> wire cs) Hok Hmc Hwt Hppc (wire_honest cs Hcs))
    as (st' & mc' & b' & fb' & Hl & Hok' & Hmc' & Hf & Hb' & Hp' & Hpoll & Ht & _ & Hkeep & Htp & _ & Hall & Hm).
  exists st', b', fb'. split_and!; try done; [by exists mc'|].
  rewrite Forall_forall in Hcs. intros c Hc. pose proof (Hcs c Hc). rewrite Hm by done.
  apply chunk_received_all; [done..|lia|]. intros i Hi Hic. apply Hall; [done|].
  apply list_elem_of_fmap. eexists (_, _). split; [reflexivity|]. apply elem_of_wire. exists c. split; [done|].
  apply (elem_of_chunk_wire _ _ _ Hsend); [lia|]. by exists i.
Qed.

End Repair.

(** ** A round *)

(** A NACK report names missing chunks only, each once, and at least one. *)
Lemma reported_missing fb e msg n total : reported_gaps total msg n = missing_in fb 0 e →
  NoDup (reported_gaps total msg n).
Proof. intros ->. apply NoDup_ListNoDup, List.NoDup_filter, NoDup_ListNoDup, NoDup_zrange. Qed.

Lemma filter_all {A} (p : A → bool) l : (∀ x, x ∈ l → p x = true) → List.filter p l = l.
Proof.
  intros H. apply forallb_filter_id, forallb_forall. intros x Hx. by apply H, list_elem_of_In.
Qed.

(** A report over a bitmap with a chunk missing, and the sender's answer: it sends
    the first eight chunks of the gaps, which name missing chunks only, at least
    one, and perhaps others. *)
Lemma nack_answered params slot length data fb pad last first now r conn server s :
  sendable params data length → 0 ≤ slot < 1024 → total_packets_of params length ≤ 262144 →
  let total := total_chunks_of params length in
  let wire cs := concat (chunk_wire params slot data length <$> cs) in
  total < 65536 → wf_frontend fb → fb_total_chunks fb = total →
  reporting r conn server total → ctrl_interval_ms (sv_cfg r) ≤ elapsed_ms now (default first last) →
  sr_ok params slot data length s → ev_sockets (ss_env s) = [] →
  (∀ c, 0 ≤ c < total → acked_at (ss_chunk_acked s) c = true → marked fb c = true) →
  Forall (due s) (missing_in fb 0 total) → missing_in fb 0 total ≠ [] →
  ∃ msg r' s' cs, let gaps := reported_gaps total msg (zrange 0 (cm_num_gaps msg)) in
    pump (λ _, fb) pad last first now r = Some (false, Some msg, Some now, r') ∧
    cm_msg_type msg = value SR_NACK ∧ msg_ok msg ∧ on_sr_nack s msg = Some (PollAgain s') ∧
    ev_wire (ss_env s') = ev_wire (ss_env s) ++ wire (take 8 gaps ++ cs) ∧
    gaps ≠ [] ∧ Forall (λ c, 0 ≤ c < total ∧ marked fb c = false) gaps ∧ Forall (λ c, 0 ≤ c < total) cs ∧
    sr_ok params slot data length s' ∧
    (∀ c, 0 ≤ c < total → acked_at (ss_chunk_acked s') c = true → marked fb c = true).
Proof.
  intros Hsend Hslot Hfits total wire Hlt Hwf Htot Hrep Htime Hs Hsock Hsound Hdue Hmiss.
  rewrite <-Htot in Hrep.
  destruct (pump_reports_exactly fb pad last first now r conn server Hrep Htime Hwf)
    as (msg & r' & Hp & Ht & Hm & Hrepd & _ & Hgap).
  rewrite Htot in *. destruct (Hgap Hlt) as (e & He & Hgaps & Hend). clear Hgap.
  destruct (decide (missing_in fb 0 total = [])) as [?|_]; [done|].
  rewrite bool_decide_eq_false_2 in Hp by done.
  set (gaps := reported_gaps total msg (zrange 0 (cm_num_gaps msg))) in *.
  assert (∀ c, c ∈ gaps → 0 ≤ c < total ∧ marked fb c = false) as Hin.
  { intros c. rewrite Hgaps, elem_of_missing_in. intros [? ?]. split; [lia|done]. }
  assert (List.filter (λ c, negb (acked_at (ss_chunk_acked s) c || reports msg c)) gaps = gaps) as Hfilter.
  { apply filter_all. intros c [Hc Hf]%Hin. apply negb_true_iff, orb_false_iff. split.
    - destruct (acked_at (ss_chunk_acked s) c) eqn:E; [|done]. by rewrite Hsound in Hf.
    - destruct (reports msg c) eqn:E; [|done]. by rewrite Hrepd in Hf. }
  assert (Forall (due s) gaps) as Hdue'.
  { rewrite Forall_forall in *. intros c [Hc Hf]%Hin. apply Hdue, elem_of_missing_in. by split. }
  destruct (nack_resent params slot data length s msg Hsend Hslot Hfits Hs Hm Hsock) as
    (s' & cs & Hnack & Hs' & Hcs & Hw & Hack); fold total; fold gaps; rewrite ?Hfilter; [by eapply reported_missing|done|].
  fold total gaps in Hw, Hcs, Hack. rewrite Hfilter in Hw.
  exists msg, r', s', cs. fold gaps. split_and!; try done.
  - rewrite Hgaps. destruct Hend as [->|[_ ?]]; done.
  - apply Forall_forall, Hin.
  - intros c Hc. rewrite Hack by done. intros [Ha|Hr]%orb_true_iff; [by apply Hsound|by apply Hrepd].
Qed.

Lemma missing_kept fb fb' total : (∀ c, marked fb c = true → marked fb' c = true) →
  (List.length (missing_in fb' 0 total) ≤ List.length (missing_in fb 0 total))%nat.
Proof.
  intros Hkeep. apply length_filter_le. intros y _. rewrite !negb_true_iff. intros Hy.
  destruct (marked fb y) eqn:E; [|done]. by rewrite (Hkeep y E) in Hy.
Qed.

(** Fewer chunks are missing once one of them is marked and no mark is lost. *)
Lemma missing_less fb fb' total c : (∀ c, marked fb c = true → marked fb' c = true) →
  0 ≤ c < total → marked fb c = false → marked fb' c = true →
  (List.length (missing_in fb' 0 total) < List.length (missing_in fb 0 total))%nat.
Proof.
  intros Hkeep Hc Hf Hgot. apply (length_filter_lt _ _ _ c).
  - intros y _. rewrite !negb_true_iff. intros Hy. destruct (marked fb y) eqn:E; [|done].
    by rewrite (Hkeep y E) in Hy.
  - by apply elem_of_zrange.
  - by rewrite Hf.
  - by rewrite Hgot.
Qed.

(** A NACK round makes progress: take a transfer of fewer than 65536 chunks
    with a chunk missing, a sender that acknowledges only chunks the receiver
    has marked and whose missing chunks are due, and a network that delivers.
    Then [pump] sends a NACK, the sender answers it with datagrams whose arrival
    leaves the transfer consistent, the first eight chunks the NACK names - at
    least one - are marked by the next poll, no mark is lost, fewer chunks are
    missing than before, and the sender's acknowledgements are still sound. *)
Theorem nack_round_repairs params slot id length data st mc b fb pad last first now r conn server s :
  sendable params data length → 0 ≤ slot < 1024 → total_packets_of params length ≤ 262144 →
  let total := total_chunks_of params length in
  total < 65536 →
  shared_ok params slot id length data st →
  cx_msg_table (rx_cx st) !! slot = Some mc → wf_transfer mc b fb →
  bb_packets_per_chunk b = prm_packets_per_chunk params →
  reporting r conn server total → ctrl_interval_ms (sv_cfg r) ≤ elapsed_ms now (default first last) →
  sr_ok params slot data length s → ev_sockets (ss_env s) = [] →
  (∀ c, 0 ≤ c < total → acked_at (ss_chunk_acked s) c = true → marked fb c = true) →
  Forall (due s) (missing_in fb 0 total) → missing_in fb 0 total ≠ [] →
  ∃ msg r' s' w st' b' fb',
    pump (λ _, fb) pad last first now r = Some (false, Some msg, Some now, r') ∧
    cm_msg_type msg = value SR_NACK ∧ on_sr_nack s msg = Some (PollAgain s') ∧
    ev_wire (ss_env s') = ev_wire (ss_env s) ++ w ∧
    receiver_loop st (RxDatagram <$> (snd <$> w)) = Some st' ∧
    shared_ok params slot id length data st' ∧
    (∃ mc', cx_msg_table (rx_cx st') !! slot = Some mc' ∧ mc_backend mc' = Some b') ∧
    poll_once (Some b') fb = Some fb' ∧
    (∀ c, c ∈ take 8 (reported_gaps total msg (zrange 0 (cm_num_gaps msg))) → marked fb' c = true) ∧
    (∀ c, marked fb c = true → marked fb' c = true) ∧
    (List.length (missing_in fb' 0 total) < List.length (missing_in fb 0 total))%nat ∧
    (∀ c, 0 ≤ c < total → acked_at (ss_chunk_acked s') c = true → marked fb' c = true).
Proof.
  intros Hsend Hslot Hfits total Hlt Hok Hmc Hwt Hppc Hrep Htime Hs Hsock Hsound Hdue Hmiss.
  pose proof Hok as [_ (mc0 & b0 & fb0 & Hmc0 & _ & _ & _ & _ & _ & Hwt0 & Ht0 & _) _].
  assert (mc0 = mc) as -> by congruence.
  assert (b0 = b) as -> by (pose proof (wft_backend _ _ _ Hwt0); pose proof (wft_backend _ _ _ Hwt); congruence).
  assert (fb_total_chunks fb = total) as Htot.
  { rewrite (proj2 (wft_chunks _ _ _ Hwt)). eapply (num_chunks_eq params slot); [done..|apply Hwt|done|done]. }
  destruct (nack_answered params slot length data fb pad last first now r conn server s)
    as (msg & r' & s' & cs & Hp & Ht & _ & Hnack & Hw & Hne & Hin & Hcs & _ & Hack); try done; [apply Hwt|].
  fold total in Hw, Hne, Hin, Hcs, Hack. set (gaps := reported_gaps total msg _) in *. rewrite Forall_forall in Hin.
  destruct (chunks_delivered params slot id length data Hsend Hslot Hfits st mc b fb (take 8 gaps ++ cs))
    as (st' & b' & fb' & Hl & Hok' & (mc' & Hmc' & Hb' & _) & _ & Hpoll & _ & Hkeep & Hmarks); [done..| |].
  { apply Forall_app. split; [|done]. apply Forall_take, Forall_forall. intros c Hc. by apply Hin. }
  assert (∀ c, c ∈ take 8 gaps → marked fb' c = true) as Hgot.
  { intros c Hc. apply Hmarks. apply elem_of_app. by left. }
  exists msg, r', s', (concat (chunk_wire params slot data length <$> take 8 gaps ++ cs)), st', b', fb'.
  split_and!; try done; [by exists mc'| |].
  - destruct gaps as [|c gaps'] eqn:Eg; [done|]. destruct (Hin c) as [Hc Hf]; [by left|].
    apply (missing_less fb fb' total c); try done. apply Hgot. by left.
  - intros c Hc Ha. by apply Hkeep, Hack.
Qed.

(** Two chunks, both lost; the receiver's connection is that of the transfer. *)
Definition example_repair_conn : SDRConnection :=
  cn_with_ctx example_rx_conn (rx_cx (example_armed 0)).

Definition example_repair_receiver : SRReceiver :=
  mkSRReceiver (mkSRConfig 500 200 0 100 100) (mkSRStats 0 0 0)
    (Some (mkRecvHandle 0 1 0 (BufUser 0) 12)) (Some example_repair_conn).

Lemma nack_round_repairs_witness :
  let fb := default (make_frontend (None : option BackendBitmap) 0)
    (mc_frontend (posted_context 0 1 (BufUser 0) 12 3 2 example_cts_params)) in
  ∃ msg s' fb' r',
    pump (λ _, fb) example_padding None 0 (300 * 1000000) example_repair_receiver =
      Some (false, Some msg, Some (300 * 1000000), r') ∧
    on_sr_nack (example_sender (replicate 8 60000000) []) msg = Some (PollAgain s') ∧
    (List.length (missing_in fb' 0 2) < List.length (missing_in fb 0 2))%nat.
Proof.
  intros fb.
  destruct (posted_context_wf 0 1 (BufUser 0) 12 example_cts_params)
    as (b & fb0 & Hwt & _ & _ & _ & _ & Hppc); [unfold receivable; lia|split; reflexivity..|].
  assert (Some fb0 = Some fb) as Hfb by (rewrite <-(wft_frontend _ _ _ Hwt); vm_compute; reflexivity).
  injection Hfb as ->.
  destruct (nack_round_repairs example_cts_params 0 0 12 example_payload (example_armed 0)
    (posted_context 0 1 (BufUser 0) 12 3 2 example_cts_params) b fb example_padding None 0
    (300 * 1000000) example_repair_receiver example_repair_conn (example_server [])
    (example_sender (replicate 8 60000000) []))
    as (msg & r' & s' & w & st' & b' & fb' & Hp & _ & Hn & _ & _ & _ & _ & _ & _ & _ & Hless & _).
  - exact example_payload_sendable.
  - lia.
  - exact example_payload_fits.
  - reflexivity.
  - apply ready_shared_ok, example_armed_ready.
  - apply lookup_singleton_eq.
  - exact Hwt.
  - rewrite Hppc. reflexivity.
  - exists (mkRecvHandle 0 1 0 (BufUser 0) 12), (posted_context 0 1 (BufUser 0) 12 3 2 example_cts_params).
    eexists. split_and!; reflexivity.
  - vm_compute. discriminate.
  - example_sender_started.
  - vm_compute. reflexivity.
  - intros c Hc. change (total_chunks_of example_cts_params 12) with 2 in Hc.
    assert (c = 0 ∨ c = 1) as [->| ->] by lia; vm_compute; discriminate.
  - match goal with |- Forall _ ?l => replace l with [0; 1] by (vm_compute; reflexivity) end.
    apply Forall_cons_2; [exists 180000000|apply Forall_singleton; exists 240000000];
      (split; vm_compute; [reflexivity|discriminate]).
  - vm_compute. discriminate.
  - exists msg, s', fb', r'. split; [exact Hp|]. split; [exact Hn|exact Hless].
Defined.
