(* ===== verification/Rounds.v ===== *)
(** * Selective repeat over any number of rounds

    [Repair] shows what one NACK round does; here rounds follow each other over a
    network that loses, repeats, reorders and delays, as a step relation: a
    report of [SRReceiver::pump], its handling in [SRSender::poll], the arrival of
    some datagrams, and a poll of the chunk bitmap.  Control messages travel over
    TCP and arrive. *)

From S2P Require Import Prelude Bits Bytes Packet Backend Frontend Control Wait Connection Receiver Api Transfer.
From S2P Require Import Resend SrSender SrReceiver Repair.
Import ControlMsgType.

(** Both ends and what connects them: [rp_last] is the static of [pump]. *)
Record RepairState : Type := mkRepair {
  rp_rx : RxState;
  rp_receiver : SRReceiver;
  rp_last : option Z;
  rp_sender : SRSender
}.

Definition slot_frontend (st : RxState) (slot : Z) : option FrontendBitmap :=
  mc ← cx_msg_table (rx_cx st) !! slot; mc_frontend mc.

(** The poller's round over the slot's bitmaps. *)
Definition poll_slot (st : RxState) (slot : Z) : option RxState :=
  mc ← cx_msg_table (rx_cx st) !! slot;
  fb ← mc_frontend mc;
  fb ← poll_once (mc_backend mc) fb;
  Some (rx_set_slot st slot (mc_set_frontend mc fb)).

(** The sender when its clock reads [t] and its sockets open. *)
Definition at_time (t : Z) (s : SRSender) : SRSender :=
  ss_with_env s (mkEnv t [] [] (ev_wire (ss_env s))).

Definition missing_chunks (slot : Z) (st : RxState) : list Z :=
  match slot_frontend st slot with
  | Some fb => missing_in fb 0 (fb_total_chunks fb)
  | None => []
  end.

(** The packets that have not arrived. *)
Definition slot_backend (st : RxState) (slot : Z) : option BackendBitmap :=
  mc ← cx_msg_table (rx_cx st) !! slot; mc_backend mc.

Definition missing_packets (slot : Z) (st : RxState) : list Z :=
  match slot_backend st slot with
  | Some b => List.filter (λ i, negb (received b i)) (zrange 0 (bb_total_packets b))
  | None => []
  end.

(** A report of [pump] and the sender's answer to it when its clock reads [t]: [w]
    is what the answer puts on the wire. *)
Inductive sr_exchange (pad : Padding) (uninit : ControlMessage) (slot : Z) (x : RepairState) (t : Z)
    : option Z → SRReceiver → SRSender → list (Z * list Z) → Prop :=
| SrExchange fb first now msg last r conn s w :
    slot_frontend (rp_rx x) slot = Some fb →
    pump (λ _, fb) pad (rp_last x) first now (rp_receiver x) = Some (false, Some msg, last, r) →
    ss_conn (rp_sender x) = Some conn →
    on_message uninit (at_time t (rp_sender x)) conn msg = Some (PollAgain s) →
    ev_wire (ss_env s) = ev_wire (ss_env (rp_sender x)) ++ w →
    sr_exchange pad uninit slot x t last r s w.

Section Step.
Context (params : ConnectionParams) (slot length : Z) (data : list Z).
Context (pad : Padding) (uninit : ControlMessage).

(** Some packet that had not arrived is among the datagrams. *)
Definition gets_through (st : RxState) (ds : list (list Z)) : bool :=
  existsb (λ i, bool_decide (packet_datagram (built_packet params slot data length i) ∈ ds))
    (missing_packets slot st).

(** A round: an exchange, then any of the datagrams ever sent arrive, in any number
    and order, then a poll.  The round is good when something gets through that
    had not arrived before. *)
Inductive sr_round : bool → RepairState → RepairState → Prop :=
| SrRound x t last r s w ds st st' :
    sr_exchange pad uninit slot x t last r s w →
    ds ⊆ snd <$> ev_wire (ss_env s) →
    receiver_loop (rp_rx x) (RxDatagram <$> ds) = Some st → poll_slot st slot = Some st' →
    sr_round (gets_through (rp_rx x) ds) x (mkRepair st' r last s).

(** Rounds, [n] of them good. *)
Inductive sr_rounds : nat → RepairState → RepairState → Prop :=
| SrNone x : sr_rounds O x x
| SrGood n x y z : sr_round true x y → sr_rounds n y z → sr_rounds (S n) x z
| SrBad n x y z : sr_round false x y → sr_rounds n y z → sr_rounds n x z.
End Step.

Section Rounds.
Context (params : ConnectionParams) (slot id length : Z) (data : list Z).
Context (Hsend : sendable params data length) (Hslot : 0 ≤ slot < 1024).
Context (Hfits : total_packets_of params length ≤ 262144).

Notation total := (total_chunks_of params length).
Context (Htotal : total < 65536).

(** ** The invariant *)

Record repairing (x : RepairState) : Prop := {
  rpg_shared : shared_ok params slot id length data (rp_rx x);
  rpg_slot : ∃ mc b fb, cx_msg_table (rx_cx (rp_rx x)) !! slot = Some mc ∧ wf_transfer mc b fb ∧
    fb_total_chunks fb = total ∧ bb_packets_per_chunk b = prm_packets_per_chunk params ∧
    bb_total_packets b = total_packets_of params length ∧
    ∀ c, 0 ≤ c < total → marked fb c = chunk_received b c;   (* polled *)
  rpg_receiver : ∃ conn server, reporting (rp_receiver x) conn server total;
  rpg_sender : sr_ok params slot data length (rp_sender x);
  rpg_wire : Forall (honest params slot length data) (snd <$> ev_wire (ss_env (rp_sender x)));
  rpg_acked : ∀ c fb, slot_frontend (rp_rx x) slot = Some fb → 0 ≤ c < total →
    acked_at (ss_chunk_acked (rp_sender x)) c = true → marked fb c = true
}.

Lemma slot_frontend_eq st mc b fb : cx_msg_table (rx_cx st) !! slot = Some mc → wf_transfer mc b fb →
  slot_frontend st slot = Some fb.
Proof. intros Hmc Hwt. unfold slot_frontend. rewrite Hmc. apply Hwt. Qed.

Lemma missing_packets_eq st mc b fb : cx_msg_table (rx_cx st) !! slot = Some mc → wf_transfer mc b fb →
  missing_packets slot st = List.filter (λ i, negb (received b i)) (zrange 0 (bb_total_packets b)).
Proof.
  intros Hmc Hwt. unfold missing_packets, slot_backend. rewrite Hmc. cbn. by rewrite (wft_backend _ _ _ Hwt).
Qed.

Lemma elem_of_missing_packets st mc b fb i : cx_msg_table (rx_cx st) !! slot = Some mc → wf_transfer mc b fb →
  i ∈ missing_packets slot st ↔ 0 ≤ i < bb_total_packets b ∧ received b i = false.
Proof.
  intros Hmc Hwt. rewrite (missing_packets_eq _ _ _ _ Hmc Hwt).
  by rewrite list_elem_of_In, List.filter_In, <-list_elem_of_In, elem_of_zrange, negb_true_iff.
Qed.

Lemma gets_through_spec st ds : gets_through params slot length data st ds = true ↔
  ∃ i, i ∈ missing_packets slot st ∧ packet_datagram (built_packet params slot data length i) ∈ ds.
Proof.
  unfold gets_through. rewrite existsb_exists. setoid_rewrite <-list_elem_of_In.
  by setoid_rewrite bool_decide_eq_true.
Qed.

(** What gets through is no longer missing, and nothing goes missing again. *)
Lemma fewer_missing b b' (ds : list (list Z)) : bb_total_packets b' = bb_total_packets b →
  bb_total_packets b = total_packets_of params length →
  (∀ i, received b i = true → received b' i = true) →
  (∀ i, 0 ≤ i < total_packets_of params length →
     packet_datagram (built_packet params slot data length i) ∈ ds → received b' i = true) →
  let missing b := List.filter (λ i, negb (received b i)) (zrange 0 (bb_total_packets b)) in
  (List.length (missing b') + (if existsb (λ i, bool_decide
     (packet_datagram (built_packet params slot data length i) ∈ ds)) (missing b) then 1 else 0) ≤
   List.length (missing b))%nat.
Proof.
  intros Ht Ht0 Hkeep Hgot missing. unfold missing at 1. rewrite Ht.
  assert (∀ i, i ∈ zrange 0 (bb_total_packets b) → negb (received b' i) = true → negb (received b i) = true) as Hle.
  { intros i _. rewrite !negb_true_iff. intros Hi. destruct (received b i) eqn:E; [|done]. by rewrite Hkeep in Hi. }
  destruct (existsb _ _) eqn:E.
  - apply existsb_exists in E as (i & Hi%List.filter_In & Hin%bool_decide_eq_true).
    destruct Hi as [Hi%list_elem_of_In Hf]. rewrite Nat.add_1_r. apply Nat.le_succ_l.
    apply (length_filter_lt _ _ _ i); [done|done|done|]. apply elem_of_zrange in Hi. rewrite Ht0 in Hi.
    by rewrite (Hgot i Hi Hin).
  - rewrite Nat.add_0_r. by apply length_filter_le.
Qed.

Lemma sr_ok_at_time t s : sr_ok params slot data length s → sr_ok params slot data length (at_time t s).
Proof. intros []. constructor; try done. by constructor. Qed.

(** Honest datagrams and a poll keep the receiving side in order. *)
Lemma round_delivered st mc b fb ds :
  shared_ok params slot id length data st → cx_msg_table (rx_cx st) !! slot = Some mc →
  wf_transfer mc b fb → bb_packets_per_chunk b = prm_packets_per_chunk params →
  Forall (honest params slot length data) ds →
  ∃ st' st'' mc' b' fb', receiver_loop st (RxDatagram <$> ds) = Some st' ∧ poll_slot st' slot = Some st'' ∧
    shared_ok params slot id length data st'' ∧
    cx_msg_table (rx_cx st'') !! slot = Some mc' ∧ wf_transfer mc' b' fb' ∧
    fb_total_chunks fb' = total ∧ bb_packets_per_chunk b' = prm_packets_per_chunk params ∧
    (∀ c, marked fb c = true → marked fb' c = true) ∧
    bb_total_packets b' = total_packets_of params length ∧
    (∀ i, received b i = true → received b' i = true) ∧
    (∀ i, 0 ≤ i < total_packets_of params length →
       packet_datagram (built_packet params slot data length i) ∈ ds → received b' i = true) ∧
    ∀ c, 0 ≤ c < total → marked fb' c = chunk_received b' c.
Proof.
  intros Hok Hmc Hwt Hppc Hh.
  destruct (datagrams_delivered params slot id length data Hsend Hslot Hfits st mc b fb ds Hok Hmc Hwt Hppc Hh)
    as (st' & mc' & b' & fb' & Hl & Hok' & Hmc' & Hf & Hb' & Hp' & Hpoll & Ht & Hwt' & Hkeep & Htp & Hbits & Hgot & Hm).
  exists st', (rx_set_slot st' slot (mc_set_frontend mc' fb')), (mc_set_frontend mc' fb'), b', fb'.
  split_and!; try done.
  - unfold poll_slot. rewrite Hmc'. cbn [mbind option_bind]. rewrite Hf, Hb'. cbn [mbind option_bind].
    by rewrite Hpoll.
  - by apply (shared_ok_polled params slot id length data st' mc' b').
  - cbn. apply lookup_insert_eq.
Qed.

(** What [pump] sends when it does not return [true]. *)
Lemma pump_not_done fb pad last first now r msg last' r' : wf_frontend fb → fb_total_chunks fb = total →
  (∃ conn server, reporting r conn server total) →
  pump (λ _, fb) pad last first now r = Some (false, Some msg, last', r') →
  msg_is msg SR_NACK = true ∧ msg_is msg SR_ACK = false ∧ msg_ok msg ∧
  (∀ c, 0 ≤ c < total → reports msg c = true → marked fb c = true) ∧
  missing_in fb 0 total ≠ [] ∧ last' = Some now ∧
  ctrl_interval_ms (sv_cfg r) ≤ elapsed_ms now (default first last) ∧
  ∃ conn server, reporting r' conn server total.
Proof.
  intros Hwf Ht (conn & server & Hr) Hp.
  destruct (Z.lt_ge_cases (elapsed_ms now (default first last)) (ctrl_interval_ms (sv_cfg r))) as [Hlt|Hge].
  { destruct Hr as (h & mc & fb0 & Hh & Hc & Hs & _). unfold pump in Hp. rewrite Hh, Hc, Hs in Hp.
    by rewrite (proj2 (Z.ltb_lt _ _)) in Hp by done. }
  destruct (pump_keeps_reporting _ _ _ _ _ _ _ _ _ _ _ _ _ Hr Hp) as (-> & _ & Hr').
  rewrite <-Ht in Hr.
  destruct (pump_reports_exactly fb pad last first now r conn server Hr Hge Hwf)
    as (msg0 & r0 & Hp0 & Hty & Hm & Hrep & _ & _).
  rewrite Hp in Hp0. injection Hp0 as Hmiss <- <-. rewrite Ht in *.
  symmetry in Hmiss. apply bool_decide_eq_false in Hmiss.
  destruct (decide (missing_in fb 0 total = [])) as [?|_]; [done|].
  unfold msg_is. rewrite Hty. by split_and!.
Qed.

(** ** Rounds keep it *)

(** The sender's side of a round. *)
Lemma round_answered uninit t s conn msg s' : sr_ok params slot data length s →
  Forall (honest params slot length data) (snd <$> ev_wire (ss_env s)) →
  msg_is msg SR_NACK = true → msg_is msg SR_ACK = false → msg_ok msg →
  on_message uninit (at_time t s) conn msg = Some (PollAgain s') →
  on_sr_nack (at_time t s) msg = Some (PollAgain s') ∧ sr_ok params slot data length s' ∧
  Forall (honest params slot length data) (snd <$> ev_wire (ss_env s')) ∧
  ∀ c, 0 ≤ c < total →
    acked_at (ss_chunk_acked s') c = acked_at (ss_chunk_acked s) c || reports msg c.
Proof.
  intros Hs Hw Hn Ha Hm. unfold on_message. rewrite Ha, Hn. intros Hnack.
  destruct (on_sr_nack_ok params slot data length Hsend Hslot Hfits (at_time t s) msg (sr_ok_at_time t s Hs) Hm)
    as (s0 & [H1 _ _ H2 (cs & w & Hcs & Hw' & Hin & _)] & Hnack').
  assert (s0 = s') as -> by congruence. split_and!; try done.
  rewrite Hw', fmap_app. apply Forall_app. split; [done|].
  apply Forall_fmap, Forall_forall. intros x (c & Hc & Hx)%Hin.
  rewrite Forall_forall in Hcs. destruct (Hcs c Hc) as [Hcr _].
  apply (elem_of_chunk_wire _ _ _ Hsend) in Hx as (i & Hi & _ & ->); [|lia]. cbn.
  by apply built_honest.
Qed.

Notation sr_round := (sr_round params slot length data).
Notation sr_rounds := (sr_rounds params slot length data).

Lemma sr_round_ok pad uninit good x y : repairing x → sr_round pad uninit good x y →
  repairing y ∧
  (List.length (missing_packets slot (rp_rx y)) + (if good then 1 else 0) ≤
     List.length (missing_packets slot (rp_rx x)))%nat.
Proof.
  intros [Hok (mc & b & fb & Hmc & Hwt & Ht & Hppc & Htp & _) Hrep Hs Hwire Hack] Hround.
  destruct Hround as [x t last r s w ds st st' Hex Hds Hl Hpoll].
  destruct Hex as [fb' first now msg last r conn s w Hfb Hp Hconn Hmsg Hw].
  pose proof (slot_frontend_eq _ _ _ _ Hmc Hwt) as Hfb0. assert (fb' = fb) as -> by congruence. clear Hfb.
  destruct (pump_not_done fb pad _ _ _ _ _ _ _ (wft_fb _ _ _ Hwt) Ht Hrep Hp)
    as (Hn & Ha & Hm & Hrp & Hmiss & -> & Htime & Hrep').
  destruct (round_answered uninit t _ conn msg s Hs Hwire Hn Ha Hm Hmsg) as (Hnack & Hs' & Hwire' & Hack').
  assert (Forall (honest params slot length data) ds) as Hh.
  { rewrite Forall_forall in Hwire' |- *. intros d Hd. by apply Hwire', Hds. }
  destruct (round_delivered _ mc b fb ds Hok Hmc Hwt Hppc Hh)
    as (st1 & st2 & mc2 & b2 & fb2 & Hl1 & Hpoll1 & Hok2 & Hmc2 & Hwt2 & Ht2 & Hppc2 & Hkeep & Htp2 & Hbits & Hgot & Hpolled).
  rewrite Hl in Hl1. injection Hl1 as <-. rewrite Hpoll in Hpoll1. injection Hpoll1 as <-.
  pose proof (slot_frontend_eq _ _ _ _ Hmc2 Hwt2) as Hfb2. split.
  - constructor; cbn [rp_rx rp_receiver rp_sender]; try done; [by exists mc2, b2, fb2|].
    intros c f Hf Hc. rewrite Hfb2 in Hf. injection Hf as <-. rewrite Hack' by done.
    intros [E|E]%orb_true_iff; apply Hkeep; [by eapply Hack|by apply Hrp].
  - unfold gets_through. cbn [rp_rx].
    rewrite (missing_packets_eq _ _ _ _ Hmc2 Hwt2), (missing_packets_eq _ _ _ _ Hmc Hwt).
    apply fewer_missing; [congruence|done..].
Qed.

Lemma sr_rounds_ok pad uninit n x y : sr_rounds pad uninit n x y → repairing x →
  repairing y ∧
  (n + List.length (missing_packets slot (rp_rx y)) ≤ List.length (missing_packets slot (rp_rx x)))%nat.
Proof.
  induction 1 as [x|n x y z Hr _ IH|n x y z Hr _ IH]; intros Hx; [done|..];
    destruct (sr_round_ok _ _ _ _ _ Hx Hr) as [Hy Hle]; destruct (IH Hy) as [Hz Hle']; (split; [done|lia]).
Qed.

(** Chunks and packets run out together. *)
Lemma missing_chunk_packet x mc b fb c : repairing x → cx_msg_table (rx_cx (rp_rx x)) !! slot = Some mc →
  wf_transfer mc b fb → 0 ≤ c < total → marked fb c = false →
  ∃ i, i ∈ missing_packets slot (rp_rx x) ∧ 0 ≤ i < total_packets_of params length ∧
    i / prm_packets_per_chunk params = c.
Proof.
  intros [_ (mc0 & b0 & fb0 & Hmc0 & Hwt0 & _ & Hppc & Htp & Hpolled) _ _ _ _] Hmc Hwt Hc Hf.
  assert (mc0 = mc) as -> by congruence.
  assert (b0 = b) as -> by (pose proof (wft_backend _ _ _ Hwt0); pose proof (wft_backend _ _ _ Hwt); congruence).
  assert (fb0 = fb) as -> by (pose proof (wft_frontend _ _ _ Hwt0); pose proof (wft_frontend _ _ _ Hwt); congruence).
  rewrite Hpolled in Hf by done.
  destruct (existsb (λ i, negb (received b i)) (packets_of_chunk params length c)) eqn:E.
  - apply existsb_exists in E as (i & Hi%list_elem_of_In & Hr%negb_true_iff).
    apply (elem_of_packets_of_chunk _ _ _ Hsend) in Hi as [Hi Hic]; [|lia]. exists i. split; [|done].
    apply (elem_of_missing_packets _ _ _ _ _ Hmc Hwt). by rewrite Htp.
  - enough (chunk_received b c = true) by congruence.
    apply (chunk_received_all params length data Hsend); [done..|lia|]. intros i Hi Hic.
    destruct (received b i) eqn:Hr; [done|].
    enough (existsb (λ i, negb (received b i)) (packets_of_chunk params length c) = true) by congruence.
    apply existsb_exists. exists i. rewrite Hr. split; [|done].
    apply list_elem_of_In, (elem_of_packets_of_chunk _ _ _ Hsend); [lia|done].
Qed.

Lemma all_packets_all_chunks x : repairing x → missing_packets slot (rp_rx x) = [] →
  missing_chunks slot (rp_rx x) = [].
Proof.
  intros Hx Hm. pose proof Hx as [_ (mc & b & fb & Hmc & Hwt & Ht & _) _ _ _ _].
  unfold missing_chunks. rewrite (slot_frontend_eq _ _ _ _ Hmc Hwt).
  destruct (missing_in fb 0 (fb_total_chunks fb)) as [|c l] eqn:E; [done|].
  assert (c ∈ missing_in fb 0 (fb_total_chunks fb)) as [Hc Hf]%elem_of_missing_in by (rewrite E; by left).
  rewrite Ht in Hc. destruct (missing_chunk_packet x mc b fb c Hx Hmc Hwt Hc Hf) as (i & Hi & _).
  rewrite Hm in Hi. by apply not_elem_of_nil in Hi.
Qed.

(** ** A good round can always follow *)

Lemma foldr_max x l : x ∈ l → x ≤ foldr Z.max 0 l.
Proof. induction 1; cbn; lia. Qed.

(** Late enough, every chunk may be sent again. *)
Lemma due_in_time s chunks : sr_ok params slot data length s → Forall (λ c, 0 ≤ c < total) chunks →
  ∃ t, Forall (due (at_time t s)) chunks.
Proof.
  intros Hs Hc. exists (foldr Z.max 0 (ss_last_tx s) + 50000000).
  apply (Forall_impl _ _ _ Hc). intros c Hcr.
  destruct (last_lookup params slot data length s c Hs Hcr) as [last Hlast].
  exists last. split; [done|]. unfold guard_ms, elapsed_ms, next_reading.
  cbn [at_time ss_with_env ss_env ev_time ev_ticks hd].
  assert (last ≤ foldr Z.max 0 (ss_last_tx s)) as Hle.
  { by eapply foldr_max, list_elem_of_lookup_2. }
  apply Z.quot_le_lower_bound; lia.
Qed.

Lemma interval_passes cfg last : ∃ now, ctrl_interval_ms cfg ≤ elapsed_ms now last.
Proof.
  exists (last + Z.max 0 (ctrl_interval_ms cfg) * 1000000). unfold elapsed_ms.
  rewrite Z.add_simpl_l, Z.quot_mul by lia. lia.
Qed.

(** When the missing chunks are due, the answer to a report always carries a packet
    that is missing. *)
Lemma due_answer_new pad uninit x t last r s w : repairing x → missing_chunks slot (rp_rx x) ≠ [] →
  Forall (due (at_time t (rp_sender x))) (missing_chunks slot (rp_rx x)) →
  sr_exchange pad uninit slot x t last r s w →
  gets_through params slot length data (rp_rx x) (snd <$> w) = true.
Proof.
  intros Hx Hmiss Hdue Hex.
  pose proof Hx as [_ (mc & b & fb & Hmc & Hwt & Ht & Hppc & Htp & _) Hrep Hs Hwire Hack].
  destruct Hex as [fb' first now msg last r conn s w Hfb Hp Hconn Hmsg Hw].
  pose proof (slot_frontend_eq _ _ _ _ Hmc Hwt) as Hfb0. assert (fb' = fb) as -> by congruence. clear Hfb.
  unfold missing_chunks in *. rewrite Hfb0, Ht in *.
  destruct (pump_not_done fb pad _ _ _ _ _ _ _ (wft_fb _ _ _ Hwt) Ht Hrep Hp)
    as (Hn & Ha & Hm & _ & _ & -> & Htime & _).
  destruct (round_answered uninit t _ conn msg s Hs Hwire Hn Ha Hm Hmsg) as (Hnack & _).
  destruct Hrep as (conn0 & server0 & Hrep).
  destruct (nack_answered params slot length data fb pad (rp_last x) first now (rp_receiver x) conn0 server0
    (at_time t (rp_sender x)))
    as (msg0 & r0 & s0 & cs & Hp0 & _ & _ & Hnack0 & Hw0 & Hne & Hin & _); try done.
  { apply Hwt. } { by apply sr_ok_at_time. } { intros c Hc E. by eapply Hack. }
  rewrite Hp in Hp0. injection Hp0 as <- <-. rewrite Hnack in Hnack0. injection Hnack0 as <-.
  cbn [at_time ss_with_env ss_env ev_wire] in Hw0. rewrite Hw in Hw0. apply app_inv_head in Hw0.
  destruct (reported_gaps _ _ _) as [|c gaps] eqn:Eg; [done|].
  rewrite Forall_forall in Hin. destruct (Hin c) as [Hc Hf]; [by left|].
  destruct (missing_chunk_packet x mc b fb c Hx Hmc Hwt Hc Hf) as (i & Hi & Hir & Hic).
  apply gets_through_spec. exists i. split; [done|].
  apply list_elem_of_fmap. eexists (_, _). split; [reflexivity|]. rewrite Hw0. apply elem_of_wire.
  exists c. split; [cbn; by left|]. apply (elem_of_chunk_wire _ _ _ Hsend); [lia|]. by exists i.
Qed.

(** There is such an exchange, late enough. *)
Lemma due_exchange pad uninit x : repairing x → missing_chunks slot (rp_rx x) ≠ [] →
  ∃ t last r s w, Forall (due (at_time t (rp_sender x))) (missing_chunks slot (rp_rx x)) ∧
    sr_exchange pad uninit slot x t last r s w.
Proof.
  intros Hx Hmiss. pose proof Hx as [Hok (mc & b & fb & Hmc & Hwt & Ht & Hppc & _) (conn0 & server & Hrep) Hs Hwire Hack].
  pose proof (slot_frontend_eq _ _ _ _ Hmc Hwt) as Hfb.
  assert (missing_chunks slot (rp_rx x) = missing_in fb 0 total) as Em by (unfold missing_chunks; by rewrite Hfb, Ht).
  destruct (due_in_time (rp_sender x) (missing_in fb 0 total) Hs) as [t Hdue].
  { apply Forall_forall. intros c Hc. by apply elem_of_missing_in in Hc as [? _]. }
  destruct (interval_passes (sv_cfg (rp_receiver x)) (default 0 (rp_last x))) as [now Htime].
  destruct (nack_answered params slot length data fb pad (rp_last x) 0 now (rp_receiver x) conn0 server
    (at_time t (rp_sender x)))
    as (msg & r & s & cs & Hp & Hty & _ & Hnack & Hw & _); try done; [apply Hwt|by apply sr_ok_at_time|intros c Hc E; by eapply Hack|by rewrite <-Em|].
  destruct (sro_conn _ _ _ _ _ Hs) as (conn & _ & Hconn & _).
  eexists t, _, r, s, _. split; [by rewrite Em|].
  eapply (SrExchange pad uninit slot x t fb 0 now msg _ r conn s); try done.
  unfold on_message, msg_is. by rewrite Hty.
Qed.

Lemma exchange_wire pad uninit x t last r s w : repairing x → sr_exchange pad uninit slot x t last r s w →
  Forall (honest params slot length data) (snd <$> ev_wire (ss_env s)).
Proof.
  intros [_ (mc & b & fb & Hmc & Hwt & Ht & _) Hrep Hs Hwire _] [fb' first now msg l q conn s' w' Hfb Hp Hconn Hmsg _].
  pose proof (slot_frontend_eq _ _ _ _ Hmc Hwt). assert (fb' = fb) as -> by congruence.
  destruct (pump_not_done fb pad _ _ _ _ _ _ _ (wft_fb _ _ _ Hwt) Ht Hrep Hp) as (Hn & Ha & Hm & _).
  by destruct (round_answered uninit t _ conn msg _ Hs Hwire Hn Ha Hm Hmsg) as (_ & _ & ? & _).
Qed.

(** Whatever arrives of what was sent, an exchange completes to a round. *)
Lemma exchange_round pad uninit x t last r s w ds : repairing x → sr_exchange pad uninit slot x t last r s w →
  ds ⊆ snd <$> ev_wire (ss_env s) →
  ∃ y, sr_round pad uninit (gets_through params slot length data (rp_rx x) ds) x y.
Proof.
  intros Hx Hex Hds. pose proof Hx as [Hok (mc & b & fb & Hmc & Hwt & _ & Hppc & _) _ _ _ _].
  assert (Forall (honest params slot length data) ds) as Hh.
  { pose proof (exchange_wire pad uninit x t last r s w Hx Hex) as Hwire'.
    rewrite Forall_forall in Hwire' |- *. intros d Hd. by apply Hwire', Hds. }
  destruct (round_delivered _ mc b fb ds Hok Hmc Hwt Hppc Hh) as (st1 & st2 & _ & _ & _ & Hl & Hpoll & _).
  eexists. by eapply SrRound.
Qed.

Lemma good_round_follows pad uninit x : repairing x → missing_chunks slot (rp_rx x) ≠ [] →
  ∃ y, sr_round pad uninit true x y.
Proof.
  intros Hx Hmiss. destruct (due_exchange pad uninit x Hx Hmiss) as (t & last & r & s & w & Hdue & Hex).
  rewrite <-(due_answer_new pad uninit x t last r s w Hx Hmiss Hdue Hex). eapply exchange_round; [done..|].
  destruct Hex as [? ? ? ? ? ? ? s w _ _ _ _ ->]. rewrite fmap_app. set_solver.
Qed.

(** ** The end *)

(** No chunk missing: the verdict, and the message in the buffer. *)
Lemma rounds_end pad uninit x : repairing x → missing_chunks slot (rp_rx x) = [] →
  (∃ m, rx_mem (rp_rx x) !! id = Some m ∧ take (Z.to_nat length) m = take (Z.to_nat length) data) ∧
  ∀ fb first now, slot_frontend (rp_rx x) slot = Some fb →
    ctrl_interval_ms (sv_cfg (rp_receiver x)) ≤ elapsed_ms now (default first (rp_last x)) →
    ∃ msg r conn s, pump (λ _, fb) pad (rp_last x) first now (rp_receiver x) = Some (true, Some msg, Some now, r) ∧
      ss_conn (rp_sender x) = Some conn ∧ on_message uninit (rp_sender x) conn msg = Some (PollReturn 0 s).
Proof.
  intros [Hok (mc & b & fb & Hmc & Hwt & Ht & Hppc & _) (conn0 & server & Hrep) Hs Hwire Hack] Hmiss.
  pose proof (slot_frontend_eq _ _ _ _ Hmc Hwt) as Hfb.
  unfold missing_chunks in Hmiss. rewrite Hfb, Ht in Hmiss. split.
  - destruct (completed_count_all fb (wft_fb _ _ _ Hwt)) as (k & Hk & _ & Hall).
    destruct (counted_message params slot id length data (rp_rx x) mc fb k Hsend Hok Hmc (wft_frontend _ _ _ Hwt) Hk)
      as (m & Hm & _ & Htake); [|by exists m].
    apply Hall. intros c Hc. destruct (marked fb c) eqn:E; [done|].
    assert (c ∈ missing_in fb 0 total) as Hin by (apply elem_of_missing_in; split; [lia|done]).
    rewrite Hmiss in Hin. by apply not_elem_of_nil in Hin.
  - intros fb' first now Hfb' Htime. assert (fb' = fb) as -> by congruence. rewrite <-Ht in Hrep.
    destruct (pump_reports_exactly fb pad (rp_last x) first now _ conn0 server Hrep Htime (wft_fb _ _ _ Hwt))
      as (msg & r & Hp & Hty & _). rewrite Ht, Hmiss in *.
    destruct (sro_conn _ _ _ _ _ Hs) as (conn & _ & Hconn & _).
    exists msg, r, conn, (count_ack (rp_sender x)). split_and!; [done|done|].
    unfold on_message, msg_is. by rewrite Hty.
Qed.
End Rounds.

(** ** Properties *)

(** C5: Selective repeat delivers: start from a transfer of fewer than 65536 chunks
    with a sender and a receiver in step with it, and let rounds follow each
    other over a network that may lose, repeat, reorder and delay whatever was
    ever sent.  However the rounds went, both ends are still in step.  Call a round
    good when at least one packet arrives that had not arrived before: there can be
    no more good rounds than packets were missing at the start, and after as many
    no chunk is missing.  While a chunk is missing a good round is possible; indeed
    reports and answers go on, and whenever the missing chunks may be sent again
    (50 ms after they last were) the answer to the report carries a packet that is
    missing.  Once no chunk is missing the buffer holds the message, the next
    [pump] sends COMPLETE_ACK and returns [true], and [poll] returns 0 on it. *)
Theorem selective_repeat_delivers params slot id length data pad uninit n x y :
  sendable params data length → 0 ≤ slot < 1024 → total_packets_of params length ≤ 262144 →
  total_chunks_of params length < 65536 → repairing params slot id length data x →
  sr_rounds params slot length data pad uninit n x y →
  repairing params slot id length data y ∧
  (n + List.length (missing_packets slot (rp_rx y)) ≤ List.length (missing_packets slot (rp_rx x)))%nat ∧
  (n = List.length (missing_packets slot (rp_rx x)) → missing_chunks slot (rp_rx y) = []) ∧
  (missing_chunks slot (rp_rx y) ≠ [] →
    (∃ z, sr_round params slot length data pad uninit true y z) ∧
    (∃ t last r s w, Forall (due (at_time t (rp_sender y))) (missing_chunks slot (rp_rx y)) ∧
       sr_exchange pad uninit slot y t last r s w) ∧
    ∀ t last r s w, Forall (due (at_time t (rp_sender y))) (missing_chunks slot (rp_rx y)) →
      sr_exchange pad uninit slot y t last r s w →
      gets_through params slot length data (rp_rx y) (snd <$> w) = true) ∧
  (missing_chunks slot (rp_rx y) = [] →
    (∃ m, rx_mem (rp_rx y) !! id = Some m ∧ take (Z.to_nat length) m = take (Z.to_nat length) data) ∧
    ∀ fb first now, slot_frontend (rp_rx y) slot = Some fb →
      ctrl_interval_ms (sv_cfg (rp_receiver y)) ≤ elapsed_ms now (default first (rp_last y)) →
      ∃ msg r conn s, pump (λ _, fb) pad (rp_last y) first now (rp_receiver y) = Some (true, Some msg, Some now, r) ∧
        ss_conn (rp_sender y) = Some conn ∧ on_message uninit (rp_sender y) conn msg = Some (PollReturn 0 s)).
Proof.
  intros Hsend Hslot Hfits Htotal Hx Hr.
  destruct (sr_rounds_ok params slot id length data Hsend Hslot Hfits pad uninit n x y Hr Hx) as [Hy Hle].
  split; [done|]. split; [done|]. split; [|split].
  - intros ->. apply (all_packets_all_chunks params slot id length data); [done..|]. apply nil_length_inv. lia.
  - intros Hm. split; [by apply (good_round_follows params slot id length data)|].
    split; [by apply (due_exchange params slot id length data)|].
    intros t last r s w. by apply (due_answer_new params slot id length data).
  - intros Hm. by apply (rounds_end params slot id length data).
Qed.

(** Two chunks sent and both lost. *)
Definition example_rounds : RepairState :=
  mkRepair (example_armed 0) example_repair_receiver None (example_sender [] []).

Lemma example_rounds_repairing : repairing example_cts_params 0 0 12 example_payload example_rounds.
Proof.
  destruct (posted_context_wf 0 1 (BufUser 0) 12 example_cts_params)
    as (b & fb & Hwt & _ & Hrx & Hmk & Htp & Hppc); [unfold receivable; lia|split; reflexivity..|].
  assert (slot_frontend (rp_rx example_rounds) 0 = Some fb) as Hfb
    by (eapply slot_frontend_eq; [apply lookup_singleton_eq|exact Hwt]).
  assert (fb_total_chunks fb = 2) as Ht.
  { pose proof (wft_frontend _ _ _ Hwt) as Hf. vm_compute in Hf. by injection Hf as <-. }
  constructor.
  - apply ready_shared_ok, example_armed_ready.
  - exists (posted_context 0 1 (BufUser 0) 12 3 2 example_cts_params), b, fb.
    split_and!; [apply lookup_singleton_eq|exact Hwt|by rewrite Ht|by rewrite Hppc|by rewrite Htp|].
    intros c Hc. rewrite Hmk. destruct (chunk_received b c) eqn:E; [|done].
    change (total_chunks_of example_cts_params 12) with 2 in Hc.
    rewrite (chunk_received_all example_cts_params 12 example_payload) in E;
      [|exact example_payload_sendable|by rewrite Htp|by rewrite Hppc|lia].
    change (total_packets_of example_cts_params 12) with 3 in E.
    change (prm_packets_per_chunk example_cts_params) with 2 in E.
    rewrite <-(E (2 * c)), Hrx; [done|lia|]. rewrite Z.mul_comm. by apply Z.div_mul.
  - exists example_repair_conn, (example_server []), (mkRecvHandle 0 1 0 (BufUser 0) 12),
      (posted_context 0 1 (BufUser 0) 12 3 2 example_cts_params).
    eexists. split_and!; reflexivity.
  - cbn. example_sender_started.
  - cbn [rp_sender example_rounds].
    assert (ev_wire (ss_env (example_sender [] [])) =
      concat (chunk_wire example_cts_params 0 example_payload 12 <$> zrange 0 2)) as -> by (vm_compute; reflexivity).
    apply wire_honest; [exact example_payload_sendable|lia|exact example_payload_fits|].
    change (total_chunks_of example_cts_params 12) with 2. apply Forall_forall. intros c. by rewrite elem_of_zrange.
  - intros c fb' _ Hc. change (total_chunks_of example_cts_params 12) with 2 in Hc.
    assert (c = 0 ∨ c = 1) as [->| ->] by lia; vm_compute; discriminate.
Qed.

Lemma selective_repeat_delivers_witness :
  let rounds := sr_rounds example_cts_params 0 12 example_payload example_padding zero_message in
  let round := sr_round example_cts_params 0 12 example_payload example_padding zero_message in
  ∃ y, rounds 1%nat example_rounds y ∧
    (List.length (missing_packets 0 (rp_rx y)) < List.length (missing_packets 0 (rp_rx example_rounds)))%nat ∧
    (missing_chunks 0 (rp_rx y) ≠ [] → ∃ z, round true y z).
Proof.
  assert (total_chunks_of example_cts_params 12 < 65536) as Htotal by reflexivity.
  destruct (good_round_follows example_cts_params 0 0 12 example_payload example_payload_sendable
    ltac:(lia) example_payload_fits Htotal example_padding zero_message example_rounds example_rounds_repairing)
    as [y Hy]; [vm_compute; discriminate|].
  pose proof (SrGood _ _ _ _ _ _ _ _ _ _ Hy (SrNone _ _ _ _ _ _ y)) as Hr.
  destruct (selective_repeat_delivers example_cts_params 0 0 12 example_payload example_padding zero_message 1
    example_rounds y example_payload_sendable ltac:(lia) example_payload_fits Htotal example_rounds_repairing Hr)
    as (_ & Hle & _ & Hnext & _).
  exists y. split; [exact Hr|]. split; [lia|]. intros Hm. exact (proj1 (Hnext Hm)).
Defined.
