(* ===== verification/Session.v ===== *)
(** * A session: both sides of the API

    [sdr_recv_post] and [sdr_send_post] over one control connection, each reading
    what the other writes, then the transfer of [Transfer], the verdict of
    [sdr_recv_complete] and its arrival in [sdr_send_poll]. *)

From S2P Require Import Prelude Bits Bytes Packet Backend Frontend Control Wait Connection Receiver Api Transfer.
From S2P Require Import Resend SrSender SrReceiver Repair Rounds.
Import ControlMsgType MessageState.

(** ** What receiving and sending keep *)

(** The sending half of a socket. *)
Record same_output (a b : Socket) : Prop := {
  sao_out : sk_out b = sk_out a;
  sao_results : sk_send_results b = sk_send_results a
}.

#[export] Instance same_output_preorder : PreOrder same_output.
Proof. split; [by constructor|]. intros a b c [] []. constructor; congruence. Qed.

Lemma server_wait_output (s : TCPControlServer) msg expected r s' :
  wait_message s msg expected = (r, s') → same_output (ts_sock s) (ts_sock s').
Proof.
  assert (PreOrder (λ a b : TCPControlServer, same_output (ts_sock a) (ts_sock b))) as Hpre.
  { split; [intros a; reflexivity|]. intros a b d. apply (PreOrder_Transitive). }
  apply (wait_message_keeps (λ a b : TCPControlServer, same_output (ts_sock a) (ts_sock b))).
  intros e m ok m' e'. cbn. unfold server_receive_message. destruct (ts_client_fd e <? 0); [by intros [= _ _ <-]|].
  destruct (recv_loop _ _) as [[[] ?]|]; [|by intros [= _ _ <-]..|done].
  cbn. destruct (deserialize m bs). by intros [= _ _ <-].
Qed.

Lemma client_wait_output (c : TCPControlClient) msg expected r c' :
  wait_message c msg expected = (r, c') → same_output (tc_sock c) (tc_sock c').
Proof.
  assert (PreOrder (λ a b : TCPControlClient, same_output (tc_sock a) (tc_sock b))) as Hpre.
  { split; [intros a; reflexivity|]. intros a b d. apply (PreOrder_Transitive). }
  apply (wait_message_keeps (λ a b : TCPControlClient, same_output (tc_sock a) (tc_sock b))).
  intros e m ok m' e'. cbn. unfold client_receive_message. destruct (negb (tc_is_connected e)); [by intros [= _ _ <-]|].
  destruct (recv_loop _ _) as [[[] ?]|]; [|by intros [= _ _ <-]..|done].
  cbn. destruct (deserialize m bs). by intros [= _ _ <-].
Qed.

(** ** The two halves of the handshake *)

(** Channels that open. *)
Definition channels_open (env : Z → channel_env) : Prop :=
  ∀ i port, 0 ≤ i → 0 ≤ ce_socket (env i) ∧ ce_reuse (env i) = true ∧ ce_bind (env i) port = true.

Lemma open_channels_open env base n : channels_open env → ∀ idx workers closed, 0 ≤ idx →
  (open_channels base idx (env <$> zrange idx n) workers closed).1.1 = true.
Proof.
  intros Hopen idx. remember (Z.to_nat (n - idx)) as k eqn:Hk. revert idx Hk.
  induction k as [|k IH]; intros idx Hk workers closed Hidx.
  { by rewrite zrange_nil by lia. }
  rewrite zrange_cons by lia. cbn [fmap list_fmap open_channels].
  destruct (Hopen idx (u16 (base + idx)) Hidx) as (H1 & -> & ->). rewrite (proj2 (Z.ltb_ge _ _)) by done. cbn [negb].
  apply IH; lia.
Qed.

Lemma ensure_udp_receiver_open c params env : (cn_udp_receiver c = None → channels_open env) →
  ∃ c', ensure_udp_receiver c params env = (true, c').
Proof.
  intros Hopen. unfold ensure_udp_receiver. destruct (cn_udp_receiver c); [by eexists|].
  specialize (Hopen eq_refl). unfold receiver_start. cbn [new_receiver rv_is_running rv_closed].
  pose proof (open_channels_open env (prm_channel_base_port params) (Z.max 1 (prm_num_channels params)) Hopen 0
    (replicate (Z.to_nat (Z.max 1 (prm_num_channels params))) (mkWorker false (-1) 0)) [] ltac:(done)) as H.
  destruct (open_channels _ _ _ _ _) as [[ok ws] closed]. cbn in H. subst ok. cbn [negb]. by eexists.
Qed.

(** The receiver's half after the OFFER. *)
Lemma setup_succeeds pad uninit env ps c buffer length offer server :
  slot_free (cn_connection_ctx c) (ps_next_msg_id ps mod 1024) (ps_receiver_generation_counter ps) = true →
  (cn_udp_receiver c = None → channels_open env) →
  cn_tcp_server c = Some server → 0 ≤ ts_client_fd server → sk_send_results (ts_sock server) = [] →
  let cts := message_with uninit CTS (cx_connection_id (cn_connection_ctx c)) (cts_params ps c offer length) in
  wf_message cts →
  ∃ ps' c' h, recv_post_setup pad uninit env ps c buffer length offer = (None, ps', c', Some h) ∧
    cn_tcp_server c' = Some (server_with_sock server (ts_client_fd server)
      (mkSocket (sk_in (ts_sock server)) [] (sk_out (ts_sock server) ++ message_image pad cts))) ∧
    cn_is_receiver c' = cn_is_receiver c ∧
    cx_connection_id (cn_connection_ctx c') = cx_connection_id (cn_connection_ctx c).
Proof.
  intros Hfree Hopen Hsrv Hfd Hres cts Hwf.
  cbv beta zeta iota delta [recv_post_setup allocate_msg_id initialize].
  cbn [cx_params cx_connection_id ps_next_msg_id ps_next_conn_id ps_receiver_generation_counter].
  fold (cts_params ps c offer length).
  destruct (calculate_bitmap_sizes _ _ _) as [packets chunks].
  rewrite allocate_message_slot_eq.
  match goal with |- context [slot_free ?cx ?id ?g] => assert (slot_free cx id g = true) as -> by exact Hfree end.
  cbv beta zeta iota.
  match goal with |- context [ensure_udp_receiver ?c0 ?p ?e] =>
    destruct (ensure_udp_receiver_open c0 p e Hopen) as [c1 Hu]; rewrite Hu end.
  apply ensure_udp_receiver_ctx in Hu as (_ & Hid & _ & Hs & Hr). cbn in Hid, Hs, Hr.
  cbn [negb]. rewrite Hs, Hsrv, (proj2 (Z.ltb_ge _ _)) by done. rewrite Hid.
  fold cts. rewrite server_send_eq by done. cbn [negb].
  do 3 eexists. split; [reflexivity|]. by split_and!.
Qed.

(** [sdr_recv_post] over a stream with the OFFER and, later, the ACCEPT. *)
Lemma recv_post_succeeds pad uninit env ps c id length server pad_t offer accept segs1 segs2 tail :
  cn_is_receiver c = true → cn_tcp_server c = Some server → 0 ≤ ts_client_fd server →
  sk_send_results (ts_sock server) = [] → length ≠ 0 →
  slot_free (cn_connection_ctx c) (ps_next_msg_id ps mod 1024) (ps_receiver_generation_counter ps) = true →
  (cn_udp_receiver c = None → channels_open env) →
  let cts := message_with uninit CTS (cx_connection_id (cn_connection_ctx c)) (cts_params ps c offer length) in
  wf_message cts → wf_padding pad_t →
  wf_message offer → cm_magic offer = CONTROL_MAGIC → msg_is offer OFFER = true →
  wf_message accept → cm_magic accept = CONTROL_MAGIC → msg_is accept ACCEPT = true →
  concat segs1 = message_image pad_t offer → concat segs2 = message_image pad_t accept →
  sk_in (ts_sock server) = (Data <$> segs1) ++ (Data <$> segs2) ++ tail →
  ∃ ps' c1 c2 c' h server', recv_post_setup pad uninit env ps c1 (BufUser id) length offer = (None, ps', c2, Some h) ∧
    cn_connection_ctx c1 = cn_connection_ctx c ∧ cn_connection_ctx c' = cn_connection_ctx c2 ∧
    sdr_recv_post pad uninit env ps c false (BufUser id) length = Some (Returned 0, ps', c', Some h) ∧
    cn_tcp_server c' = Some server' ∧ 0 ≤ ts_client_fd server' ∧ sk_send_results (ts_sock server') = [] ∧
    sk_out (ts_sock server') = sk_out (ts_sock server) ++ message_image pad cts ∧
    cn_is_receiver c' = true ∧ cx_connection_id (cn_connection_ctx c') = cx_connection_id (cn_connection_ctx c).
Proof.
  intros Hrx Hsrv Hfd Hres Hlen Hfree Hopen cts Hcts Hpad Hwo Hmo Hto Hwa Hma Hta Hs1 Hs2 Hin.
  assert (ep_alive server = true) as Halive by (cbn; by rewrite (proj2 (Z.ltb_ge _ _))).
  destruct (wait_next server zero_message (λ m, msg_is m OFFER) pad_t offer segs1 ((Data <$> segs2) ++ tail))
    as (server1 & Hw1 & Ha1 & Hi1); [done..|by exists []|].
  pose proof (server_wait_output _ _ _ _ _ Hw1) as [Ho1 Hr1].
  assert (0 ≤ ts_client_fd server1) as Hfd1 by (cbn in Ha1; apply negb_true_iff, Z.ltb_ge in Ha1; done).
  set (c1 := cn_with_server c server1).
  destruct (setup_succeeds pad uninit env ps c1 (BufUser id) length offer server1)
    as (ps' & c2 & h & Hsetup & Hsrv2 & Hrx2 & Hid2); [done|done|done|done|congruence|done|].
  set (server2 := server_with_sock _ _ _) in Hsrv2.
  destruct (wait_next server2 zero_message (λ m, msg_is m ACCEPT) pad_t accept segs2 tail)
    as (server3 & Hw3 & Ha3 & _); [by cbn; rewrite (proj2 (Z.ltb_ge _ _))|done..|].
  pose proof (server_wait_output _ _ _ _ _ Hw3) as [Ho3 Hr3].
  exists ps', c1, c2, (cn_with_server c2 server3), h, server3. split; [done|]. split; [done|]. split; [done|].
  split.
  { unfold sdr_recv_post. cbn [orb]. rewrite (proj2 (Z.eqb_neq _ _)) by done.
    rewrite bool_decide_eq_false_2 by done. cbn [orb]. rewrite Hrx, Hsrv. cbn [negb mbind option_bind].
    rewrite Hw1. fold c1. rewrite Hsetup, Hsrv2. cbn [mbind option_bind]. by rewrite Hw3. }
  split_and!; [done| |by rewrite Hr3|by rewrite Ho3; cbn; rewrite Ho1|by cbn; rewrite Hrx2|done].
  cbn in Ha3. by apply negb_true_iff, Z.ltb_ge in Ha3.
Qed.

Lemma desired_params_wf params length : wf_params params → 0 ≤ length < 18446744073709551616 →
  wf_params (desired_params params length).
Proof.
  intros Hp Hl. pose proof (wf_params_numbers params Hp) as Hn. destruct Hp.
  constructor; cbn [desired_params prm_transfer_id prm_total_bytes prm_mtu_bytes
    prm_packet_bytes prm_chunk_bytes prm_packets_per_chunk prm_total_chunks prm_fec_k prm_fec_m
    prm_max_inflight prm_rto_ms prm_rtt_alpha_ms prm_num_channels prm_channel_base_port
    prm_udp_server_ip prm_udp_server_port]; try done.
  - unfold or_else, MAX_PAYLOAD_SIZE, sizeof_SDRPacketHeader. case_bool; [uint_lia|done].
  - unfold or_else. case_bool; [uint_lia|done].
  - unfold or_else. case_bool; [uint_lia|done].
  - apply Forall_replicate. uint_lia.
Qed.

(** [sdr_send_post] over a stream with the CTS. *)
Lemma send_post_succeeds pad uninit os ps c data length client cts pad_r segs tail :
  cn_is_receiver c = false → cn_tcp_client c = Some client → tc_is_connected client = true →
  sk_send_results (tc_sock client) = [] → cx_auto_send_data (cn_connection_ctx c) = true →
  0 ≤ dc_socket os → 0 < dc_inet_pton os →
  let offer := message_with zero_message OFFER (cx_connection_id (cn_connection_ctx c))
    (desired_params (cx_params (cn_connection_ctx c)) length) in
  let params := cm_params cts in
  let accept := message_with zero_message ACCEPT (cm_connection_id cts) params in
  let msg_id := ps_next_msg_id ps mod 1024 in
  wf_message offer → wf_message cts → cm_magic cts = CONTROL_MAGIC → msg_is cts CTS = true → wf_padding pad_r →
  sendable params data length →
  concat segs = message_image pad_r cts → sk_in (tc_sock client) = (Data <$> segs) ++ tail →
  ∃ ps' c' h client',
    sdr_send_post pad uninit os ps c false data length =
      Some (Returned 0, ps', c', Some h,
            wire_of params msg_id data length <$>
              List.filter (λ i, dc_sendto os i >? 0) (zrange 0 (total_packets_of params length))) ∧
    cn_tcp_client c' = Some client' ∧ tc_is_connected client' = true ∧
    sk_out (tc_sock client') = sk_out (tc_sock client) ++ message_image pad offer ++ message_image pad accept ∧
    input_is client' tail ∧ sh_msg_id h = msg_id ∧ cx_params (cn_connection_ctx c') = params.
Proof.
  intros Htx Hcl Hcon Hres Hauto Hsock Hpton offer params accept msg_id Hoffer Hcts Hmagic Ht Hpad Hs Hseg Hin.
  pose proof (sd_length _ _ _ Hs). pose proof (sd_mtu _ _ _ Hs) as Hmtu. pose proof (sd_bound _ _ _ Hs).
  pose proof (sd_ppc _ _ _ Hs). unfold MAX_PAYLOAD_SIZE, sizeof_SDRPacketHeader in Hmtu.
  assert (wf_message accept) as Haccept
    by (apply message_with_wf; [apply zero_message_wf|apply Hcts|apply Hs]).
  pose proof (client_send_eq pad client offer Hoffer Hcon Hres) as Hsend1.
  set (client1 := mkClient _ _ _) in Hsend1.
  destruct (wait_next client1 uninit (λ m, msg_is m CTS) pad_r cts segs tail)
    as (client2 & Hw & Ha2 & Hi2); [done..|by exists []|].
  pose proof (client_wait_output _ _ _ _ _ Hw) as [Ho2 Hr2]. cbn in Ho2, Hr2, Ha2.
  pose proof (client_send_eq pad client2 accept Haccept Ha2 Hr2) as Hsend2.
  set (client3 := mkClient _ _ _) in Hsend2.
  unfold sdr_send_post. cbn [orb]. rewrite (proj2 (Z.eqb_neq length 0)) by lia.
  rewrite Htx, Hcl, Hcon. cbn [negb]. fold offer. rewrite Hsend1. cbn [negb]. rewrite Hw.
  unfold send_post_data. cbn [cn_with_client cn_connection_ctx initialize cn_with_ctx cn_tcp_client mbind option_bind].
  fold params accept. rewrite Hsend2.
  rewrite (proj2 (Z.eqb_neq (prm_mtu_bytes params) 0)), (proj2 (Z.eqb_neq (prm_packets_per_chunk params) 0)) by lia.
  cbn [allocate_msg_id]. fold msg_id.
  rewrite (proj2 (Z.ltb_ge _ _)), (proj2 (Z.leb_gt _ _)) by done. cbn [cx_auto_send_data]. rewrite Hauto.
  rewrite u64_small by lia. fold (total_packets_of params length).
  rewrite send_data_loop_eq; [|done|unfold msg_id; pose proof (Z.mod_pos_bound (ps_next_msg_id ps) 1024); lia|].
  2: { split; [apply ceil_div_bound; lia|done]. }
  cbn [mbind option_bind sl_wire sl_sent]. do 4 eexists. split; [reflexivity|].
  split; [reflexivity|]. split; [done|]. split; [cbn; by rewrite Ho2, <-app_assoc|]. by split_and!.
Qed.

(** ** What goes over the control connection *)

(** All bytes a side has written to its control connection, and the bytes a call
    that took it from [c] to [c'] has added. *)
Definition receiver_output (c : SDRConnection) : list Z :=
  match cn_tcp_server c with Some server => sk_out (ts_sock server) | None => [] end.

Definition sender_output (c : SDRConnection) : list Z :=
  match cn_tcp_client c with Some client => sk_out (tc_sock client) | None => [] end.

Definition written (output : SDRConnection → list Z) (c c' : SDRConnection) : list Z :=
  drop (List.length (output c)) (output c').

(** The sender's connection once TCP has brought it further bytes, cut into any
    segments. *)
Definition hears (segs : list (list Z)) (c : SDRConnection) : SDRConnection :=
  match cn_tcp_client c with
  | None => c
  | Some client => cn_with_client c (mkClient (tc_socket_fd client) (tc_is_connected client)
      (mkSocket (sk_in (tc_sock client) ++ (Data <$> segs)) (sk_send_results (tc_sock client))
         (sk_out (tc_sock client))))
  end.

Lemma written_app output c c' bs : output c' = output c ++ bs → written output c c' = bs.
Proof. intros H. unfold written. by rewrite H, drop_app_length. Qed.

(** A verdict that reaches the sender is what its poll returns. *)
Lemma poll_hears uninit pad c client m segs : cn_tcp_client c = Some client →
  tc_is_connected client = true → input_is client [] → wf_padding pad → wf_message m →
  cm_magic m = CONTROL_MAGIC → msg_is m COMPLETE_ACK || msg_is m INCOMPLETE_NACK = true →
  concat segs = message_image pad m →
  (sdr_send_poll uninit (hears segs c)).1 = Returned (if msg_is m COMPLETE_ACK then 0 else -1).
Proof.
  intros Hc Hcon (pre & Hin & Hpre) Hpad Hwf Hmagic Hx Hseg. unfold sdr_send_poll, hears. rewrite Hc.
  cbn [cn_with_client cn_tcp_client tc_is_connected]. rewrite Hcon. cbn [negb].
  set (client' := mkClient _ _ _).
  destruct (wait_next client' uninit (λ m, msg_is m COMPLETE_ACK || msg_is m INCOMPLETE_NACK) pad m segs [])
    as (client2 & -> & _); [done..| |by destruct (msg_is m COMPLETE_ACK)].
  exists pre. cbn in Hin |- *. by rewrite Hin, !app_nil_r.
Qed.

(** ** A session *)

(** Both processes, their connections, and what surrounds them. *)
Record Session : Type := mkSession {
  sn_rx_process : Process; sn_rx_conn : SDRConnection; sn_server : TCPControlServer;
  sn_channels : Z → channel_env; sn_rx_pad : Padding; sn_rx_uninit : ControlMessage;
  sn_tx_process : Process; sn_tx_conn : SDRConnection; sn_client : TCPControlClient;
  sn_calls : data_calls; sn_tx_pad : Padding; sn_tx_uninit : ControlMessage;
  sn_length : Z; sn_data : list Z; sn_buffer : Z; sn_mem : gmap Z (list Z)
}.

Section Session.
Context (x : Session).

Definition sn_slot : Z := ps_next_msg_id (sn_rx_process x) mod 1024.

(** The messages of the session, in order. *)
Definition sn_offer : ControlMessage :=
  message_with zero_message OFFER (cx_connection_id (cn_connection_ctx (sn_tx_conn x)))
    (desired_params (cx_params (cn_connection_ctx (sn_tx_conn x))) (sn_length x)).
Definition sn_params : ConnectionParams :=
  cts_params (sn_rx_process x) (sn_rx_conn x) sn_offer (sn_length x).
Definition sn_cts : ControlMessage :=
  message_with (sn_rx_uninit x) CTS (cx_connection_id (cn_connection_ctx (sn_rx_conn x))) sn_params.
Definition sn_accept : ControlMessage :=
  message_with zero_message ACCEPT (cx_connection_id (cn_connection_ctx (sn_rx_conn x))) sn_params.
Definition sn_verdict (complete : bool) : ControlMessage :=
  message_with (sn_rx_uninit x) (if complete then COMPLETE_ACK else INCOMPLETE_NACK)
    (cx_connection_id (cn_connection_ctx (sn_rx_conn x))) zero_params.

(** Two connected sides with values in the ranges of their types, a free slot and
    counters in step, room for the message, and calls that succeed. *)
Record session_ok : Prop := {
  sno_receiver : cn_is_receiver (sn_rx_conn x) = true;
  sno_server : cn_tcp_server (sn_rx_conn x) = Some (sn_server x);
  sno_server_fd : 0 ≤ ts_client_fd (sn_server x);
  sno_server_send : sk_send_results (ts_sock (sn_server x)) = [];
  sno_rx_id : is_uint 4 (cx_connection_id (cn_connection_ctx (sn_rx_conn x)));
  sno_rx_params : wf_params (cx_params (cn_connection_ctx (sn_rx_conn x)));
  sno_rx_ip : nth 15 (prm_udp_server_ip (cx_params (cn_connection_ctx (sn_rx_conn x)))) 1 = 0;
  sno_generation : 0 ≤ ps_receiver_generation_counter (sn_rx_process x) < 4294967296;
  sno_in_step : cx_generation_counters (cn_connection_ctx (sn_rx_conn x)) !!! Z.to_nat sn_slot =
    ps_receiver_generation_counter (sn_rx_process x);
  sno_slot : slot_free (cn_connection_ctx (sn_rx_conn x)) sn_slot
    (ps_receiver_generation_counter (sn_rx_process x)) = true;
  sno_channels : cn_udp_receiver (sn_rx_conn x) = None → channels_open (sn_channels x);
  sno_rx_wf : wf_rx (mkRx (cn_connection_ctx (sn_rx_conn x)) (sn_mem x));
  sno_buffer : ∃ m, sn_mem x !! sn_buffer x = Some m ∧ sn_length x ≤ Z.of_nat (List.length m);
  sno_private : ∀ s mc, cx_msg_table (cn_connection_ctx (sn_rx_conn x)) !! s = Some mc →
    mc_buffer mc ≠ BufUser (sn_buffer x);
  sno_sender : cn_is_receiver (sn_tx_conn x) = false;
  sno_client : cn_tcp_client (sn_tx_conn x) = Some (sn_client x);
  sno_connected : tc_is_connected (sn_client x) = true;
  sno_client_send : sk_send_results (tc_sock (sn_client x)) = [];
  sno_auto : cx_auto_send_data (cn_connection_ctx (sn_tx_conn x)) = true;
  sno_tx_id : is_uint 4 (cx_connection_id (cn_connection_ctx (sn_tx_conn x)));
  sno_tx_params : wf_params (cx_params (cn_connection_ctx (sn_tx_conn x)));
  sno_msg_id : ps_next_msg_id (sn_tx_process x) mod 1024 = sn_slot;
  sno_socket : 0 ≤ dc_socket (sn_calls x) ∧ 0 < dc_inet_pton (sn_calls x);
  sno_pads : wf_padding (sn_rx_pad x) ∧ wf_padding (sn_tx_pad x);
  sno_uninit : wf_message (sn_rx_uninit x);
  sno_length : receivable (sn_length x) ∧ sn_length x ≤ Z.of_nat (List.length (sn_data x));
  sno_fits : total_packets_of sn_params (sn_length x) ≤ 262144
}.

(** Each side reads what the other writes while the session opens: the receiver
    OFFER and ACCEPT, the sender the CTS. *)
Definition connected : Prop :=
  (∃ segs1 segs2 rest, concat segs1 = message_image (sn_tx_pad x) sn_offer ∧
     concat segs2 = message_image (sn_tx_pad x) sn_accept ∧
     sk_in (ts_sock (sn_server x)) = (Data <$> segs1) ++ (Data <$> segs2) ++ rest) ∧
  ∃ segs, concat segs = message_image (sn_rx_pad x) sn_cts ∧
    sk_in (tc_sock (sn_client x)) = Data <$> segs.

Context (Hok : session_ok).

Lemma sn_offer_wf : wf_message sn_offer.
Proof.
  destruct (sno_length Hok) as [Hl _]. unfold receivable in Hl.
  apply message_with_wf; [apply zero_message_wf|apply Hok|]. apply desired_params_wf; [apply Hok|lia].
Qed.

Lemma sn_params_wf : wf_params sn_params.
Proof. apply cts_params_wf; try apply Hok. apply sn_offer_wf. Qed.

Lemma sn_cts_wf : wf_message sn_cts.
Proof. apply message_with_wf; [apply Hok..|apply sn_params_wf]. Qed.

Lemma sn_accept_wf : wf_message sn_accept.
Proof. apply message_with_wf; [apply zero_message_wf|apply Hok|apply sn_params_wf]. Qed.

Lemma sn_verdict_wf complete : wf_message (sn_verdict complete).
Proof. apply message_with_wf; [apply Hok..|apply zero_params_wf]. Qed.

Lemma sn_slot_range : 0 ≤ sn_slot < 1024.
Proof. apply Z.mod_pos_bound. lia. Qed.

Lemma sn_sendable : sendable sn_params (sn_data x) (sn_length x).
Proof.
  destruct (sno_length Hok) as [Hl Hd].
  destruct (cts_params_sizes (sn_rx_process x) (sn_rx_conn x) sn_offer (sn_length x)) as [H1 [H2 _]];
    [apply Hok|apply sn_offer_wf|exact Hl|].
  unfold receivable in Hl. constructor; [apply sn_params_wf|exact H1|exact H2|lia|lia].
Qed.

(** The datagrams the sender's socket accepts. *)
Definition sn_wire : list (Z * list Z) :=
  wire_of sn_params sn_slot (sn_data x) (sn_length x) <$>
    List.filter (λ i, dc_sendto (sn_calls x) i >? 0) (zrange 0 (total_packets_of sn_params (sn_length x))).
End Session.

Section Opened.
Context (x : Session) (Hok : session_ok x).

(** The connections after both posts. *)
Record opened (cr : SDRConnection) (h : SDRRecvHandle) (server : TCPControlServer)
    (ct : SDRConnection) (client : TCPControlClient) : Prop := {
  op_server : cn_tcp_server cr = Some server;
  op_server_fd : 0 ≤ ts_client_fd server;
  op_server_send : sk_send_results (ts_sock server) = [];
  op_server_out : sk_out (ts_sock server) =
    sk_out (ts_sock (sn_server x)) ++ message_image (sn_rx_pad x) (sn_cts x);
  op_receiver : cn_is_receiver cr = true;
  op_id : cx_connection_id (cn_connection_ctx cr) = cx_connection_id (cn_connection_ctx (sn_rx_conn x));
  op_ready : ready (sn_params x) (sn_slot x) (sn_buffer x) (sn_length x) (mkRx (cn_connection_ctx cr) (sn_mem x));
  op_handle : rh_msg_id h = sn_slot x ∧ rh_msg_ctx h = sn_slot x;
  op_client : cn_tcp_client ct = Some client;
  op_connected : tc_is_connected client = true;
  op_client_out : sk_out (tc_sock client) = sk_out (tc_sock (sn_client x)) ++
    message_image (sn_tx_pad x) (sn_offer x) ++ message_image (sn_tx_pad x) (sn_accept x);
  op_input : input_is client []
}.

Lemma session_opens : connected x → ∃ psr cr h server pst ct hs client,
  sdr_recv_post (sn_rx_pad x) (sn_rx_uninit x) (sn_channels x) (sn_rx_process x) (sn_rx_conn x) false
    (BufUser (sn_buffer x)) (sn_length x) = Some (Returned 0, psr, cr, Some h) ∧
  sdr_send_post (sn_tx_pad x) (sn_tx_uninit x) (sn_calls x) (sn_tx_process x) (sn_tx_conn x) false
    (sn_data x) (sn_length x) = Some (Returned 0, pst, ct, Some hs, sn_wire x) ∧
  sh_msg_id hs = sn_slot x ∧ opened cr h server ct client.
Proof.
  intros [(segs1 & segs2 & rest & Hs1 & Hs2 & Hin) (segs & Hs & Hin')].
  pose proof (sn_sendable x Hok) as Hsend. destruct (sno_length x Hok) as [Hl _]. unfold receivable in Hl.
  destruct (recv_post_succeeds (sn_rx_pad x) (sn_rx_uninit x) (sn_channels x) (sn_rx_process x) (sn_rx_conn x)
    (sn_buffer x) (sn_length x) (sn_server x) (sn_tx_pad x) (sn_offer x) (sn_accept x) segs1 segs2 rest)
    as (psr & c1 & c2 & cr & h & server & Hsetup & Hc1 & Hc2 & Hpost & Hsrv & Hfd & Hres & Hout & Hrx & Hid);
    try apply Hok; try done; [lia|exact (sn_cts_wf x Hok)|exact (sn_offer_wf x Hok)|exact (sn_accept_wf x Hok)|].
  destruct (send_post_succeeds (sn_tx_pad x) (sn_tx_uninit x) (sn_calls x) (sn_tx_process x) (sn_tx_conn x)
    (sn_data x) (sn_length x) (sn_client x) (sn_cts x) (sn_rx_pad x) segs [])
    as (pst & ct & hs & client & Hsp & Hcl & Hcon & Hcout & Hcin & Hmid & _);
    try apply Hok; try done; [exact (sn_offer_wf x Hok)|exact (sn_cts_wf x Hok)|by rewrite app_nil_r|].
  rewrite (sno_msg_id x Hok) in Hsp, Hmid.
  exists psr, cr, h, server, pst, ct, hs, client. split; [exact Hpost|]. split; [exact Hsp|]. split; [done|].
  destruct (sno_buffer x Hok) as (m & Hm & Hlm).
  destruct (recv_post_setup_armed _ _ _ _ _ _ _ _ _ _ _ _ Hsetup) as [[[Hh Hctx] _ _ _] _].
  destruct (posted_receive_ready (sn_rx_pad x) (sn_rx_uninit x) (sn_channels x) (sn_rx_process x) c1 (sn_buffer x) m
    (sn_mem x) (sn_length x) (sn_offer x) psr c2 h) as (Hready & _ & _); rewrite ?Hc1; try apply Hok; try done;
    [apply (sn_offer_wf x Hok)|rewrite Hh; apply Hok|].
  constructor; try done.
  - rewrite Hc2. unfold sn_params, cts_params in *. rewrite Hc1, Hh in Hready. exact Hready.
  - rewrite Hctx, Hh. by split.
Qed.

(** The receiver's connection with the table as a transfer left it. *)
Definition after_transfer (cr : SDRConnection) (st : RxState) : SDRConnection :=
  cn_with_ctx cr (cx_with_table (cn_connection_ctx cr) (cx_msg_table (rx_cx st))).

(** What the opening exchange put on the wire. *)
Lemma opened_written cr h server ct client : opened cr h server ct client →
  written receiver_output (sn_rx_conn x) cr = message_image (sn_rx_pad x) (sn_cts x) ∧
  written sender_output (sn_tx_conn x) ct =
    message_image (sn_tx_pad x) (sn_offer x) ++ message_image (sn_tx_pad x) (sn_accept x).
Proof.
  intros [Hs _ _ Ho _ _ _ _ Hc _ Hco _]. split; apply written_app; unfold receiver_output, sender_output.
  - by rewrite Hs, (sno_server x Hok).
  - by rewrite Hc, (sno_client x Hok).
Qed.

(** The verdict [sdr_recv_complete] writes over a transfer in order, and what the
    sender makes of the bytes. *)
Lemma verdict_agrees cr h server ct client st : opened cr h server ct client →
  shared_ok (sn_params x) (sn_slot x) (sn_buffer x) (sn_length x) (sn_data x) st →
  ∃ (complete : bool) cr' fb,
    sdr_recv_complete (sn_rx_pad x) (sn_rx_uninit x) (after_transfer cr st) h = Some (0, cr') ∧
    written receiver_output (after_transfer cr st) cr' = message_image (sn_rx_pad x) (sn_verdict x complete) ∧
    (∀ segs, concat segs = written receiver_output (after_transfer cr st) cr' →
       (sdr_send_poll (sn_tx_uninit x) (hears segs ct)).1 = Returned (if complete then 0 else -1)) ∧
    slot_frontend st (sn_slot x) = Some fb ∧
    (complete = true ↔ ∀ k, 0 ≤ k < fb_total_chunks fb → marked fb k = true) ∧
    (complete = true → ∃ m, rx_mem st !! sn_buffer x = Some m ∧
       take (Z.to_nat (sn_length x)) m = take (Z.to_nat (sn_length x)) (sn_data x)).
Proof.
  intros Hop Hsh. pose proof (sn_sendable x Hok) as Hsend.
  destruct (so_slot _ _ _ _ _ _ Hsh) as (mc & b & fb & Hmc & Ha & _ & _ & _ & Hprm & Hwt & Ht & _).
  destruct (op_handle _ _ _ _ _ Hop) as [Hh Hctx].
  destruct (recv_complete_eq (sn_rx_pad x) (sn_rx_uninit x) (after_transfer cr st) h mc b fb server)
    as (cr' & server' & complete & Hc & Hs' & Hout & Hiff & _); try apply Hop.
  - by rewrite Hh.
  - by rewrite Hctx, Hh.
  - rewrite Hh. apply sn_slot_range.
  - exact Hwt.
  - apply num_chunks_range; [apply Hwt|done|]. split; [done|]. rewrite Ht.
    pose proof (sd_length _ _ _ Hsend). pose proof (sd_mtu _ _ _ Hsend). apply Z.div_str_pos. lia.
  - intros t. cbn. rewrite (op_id _ _ _ _ _ Hop). apply message_with_wf; [apply Hok..|apply zero_params_wf].
  - cbn in Hout. rewrite (op_id _ _ _ _ _ Hop) in Hout.
    assert (written receiver_output (after_transfer cr st) cr' =
      message_image (sn_rx_pad x) (sn_verdict x complete)) as Hw.
    { apply written_app. unfold receiver_output. cbn. by rewrite Hs', (op_server _ _ _ _ _ Hop). }
    assert (complete = true ↔ ∀ k, 0 ≤ k < fb_total_chunks fb → marked fb k = true) as Hall.
    { rewrite (proj2 (wft_chunks _ _ _ Hwt)), Hiff. split; [|by right]. intros [?|?]; [congruence|done]. }
    exists complete, cr', fb. split; [done|]. split; [done|]. split; [|split; [by eapply slot_frontend_eq|split; [done|]]].
    + intros segs Hseg. rewrite Hw in Hseg.
      rewrite (poll_hears _ (sn_rx_pad x) ct client (sn_verdict x complete) segs); try done; try apply Hop;
        [by destruct complete|apply Hok|by apply sn_verdict_wf|by destruct complete].
    + intros Hcomplete. destruct (completed_count_all fb (wft_fb _ _ _ Hwt)) as (k & Hk & _ & Hcount).
      destruct (counted_message _ _ _ _ _ _ mc fb k Hsend Hsh Hmc (wft_frontend _ _ _ Hwt) Hk) as (m & Hm & _ & Htake);
        [by apply Hcount, Hall|by exists m].
Qed.
End Opened.

(** When the socket accepts every packet and the arrivals are what it accepted, each
    packet is among them and none is a forgery. *)
Lemma wire_delivered x ds : session_ok x → (∀ i, 0 < dc_sendto (sn_calls x) i) →
  (∀ d, d ∈ ds ↔ d ∈ snd <$> sn_wire x) →
  (∀ i, 0 ≤ i < total_packets_of (sn_params x) (sn_length x) →
    packet_datagram (built_packet (sn_params x) (sn_slot x) (sn_data x) (sn_length x) i) ∈ ds) ∧
  Forall (honest (sn_params x) (sn_slot x) (sn_length x) (sn_data x)) ds.
Proof.
  intros Hok Haccept Hds. pose proof (sn_sendable x Hok) as Hsend. pose proof (sn_slot_range x) as Hslot.
  pose proof (sno_fits x Hok) as Hfits. split.
  - intros i Hi. apply Hds. unfold sn_wire. apply list_elem_of_fmap.
    exists (wire_of (sn_params x) (sn_slot x) (sn_data x) (sn_length x) i). split; [done|].
    apply list_elem_of_fmap. exists i. split; [done|]. apply list_elem_of_In, List.filter_In.
    split; [by apply list_elem_of_In, elem_of_zrange|]. apply Z.gtb_lt, Haccept.
  - apply Forall_forall. intros d Hd. apply Hds, list_elem_of_fmap in Hd as (y & -> & Hy).
    apply list_elem_of_fmap in Hy as (i & -> & Hi%list_elem_of_In). apply List.filter_In in Hi as [Hi _].
    apply list_elem_of_In, elem_of_zrange in Hi. by apply built_honest.
Qed.

(** ** Properties *)

(** C1: Success means delivery: two sides that open a session - each reading what
    the other writes over the control connection - agree on slot, generation and
    parameters; and however the threads of the receiver and a network without
    forgeries interleave, neither a worker nor the poller does anything undefined,
    and [sdr_recv_complete] then writes a verdict - COMPLETE_ACK exactly when every
    chunk is marked complete, else INCOMPLETE_NACK.  When TCP carries the bytes it
    wrote, however cut, to the sender, [sdr_send_poll] returns 0 on the first and
    -1 on the second, and 0 only if the receiver's buffer holds exactly the message
    that was posted. *)
Theorem success_means_delivery x : session_ok x → connected x →
  ∃ psr cr h pst ct hs,
    sdr_recv_post (sn_rx_pad x) (sn_rx_uninit x) (sn_channels x) (sn_rx_process x) (sn_rx_conn x) false
      (BufUser (sn_buffer x)) (sn_length x) = Some (Returned 0, psr, cr, Some h) ∧
    sdr_send_post (sn_tx_pad x) (sn_tx_uninit x) (sn_calls x) (sn_tx_process x) (sn_tx_conn x) false
      (sn_data x) (sn_length x) = Some (Returned 0, pst, ct, Some hs, sn_wire x) ∧
    written receiver_output (sn_rx_conn x) cr = message_image (sn_rx_pad x) (sn_cts x) ∧
    written sender_output (sn_tx_conn x) ct =
      message_image (sn_tx_pad x) (sn_offer x) ++ message_image (sn_tx_pad x) (sn_accept x) ∧
    rh_msg_id h = sh_msg_id hs ∧
    ∀ net n s, (∀ d, net d → honest (sn_params x) (sn_slot x) (sn_length x) (sn_data x) d) →
      rtc (tr_step net false (sn_slot x))
        (mkTransfer (mkRx (cn_connection_ctx cr) (sn_mem x)) (replicate n WIdle)) s →
      ¬ undefined (sn_slot x) s ∧
      ∃ (complete : bool) cr' fb,
        sdr_recv_complete (sn_rx_pad x) (sn_rx_uninit x) (after_transfer cr (tr_rx s)) h = Some (0, cr') ∧
        written receiver_output (after_transfer cr (tr_rx s)) cr' =
          message_image (sn_rx_pad x) (sn_verdict x complete) ∧
        (∀ segs, concat segs = written receiver_output (after_transfer cr (tr_rx s)) cr' →
           (sdr_send_poll (sn_tx_uninit x) (hears segs ct)).1 = Returned (if complete then 0 else -1)) ∧
        slot_frontend (tr_rx s) (sn_slot x) = Some fb ∧
        (complete = true ↔ ∀ k, 0 ≤ k < fb_total_chunks fb → marked fb k = true) ∧
        (complete = true → ∃ m, rx_mem (tr_rx s) !! sn_buffer x = Some m ∧
           take (Z.to_nat (sn_length x)) m = take (Z.to_nat (sn_length x)) (sn_data x)).
Proof.
  intros Hok Hconn.
  destruct (session_opens x Hok Hconn) as (psr & cr & h & server & pst & ct & hs & client & Hr & Hs & Hid & Hop).
  pose proof (sn_sendable x Hok) as Hsend. pose proof (sn_slot_range x) as Hslot.
  destruct (opened_written x Hok cr h server ct client Hop) as [Hwr Hws].
  exists psr, cr, h, pst, ct, hs. split; [exact Hr|]. split; [exact Hs|]. split; [exact Hwr|]. split; [exact Hws|].
  split; [by rewrite Hid; apply (op_handle _ _ _ _ _ _ Hop)|]. intros net n s Hnet Hsteps.
  assert (transfer_ok (sn_params x) (sn_slot x) (sn_buffer x) (sn_length x) (sn_data x) s) as Htr.
  { eapply tr_steps_ok; [exact Hsend|apply Hok|exact Hnet| |exact Hsteps].
    split; [by apply ready_shared_ok, Hop|]. intros i pc [-> _]%lookup_replicate. done. }
  split; [|by apply (verdict_agrees x Hok cr h server ct client), Htr].
  eapply transfer_defined; [exact Hsend|apply Hok|exact Htr].
Qed.

(** C2: A session over a network that delivers succeeds: when the sender's socket
    accepts every packet and each arrives at least once, in any order and among
    repetitions, then after the next poll of the chunk bitmap [sdr_recv_complete]
    writes COMPLETE_ACK, the sender's [sdr_send_poll], when TCP has carried those
    bytes to it, returns 0, and the buffer holds the message. *)
Theorem session_delivers x ds : session_ok x → connected x →
  (∀ i, 0 < dc_sendto (sn_calls x) i) →
  (∀ d, d ∈ ds ↔ d ∈ snd <$> sn_wire x) →
  ∃ psr cr h pst ct hs st st' cr' m,
    sdr_recv_post (sn_rx_pad x) (sn_rx_uninit x) (sn_channels x) (sn_rx_process x) (sn_rx_conn x) false
      (BufUser (sn_buffer x)) (sn_length x) = Some (Returned 0, psr, cr, Some h) ∧
    sdr_send_post (sn_tx_pad x) (sn_tx_uninit x) (sn_calls x) (sn_tx_process x) (sn_tx_conn x) false
      (sn_data x) (sn_length x) = Some (Returned 0, pst, ct, Some hs, sn_wire x) ∧
    receiver_loop (mkRx (cn_connection_ctx cr) (sn_mem x)) (RxDatagram <$> ds) = Some st ∧
    poll_slot st (sn_slot x) = Some st' ∧
    sdr_recv_complete (sn_rx_pad x) (sn_rx_uninit x) (after_transfer cr st') h = Some (0, cr') ∧
    written receiver_output (after_transfer cr st') cr' = message_image (sn_rx_pad x) (sn_verdict x true) ∧
    (∀ segs, concat segs = written receiver_output (after_transfer cr st') cr' →
       (sdr_send_poll (sn_tx_uninit x) (hears segs ct)).1 = Returned 0) ∧
    rx_mem st' !! sn_buffer x = Some m ∧
    take (Z.to_nat (sn_length x)) m = take (Z.to_nat (sn_length x)) (sn_data x).
Proof.
  intros Hok Hconn Haccept Hds.
  destruct (session_opens x Hok Hconn) as (psr & cr & h & server & pst & ct & hs & client & Hr & Hs & Hid & Hop).
  pose proof (sn_sendable x Hok) as Hsend. pose proof (sn_slot_range x) as Hslot. pose proof (sno_fits x Hok) as Hfits.
  pose proof (ready_shared_ok _ _ _ _ (sn_data x) _ (op_ready _ _ _ _ _ _ Hop)) as Hsh0.
  destruct (wire_delivered x ds Hok Haccept Hds) as [Hall Hh].
  destruct (all_delivered (sn_params x) (sn_slot x) (sn_buffer x) (sn_length x) (sn_data x) _ ds Hsend Hslot Hfits
    Hsh0 Hh Hall) as (st & mc & b & fb & fb' & m & Hl & Hsh & Hmc & Hb & Hf & Hp & Hwt & _ & Hm & Hmem & Htake).
  pose proof (shared_ok_polled _ _ _ _ _ st mc b fb' Hsend Hsh Hmc Hb Hwt) as Hsh'.
  destruct (verdict_agrees x Hok cr h server ct client _ Hop Hsh')
    as (complete & cr' & fb2 & Hc & Hw & Hpoll & Hfb & Hiff & _).
  erewrite slot_frontend_eq in Hfb by (done || apply lookup_insert_eq). injection Hfb as <-.
  rewrite (proj2 Hiff Hm) in *.
  exists psr, cr, h, pst, ct, hs, st, (rx_set_slot st (sn_slot x) (mc_set_frontend mc fb')), cr', m.
  split; [exact Hr|]. split; [exact Hs|]. split; [exact Hl|]. split.
  { unfold poll_slot. rewrite Hmc. cbn [mbind option_bind]. rewrite Hf, Hb. cbn [mbind option_bind]. by rewrite Hp. }
  by split_and!.
Qed.

(** Twelve bytes from a fresh process to another, in packets of five. *)
Definition example_session_conn : SDRConnection :=
  sdr_set_params (mkConnection new_connection_context None None None true) example_cts_params.

Definition example_session_with (rx tx : list recv_event) : Session :=
  let server := example_server rx in
  let client := mkClient 5 true (mkSocket tx [] []) in
  mkSession new_process (cn_with_server example_session_conn server) server example_channels example_padding zero_message
    new_process (mkConnection new_connection_context None None (Some client) false) client
    (mkDataCalls 6 1 (λ _, 1)) example_padding zero_message 12 example_data 0 {[0 := replicate 12 0]}.

(** What each side reads is what the other writes. *)
Definition example_session : Session :=
  let x := example_session_with [] [] in
  let image := message_image example_padding in
  example_session_with [Data (image (sn_offer x)); Data (image (sn_accept x))]
    [Data (image (sn_cts x))].

Lemma example_session_ok : session_ok example_session.
Proof.
  constructor; try reflexivity.
  - vm_compute. congruence.
  - vm_compute. split; congruence.
  - exact example_cts_params_wf.
  - vm_compute. split; congruence.
  - intros _ i port Hi. split_and!; [cbn; lia|reflexivity..].
  - apply new_connection_wf_rx.
  - exists (replicate 12 0). split; [reflexivity|vm_compute; congruence].
  - intros s mc. cbn. by rewrite lookup_empty.
  - vm_compute. split; congruence.
  - exact zero_params_wf.
  - vm_compute. split; congruence.
  - split; exact example_padding_wf.
  - exact zero_message_wf.
  - split; [unfold receivable; cbn; lia|vm_compute; congruence].
  - vm_compute. congruence.
Qed.

Lemma example_session_connected : connected example_session.
Proof.
  split.
  - exists [message_image example_padding (sn_offer example_session)],
      [message_image example_padding (sn_accept example_session)], [].
    split_and!; [apply app_nil_r..|reflexivity].
  - exists [message_image example_padding (sn_cts example_session)]. split; [apply app_nil_r|reflexivity].
Qed.

(** Before anything has arrived: there is a verdict, and the sender hears it. *)
Lemma success_means_delivery_witness :
  ∃ cr h ct cr' (complete : bool),
    let after := after_transfer cr (mkRx (cn_connection_ctx cr) (sn_mem example_session)) in
    sdr_recv_complete example_padding zero_message after h = Some (0, cr') ∧
    written receiver_output after cr' = message_image example_padding (sn_verdict example_session complete) ∧
    (sdr_send_poll zero_message (hears [written receiver_output after cr'] ct)).1 =
      Returned (if complete then 0 else -1).
Proof.
  destruct (success_means_delivery example_session example_session_ok example_session_connected)
    as (psr & cr & h & pst & ct & hs & _ & _ & _ & _ & _ & Hrun).
  destruct (Hrun (λ _, False) 1%nat (mkTransfer (mkRx (cn_connection_ctx cr) (sn_mem example_session)) (replicate 1 WIdle)))
    as (_ & complete & cr' & fb & Hc & Hw & Hpoll & _).
  - intros d [].
  - apply rtc_refl.
  - exists cr, h, ct, cr', complete. split; [exact Hc|]. split; [exact Hw|]. apply Hpoll, app_nil_r.
Defined.

(** The three packets arrive in another order, one of them twice. *)
Lemma session_delivers_witness :
  ∃ cr h ct st' cr' m,
    sdr_recv_complete example_padding zero_message (after_transfer cr st') h = Some (0, cr') ∧
    (sdr_send_poll zero_message (hears [written receiver_output (after_transfer cr st') cr'] ct)).1 = Returned 0 ∧
    rx_mem st' !! 0 = Some m ∧ take 12 m = example_data.
Proof.
  set (w := snd <$> sn_wire example_session).
  destruct (session_delivers example_session (rev w ++ w) example_session_ok example_session_connected)
    as (psr & cr & h & pst & ct & hs & st & st' & cr' & m & _ & _ & _ & _ & Hc & _ & Hpoll & Hm & Htake).
  - intros i. reflexivity.
  - intros d. rewrite elem_of_app, list_elem_of_In, <-in_rev, <-list_elem_of_In. tauto.
  - exists cr, h, ct, st', cr', m. split; [exact Hc|]. split; [|split; [exact Hm|exact Htake]].
    apply Hpoll, app_nil_r.
Defined.
