(* ===== verification/Erasure.v ===== *)
(** * Erasure coding: layout and encoding (reliability/ec.h, reliability/ec.cpp)

    How sender and receiver cut a message into chunks and stripes, and how
    [ECSender::encode_and_send] fills the buffer it sends.  The coder is the
    ISA-L library: its functions are the fields of [IsaL], an argument of the
    definitions, and what its documentation promises is [isal_ok]. *)

From S2P Require Import Prelude Bytes Packet Control Connection Api Resend.

(** ** Data *)

(** [struct ECConfig]. *)
Record ECConfig : Set := mkECConfig {
  ec_k_data : Z; ec_m_parity : Z; ec_fallback_timeout_ms : Z;
  ec_data_bytes : Z; ec_max_retries : Z
}.

(** [struct ECStats]. *)
Record ECStats : Set := mkECStats {
  es_parity_sent : Z; es_decode_success : Z; es_fallback_sr : Z
}.

(** The functions of ISA-L the code calls; pointers to arrays are the lists from
    there on.  [gf_invert_matrix] tells whether it succeeded and what its input
    and its output arrays hold afterwards. *)
Record IsaL : Type := mkIsaL {
  gf_gen_rs_matrix : Z → Z → list Z;
  ec_init_tables : Z → Z → list Z → list Z;
  ec_encode_data : Z → Z → Z → list Z → list (list Z) → list (list Z);
  gf_invert_matrix : list Z → Z → bool * list Z * list Z
}.

(** ** Layout *)

(** The MTU and the packets per chunk both ends start from. *)
Definition ec_mtu (params : ConnectionParams) : Z :=
  let mtu := or_else (prm_mtu_bytes params) MAX_PAYLOAD_SIZE in
  if mtu >? MAX_PAYLOAD_SIZE then MAX_PAYLOAD_SIZE else mtu.

Definition ec_ppc (params : ConnectionParams) : Z := or_else (prm_packets_per_chunk params) 32.

Record Layout : Set := mkLayout {
  ly_chunk_bytes : Z;
  ly_k : Z;
  ly_m : Z;
  ly_data_bytes : Z;
  ly_data_chunks : Z;
  ly_stripes : Z;
  ly_parity_chunks : Z
}.

Definition ec_layout (params : ConnectionParams) (cfg : ECConfig) (length : Z) : Layout :=
  let chunk_bytes := or_else (ec_mtu params *u32 ec_ppc params) MAX_PAYLOAD_SIZE in
  let data_bytes := or_else (ec_data_bytes cfg) length in
  let k := or_else (ec_k_data cfg) 4 in
  let m := or_else (ec_m_parity cfg) 2 in
  let data_chunks := u32 (u64 (data_bytes + chunk_bytes - 1) / chunk_bytes) in
  let stripes := u32 (data_chunks + k - 1) / k in
  mkLayout chunk_bytes k m data_bytes data_chunks stripes (stripes *u32 m).

(** [total_bytes], [required_length]. *)
Definition ly_total_bytes (ly : Layout) : Z :=
  (ly_data_chunks ly +u32 ly_parity_chunks ly) *u64 ly_chunk_bytes ly.

(** ** Encoding *)

(** Where the coder reads the [k] data chunks of stripe [s] and writes its [m]
    parity chunks: 32-bit offsets into the storage. *)
Definition data_offset (ly : Layout) (s i : Z) : Z :=
  (s *u32 ly_k ly +u32 i) *u32 ly_chunk_bytes ly.

Definition parity_offset (ly : Layout) (s p : Z) : Z :=
  (ly_data_chunks ly +u32 s *u32 ly_m ly +u32 p) *u32 ly_chunk_bytes ly.

Definition stripe_data (ly : Layout) (s : Z) : Z :=
  Z.min (ly_k ly) (ly_data_chunks ly -u32 s *u32 ly_k ly).

(** Source [i] of a stripe; beyond the data the pointer is the storage itself. *)
Definition source_offset (ly : Layout) (s i : Z) : Z :=
  if i <? stripe_data ly s then data_offset ly s i else 0.

(** Chunks written one after the other. *)
Definition write_chunks (storage : list Z) (writes : list (Z * list Z)) : option (list Z) :=
  foldl_opt (λ m w, mem_write m w.1 w.2) storage writes.

Definition encode_stripe (isal : IsaL) (ly : Layout) (gftbl : list Z) (storage : list Z) (s : Z)
    : option (list Z) :=
  sources ← mapM (λ i, mem_read storage (source_offset ly s i) (ly_chunk_bytes ly)) (zrange 0 (ly_k ly));
  write_chunks storage
    (zip (parity_offset ly s <$> zrange 0 (ly_m ly))
         (ec_encode_data isal (ly_chunk_bytes ly) (ly_k ly) (ly_m ly) gftbl sources)).

(** [send_storage_] after the stripes are encoded, from the [data] at [buffer];
    [None] also when more is copied than [buffer] holds. *)
Definition encode_storage (isal : IsaL) (ly : Layout) (data : list Z) : option (list Z) :=
  copied ← mem_read data 0 (Z.min (ly_data_bytes ly) (ly_total_bytes ly));
  storage ← mem_write (replicate (Z.to_nat (ly_total_bytes ly)) 0) 0 copied;
  let encode_matrix := gf_gen_rs_matrix isal (ly_k ly + ly_m ly) (ly_k ly) in
  let gftbl := ec_init_tables isal (ly_k ly) (ly_m ly) encode_matrix in
  foldl_opt (encode_stripe isal ly gftbl) storage (zrange 0 (ly_stripes ly)).

(** ** What the library promises *)

(** Entry [x] of parity row [r]: the sum over the field of the products with the
    coefficients of the row. *)
Definition gf_dot (gf_mul : Z → Z → Z) (k : Z) (coefficients : list Z) (sources : list (list Z)) (x : Z) : Z :=
  foldl (λ acc j, Z.lxor acc
      (gf_mul (coefficients !!! Z.to_nat j) (sources !!! Z.to_nat j !!! Z.to_nat x))) 0 (zrange 0 k).

(** The documented behaviour: the generator matrix begins with the identity, and
    encoding with the tables of a matrix multiplies with its first [rows] rows. *)
Record isal_ok (isal : IsaL) (gf_mul : Z → Z → Z) : Prop := {
  io_mul_zero : ∀ x, gf_mul 0 x = 0;
  io_mul_one : ∀ x, gf_mul 1 x = x;
  io_matrix : ∀ n k, 0 < k < n → n ≤ 255 →
    Z.of_nat (length (gf_gen_rs_matrix isal n k)) = n * k;
  io_identity : ∀ n k i j, 0 < k < n → n ≤ 255 → 0 ≤ i < k → 0 ≤ j < k →
    gf_gen_rs_matrix isal n k !! Z.to_nat (i * k + j) = Some (if i =? j then 1 else 0);
  io_encode : ∀ len k rows a sources, 0 ≤ len → 0 < k → 0 ≤ rows →
    rows * k ≤ Z.of_nat (length a) → Z.of_nat (length sources) = k →
    Forall (λ s, Z.of_nat (length s) = len) sources →
    ec_encode_data isal len k rows (ec_init_tables isal k rows a) sources =
      (λ r, (λ x, gf_dot gf_mul k (drop (Z.to_nat (r * k)) a) sources x) <$> zrange 0 len)
        <$> zrange 0 rows
}.

(** The shape of what the coder writes. *)
Definition coder_fits (isal : IsaL) : Prop := ∀ len k rows gftbl sources, 0 ≤ len → 0 ≤ rows →
  Z.of_nat (length (ec_encode_data isal len k rows gftbl sources)) = rows ∧
  Forall (λ s, Z.of_nat (length s) = len) (ec_encode_data isal len k rows gftbl sources).

(** An inversion leaves its input array with the size it had. *)
Definition inverse_fits (isal : IsaL) : Prop := ∀ a n, 0 < n → Z.of_nat (length a) = n * n →
  length (gf_invert_matrix isal a n).1.2 = length a.

(** ** Lemmas: reading and writing chunks *)

Lemma mem_read_some m off len : 0 ≤ off → 0 ≤ len → off + len ≤ Z.of_nat (length m) →
  mem_read m off len = Some (take (Z.to_nat len) (drop (Z.to_nat off) m)).
Proof. intros. unfold mem_read. by case_bool; [|lia]. Qed.

Lemma mem_read_ext m m' off len : length m' = length m →
  (∀ x, off ≤ x < off + len → m' !! Z.to_nat x = m !! Z.to_nat x) →
  mem_read m' off len = mem_read m off len.
Proof.
  intros Hl He. unfold mem_read. rewrite Hl. case_bool; [|done]. f_equal.
  apply list_eq. intros i. rewrite !lookup_take. case_decide; [|done].
  rewrite !lookup_drop. specialize (He (off + Z.of_nat i)).
  replace (Z.to_nat (off + Z.of_nat i)) with (Z.to_nat off + i)%nat in He by lia. apply He. lia.
Qed.

Lemma mem_read_written m off bs m' : mem_write m off bs = Some m' →
  mem_read m' off (Z.of_nat (length bs)) = Some bs.
Proof.
  intros Hw. pose proof (mem_write_length _ _ _ _ Hw) as Hl.
  revert Hw. unfold mem_write. case_bool; [|done]. intros [= <-].
  rewrite mem_read_some by lia. f_equal. apply list_eq. intros i. rewrite lookup_take.
  case_decide as Hi.
  - rewrite lookup_drop, list_lookup_inserts by lia. f_equal. lia.
  - symmetry. apply lookup_ge_None_2. lia.
Qed.

Lemma mem_write_some m off bs : 0 ≤ off → off + Z.of_nat (length bs) ≤ Z.of_nat (length m) →
  ∃ m', mem_write m off bs = Some m'.
Proof. intros. unfold mem_write. case_bool; [by eexists|lia]. Qed.

(** Chunks written side by side. *)
Lemma write_chunks_ok cb outs : 0 < cb → Forall (λ s, Z.of_nat (length s) = cb) outs →
  ∀ b m, 0 ≤ b → (b + Z.of_nat (length outs)) * cb ≤ Z.of_nat (length m) →
  ∃ m', write_chunks m (zip ((λ p, p * cb) <$> zrange b (b + Z.of_nat (length outs))) outs) = Some m' ∧
    length m' = length m ∧
    (∀ x, 0 ≤ x → x < b * cb ∨ (b + Z.of_nat (length outs)) * cb ≤ x → m' !! Z.to_nat x = m !! Z.to_nat x) ∧
    ∀ p, (p < length outs)%nat → mem_read m' ((b + Z.of_nat p) * cb) cb = outs !! p.
Proof.
  intros Hcb Houts. induction Houts as [|out outs Ho _ IH]; intros b m Hb Hm.
  { rewrite zrange_nil by (cbn; lia). exists m. split_and!; try done. cbn. lia. }
  cbn [length] in *. rewrite zrange_cons by lia. cbn [fmap list_fmap zip zip_with].
  unfold write_chunks. cbn [foldl_opt fst snd].
  destruct (mem_write_some m (b * cb) out) as [m1 Hw]; [nia|nia|]. rewrite Hw. cbn [mbind option_bind].
  pose proof (mem_write_length _ _ _ _ Hw) as Hl1.
  destruct (IH (b + 1) m1) as (m' & H1 & H2 & H3 & H4); [lia|rewrite Hl1; nia|].
  replace (b + Z.of_nat (S (length outs))) with (b + 1 + Z.of_nat (length outs)) by lia.
  exists m'. split; [exact H1|]. split; [congruence|]. split.
  - intros x Hx Hr. rewrite H3 by nia. rewrite (mem_write_lookup _ _ _ _ _ Hw) by done.
    case_bool; [nia|done].
  - intros [|p] Hp.
    + cbn. rewrite <-(mem_read_written _ _ _ _ Hw), Ho. replace ((b + Z.of_nat 0) * cb) with (b * cb) by lia.
      apply mem_read_ext; [done|]. intros x Hx. apply H3; nia.
    + cbn. rewrite <-H4 by lia. f_equal. lia.
Qed.

(** ** Layouts that fit *)

(** A layout whose sizes do not wrap. *)
Record ly_ok (ly : Layout) : Prop := {
  lo_chunk : 0 < ly_chunk_bytes ly;
  lo_k : 0 < ly_k ly < 65536;
  lo_m : 0 < ly_m ly < 65536;
  lo_bytes : 0 < ly_data_bytes ly;
  lo_data : ly_data_chunks ly = (ly_data_bytes ly + ly_chunk_bytes ly - 1) / ly_chunk_bytes ly;
  lo_stripes : ly_stripes ly = (ly_data_chunks ly + ly_k ly - 1) / ly_k ly;
  lo_parity : ly_parity_chunks ly = ly_stripes ly * ly_m ly;
  lo_total : (ly_data_chunks ly + ly_parity_chunks ly) * ly_chunk_bytes ly < 4294967296 - 65536
}.

Lemma ec_chunk_bytes_pos params : wf_params params →
  0 < ec_mtu params * ec_ppc params < 4294967296 ∧
  ec_mtu params *u32 ec_ppc params = ec_mtu params * ec_ppc params.
Proof.
  intros Hwf. destruct (wf_params_numbers params Hwf) as (?&?&?&?&_).
  assert (0 < ec_mtu params ≤ MAX_PAYLOAD_SIZE) as Hmtu.
  { unfold ec_mtu, or_else, MAX_PAYLOAD_SIZE, sizeof_SDRPacketHeader. repeat case_inner_bool; lia. }
  assert (0 < ec_ppc params < 65536) as Hppc by (unfold ec_ppc, or_else; case_inner_bool; lia).
  assert (0 < ec_mtu params * ec_ppc params < 4294967296)
    by (unfold MAX_PAYLOAD_SIZE, sizeof_SDRPacketHeader in *; nia).
  split; [done|by apply u32_small; lia].
Qed.

(** The sizes both ends compute, when they fit 32 bits. *)
Lemma ec_layout_ok params cfg length : wf_params params →
  let cb := ec_mtu params * ec_ppc params in
  let bytes := or_else (ec_data_bytes cfg) length in
  let k := or_else (ec_k_data cfg) 4 in
  let m := or_else (ec_m_parity cfg) 2 in
  let n := (bytes + cb - 1) / cb in
  0 < bytes → 0 < k < 65536 → 0 < m < 65536 →
  (n + (n + k - 1) / k * m) * cb < 4294967296 - 65536 →
  ly_ok (ec_layout params cfg length) ∧ ly_chunk_bytes (ec_layout params cfg length) = cb ∧
  ly_data_bytes (ec_layout params cfg length) = bytes.
Proof.
  intros Hwf cb bytes k m n Hb Hk Hm Htot.
  destruct (ec_chunk_bytes_pos params Hwf) as [Hcb Hcb32]. fold cb in Hcb, Hcb32.
  assert (0 < n) as Hn by (apply Z.div_str_pos; lia).
  assert (0 < (n + k - 1) / k) as Hs by (apply Z.div_str_pos; lia).
  assert (n * cb < 4294967296 - 65536) as Hdata by nia.
  assert (n < 4294967296 - 65536) as Hn32 by nia.
  assert (bytes ≤ n * cb) as Hle.
  { subst n. pose proof (Z.div_mod (bytes + cb - 1) cb ltac:(lia)).
    pose proof (Z.mod_pos_bound (bytes + cb - 1) cb ltac:(lia)). lia. }
  assert ((n + k - 1) / k * m < 4294967296) as Hp by nia.
  unfold ec_layout. fold cb. rewrite Hcb32.
  assert (or_else cb MAX_PAYLOAD_SIZE = cb) as -> by (unfold or_else; case_inner_bool; lia).
  fold bytes k m. rewrite (u64_small (bytes + cb - 1)) by lia. fold n.
  rewrite (u32_small n), (u32_small (n + k - 1)), (u32_small (_ * m)) by lia.
  split; [|split; reflexivity]. constructor; cbn; first [reflexivity|lia].
Qed.

Section Encode.
Context (ly : Layout) (Hly : ly_ok ly).
Notation cb := (ly_chunk_bytes ly).
Notation dc := (ly_data_chunks ly).
Notation k := (ly_k ly).
Notation m := (ly_m ly).
Notation chunks := (dc + ly_parity_chunks ly).

Lemma ly_bounds : 0 < dc ∧ 0 < ly_stripes ly ∧ dc ≤ ly_stripes ly * k < dc + k ∧
  ly_data_bytes ly ≤ dc * cb ∧ chunks < 4294967296 - 65536 ∧ 0 ≤ ly_parity_chunks ly.
Proof.
  destruct Hly as [? ? ? ? Hd Hs Hp Ht].
  assert (0 < dc) by (rewrite Hd; apply Z.div_str_pos; lia).
  assert (0 < ly_stripes ly) by (rewrite Hs; apply Z.div_str_pos; lia).
  pose proof (Z.div_mod (ly_data_bytes ly + cb - 1) cb ltac:(lia)).
  pose proof (Z.mod_pos_bound (ly_data_bytes ly + cb - 1) cb ltac:(lia)).
  pose proof (Z.div_mod (dc + k - 1) k ltac:(lia)).
  pose proof (Z.mod_pos_bound (dc + k - 1) k ltac:(lia)).
  rewrite <-Hd, <-Hs in *. split_and!; try done; try lia; nia.
Qed.

Lemma ly_total_eq : ly_total_bytes ly = chunks * cb.
Proof.
  destruct ly_bounds as (?&?&?&?&?&?). pose proof (lo_total _ Hly). pose proof (lo_chunk _ Hly).
  unfold ly_total_bytes. rewrite u32_small by lia. apply u64_small. nia.
Qed.

Lemma parity_offset_eq s p : 0 ≤ s < ly_stripes ly → 0 ≤ p < m →
  parity_offset ly s p = (dc + s * m + p) * cb ∧ (dc + s * m + p + 1) * cb ≤ chunks * cb ∧
  0 ≤ dc + s * m + p.
Proof.
  intros Hs Hp. destruct ly_bounds as (?&?&?&?&?&?). pose proof (lo_total _ Hly).
  pose proof (lo_chunk _ Hly). pose proof (lo_parity _ Hly) as Hpc.
  assert (s * m + p < ly_stripes ly * m) by nia. assert (0 ≤ s * m) by nia.
  unfold parity_offset. rewrite (u32_small (s * m)), (u32_small (dc + s * m)),
    (u32_small (dc + s * m + p)) by lia.
  rewrite u32_small by nia. split; [done|]. split; [nia|lia].
Qed.

Lemma stripe_data_eq s : 0 ≤ s < ly_stripes ly →
  stripe_data ly s = Z.min k (dc - s * k) ∧ 0 < dc - s * k.
Proof.
  intros Hs. destruct ly_bounds as (?&?&?&?&?&?). pose proof (lo_k _ Hly).
  assert (s * k < dc) by nia. assert (0 ≤ s * k) by nia.
  unfold stripe_data. rewrite (u32_small (s * k)), u32_small by lia. split; [done|lia].
Qed.

(** A source lies in the data. *)
Lemma source_offset_eq s i : 0 ≤ s < ly_stripes ly → 0 ≤ i < k →
  source_offset ly s i = (if i <? Z.min k (dc - s * k) then s * k + i else 0) * cb ∧
  0 ≤ source_offset ly s i ∧ source_offset ly s i + cb ≤ dc * cb.
Proof.
  intros Hs Hi. destruct ly_bounds as (?&?&?&?&?&?). destruct (stripe_data_eq s Hs) as [Hsd ?].
  pose proof (lo_total _ Hly). pose proof (lo_chunk _ Hly).
  unfold source_offset. rewrite Hsd. assert (0 ≤ s * k) by nia.
  destruct (Z.ltb_spec i (Z.min k (dc - s * k))); [|nia].
  unfold data_offset. rewrite (u32_small (s * k)), (u32_small (s * k + i)) by lia.
  rewrite u32_small by nia. split; [done|]. nia.
Qed.

Context (isal : IsaL) (Hcoder : coder_fits isal).

Notation gftbl := (ec_init_tables isal k m (gf_gen_rs_matrix isal (k + m) k)).

(** The chunks a stripe is encoded from. *)
Definition stripe_sources (storage : list Z) (s : Z) : list (list Z) :=
  (λ i, default [] (mem_read storage (source_offset ly s i) cb)) <$> zrange 0 k.

Lemma stripe_sources_read storage s : Z.of_nat (length storage) = chunks * cb → 0 ≤ s < ly_stripes ly →
  mapM (λ i, mem_read storage (source_offset ly s i) cb) (zrange 0 k) = Some (stripe_sources storage s).
Proof.
  intros Hl Hs. apply mapM_Some_2. unfold stripe_sources. apply Forall2_fmap_r, Forall_Forall2_diag.
  apply Forall_forall. intros i Hi%elem_of_zrange. destruct (source_offset_eq s i) as (_ & H0 & H1); [done|lia|].
  destruct ly_bounds as (?&?&?&?&?&?). pose proof (lo_chunk _ Hly).
  unfold compose. by rewrite !mem_read_some by nia.
Qed.

(** Two storages with the same data give the same sources. *)
Lemma stripe_sources_ext storage storage' s : length storage' = length storage → 0 ≤ s < ly_stripes ly →
  (∀ x, 0 ≤ x < dc * cb → storage' !! Z.to_nat x = storage !! Z.to_nat x) →
  stripe_sources storage' s = stripe_sources storage s.
Proof.
  intros Hl Hs He. apply list_fmap_ext. intros n i Hi. f_equal.
  apply list_elem_of_lookup_2, elem_of_zrange in Hi.
  destruct (source_offset_eq s i) as (_ & H0 & H1); [done|lia|].
  apply mem_read_ext; [done|]. intros x Hx. apply He. lia.
Qed.

(** One stripe: its parity chunks are written, all else stays. *)
Lemma encode_stripe_ok storage s : Z.of_nat (length storage) = chunks * cb → 0 ≤ s < ly_stripes ly →
  ∃ storage', encode_stripe isal ly gftbl storage s = Some storage' ∧ length storage' = length storage ∧
    (∀ x, 0 ≤ x → x < (dc + s * m) * cb ∨ (dc + (s + 1) * m) * cb ≤ x →
       storage' !! Z.to_nat x = storage !! Z.to_nat x) ∧
    ∀ p, 0 ≤ p < m → mem_read storage' ((dc + s * m + p) * cb) cb =
      ec_encode_data isal cb k m gftbl (stripe_sources storage s) !! Z.to_nat p.
Proof.
  intros Hl Hs. destruct ly_bounds as (?&?&?&?&?&?). pose proof (lo_chunk _ Hly) as Hcb.
  pose proof (lo_m _ Hly) as Hm. unfold encode_stripe. rewrite stripe_sources_read by done.
  cbn [mbind option_bind].
  destruct (Hcoder cb k m gftbl (stripe_sources storage s)) as [Hlen Hfit]; [lia|lia|].
  set (outs := ec_encode_data isal cb k m gftbl (stripe_sources storage s)) in *.
  destruct (parity_offset_eq s (m - 1) Hs ltac:(lia)) as (_ & Hin & _).
  destruct (write_chunks_ok cb outs Hcb Hfit (dc + s * m) storage) as (m' & W1 & W2 & W3 & W4); [nia|nia|].
  rewrite Hlen in *. exists m'. split; [|split; [done|split]].
  - rewrite <-W1. do 2 f_equal. rewrite zrange_shift, <-list_fmap_compose.
    apply list_fmap_ext. intros i p Hp. apply list_elem_of_lookup_2, elem_of_zrange in Hp.
    by destruct (parity_offset_eq s p Hs Hp) as (-> & _).
  - intros x Hx Hr. apply W3; nia.
  - intros p Hp. rewrite <-W4 by lia. f_equal. lia.
Qed.

(** All stripes. *)
Lemma encode_stripes_ok storage n : Z.of_nat (length storage) = chunks * cb → 0 ≤ n ≤ ly_stripes ly →
  ∃ storage', foldl_opt (encode_stripe isal ly gftbl) storage (zrange 0 n) = Some storage' ∧
    length storage' = length storage ∧
    (∀ x, 0 ≤ x < dc * cb → storage' !! Z.to_nat x = storage !! Z.to_nat x) ∧
    ∀ s p, 0 ≤ s < n → 0 ≤ p < m → mem_read storage' ((dc + s * m + p) * cb) cb =
      ec_encode_data isal cb k m gftbl (stripe_sources storage s) !! Z.to_nat p.
Proof.
  intros Hl [Hn Hle]. revert Hle. pattern n. apply natlike_ind; [| |done].
  { intros _. rewrite zrange_nil by lia. exists storage. split_and!; try done. intros; lia. }
  clear n Hn. intros n Hn IH Hle. rewrite <-Z.add_1_r in *. rewrite zrange_snoc, foldl_opt_app by lia.
  destruct IH as (st1 & -> & H1 & H2 & H3); [lia|]. cbn [mbind option_bind foldl_opt].
  destruct (encode_stripe_ok st1 n) as (st2 & -> & K1 & K2 & K3); [lia|lia|].
  pose proof (lo_chunk _ Hly). pose proof (lo_m _ Hly). destruct ly_bounds as (?&?&?&?&?&?).
  exists st2. split; [done|]. split; [congruence|]. split.
  - intros x Hx. rewrite K2 by nia. by apply H2.
  - intros s p Hs Hp. destruct (decide (s = n)) as [->|].
    + rewrite K3 by done. do 2 f_equal. by apply stripe_sources_ext; [|lia|].
    + rewrite <-H3 by lia. apply mem_read_ext; [done|]. intros x Hx. apply K2; nia.
Qed.
End Encode.

(** The whole buffer; both theorems below rest on it. *)
Lemma encode_storage_ok isal ly data : ly_ok ly → coder_fits isal →
  ly_data_bytes ly ≤ Z.of_nat (length data) →
  ∃ storage, encode_storage isal ly data = Some storage ∧
    Z.of_nat (length storage) = (ly_data_chunks ly + ly_parity_chunks ly) * ly_chunk_bytes ly ∧
    (∀ x, 0 ≤ x < ly_data_bytes ly → storage !! Z.to_nat x = data !! Z.to_nat x) ∧
    (∀ x, ly_data_bytes ly ≤ x < ly_data_chunks ly * ly_chunk_bytes ly → storage !! Z.to_nat x = Some 0) ∧
    ∀ s p, 0 ≤ s < ly_stripes ly → 0 ≤ p < ly_m ly →
      mem_read storage ((ly_data_chunks ly + s * ly_m ly + p) * ly_chunk_bytes ly) (ly_chunk_bytes ly) =
        ec_encode_data isal (ly_chunk_bytes ly) (ly_k ly) (ly_m ly)
          (ec_init_tables isal (ly_k ly) (ly_m ly) (gf_gen_rs_matrix isal (ly_k ly + ly_m ly) (ly_k ly)))
          (stripe_sources ly storage s) !! Z.to_nat p.
Proof.
  intros Hly Hcoder Hdata. destruct (ly_bounds ly Hly) as (?&?&?&?&?&?).
  pose proof (lo_chunk _ Hly). pose proof (lo_bytes _ Hly).
  unfold encode_storage. rewrite (ly_total_eq ly Hly), Z.min_l by nia.
  rewrite mem_read_some by lia. cbn [mbind option_bind].
  change (Z.to_nat 0) with 0%nat. rewrite drop_0. set (copied := take _ _). set (zeros := replicate _ 0).
  assert (Z.of_nat (length copied) = ly_data_bytes ly) as Hc by (subst copied; rewrite length_take; lia).
  assert (Z.of_nat (length zeros) = (ly_data_chunks ly + ly_parity_chunks ly) * ly_chunk_bytes ly) as Hz
    by (subst zeros; rewrite length_replicate; nia).
  destruct (mem_write_some zeros 0 copied) as [st0 Hw]; [lia|nia|]. rewrite Hw. cbn [mbind option_bind].
  pose proof (mem_write_length _ _ _ _ Hw) as Hl0.
  destruct (encode_stripes_ok ly Hly isal Hcoder st0 (ly_stripes ly)) as (st & -> & E1 & E2 & E3); [lia|lia|].
  exists st. split; [done|]. split; [lia|].
  assert (∀ x, 0 ≤ x < ly_data_chunks ly * ly_chunk_bytes ly → st !! Z.to_nat x =
    if x <? ly_data_bytes ly then data !! Z.to_nat x else Some 0) as Hx.
  { intros x Hx. rewrite E2, (mem_write_lookup _ _ _ _ _ Hw) by lia. rewrite Hc, Z.add_0_l.
    rewrite (proj2 (Z.leb_le 0 x)) by lia. cbn [andb]. rewrite Z.sub_0_r.
    destruct (Z.ltb_spec x (ly_data_bytes ly)).
    - subst copied. rewrite lookup_take_lt by lia. done.
    - subst zeros. apply lookup_replicate_2. nia. }
  split; [|split].
  - intros x Hr. rewrite Hx by lia. by rewrite (proj2 (Z.ltb_lt _ _)) by lia.
  - intros x Hr. rewrite Hx by lia. by rewrite (proj2 (Z.ltb_ge _ _)) by lia.
  - intros s p Hs Hp. rewrite E3 by done. do 2 f_equal. symmetry.
    apply (stripe_sources_ext ly Hly); [done|done|done].
Qed.

(** A row of the identity picks its source. *)
Lemma foldl_lxor_pick (f : Z → Z) r v n : 0 ≤ r → 0 ≤ n → f r = v → (∀ j, 0 ≤ j < n → j ≠ r → f j = 0) →
  foldl (λ acc j, Z.lxor acc (f j)) 0 (zrange 0 n) = if r <? n then v else 0.
Proof.
  intros Hr Hn Hv. pattern n. apply natlike_ind; [| |done].
  { intros _. rewrite zrange_nil by lia. cbn. destruct (Z.ltb_spec r 0); [lia|done]. }
  clear n Hn. intros n Hn IH Hf. rewrite <-Z.add_1_r, zrange_snoc, foldl_app by lia.
  cbn [foldl]. rewrite IH by (intros; apply Hf; lia).
  destruct (decide (n = r)) as [->|].
  - rewrite Z.ltb_irrefl, (proj2 (Z.ltb_lt r (r + 1))), Hv by lia. apply Z.lxor_0_l.
  - rewrite (Hf n) by lia. rewrite Z.lxor_0_r.
    destruct (Z.ltb_spec r n), (Z.ltb_spec r (n + 1)); try lia; done.
Qed.

(** A row of the identity picks its source. *)
Lemma gf_dot_unit gf_mul k coefficients sources p src :
  (∀ x, gf_mul 0 x = 0) → (∀ x, gf_mul 1 x = x) → 0 ≤ p < k →
  (∀ j, 0 ≤ j < k → coefficients !!! Z.to_nat j = if p =? j then 1 else 0) →
  sources !! Z.to_nat p = Some src →
  gf_dot gf_mul k coefficients sources <$> zrange 0 (Z.of_nat (length src)) = src.
Proof.
  intros Hz Ho Hp Hrow Hsrc. etransitivity.
  2: { etransitivity; [|apply list_fmap_id]. apply fmap_zrange_lookup. intros i y Hy _.
       exact (list_lookup_total_correct _ _ _ Hy). }
  apply list_fmap_ext. intros i x _. unfold gf_dot.
  rewrite (foldl_lxor_pick _ p (src !!! Z.to_nat x)); [by rewrite (proj2 (Z.ltb_lt p k)) by lia|lia|lia| |].
  - rewrite Hrow, Z.eqb_refl, Ho by lia. by rewrite (list_lookup_total_correct sources _ _ Hsrc).
  - intros j Hj Hne. rewrite Hrow by lia. by rewrite (proj2 (Z.eqb_neq p j)) by lia.
Qed.

Lemma encode_identity isal gf_mul n k cb sources p : isal_ok isal gf_mul → 0 < k < n → n ≤ 255 →
  0 ≤ cb → Z.of_nat (length sources) = k → Forall (λ s, Z.of_nat (length s) = cb) sources →
  0 ≤ p < n - k → p < k →
  ec_encode_data isal cb k (n - k) (ec_init_tables isal k (n - k) (gf_gen_rs_matrix isal n k)) sources
    !! Z.to_nat p = sources !! Z.to_nat p.
Proof.
  intros [Hz Ho Hm Hi He] Hk Hn Hcb Hls Hs Hp Hpk.
  rewrite He; [|lia..| |done|done].
  2: { rewrite Hm by done. nia. }
  rewrite list_lookup_fmap.
  rewrite lookup_zrange by done.
  cbn [fmap option_fmap option_map].
  destruct (lookup_lt_is_Some_2 sources (Z.to_nat p)) as [src Hsrc]; [lia|]. rewrite Hsrc. f_equal.
  assert (Z.of_nat (length src) = cb) as Hsl by (rewrite Forall_lookup in Hs; by eapply Hs).
  rewrite <-Hsl. apply (gf_dot_unit gf_mul k _ sources p src Hz Ho); [lia| |done].
  intros j Hj. apply list_lookup_total_correct. rewrite lookup_drop, <-(Hi n k p j) by lia.
  f_equal. nia.
Qed.

(** A coder over the field of 256 elements of ISA-L, as its documentation gives
    it; the tables are the coefficients themselves. *)
Definition xtime (x : Z) : Z :=
  let y := Z.shiftl x 1 in if Z.testbit y 8 then Z.lxor y 285 else y.

Definition gf_mul (a x : Z) : Z :=
  fst (foldl (λ '(acc, x) i, (if Z.testbit a i then Z.lxor acc x else acc, xtime x)) (0, x) (zrange 0 8)).

Definition gf_pow2 (n : Z) : Z := Nat.iter (Z.to_nat n) (gf_mul 2) 1.

Definition gf_inv (x : Z) : Z := default 0 (List.find (λ y, gf_mul x y =? 1) (zrange 1 256)).

(** Gauss-Jordan elimination of column [i]. *)
Definition gf_eliminate (rows : list (list Z)) (i : Z) : option (list (list Z)) :=
  let entry (r : list Z) := r !!! Z.to_nat i in
  let above := take (Z.to_nat i) rows in
  let below := drop (Z.to_nat i) rows in
  '(j, row) ← list_find (λ r, entry r ≠ 0) below;
  let pivot := gf_mul (gf_inv (entry row)) <$> row in
  let clear r := zip_with (λ u v, Z.lxor u (gf_mul (entry r) v)) r pivot in
  Some ((clear <$> above) ++ pivot :: (clear <$> drop 1 (<[j := below !!! 0%nat]> below))).

(** The input reduced and the inverse, side by side. *)
Definition gf_invert (a : list Z) (n : Z) : bool * list Z * list Z :=
  let row l i := take (Z.to_nat n) (drop (Z.to_nat (i * n)) l) in
  let unit := (λ e, if e / n =? e mod n then 1 else 0) <$> zrange 0 (n * n) in
  match foldl_opt gf_eliminate ((λ i, row a i ++ row unit i) <$> zrange 0 n) (zrange 0 n) with
  | Some rows => (true, concat (take (Z.to_nat n) <$> rows), concat (drop (Z.to_nat n) <$> rows))
  | None => (false, a, unit)
  end.

Definition example_coder : IsaL := mkIsaL
  (λ n k, (λ e, let i := e / k in let j := e mod k in
     if i <? k then (if i =? j then 1 else 0) else gf_pow2 ((i - k) * j)) <$> zrange 0 (n * k))
  (λ _ _ a, a)
  (λ len k rows a sources,
     (λ r, (λ x, gf_dot gf_mul k (drop (Z.to_nat (r * k)) a) sources x) <$> zrange 0 len) <$> zrange 0 rows)
  gf_invert.

Lemma example_coder_fits : coder_fits example_coder.
Proof.
  intros len k rows gftbl sources Hl Hr. cbn [example_coder ec_encode_data].
  rewrite length_fmap, length_zrange. split; [lia|].
  apply Forall_fmap, Forall_forall. intros r _. cbn. rewrite length_fmap, length_zrange. lia.
Qed.

Lemma example_coder_ok : isal_ok example_coder gf_mul.
Proof.
  constructor; cbn [example_coder gf_gen_rs_matrix ec_init_tables ec_encode_data].
  - reflexivity.
  - intros x. cbn -[xtime]. apply Z.lxor_0_l.
  - intros n k Hk Hn. rewrite length_fmap, length_zrange. nia.
  - intros n k i j Hk Hn Hi Hj. rewrite list_lookup_fmap, lookup_zrange by nia.
    cbn [fmap option_fmap option_map]. replace ((i * k + j) / k) with i.
    2: { apply (Z.div_unique _ _ i j); [lia|nia]. }
    replace ((i * k + j) mod k) with j by (apply (Z.mod_unique _ _ i j); [lia|nia]).
    by rewrite (proj2 (Z.ltb_lt i k)) by lia.
  - reflexivity.
Qed.

Definition rows_fit (n : Z) (rows : list (list Z)) : Prop :=
  length rows = Z.to_nat n ∧ Forall (λ r, length r = (2 * Z.to_nat n)%nat) rows.

Lemma gf_eliminate_fits n i rows rows' : 0 ≤ i < n → rows_fit n rows → gf_eliminate rows i = Some rows' →
  rows_fit n rows'.
Proof.
  intros Hi [Hl Hr] He. unfold gf_eliminate in He. set (below := drop _ rows) in *.
  destruct (list_find _ below) as [[j row]|] eqn:Hfind; [|done]. cbn [mbind option_bind] in He.
  injection He as <-. apply list_find_Some in Hfind as [Hj _].
  assert (Forall (λ r, length r = (2 * Z.to_nat n)%nat) below) as Hb by by apply Forall_drop.
  assert (length row = (2 * Z.to_nat n)%nat) as Hrow by (apply (Forall_lookup_1 _ _ _ _ Hb Hj)).
  assert (∃ r0 rest, below = r0 :: rest) as (r0 & rest & E) by (destruct below; [done|by eexists _, _]).
  set (pivot := gf_mul _ <$> row).
  assert (∀ (f : list Z → Z → Z → Z) l, Forall (λ r, length r = (2 * Z.to_nat n)%nat) l →
    Forall (λ r, length r = (2 * Z.to_nat n)%nat) ((λ r, zip_with (f r) r pivot) <$> l)) as Hclear.
  { intros f l Hf. apply Forall_fmap. eapply Forall_impl; [exact Hf|]. intros r Hlen. cbn in *.
    rewrite length_zip_with, Hlen. unfold pivot. rewrite length_fmap. lia. }
  split.
  - rewrite length_app, length_fmap, length_take. cbn [length]. rewrite length_fmap, length_drop, length_insert.
    unfold below. rewrite length_drop. lia.
  - apply Forall_app. split; [by apply (Hclear (λ r u v, Z.lxor u (gf_mul (r !!! Z.to_nat i) v))), Forall_take|].
    constructor; [unfold pivot; by rewrite length_fmap|].
    apply (Hclear (λ r u v, Z.lxor u (gf_mul (r !!! Z.to_nat i) v))), Forall_drop.
    apply Forall_insert; [done|]. rewrite E in *. cbn. by apply Forall_cons in Hb as [? _].
Qed.

Lemma example_inverse_fits : inverse_fits example_coder.
Proof.
  intros a n Hn Ha. cbn [example_coder gf_invert_matrix]. unfold gf_invert. set (start := _ <$> zrange 0 n).
  assert (rows_fit n start) as Hstart.
  { unfold start. split; [rewrite length_fmap, length_zrange; lia|].
    apply Forall_fmap, Forall_forall. intros i Hi%elem_of_zrange. cbn.
    rewrite length_app, !length_take, !length_drop, length_fmap, length_zrange. nia. }
  destruct (foldl_opt gf_eliminate start (zrange 0 n)) as [rows|] eqn:E; [|done].
  apply (foldl_opt_inv _ (rows_fit n)) in E as [Hl Hr];
    [|done|intros s i s' Hi%elem_of_zrange; by apply gf_eliminate_fits].
  cbn. apply Nat2Z.inj. rewrite Ha.
  assert (Z.of_nat (length rows) = n) as Hn' by lia. revert Hn'. clear -Hr Hn.
  assert (∀ l : list (list Z), Forall (λ r, length r = (2 * Z.to_nat n)%nat) l →
    Z.of_nat (length (concat (take (Z.to_nat n) <$> l))) = Z.of_nat (length l) * n) as H.
  { induction 1 as [|r l Hlen _ IH]; [done|]. cbn. rewrite length_app, length_take. lia. }
  intros Hn'. rewrite H by done. lia.
Qed.

(** Twelve bytes in two chunks of ten, stripes of four and two. *)
Definition example_layout : Layout :=
  ec_layout example_cts_params (mkECConfig 4 2 0 12 3) 12.

Lemma example_layout_ok : ly_ok example_layout.
Proof. apply ec_layout_ok; [apply example_cts_params_wf|vm_compute; repeat split..]. Qed.

(** ** Properties *)

(** C17: The buffer [encode_and_send] builds: the message comes first, byte for
    byte, padded with zeros to whole chunks; after the data chunks come, stripe
    by stripe, the parity chunks, and each is what the coder makes of the stripe's
    [k] sources with the tables of the generator matrix. *)
Theorem encode_layout isal ly data : ly_ok ly → coder_fits isal →
  ly_data_bytes ly ≤ Z.of_nat (length data) →
  ∃ storage, encode_storage isal ly data = Some storage ∧
    Z.of_nat (length storage) = (ly_data_chunks ly + ly_parity_chunks ly) * ly_chunk_bytes ly ∧
    (∀ x, 0 ≤ x < ly_data_bytes ly → storage !! Z.to_nat x = data !! Z.to_nat x) ∧
    (∀ x, ly_data_bytes ly ≤ x < ly_data_chunks ly * ly_chunk_bytes ly → storage !! Z.to_nat x = Some 0) ∧
    ∀ s p, 0 ≤ s < ly_stripes ly → 0 ≤ p < ly_m ly →
      mem_read storage ((ly_data_chunks ly + s * ly_m ly + p) * ly_chunk_bytes ly) (ly_chunk_bytes ly) =
        ec_encode_data isal (ly_chunk_bytes ly) (ly_k ly) (ly_m ly)
          (ec_init_tables isal (ly_k ly) (ly_m ly) (gf_gen_rs_matrix isal (ly_k ly + ly_m ly) (ly_k ly)))
          (stripe_sources ly storage s) !! Z.to_nat p.
Proof. apply encode_storage_ok. Qed.

Lemma encode_layout_witness : ∃ storage,
  encode_storage example_coder example_layout (zrange 1 13) = Some storage ∧
  take 20 storage = zrange 1 13 ++ replicate 8 0.
Proof.
  destruct (encode_layout example_coder example_layout (zrange 1 13) example_layout_ok example_coder_fits)
    as (storage & He & _); [vm_compute; discriminate|].
  exists storage. split; [exact He|]. revert He. vm_compute. intros [= <-]. reflexivity.
Defined.

(** C32: The parity is no parity: [ec_init_tables] is given the beginning of the
    generator matrix, which is the identity, and so parity chunk [p < k] of a
    stripe is a copy of the stripe's data chunk [p] - or, past the end of the
    data, of chunk 0 - and no parity depends on the stripe's other chunks. *)
Theorem parity_copies_data isal gf_mul ly data : ly_ok ly → coder_fits isal → isal_ok isal gf_mul →
  ly_data_bytes ly ≤ Z.of_nat (length data) → ly_k ly + ly_m ly ≤ 255 →
  ∃ storage, encode_storage isal ly data = Some storage ∧
    ∀ s p, 0 ≤ s < ly_stripes ly → 0 ≤ p < ly_m ly → p < ly_k ly →
      let source := if s * ly_k ly + p <? ly_data_chunks ly then s * ly_k ly + p else 0 in
      mem_read storage ((ly_data_chunks ly + s * ly_m ly + p) * ly_chunk_bytes ly) (ly_chunk_bytes ly) =
        mem_read storage (source * ly_chunk_bytes ly) (ly_chunk_bytes ly).
Proof.
  intros Hly Hcoder Hok Hdata Hkm.
  destruct (encode_storage_ok isal ly data Hly Hcoder Hdata) as (storage & He & Hl & _ & _ & Hp).
  exists storage. split; [done|]. intros s p Hs Hpm Hpk source. rewrite (Hp s p Hs Hpm).
  destruct (ly_bounds ly Hly) as (?&?&?&?&?&?). pose proof (lo_chunk _ Hly).
  pose proof (lo_k _ Hly). pose proof (lo_m _ Hly).
  replace (ly_m ly) with (ly_k ly + ly_m ly - ly_k ly) at 1 2 by lia.
  rewrite (encode_identity isal gf_mul (ly_k ly + ly_m ly)); try done; [|lia|lia| | |lia].
  - unfold stripe_sources. rewrite list_lookup_fmap, lookup_zrange by lia. cbn [fmap option_fmap option_map].
    destruct (source_offset_eq ly Hly s p Hs ltac:(lia)) as (Heq & Ho0 & Ho1).
    assert (source_offset ly s p = source * ly_chunk_bytes ly) as Hsrc.
    { rewrite Heq. subst source.
      destruct (Z.ltb_spec p (Z.min (ly_k ly) (ly_data_chunks ly - s * ly_k ly))),
        (Z.ltb_spec (s * ly_k ly + p) (ly_data_chunks ly)); lia. }
    rewrite Hsrc in *. rewrite mem_read_some by nia. done.
  - unfold stripe_sources. rewrite length_fmap, length_zrange. lia.
  - unfold stripe_sources. apply Forall_fmap, Forall_forall. intros i Hi%elem_of_zrange. cbn.
    destruct (source_offset_eq ly Hly s i Hs Hi) as (_ & Ho0 & Ho1).
    rewrite mem_read_some by nia. cbn. rewrite length_take, length_drop.
    assert (ly_data_chunks ly * ly_chunk_bytes ly ≤ Z.of_nat (length storage)) by nia. lia.
Qed.

Lemma parity_copies_data_witness : ∃ storage,
  encode_storage example_coder example_layout (zrange 1 13) = Some storage ∧
  mem_read storage 30 10 = mem_read storage 10 10.
Proof.
  destruct (parity_copies_data example_coder gf_mul example_layout (zrange 1 13) example_layout_ok
    example_coder_fits example_coder_ok) as (storage & He & Hp); [vm_compute; discriminate..|].
  exists storage. split; [exact He|]. exact (Hp 0 1 ltac:(vm_compute; split; done)
    ltac:(vm_compute; split; done) ltac:(reflexivity)).
Defined.
