(* ===== verification/EcSender.v ===== *)
(** * Erasure coding: the sender (reliability/ec.h, reliability/ec.cpp)

    [ECSender]: [encode_and_send] encodes and posts data and parity, [poll] waits
    for the receiver's verdict and sends data chunks again.  Clock and sockets
    are those of [Resend]; here [ev_sockets] is what [socket] answers. *)

From S2P Require Import Prelude Bits Bytes Packet Backend Control Wait Connection Receiver Api.
From S2P Require Import Resend SrSender Erasure.
Import ControlMsgType.

(** ** State *)

(** [class ECSender]; [sends_] has at most one handle, whose [user_buffer] is
    [send_storage_]. *)
Record ECSender : Set := mkECSender {
  es_cfg : ECConfig;
  es_stats : ECStats;
  es_sends : option SDRSendHandle;
  es_send_storage : list Z;
  es_conn : option SDRConnection;
  es_chunk_acked : list bool;
  es_fallback_active : bool;
  es_env : SendEnv
}.

Definition new_ec_sender (cfg : ECConfig) (env : SendEnv) : ECSender :=
  mkECSender cfg (mkECStats 0 0 0) None [] None [] false env.

Definition es_with_env (s : ECSender) (env : SendEnv) : ECSender :=
  mkECSender (es_cfg s) (es_stats s) (es_sends s) (es_send_storage s) (es_conn s)
    (es_chunk_acked s) (es_fallback_active s) env.
Definition es_with_acked (s : ECSender) (acked : list bool) : ECSender :=
  mkECSender (es_cfg s) (es_stats s) (es_sends s) (es_send_storage s) (es_conn s)
    acked (es_fallback_active s) (es_env s).
Definition es_with_conn (s : ECSender) (c : SDRConnection) : ECSender :=
  mkECSender (es_cfg s) (es_stats s) (es_sends s) (es_send_storage s) (Some c)
    (es_chunk_acked s) (es_fallback_active s) (es_env s).

(** ** Sending *)

(** [encode_and_send]; [isal] is [None] in a build without the library.  The
    arguments of [sdr_send_post] are passed on. *)
Definition encode_and_send (isal : option IsaL) (pad : Padding) (uninit : ControlMessage)
    (os : data_calls) (ps : Process) (s : ECSender) (conn : SDRConnection) (data : list Z) (length : Z)
    : option (call_result * Process * ECSender) :=
  let ly := ec_layout (cx_params (cn_connection_ctx conn)) (es_cfg s) length in
  let sender sends storage conn acked env :=
    mkECSender (es_cfg s) (es_stats s) sends storage (Some conn) acked false env in
  match isal with
  | None =>
      copied ← mem_read data 0 (Z.min (ly_data_bytes ly) (ly_total_bytes ly));
      storage ← mem_write (replicate (Z.to_nat (ly_total_bytes ly)) 0) 0 copied;
      Some (Returned (-1), ps, sender None storage conn [] (es_env s))
  | Some isal =>
      storage ← encode_storage isal ly data;
      '(rc, ps, conn, raw_handle, wire) ←
        sdr_send_post pad uninit os ps conn false storage (Z.of_nat (List.length storage));
      let env := ev_send (es_env s) wire in
      match rc with
      | Blocked => Some (Blocked, ps, sender None storage conn [] env)
      | Returned code =>
          if negb (code =? 0) then Some (Returned code, ps, sender None storage conn [] env) else
          Some (Returned 0, ps, sender raw_handle storage conn
                  (replicate (Z.to_nat (ly_data_chunks ly)) false) env)
      end
  end.

(** ** Sending again *)

(** The lambda [retransmit_chunk]: its loop over the values of [pkt]. *)
Fixpoint ec_packets (params : ConnectionParams) (h : SDRSendHandle) (data : list Z) (chunk_id : Z)
    (pkts : list Z) : option (list (Z * list Z)) :=
  match pkts with
  | [] => Some []
  | pkt :: pkts =>
      let packet_offset := chunk_id *u32 ec_ppc params +u32 pkt in
      let data_offset := packet_offset *u64 ec_mtu params in
      if data_offset >=? sh_buffer_size h then Some [] else
      let pkt_len := Z.min (ec_mtu params) (sh_buffer_size h -u64 data_offset) in
      if Z.of_nat (length data) <? data_offset then None else
      packet ← create_data_packet (prm_transfer_id params) (sh_msg_id h) packet_offset (ec_ppc params)
        (drop (Z.to_nat data_offset) data) pkt_len;
      match packet with
      | None => Some []
      | Some p =>
          rest ← ec_packets params h data chunk_id pkts;
          Some ((prm_udp_server_port params, packet_datagram (set_chunk_seq p)) :: rest)
      end
  end.

Definition retransmit_chunk (s : ECSender) (params : ConnectionParams) (h : SDRSendHandle)
    (chunk_id : Z) : option ECSender :=
  let '(ok, env) := open_udp (es_env s) in
  if negb ok then Some (es_with_env s env) else
  datagrams ← ec_packets params h (es_send_storage s) chunk_id (zrange 0 (ec_ppc params));
  Some (es_with_env s (ev_send env datagrams)).

(** The data chunks [poll] counts. *)
Definition poll_data_chunks (s : ECSender) (params : ConnectionParams) : option Z :=
  let chunk_bytes := ec_mtu params *u32 ec_ppc params in
  if chunk_bytes =? 0 then None else
  Some (u32 (u64 (ec_data_bytes (es_cfg s) + chunk_bytes - 1) / chunk_bytes)).

(** The lambda [apply_bitmap]; a chunk past the end of [chunk_acked_] is undefined. *)
Definition ec_apply_bitmap (s : ECSender) (data_chunks : Z) (msg : ControlMessage) : option ECSender :=
  if existsb (bitmap_has 16 msg) (zrange (Z.of_nat (length (es_chunk_acked s))) data_chunks) then None else
  acked ← apply_bitmap 16 data_chunks msg (es_chunk_acked s);
  Some (es_with_acked s acked).

(** The walk over a gap, and over the gaps of the message. *)
Definition ec_gap_step (params : ConnectionParams) (h : SDRSendHandle) (s : ECSender) (c : Z)
    : option ECSender :=
  acked ← es_chunk_acked s !! Z.to_nat c;
  if acked : bool then Some s else retransmit_chunk s params h c.

Definition ec_gaps_step (params : ConnectionParams) (h : SDRSendHandle) (data_chunks : Z)
    (msg : ControlMessage) (s : ECSender) (i : Z) : option ECSender :=
  chunks ← gap_chunks msg data_chunks i;
  foldl_opt (ec_gap_step params h) s chunks.

(** The lambda [retransmit_missing_bitmap]: the chunks of its words in order,
    [sent] of them sent so far. *)
Fixpoint retransmit_missing_bitmap (params : ConnectionParams) (h : SDRSendHandle)
    (msg : ControlMessage) (limit : Z) (chunks : list Z) (sent : Z) (s : ECSender) : option ECSender :=
  match chunks with
  | [] => Some s
  | c :: chunks =>
      if sent >=? limit then Some s else
      word ← cm_chunk_bitmap msg !! Z.to_nat (c / 64);
      if Z.land word (bit_mask (c mod 64)) =? 0 then
        s ← retransmit_chunk s params h c;
        retransmit_missing_bitmap params h msg limit chunks (sent + 1) s
      else retransmit_missing_bitmap params h msg limit chunks sent s
  end.

(** The scan for a chunk not acknowledged. *)
Fixpoint all_done (acked : list bool) (chunks : list Z) : option bool :=
  match chunks with
  | [] => Some true
  | c :: chunks =>
      a ← acked !! Z.to_nat c;
      if a : bool then all_done acked chunks else Some false
  end.

(** ** The control loop *)

Inductive ec_round : Set :=
| EcReturn (code : Z) (s : ECSender)
| EcBlocked (s : ECSender)
| EcAgain (s : ECSender).

(** EC_NACK, EC_FALLBACK_SR, SR_NACK and SR_ACK. *)
Definition on_ec_nack (s : ECSender) (params : ConnectionParams) (h : SDRSendHandle)
    (data_chunks : Z) (msg : ControlMessage) : option ec_round :=
  s ← ec_apply_bitmap s data_chunks msg;
  s ← foldl_opt (ec_gaps_step params h data_chunks msg) s (zrange 0 (cm_num_gaps msg));
  s ← retransmit_missing_bitmap params h msg 8
        (zrange 0 (Z.min (64 * Z.min (cm_chunk_bitmap_words msg) 16) data_chunks)) 0 s;
  finished ← all_done (es_chunk_acked s) (zrange 0 data_chunks);
  Some (if finished : bool then EcReturn 0 s else EcAgain s).

Definition ec_on_message (s : ECSender) (params : ConnectionParams) (h : SDRSendHandle)
    (data_chunks : Z) (msg : ControlMessage) : option ec_round :=
  if msg_is msg EC_ACK || msg_is msg COMPLETE_ACK then Some (EcReturn 0 s)
  else if msg_is msg EC_NACK || msg_is msg EC_FALLBACK_SR || msg_is msg SR_NACK || msg_is msg SR_ACK
  then on_ec_nack s params h data_chunks msg
  else Some (EcAgain s).

(** A round of the [while (true)] of [poll]. *)
Definition ec_poll_round (uninit : ControlMessage) (h : SDRSendHandle) (params : ConnectionParams)
    (data_chunks : Z) (s : ECSender) : option ec_round :=
  conn ← es_conn s;
  client ← cn_tcp_client conn;
  match ep_receive client uninit with
  | None => Some (EcBlocked s)
  | Some (ok, msg, client) =>
      let conn := cn_with_client conn client in
      let s := es_with_conn s conn in
      if negb ok then
        let '(rc, conn) := sdr_send_poll uninit conn in
        let s := es_with_conn s conn in
        match rc with
        | Blocked => Some (EcBlocked s)
        | Returned rc =>
            if rc =? 0 then Some (EcReturn 0 s) else
            client ← cn_tcp_client conn;
            Some (if negb (tc_is_connected client) then EcReturn (-1) s else EcAgain s)
        end
      else ec_on_message s params h data_chunks msg
  end.

Fixpoint ec_poll_loop (uninit : ControlMessage) (h : SDRSendHandle) (params : ConnectionParams)
    (data_chunks : Z) (fuel : nat) (s : ECSender) : option (option call_result * ECSender) :=
  match fuel with
  | O => Some (None, s)
  | S fuel =>
      round ← ec_poll_round uninit h params data_chunks s;
      match round with
      | EcReturn code s => Some (Some (Returned code), s)
      | EcBlocked s => Some (Some Blocked, s)
      | EcAgain s => ec_poll_loop uninit h params data_chunks fuel s
      end
  end.

(** What is left to read on the sender's control connection. *)
Definition es_input (s : ECSender) : list recv_event :=
  match es_conn s with
  | Some c => match cn_tcp_client c with Some t => ep_input t | None => [] end
  | None => []
  end.

(** [poll]; each round consumes input. *)
Definition ec_poll (uninit : ControlMessage) (s : ECSender) : option (option call_result * ECSender) :=
  match es_sends s, es_conn s with
  | Some h, Some conn =>
      match cn_tcp_client conn with
      | Some _ =>
          let params := cx_params (cn_connection_ctx conn) in
          data_chunks ← poll_data_chunks s params;
          ec_poll_loop uninit h params data_chunks (S (S (input_size (es_input s)))) s
      | None => Some (Some (Returned (-1)), s)
      end
  | _, _ => Some (Some (Returned (-1)), s)
  end.

(** ** What holds of a sender that has posted *)

Section Posted.
Context (params : ConnectionParams) (msg_id : Z) (storage : list Z) (length dc : Z).
Context (Hsend : sendable params storage length) (Hid : 0 ≤ msg_id < 1024).
Context (Hfits : total_packets_of params length ≤ 262144).
Context (Hdc : 0 ≤ dc ≤ total_chunks_of params length).

Notation chunk_wire := (chunk_wire params msg_id storage length).

Record ec_ok (h : SDRSendHandle) (s : ECSender) : Prop := {
  eo_handle : es_sends s = Some h ∧ sh_msg_id h = msg_id ∧ sh_buffer_size h = length;
  eo_storage : es_send_storage s = storage;
  eo_conn : ∃ conn client, es_conn s = Some conn ∧ cx_params (cn_connection_ctx conn) = params ∧
    cn_tcp_client conn = Some client;
  eo_acked : Z.of_nat (List.length (es_chunk_acked s)) = dc
}.

(** [s'] is [s] after the chunks [cs] were sent again, in this order. *)
Definition ec_resent (cs : list Z) (s s' : ECSender) : Prop :=
  ∃ env w, s' = es_with_env s env ∧ ev_wire env = ev_wire (es_env s) ++ w ∧
    (∀ x, x ∈ w → ∃ c, c ∈ cs ∧ x ∈ chunk_wire c) ∧
    (ev_sockets (es_env s) = [] → ev_sockets env = [] ∧ w = concat (chunk_wire <$> cs)).

Lemma ec_resent_refl s : ec_resent [] s s.
Proof.
  exists (es_env s), []. rewrite app_nil_r. split_and!; [by destruct s|done| |done].
  by intros x ?%not_elem_of_nil.
Qed.

Lemma ec_resent_trans cs cs' s s' s'' : ec_resent cs s s' → ec_resent cs' s' s'' →
  ec_resent (cs ++ cs') s s''.
Proof.
  intros (env & w & -> & W1 & W2 & W3) (env' & w' & -> & V1 & V2 & V3).
  exists env', (w ++ w'). cbn in *. split; [done|]. split; [by rewrite V1, W1, app_assoc|]. split.
  - intros x [(c & ? & ?)%W2|(c & ? & ?)%V2]%elem_of_app; exists c; (split; [|done]);
      apply elem_of_app; auto.
  - intros Hs. destruct (W3 Hs) as [Hs' ->]. destruct (V3 Hs') as [? ->]. split; [done|].
    by rewrite fmap_app, concat_app.
Qed.

Lemma ec_resent_ok h cs s s' : ec_ok h s → ec_resent cs s s' → ec_ok h s'.
Proof. intros [] (env & w & -> & _). by constructor. Qed.

Lemma ec_resent_acked cs s s' : ec_resent cs s s' → es_chunk_acked s' = es_chunk_acked s.
Proof. by intros (env & w & -> & _). Qed.

Lemma ec_mtu_eq : ec_mtu params = prm_mtu_bytes params ∧ ec_ppc params = prm_packets_per_chunk params.
Proof.
  destruct (geometry_pos _ _ _ Hsend) as (?&?&?). unfold ec_mtu, ec_ppc, or_else.
  split; repeat case_inner_bool; lia.
Qed.

(** The packets of a chunk are those of the one-shot send. *)
Lemma ec_packets_eq h c : sh_msg_id h = msg_id → sh_buffer_size h = length →
  0 ≤ c < total_chunks_of params length →
  ec_packets params h storage c (zrange 0 (ec_ppc params)) = Some (chunk_wire c).
Proof.
  intros Hh1 Hh2 Hc. destruct ec_mtu_eq as [Hmtu Hppc].
  destruct (geometry_pos _ _ _ Hsend) as (Hm & Hp & Hl).
  pose proof (proj1 (chunk_has_packet _ _ _ Hsend c ltac:(lia)) (proj2 Hc)) as Hcp.
  rewrite Hppc. unfold Resend.chunk_wire, packets_of_chunk.
  set (ppc := prm_packets_per_chunk params) in *. set (n := total_packets_of params length) in *.
  assert (∀ j i, 0 ≤ i → i + Z.of_nat j = ppc →
    ec_packets params h storage c (zrange i ppc) =
      Some ((λ i, (prm_udp_server_port params, packet_datagram (built_packet params msg_id storage length i)))
        <$> zrange (c * ppc + i) (Z.min ((c + 1) * ppc) n))) as H.
  2: { rewrite (H (Z.to_nat ppc) 0) by lia. by rewrite Z.add_0_r. }
  induction j as [|j IH]; intros i Hi Hj.
  { rewrite !zrange_nil by lia. done. }
  rewrite (zrange_cons i) by lia. cbn [ec_packets]. rewrite Hppc, Hmtu, Hh2. fold ppc.
  rewrite (u32_small (c * ppc)), (u32_small (c * ppc + i)) by nia.
  assert (0 ≤ c * ppc + i < 262144 + 65536) as Hpo by nia.
  rewrite (u64_small (_ * prm_mtu_bytes params))
    by (unfold MAX_PAYLOAD_SIZE, sizeof_SDRPacketHeader in *; nia).
  rewrite Z.geb_leb. pose proof (packet_starts _ _ _ Hsend (c * ppc + i) ltac:(lia)) as Hstart. fold n in Hstart.
  destruct (Z.leb_spec length ((c * ppc + i) * prm_mtu_bytes params)) as [Hge|Hlt].
  { rewrite zrange_nil; [done|]. apply Z.min_le_iff. right. apply Z.nlt_ge. intros Hlt%Hstart. lia. }
  apply Hstart in Hlt as Hin.
  destruct (data_packet_eq params msg_id storage length (c * ppc + i) Hsend Hid ltac:(fold n; lia))
    as (p & Hp' & _).
  assert (built_packet params msg_id storage length (c * ppc + i) = p) as Hbp
    by (unfold built_packet; by rewrite Hp').
  unfold data_packet in Hp'.
  rewrite (u32_small (c * ppc + i)), (u64_small (_ * prm_mtu_bytes params)) in Hp'
    by (unfold MAX_PAYLOAD_SIZE, sizeof_SDRPacketHeader in *; nia).
  rewrite Hh1.
  destruct (Z.ltb_spec (Z.of_nat (List.length storage)) ((c * ppc + i) * prm_mtu_bytes params)) as [?|_]; [done|].
  rewrite (u64_small (length - _)) in * by lia.
  rewrite Z.gtb_ltb, (proj2 (Z.ltb_ge _ _)) in Hp' by lia.
  fold ppc in Hp'. destruct (create_data_packet _ _ _ _ _ _) as [[q|]|]; [|done|done].
  cbn [mbind option_bind option_map] in *. injection Hp' as Hp'.
  rewrite (IH (i + 1)) by lia. cbn [mbind option_bind].
  rewrite (zrange_cons (c * ppc + i)) by lia. rewrite Z.add_assoc, fmap_cons, Hbp, Hp'. done.
Qed.

Lemma retransmit_chunk_eq h s c : ec_ok h s → 0 ≤ c < total_chunks_of params length →
  ∃ s', retransmit_chunk s params h c = Some s' ∧ ec_resent [c] s s'.
Proof.
  intros Hs Hc. destruct (eo_handle h s Hs) as (_ & Hh1 & Hh2). unfold retransmit_chunk, open_udp.
  destruct (hd true (ev_sockets (es_env s))) eqn:Hhd; cbn [negb].
  - rewrite (eo_storage h s Hs), ec_packets_eq by done. cbn [mbind option_bind].
    eexists. split; [done|]. eexists _, (chunk_wire c). split; [reflexivity|]. split; [done|]. split.
    + intros x Hx. exists c. split; [by apply list_elem_of_singleton|done].
    + intros E. cbn. rewrite E, app_nil_r. done.
  - eexists. split; [done|]. eexists _, []. split; [reflexivity|]. cbn. rewrite app_nil_r.
    split; [done|]. split; [by intros x ?%not_elem_of_nil|]. intros E. by rewrite E in Hhd.
Qed.

(** *** Walks that send missing chunks again *)

(** The chunks of a list that are not acknowledged. *)
Definition ec_unacked (s : ECSender) (chunks : list Z) : list Z :=
  List.filter (λ c, negb (acked_at (es_chunk_acked s) c)) chunks.

Lemma ec_unacked_resent cs s s' chunks : ec_resent cs s s' → ec_unacked s' chunks = ec_unacked s chunks.
Proof. intros H. unfold ec_unacked. by rewrite (ec_resent_acked _ _ _ H). Qed.

Lemma ec_acked_lookup h s c : ec_ok h s → 0 ≤ c < dc →
  es_chunk_acked s !! Z.to_nat c = Some (acked_at (es_chunk_acked s) c).
Proof. intros Hs Hc. apply acked_at_lookup. rewrite (eo_acked h s Hs). lia. Qed.

Lemma ec_unacked_app s l1 l2 : ec_unacked s (l1 ++ l2) = ec_unacked s l1 ++ ec_unacked s l2.
Proof. apply List.filter_app. Qed.

(** A walk whose steps send the chunks of [g] that are not acknowledged. *)
Lemma walk_ok {A} (step : ECSender → A → option ECSender) (g : A → list Z) h xs :
  (∀ x s, x ∈ xs → ec_ok h s → ∃ s', step s x = Some s' ∧ ec_resent (ec_unacked s (g x)) s s') →
  ∀ s, ec_ok h s →
  ∃ s', foldl_opt step s xs = Some s' ∧ ec_resent (ec_unacked s (concat (g <$> xs))) s s'.
Proof.
  induction xs as [|x xs IH]; intros Hstep s Hs; cbn [foldl_opt].
  { exists s. split; [done|apply ec_resent_refl]. }
  destruct (Hstep x s) as (s1 & -> & H1); [by left|done|]. cbn [mbind option_bind].
  destruct (IH ltac:(intros; apply Hstep; [by right|done]) s1 (ec_resent_ok _ _ _ _ Hs H1)) as (s' & -> & H2).
  exists s'. split; [done|]. rewrite (ec_unacked_resent _ _ _ _ H1) in H2.
  cbn [fmap list_fmap concat]. rewrite ec_unacked_app. by apply (ec_resent_trans _ _ s s1).
Qed.

Lemma gap_walk_ok h chunks s : ec_ok h s → Forall (λ c, 0 ≤ c < dc) chunks →
  ∃ s', foldl_opt (ec_gap_step params h) s chunks = Some s' ∧ ec_resent (ec_unacked s chunks) s s'.
Proof.
  intros Hs Hin. rewrite Forall_forall in Hin.
  destruct (walk_ok (ec_gap_step params h) (λ c, [c]) h chunks) with (s := s) as (s' & H1 & H2); [|done|].
  - intros c s0 Hc Hs0. unfold ec_gap_step, ec_unacked. cbn [List.filter].
    rewrite (ec_acked_lookup h) by auto. cbn [mbind option_bind].
    destruct (acked_at (es_chunk_acked s0) c); cbn [negb].
    + exists s0. split; [done|apply ec_resent_refl].
    + apply retransmit_chunk_eq; [done|]. specialize (Hin c Hc). lia.
  - exists s'. split; [done|]. replace chunks with (concat ((λ c, [c]) <$> chunks)); [done|].
    clear. induction chunks as [|c chunks IH]; [done|]. cbn. by f_equal.
Qed.

Lemma gaps_walk_ok h msg gaps s : msg_ok msg → ec_ok h s → Forall (λ i, 0 ≤ i < 16) gaps →
  ∃ s', foldl_opt (ec_gaps_step params h dc msg) s gaps = Some s' ∧
    ec_resent (ec_unacked s (reported_gaps dc msg gaps)) s s'.
Proof.
  intros Hm Hs Hg. rewrite Forall_forall in Hg. unfold reported_gaps.
  eapply (walk_ok (ec_gaps_step params h dc msg)); [|exact Hs]. intros i s0 Hi Hs0. unfold ec_gaps_step.
  destruct (gap_chunks_ok dc msg i Hm (Hg i Hi)) as (chunks & -> & Hin). cbn [mbind option_bind default id].
  by apply gap_walk_ok.
Qed.

(** The chunks whose bit is clear, in the words the message has. *)
Definition bitmap_lacks (msg : ControlMessage) (chunks : list Z) : list Z :=
  List.filter (λ c, negb (bit_at (cm_chunk_bitmap msg) c)) chunks.

Lemma missing_bitmap_ok h msg limit chunks : msg_ok msg → ∀ sent s, ec_ok h s → sent ≤ limit →
  Forall (λ c, 0 ≤ c < 1024 ∧ c < dc) chunks →
  ∃ s', retransmit_missing_bitmap params h msg limit chunks sent s = Some s' ∧
    ec_resent (take (Z.to_nat (limit - sent)) (bitmap_lacks msg chunks)) s s'.
Proof.
  intros Hm. induction chunks as [|c chunks IH]; intros sent s Hs Hle Hin; cbn [retransmit_missing_bitmap].
  { exists s. split; [done|]. unfold bitmap_lacks. cbn [List.filter]. rewrite take_nil. apply ec_resent_refl. }
  apply Forall_cons in Hin as [Hc Hin]. rewrite Z.geb_leb.
  destruct (Z.leb_spec limit sent).
  { exists s. split; [done|]. replace (limit - sent) with 0 by lia. apply ec_resent_refl. }
  destruct (lookup_lt_is_Some_2 (cm_chunk_bitmap msg) (Z.to_nat (c / 64))) as [word Hword].
  { rewrite (mo_bitmap _ Hm). assert (c / 64 < 16) by (apply Z.div_lt_upper_bound; lia). lia. }
  rewrite Hword. cbn [mbind option_bind].
  assert ((Z.land word (bit_mask (c mod 64)) =? 0) = negb (bit_at (cm_chunk_bitmap msg) c)) as ->.
  { unfold bit_at. rewrite Hword. rewrite land_bit_mask; [|apply Z.mod_pos_bound; lia]. done. }
  unfold bitmap_lacks. cbn [List.filter]. destruct (bit_at (cm_chunk_bitmap msg) c); cbn [negb].
  - by apply IH.
  - destruct (retransmit_chunk_eq h s c Hs) as (s1 & -> & H1); [lia|]. cbn [mbind option_bind].
    destruct (IH (sent + 1) s1 (ec_resent_ok _ _ _ _ Hs H1)) as (s' & -> & H2); [lia|done|].
    exists s'. split; [done|]. replace (Z.to_nat (limit - sent)) with (S (Z.to_nat (limit - (sent + 1)))) by lia.
    by apply (ec_resent_trans [c] _ s s1).
Qed.

Lemma all_done_eq acked chunks : Forall (λ c, 0 ≤ c < Z.of_nat (List.length acked)) chunks →
  all_done acked chunks = Some (forallb (acked_at acked) chunks).
Proof.
  induction 1 as [|c chunks Hc _ IH]; [done|]. cbn [all_done forallb].
  rewrite acked_at_lookup by done. cbn [mbind option_bind]. by destruct (acked_at acked c).
Qed.

(** *** The answer to a NACK *)

(** The chunks a message asks for that nothing acknowledges, and the first eight
    its bitmap lacks. *)
Definition ec_asked (s : ECSender) (msg : ControlMessage) : list Z :=
  List.filter (λ c, negb (acked_at (es_chunk_acked s) c || bitmap_has 16 msg c))
    (reported_gaps dc msg (zrange 0 (cm_num_gaps msg))) ++
  take 8 (bitmap_lacks msg (zrange 0 (Z.min (64 * Z.min (cm_chunk_bitmap_words msg) 16) dc))).

(** [s'] is [s] after a message that acknowledges [ack], [cs] sent again. *)
Record ec_handled (ack : Z → bool) (cs : list Z) (s s' : ECSender) : Prop := {
  eh_cfg : es_cfg s' = es_cfg s;
  eh_conn : es_conn s' = es_conn s;
  eh_acked : ∀ c, 0 ≤ c < dc →
    acked_at (es_chunk_acked s') c = acked_at (es_chunk_acked s) c || ack c;
  eh_chunks : Forall (λ c, 0 ≤ c < dc) cs;
  eh_wire : ∃ w, ev_wire (es_env s') = ev_wire (es_env s) ++ w ∧
    (∀ x, x ∈ w → ∃ c, c ∈ cs ∧ x ∈ chunk_wire c) ∧
    (ev_sockets (es_env s) = [] → ev_sockets (es_env s') = [] ∧ w = concat (chunk_wire <$> cs))
}.

Lemma ec_apply_bitmap_ok h s msg : ec_ok h s → msg_ok msg →
  ∃ acked, ec_apply_bitmap s dc msg = Some (es_with_acked s acked) ∧ ec_ok h (es_with_acked s acked) ∧
    ∀ c, 0 ≤ c < dc → acked_at acked c = acked_at (es_chunk_acked s) c || bitmap_has 16 msg c.
Proof.
  intros Hs Hm. pose proof (eo_acked h s Hs) as Hl. unfold ec_apply_bitmap.
  rewrite zrange_nil by lia. cbn [existsb].
  destruct (apply_bitmap_eq 16 dc msg (es_chunk_acked s)) as (acked & -> & Hl' & Ha);
    [lia|apply Hm|lia|]. cbn [mbind option_bind].
  exists acked. split; [done|]. split.
  - destruct Hs. constructor; try done. cbn. lia.
  - intros c Hc. rewrite Ha, (proj2 (Z.ltb_lt c dc)) by lia. cbn [andb]. apply orb_comm.
Qed.

Lemma bitmap_lacks_range msg hi : hi ≤ dc →
  Forall (λ c, 0 ≤ c < dc) (bitmap_lacks msg (zrange 0 hi)).
Proof.
  intros Hhi. apply Forall_forall. intros c [Hc _]%elem_of_filter_bool.
  apply elem_of_zrange in Hc. lia.
Qed.

Lemma on_ec_nack_ok h s msg : ec_ok h s → msg_ok msg →
  ∃ s', on_ec_nack s params h dc msg =
      Some (if forallb (acked_at (es_chunk_acked s')) (zrange 0 dc) then EcReturn 0 s' else EcAgain s') ∧
    ec_ok h s' ∧ ec_handled (bitmap_has 16 msg) (ec_asked s msg) s s'.
Proof.
  intros Hs Hm. unfold on_ec_nack.
  destruct (ec_apply_bitmap_ok h s msg Hs Hm) as (acked & -> & Hs1 & Ha). cbn [mbind option_bind].
  set (s1 := es_with_acked s acked) in *.
  pose proof (message_gaps msg Hm) as Hg.
  destruct (gaps_walk_ok h msg (zrange 0 (cm_num_gaps msg)) s1 Hm Hs1 Hg) as (s2 & -> & H2).
  cbn [mbind option_bind]. pose proof (ec_resent_ok _ _ _ _ Hs1 H2) as Hs2.
  set (lacking := zrange 0 (Z.min (64 * Z.min (cm_chunk_bitmap_words msg) 16) dc)).
  destruct (missing_bitmap_ok h msg 8 lacking Hm 0 s2 Hs2) as (s3 & -> & H3); [lia| |].
  { apply Forall_forall. intros c Hc%elem_of_zrange. lia. }
  cbn [mbind option_bind]. pose proof (ec_resent_ok _ _ _ _ Hs2 H3) as Hs3.
  rewrite all_done_eq.
  2: { apply Forall_forall. intros c Hc%elem_of_zrange. rewrite (eo_acked h s3 Hs3). lia. }
  cbn [mbind option_bind]. exists s3. split; [done|]. split; [done|].
  assert (ec_unacked s1 (reported_gaps dc msg (zrange 0 (cm_num_gaps msg))) =
    List.filter (λ c, negb (acked_at (es_chunk_acked s) c || bitmap_has 16 msg c))
      (reported_gaps dc msg (zrange 0 (cm_num_gaps msg)))) as E.
  { pose proof (reported_gaps_range dc msg _ Hm Hg) as Hr. unfold ec_unacked.
    revert Hr. generalize (reported_gaps dc msg (zrange 0 (cm_num_gaps msg))). intros l Hr.
    induction Hr as [|c l' Hc _ IH]; [done|]. cbn [List.filter]. rewrite IH.
    change (es_chunk_acked s1) with acked. by rewrite (Ha c Hc). }
  rewrite E in H2. pose proof (ec_resent_trans _ _ _ _ _ H2 H3) as H. fold (ec_asked s msg) in H.
  change (Z.to_nat (8 - 0)) with 8%nat in H. fold lacking in H.
  change (ec_resent (ec_asked s msg) s1 s3) in H.
  destruct H as (env & w & -> & W1 & W2 & W3). constructor; try done.
  - apply Forall_app. split.
    + apply Forall_forall. intros c [Hc _]%elem_of_filter_bool.
      pose proof (reported_gaps_range dc msg _ Hm Hg) as Hr. rewrite Forall_forall in Hr. by apply Hr.
    + apply Forall_take, bitmap_lacks_range. lia.
  - by exists w.
Qed.

(** *** The control loop *)

Section Rounds.
Context (R : Z → Prop) (h : SDRSendHandle).

(** A message that may be handled and whose bitmap has only chunks of [R]. *)
Definition ec_truthful (msg : ControlMessage) : Prop :=
  msg_ok msg ∧ ∀ c, 0 ≤ c < dc → bitmap_has 16 msg c = true → R c.

Record ec_rounds (s s' : ECSender) : Prop := {
  er_ok : ec_ok h s';
  er_cfg : es_cfg s' = es_cfg s;
  er_input : rtc input_step (es_input s) (es_input s');
  er_acked : ∀ c, 0 ≤ c < dc → acked_at (es_chunk_acked s') c = true →
    acked_at (es_chunk_acked s) c = true ∨ R c;
  er_wire : ∃ w, ev_wire (es_env s') = ev_wire (es_env s) ++ w ∧
    ∀ x, x ∈ w → ∃ c, 0 ≤ c < dc ∧ x ∈ chunk_wire c
}.

Lemma ec_rounds_refl s : ec_ok h s → ec_rounds s s.
Proof.
  intros Hs. constructor; try done; [by left|]. exists []. rewrite app_nil_r. split; [done|].
  by intros x ?%not_elem_of_nil.
Qed.

Lemma ec_rounds_trans s s' s'' : ec_rounds s s' → ec_rounds s' s'' → ec_rounds s s''.
Proof.
  intros [H1 H2 H3 H4 (w & H5 & H6)] [K1 K2 K3 K4 (w' & K5 & K6)]. constructor; try done.
  - congruence.
  - by etrans.
  - intros c Hc [Ha|?]%K4; [by apply H4|by right|done].
  - exists (w ++ w'). split; [by rewrite K5, H5, app_assoc|].
    intros x [?|?]%elem_of_app; [by apply H6|by apply K6].
Qed.

Lemma ec_rounds_handled ack cs s s' : ec_ok h s' → ec_handled ack cs s s' →
  (∀ c, 0 ≤ c < dc → ack c = true → R c) → ec_rounds s s'.
Proof.
  intros Hs [H1 H2 H3 H4 (w & H6 & H7 & _)] Hack. constructor; try done.
  - unfold es_input. by rewrite H2.
  - intros c Hc. rewrite H3 by done. rewrite orb_true_iff. intros [?|?]; [by left|right; auto].
  - exists w. split; [done|]. intros x (c & Hc & Hx)%H7. exists c. split; [|done].
    rewrite Forall_forall in H4. by apply H4.
Qed.

(** Only the control connection moves on. *)
Lemma ec_rounds_conn s conn conn' : ec_ok h s → es_conn s = Some conn →
  cn_connection_ctx conn' = cn_connection_ctx conn →
  (∃ client client', cn_tcp_client conn = Some client ∧ cn_tcp_client conn' = Some client' ∧
     rtc input_step (ep_input client) (ep_input client')) →
  ec_rounds s (es_with_conn s conn').
Proof.
  intros Hs Hc Hx (client & client' & Hcl & Hcl' & Hstep).
  destruct (eo_conn h s Hs) as (conn0 & ? & Hc0 & Hp & _). assert (conn0 = conn) as -> by congruence.
  constructor; try done.
  - destruct Hs. constructor; try done. cbn. exists conn', client'. by rewrite Hx.
  - unfold es_input. cbn. by rewrite Hc, Hcl, Hcl'.
  - by left.
  - exists []. rewrite app_nil_r. split; [done|]. by intros ? ?%not_elem_of_nil.
Qed.

Definition ec_round_state (r : ec_round) : ECSender :=
  match r with EcReturn _ s | EcBlocked s | EcAgain s => s end.

Lemma ec_on_message_ok s msg : ec_ok h s → ec_truthful msg →
  ∃ r, ec_on_message s params h dc msg = Some r ∧ ec_rounds s (ec_round_state r).
Proof.
  intros Hs [Hm Ht]. unfold ec_on_message.
  destruct (msg_is msg EC_ACK || msg_is msg COMPLETE_ACK).
  { eexists. split; [done|by apply ec_rounds_refl]. }
  destruct (_ || msg_is msg SR_ACK).
  - destruct (on_ec_nack_ok h s msg Hs Hm) as (s' & -> & Hs' & Hh).
    pose proof (ec_rounds_handled _ _ _ _ Hs' Hh Ht). eexists. split; [done|].
    by destruct (forallb _ _).
  - eexists. split; [done|by apply ec_rounds_refl].
Qed.

Lemma ec_poll_round_ok uninit s : ec_ok h s → all_messages ec_truthful (es_input s) →
  ∃ r, ec_poll_round uninit h params dc s = Some r ∧ ec_rounds s (ec_round_state r) ∧
    ∀ s', r = EcAgain s' → (input_size (es_input s') < input_size (es_input s))%nat.
Proof.
  intros Hs Hall. destruct (eo_conn h s Hs) as (conn & client & Hc & Hp & Hcl).
  unfold ec_poll_round. rewrite Hc. cbn [mbind option_bind]. rewrite Hcl. cbn [mbind option_bind].
  assert (es_input s = ep_input client) as Hin by (unfold es_input; by rewrite Hc, Hcl).
  rewrite Hin in Hall.
  destruct (ep_receive client uninit) as [[[ok msg] client']|] eqn:Hr.
  2: { eexists. split; [done|]. split; [by apply ec_rounds_refl|done]. }
  destruct (ep_receive_step _ _ _ _ _ Hr) as [Hstep _].
  set (conn' := cn_with_client conn client').
  assert (ec_rounds s (es_with_conn s conn')) as H1
    by (apply (ec_rounds_conn s conn); [done..|by exists client, client']).
  assert (∀ r, ec_rounds (es_with_conn s conn') (ec_round_state r) → ep_alive client = true ∨
      (∀ s', r ≠ EcAgain s') → ec_rounds s (ec_round_state r) ∧
      ∀ s', r = EcAgain s' → (input_size (es_input s') < input_size (ep_input client))%nat) as Hfin.
  { intros r H2 Hor. split; [by eapply ec_rounds_trans|]. intros s' ->.
    destruct Hor as [Ha|Hne]; [|by destruct (Hne s')].
    pose proof (ep_receive_consumes client _ _ _ _ Ha Hr).
    pose proof (input_steps_le _ _ (er_input _ _ H2)) as Hle. cbn [ec_round_state] in Hle.
    change (es_input (es_with_conn s conn')) with (ep_input client') in Hle. lia. }
  destruct (ep_alive client) eqn:Ha.
  2: { rewrite (ep_receive_dead client uninit Ha) in Hr. injection Hr as <- <- <-. cbn [negb].
       unfold sdr_send_poll. cbn [conn' cn_with_client cn_tcp_client]. cbn in Ha. rewrite Ha. cbn [negb].
       cbn [Z.eqb]. eexists. split; [done|]. rewrite Hin. apply Hfin; [|by right].
       eapply (ec_rounds_conn _ conn'); [apply (er_ok _ _ H1)|done|done|by exists client, client]. }
  destruct ok; cbn [negb].
  - destruct (received_message _ _ _ _ _ Hall Hr) as [Ht _].
    destruct (ec_on_message_ok _ msg (er_ok _ _ H1) Ht) as (r & -> & H2).
    exists r. rewrite Hin. split; [done|]. apply Hfin; [done|by left].
  - destruct (sdr_send_poll uninit conn') as [rc conn''] eqn:Hpoll.
    destruct (send_poll_conn uninit conn' client' rc conn'' eq_refl Hpoll)
      as (Hctx & client'' & Hcl'' & Hstep'').
    assert (ec_rounds (es_with_conn s conn') (es_with_conn (es_with_conn s conn') conn'')) as H2
      by (eapply (ec_rounds_conn _ conn'); [apply (er_ok _ _ H1)|done|done|by exists client', client'']).
    rewrite Hin. destruct rc as [code|].
    + destruct (code =? 0); [eexists; split; [done|]; apply Hfin; [done|by left]|].
      rewrite Hcl''. cbn [mbind option_bind]. eexists. split; [done|].
      destruct (negb _); apply Hfin; (done || by left).
    + eexists. split; [done|]. apply Hfin; [done|by left].
Qed.

Lemma ec_poll_loop_ok uninit fuel : ∀ s, ec_ok h s → all_messages ec_truthful (es_input s) →
  (input_size (es_input s) < fuel)%nat →
  ∃ r s', ec_poll_loop uninit h params dc fuel s = Some (Some r, s') ∧ ec_rounds s s'.
Proof.
  induction fuel as [|fuel IH]; intros s Hs Hall Hf; [lia|].
  destruct (ec_poll_round_ok uninit s Hs Hall) as (r & Hr & H1 & Hless).
  cbn [ec_poll_loop]. rewrite Hr. cbn [mbind option_bind]. destruct r as [code s'|s'|s'].
  - by exists (Returned code), s'.
  - by exists Blocked, s'.
  - destruct (IH s' (er_ok _ _ H1)) as (r & s'' & H2 & H3).
    { eapply all_messages_step; [done|apply (er_input _ _ H1)]. }
    { specialize (Hless s' eq_refl). lia. }
    exists r, s''. split; [done|by eapply ec_rounds_trans].
Qed.
End Rounds.
End Posted.

(** ** Examples *)

(** Twelve bytes encoded with the [before] parameters of the connection; the CTS
    has packets of 5 bytes in chunks of 2. *)
Definition example_ec_fresh (bytes : Z) : ECSender :=
  new_ec_sender (mkECConfig 4 2 0 bytes 3) (mkEnv 0 [] [] []).

Definition example_ec_conn (before : ConnectionParams) (events : list recv_event) : SDRConnection :=
  sdr_set_params (example_tx_conn true (Data (message_image example_padding example_cts) :: events)) before.

Notation example_ec_start before bytes events :=
  (encode_and_send (Some example_coder) example_padding zero_message (mkDataCalls 6 1 (λ _, 1)) new_process
    (example_ec_fresh bytes) (example_ec_conn before events) example_payload 12).

Definition example_ec_sender (before : ConnectionParams) (bytes : Z) (events : list recv_event) : ECSender :=
  match example_ec_start before bytes events with
  | Some (_, _, s) => s
  | None => example_ec_fresh bytes
  end.

(** Chunks of 20 bytes before the CTS. *)
Definition example_long_params : ConnectionParams :=
  mkParams 1 0 5 0 0 4 0 0 0 0 0 0 2 9000 (strncpy_ip loopback) 9000.

(** The receiver misses chunks 0 and 1, without a bitmap. *)
Definition example_ec_nack : ControlMessage :=
  mkMessage CONTROL_MAGIC (value EC_NACK) 1 zero_params 0 (replicate 16 0)
    1 (replicate 16 0) (2 :: replicate 15 0).

Definition example_ec_storage : list Z := default [] (encode_storage example_coder example_layout example_payload).

Definition example_ec_handle : SDRSendHandle := mkSendHandle 0 1 40 8.

Lemma example_ec_storage_length : List.length example_ec_storage = 40%nat.
Proof. vm_compute. reflexivity. Qed.

Lemma example_ec_sendable : sendable example_cts_params example_ec_storage 40.
Proof.
  constructor; [apply example_cts_params_wf|..]; rewrite ?example_ec_storage_length;
    cbn [example_cts_params prm_mtu_bytes prm_packets_per_chunk];
    unfold MAX_PAYLOAD_SIZE, sizeof_SDRPacketHeader; lia.
Qed.

Lemma example_ec_fits : total_packets_of example_cts_params 40 ≤ 262144.
Proof. by vm_compute. Qed.

Lemma example_ec_nack_wf : wf_message example_ec_nack.
Proof.
  constructor; lazymatch goal with |- wf_params _ => apply zero_params_wf | _ => idtac end;
    cbn [example_ec_nack cm_magic cm_msg_type cm_connection_id cm_chunk_bitmap_words cm_chunk_bitmap
      cm_num_gaps cm_gap_start cm_gap_len value replicate]; unfold CONTROL_MAGIC; solve_wf.
Qed.

Lemma example_ec_nack_ok : msg_ok example_ec_nack.
Proof. apply wf_message_ok; [apply example_ec_nack_wf|cbn; lia]. Qed.

Lemma example_ec_ok events :
  es_sends (example_ec_sender example_cts_params 12 events) = Some example_ec_handle →
  es_send_storage (example_ec_sender example_cts_params 12 events) = example_ec_storage →
  (∃ conn client, es_conn (example_ec_sender example_cts_params 12 events) = Some conn ∧
     cx_params (cn_connection_ctx conn) = example_cts_params ∧ cn_tcp_client conn = Some client) →
  es_chunk_acked (example_ec_sender example_cts_params 12 events) = [false; false] →
  ec_ok example_cts_params 0 example_ec_storage 40 2 example_ec_handle
    (example_ec_sender example_cts_params 12 events).
Proof. intros H1 H2 H3 H4. constructor; [by split_and!|done|done|by rewrite H4]. Qed.

Ltac example_ec_started :=
  apply example_ec_ok; [vm_compute; reflexivity|vm_compute; reflexivity
    |eexists _, _; split; [vm_compute; reflexivity|split; vm_compute; reflexivity]
    |vm_compute; reflexivity].

(** ** Properties *)

(** What [encode_and_send] achieves: when it returns 0, data and parity as
    [encode_storage] lays them out are the message that was posted - each packet
    the socket accepted is on the wire, once and in order - and the sender keeps
    them, with no chunk acknowledged, one flag per data chunk of the layout. *)
Theorem ec_send_posts isal pad uninit os ps s conn data length ps' s' conn' :
  let ly := ec_layout (cx_params (cn_connection_ctx conn)) (es_cfg s) length in
  ly_ok ly → coder_fits isal → ly_data_bytes ly ≤ Z.of_nat (List.length data) →
  cx_auto_send_data (cn_connection_ctx conn) = true →
  encode_and_send (Some isal) pad uninit os ps s conn data length = Some (Returned 0, ps', s') →
  es_conn s' = Some conn' →
  let params := cx_params (cn_connection_ctx conn') in
  ∃ storage, let size := Z.of_nat (List.length storage) in
    encode_storage isal ly data = Some storage ∧
    (sendable params storage size → total_packets_of params size ≤ 262144 →
     ∃ h, ec_ok params (sh_msg_id h) storage size (ly_data_chunks ly) h s' ∧ 0 ≤ sh_msg_id h < 1024 ∧
       (∀ c, acked_at (es_chunk_acked s') c = false) ∧
       ev_wire (es_env s') = ev_wire (es_env s) ++
         (wire_of params (sh_msg_id h) storage size <$>
            List.filter (λ i, dc_sendto os i >? 0) (zrange 0 (total_packets_of params size)))).
Proof.
  intros ly Hly Hcoder Hdata Hauto Hrun Hconn' params.
  destruct (encode_storage_ok isal ly data Hly Hcoder Hdata) as (storage & He & _).
  exists storage. split; [done|]. intros Hsend Hfits. revert Hrun. unfold encode_and_send. fold ly.
  rewrite He. cbn [mbind option_bind].
  destruct (sdr_send_post _ _ _ _ _ _ _ _) as [[[[[rc ps1] conn1] handle] wire]|] eqn:Hp; [|done].
  cbn [mbind option_bind]. destruct rc as [code|]; [|done].
  destruct (code =? 0) eqn:Hcode; cbn [negb]; [|by intros [= -> _ _]]. apply Z.eqb_eq in Hcode as ->.
  destruct (send_post_sent _ _ _ _ _ _ _ _ _ _ _ _ Hp) as (h & -> & Hid & Hsz & [client Hcl] & Hwire).
  intros [= <- <-]. cbn in Hconn'. injection Hconn' as <-. rewrite Hauto in Hwire. cbv zeta in Hwire.
  destruct (geometry_pos _ _ _ Hsend) as (Hm & Hpp & Hlen). fold params in Hwire.
  destruct (ly_bounds ly Hly) as (? & _).
  rewrite (u64_small (_ + prm_mtu_bytes params - 1)) in Hwire
    by (unfold MAX_PAYLOAD_SIZE, sizeof_SDRPacketHeader in *; lia).
  fold (total_packets_of params (Z.of_nat (List.length storage))) in Hwire.
  destruct Hwire as (log & Hlog & ->).
  rewrite (send_data_loop_eq _ _ _ _ _ _ Hsend Hid) in Hlog.
  2: { split; [|done]. apply Z.div_pos; lia. }
  injection Hlog as <-. exists h. split; [|split; [exact Hid|split; [|done]]].
  - constructor; [by split_and!|done|by exists conn1, client|].
    assert (Z.of_nat (List.length (replicate (Z.to_nat (ly_data_chunks ly)) false)) = ly_data_chunks ly) as Hr
      by (rewrite length_replicate; lia).
    exact Hr.
  - intros c. change (acked_at (replicate (Z.to_nat (ly_data_chunks ly)) false) c = false).
    unfold acked_at. destruct (0 <=? c); [|done]. cbn [andb].
    destruct (_ !! _) as [x|] eqn:E; [|done]. by apply lookup_replicate in E as [-> _].
Qed.

Lemma ec_send_posts_witness :
  ev_wire (es_env (example_ec_sender example_cts_params 12 [])) =
    wire_of example_cts_params 0 example_ec_storage 40 <$> zrange 0 8.
Proof.
  destruct (ec_send_posts example_coder example_padding zero_message (mkDataCalls 6 1 (λ _, 1)) new_process
    (example_ec_fresh 12) (example_ec_conn example_cts_params []) example_payload 12 (mkProcess 1 1 1)
    (example_ec_sender example_cts_params 12 [])
    (default (example_tx_conn true []) (es_conn (example_ec_sender example_cts_params 12 []))))
    as (storage & He & H).
  - exact example_layout_ok.
  - exact example_coder_fits.
  - vm_compute. discriminate.
  - reflexivity.
  - vm_compute. reflexivity.
  - vm_compute. reflexivity.
  - assert (storage = example_ec_storage) as -> by (revert He; vm_compute; intros [= <-]; reflexivity).
    rewrite example_ec_storage_length in H. destruct H as (h & Hok & _ & _ & Hwire).
    + exact example_ec_sendable.
    + exact example_ec_fits.
    + assert (h = example_ec_handle) as ->.
      { destruct (eo_handle _ _ _ _ _ _ _ Hok) as [Hh _]. vm_compute in Hh. by injection Hh as <-. }
      exact Hwire.
Defined.

(** C21: An EC_NACK, EC_FALLBACK_SR, SR_NACK or SR_ACK is answered with what it
    asks for: the data chunks of its bitmap are acknowledged and no others, all
    the chunks of its gaps that are not acknowledged and then the first eight
    its bitmap lacks are sent again, whole and in order, and [poll] returns 0
    exactly when every data chunk is acknowledged. *)
Theorem ec_nack_resends params msg_id storage length dc h s msg :
  sendable params storage length → 0 ≤ msg_id < 1024 → total_packets_of params length ≤ 262144 →
  0 ≤ dc ≤ total_chunks_of params length →
  ec_ok params msg_id storage length dc h s → msg_ok msg → ev_sockets (es_env s) = [] →
  ∃ s', on_ec_nack s params h dc msg =
      Some (if forallb (acked_at (es_chunk_acked s')) (zrange 0 dc) then EcReturn 0 s' else EcAgain s') ∧
    (∀ c, 0 ≤ c < dc →
       acked_at (es_chunk_acked s') c = acked_at (es_chunk_acked s) c || bitmap_has 16 msg c) ∧
    ev_wire (es_env s') =
      ev_wire (es_env s) ++ concat (chunk_wire params msg_id storage length <$> ec_asked dc s msg).
Proof.
  intros Hsend Hid Hfits Hdc Hs Hm Hsock.
  destruct (on_ec_nack_ok params msg_id storage length dc Hsend Hid Hfits Hdc h s msg Hs Hm)
    as (s' & H1 & _ & [_ _ Ha _ (w & Hw & _ & Hex)]).
  exists s'. destruct (Hex Hsock) as [_ ->]. split_and!; done.
Qed.

Lemma ec_nack_resends_witness :
  let s := example_ec_sender example_cts_params 12 [] in
  ∃ s', on_ec_nack s example_cts_params example_ec_handle 2 example_ec_nack = Some (EcAgain s') ∧
    ev_wire (es_env s') = ev_wire (es_env s) ++
      concat (chunk_wire example_cts_params 0 example_ec_storage 40 <$> [0; 1]).
Proof.
  intros s.
  destruct (ec_nack_resends example_cts_params 0 example_ec_storage 40 2 example_ec_handle s example_ec_nack)
    as (s' & H1 & Ha & H2).
  - exact example_ec_sendable.
  - lia.
  - exact example_ec_fits.
  - vm_compute. split; discriminate.
  - example_ec_started.
  - exact example_ec_nack_ok.
  - vm_compute. reflexivity.
  - exists s'. split; [|exact H2].
    assert (acked_at (es_chunk_acked s') 0 = false) as E by (rewrite (Ha 0 ltac:(lia)); vm_compute; reflexivity).
    replace (zrange 0 2) with [0; 1] in H1 by (vm_compute; reflexivity).
    cbn [forallb] in H1. rewrite E in H1. exact H1.
Defined.

(** C12: [ECSender::poll] is defined and ends, and the sender believes only what it
    was told and sends only the message: over any control traffic whose bitmaps
    have only chunks of [R], every chunk acknowledged at the end was before or
    is in [R], and all it put on the wire are packets of the [dc] data chunks - no
    parity - as the one-shot send builds them. *)
Theorem ec_poll_sound params msg_id storage length dc uninit h s (R : Z → Prop) :
  sendable params storage length → 0 ≤ msg_id < 1024 → total_packets_of params length ≤ 262144 →
  0 ≤ dc ≤ total_chunks_of params length → poll_data_chunks s params = Some dc →
  ec_ok params msg_id storage length dc h s → all_messages (ec_truthful dc R) (es_input s) →
  ∃ r s', ec_poll uninit s = Some (Some r, s') ∧
    (∀ c, 0 ≤ c < dc → acked_at (es_chunk_acked s') c = true →
       acked_at (es_chunk_acked s) c = true ∨ R c) ∧
    ∃ w, ev_wire (es_env s') = ev_wire (es_env s) ++ w ∧
      ∀ x, x ∈ w → ∃ c i, 0 ≤ c < dc ∧ 0 ≤ i < total_packets_of params length ∧
        c * prm_packets_per_chunk params ≤ i < (c + 1) * prm_packets_per_chunk params ∧
        x = (prm_udp_server_port params, packet_datagram (built_packet params msg_id storage length i)).
Proof.
  intros Hsend Hid Hfits Hdc Hpc Hs Hall. unfold ec_poll.
  destruct (eo_handle _ _ _ _ _ _ _ Hs) as (-> & _).
  destruct (eo_conn _ _ _ _ _ _ _ Hs) as (conn & client & -> & Hpar & ->).
  rewrite Hpar, Hpc. cbn [mbind option_bind].
  destruct (ec_poll_loop_ok params msg_id storage length dc Hsend Hid Hfits Hdc R h uninit
    (S (S (input_size (es_input s)))) s Hs Hall) as (r & s' & -> & [_ _ _ Ha (w & Hw & Hin)]); [lia|].
  exists r, s'. split; [done|]. split; [done|]. exists w. split; [done|].
  intros x (c & Hc & Hx)%Hin.
  apply (elem_of_chunk_wire _ _ _ Hsend) in Hx as (i & Hi & <- & ->); [|lia].
  exists (i / prm_packets_per_chunk params), i. pose proof (sd_ppc _ _ _ Hsend).
  pose proof (Z.div_mod i (prm_packets_per_chunk params) ltac:(lia)).
  pose proof (Z.mod_pos_bound i (prm_packets_per_chunk params) ltac:(lia)).
  split; [done|]. split; [done|]. split; [lia|done].
Qed.

Lemma ec_poll_sound_witness :
  let s := example_ec_sender example_cts_params 12
    [Data (message_image example_padding example_ec_nack); RecvClosed] in
  ∃ r s', ec_poll zero_message s = Some (Some r, s') ∧
    ∀ c, 0 ≤ c < 2 → acked_at (es_chunk_acked s') c = false.
Proof.
  intros s.
  destruct (ec_poll_sound example_cts_params 0 example_ec_storage 40 2 zero_message example_ec_handle s
    (λ _, False)) as (r & s' & Hp & Ha & _).
  - exact example_ec_sendable.
  - lia.
  - exact example_ec_fits.
  - vm_compute. split; discriminate.
  - vm_compute. reflexivity.
  - example_ec_started.
  - eapply all_messages_next; [vm_compute; reflexivity| |].
    + intros bs msg m [= <-] Hd. vm_compute in Hd. injection Hd as <-. split.
      * solve_msg_ok.
      * intros c Hc Hb. assert (c = 0 ∨ c = 1) as [->| ->] by lia; vm_compute in Hb; discriminate.
    + eapply all_messages_next; [vm_compute; reflexivity|done|].
      apply all_messages_none. vm_compute. reflexivity.
  - exists r, s'. split; [exact Hp|]. intros c Hc.
    destruct (acked_at (es_chunk_acked s') c) eqn:E; [|reflexivity].
    destruct (Ha c Hc E) as [Hb|[]].
    assert (c = 0 ∨ c = 1) as [->| ->] by lia; vm_compute in Hb; discriminate.
Defined.

(** The first message of the traffic is the one handled. *)
Lemma ec_poll_first uninit s conn client h params dc pad m segs tail :
  es_conn s = Some conn → cn_tcp_client conn = Some client → tc_is_connected client = true →
  wf_padding pad → wf_message m → cm_magic m = CONTROL_MAGIC →
  concat segs = message_image pad m → es_input s = (Data <$> segs) ++ tail →
  ∃ client', ec_poll_round uninit h params dc s =
    ec_on_message (es_with_conn s (cn_with_client conn client')) params h dc m.
Proof.
  intros Hc Hcl Hcon Hpad Hwf Hmagic Hseg Hi. unfold ec_poll_round. rewrite Hc. cbn [mbind option_bind].
  rewrite Hcl. cbn [mbind option_bind].
  assert (ep_input client = (Data <$> segs) ++ tail) as Hin by (revert Hi; unfold es_input; by rewrite Hc, Hcl).
  destruct (receive_whole_message client uninit [] segs tail (message_image pad m))
    as (client' & Hr & _ & _); [exact Hcon|exact Hin|done|done| |].
  { rewrite length_message_image by done. unfold sizeof_ControlMessage. lia. }
  pose proof (deserialize_image uninit pad m [] Hpad Hwf Hmagic) as Hd. rewrite app_nil_r in Hd.
  rewrite Hd in Hr. rewrite Hr. by exists client'.
Qed.

Lemma zero_chunks_bitmap msg acked : length (cm_chunk_bitmap msg) = 16%nat →
  apply_bitmap 16 0 msg acked = Some acked.
Proof.
  intros Hl. unfold apply_bitmap.
  assert (∀ ws, Forall (λ w, 0 ≤ w < 16) ws → foldl_opt (λ acked w,
    word ← cm_chunk_bitmap msg !! Z.to_nat w; Some (apply_word 0 w word acked)) acked ws = Some acked) as H.
  2: { apply H, Forall_forall. intros w Hw%elem_of_zrange. lia. }
  induction 1 as [|w ws Hw _ IH]; [done|]. cbn [foldl_opt].
  destruct (lookup_lt_is_Some_2 (cm_chunk_bitmap msg) (Z.to_nat w)) as [word ->]; [lia|].
  cbn [mbind option_bind]. replace (apply_word 0 w word acked) with acked; [exact IH|].
  unfold apply_word. symmetry. assert (Forall (λ b, 0 ≤ b) (zrange 0 64)) as Hb.
  { apply Forall_forall. intros b Hb%elem_of_zrange. lia. }
  clear IH. induction Hb as [|b bs Hb _ IH]; [done|]. cbn [foldl].
  rewrite Z.geb_leb, (proj2 (Z.leb_le 0 _)) by lia. exact IH.
Qed.

(** A NACK when no chunk is counted: nothing is sent and [poll] succeeds. *)
Lemma zero_chunks_nack s params h msg : msg_ok msg → on_ec_nack s params h 0 msg = Some (EcReturn 0 s).
Proof.
  intros Hm. unfold on_ec_nack, ec_apply_bitmap. rewrite (zrange_nil (Z.of_nat _)) by lia. cbn [existsb].
  rewrite zero_chunks_bitmap by apply Hm. cbn [mbind option_bind].
  assert (es_with_acked s (es_chunk_acked s) = s) as -> by by destruct s.
  pose proof (message_gaps msg Hm) as Hg.
  assert (foldl_opt (ec_gaps_step params h 0 msg) s (zrange 0 (cm_num_gaps msg)) = Some s) as ->.
  { induction Hg as [|i gaps Hi _ IH]; [done|]. cbn [foldl_opt].
    assert (ec_gaps_step params h 0 msg s i = Some s) as ->; [|exact IH].
    unfold ec_gaps_step. destruct (gap_chunks_ok 0 msg i Hm Hi) as (chunks & -> & Hin).
    cbn [mbind option_bind]. destruct chunks as [|c chunks]; [done|]. apply Forall_cons in Hin as [? _]. lia. }
  cbn [mbind option_bind]. rewrite (zrange_nil 0 (Z.min _ 0)) by lia. by rewrite zrange_nil by lia.
Qed.

(** With [data_bytes] left at its default of 0 - which [encode_and_send]
    takes to mean the length passed to it - [poll] counts no data chunks: the
    first EC_NACK or EC_FALLBACK_SR of the receiver makes it report success, with
    nothing sent again. *)
Theorem ec_zero_data_bytes uninit s h conn client pad m segs tail :
  es_sends s = Some h → es_conn s = Some conn → cn_tcp_client conn = Some client →
  tc_is_connected client = true → wf_params (cx_params (cn_connection_ctx conn)) →
  ec_data_bytes (es_cfg s) = 0 →
  wf_padding pad → wf_message m → cm_magic m = CONTROL_MAGIC → cm_num_gaps m ≤ 16 →
  msg_is m EC_NACK || msg_is m EC_FALLBACK_SR = true →
  concat segs = message_image pad m → es_input s = (Data <$> segs) ++ tail →
  ∃ s', ec_poll uninit s = Some (Some (Returned 0), s') ∧
    ev_wire (es_env s') = ev_wire (es_env s) ∧ es_chunk_acked s' = es_chunk_acked s.
Proof.
  intros Hh Hc Hcl Hcon Hpar Hzero Hpad Hwf Hmagic Hgaps Htype Hseg Hi.
  unfold ec_poll. rewrite Hh, Hc, Hcl.
  destruct (ec_chunk_bytes_pos _ Hpar) as (Hcb & Hcb').
  assert (poll_data_chunks s (cx_params (cn_connection_ctx conn)) = Some 0) as ->.
  { unfold poll_data_chunks. rewrite Hcb', (proj2 (Z.eqb_neq _ _)), Hzero, Z.add_0_l by lia.
    by rewrite u64_small, Z.div_small by lia. }
  cbn [mbind option_bind ec_poll_loop].
  destruct (ec_poll_first uninit s conn client h (cx_params (cn_connection_ctx conn)) 0 pad m segs tail
    Hc Hcl Hcon Hpad Hwf Hmagic Hseg Hi) as (client' & ->).
  unfold ec_on_message.
  assert (msg_is m EC_ACK || msg_is m COMPLETE_ACK = false) as ->.
  { revert Htype. unfold msg_is. rewrite !orb_true_iff, !Z.eqb_eq. by intros [->| ->]. }
  rewrite Htype. cbn [orb].
  rewrite zero_chunks_nack by by apply wf_message_ok. cbn [mbind option_bind].
  eexists. split; [done|]. done.
Qed.

Lemma ec_zero_data_bytes_witness :
  let s := example_ec_sender example_cts_params 0 [Data (message_image example_padding example_ec_nack)] in
  ∃ s', ec_poll zero_message s = Some (Some (Returned 0), s') ∧
    ev_wire (es_env s') = ev_wire (es_env s).
Proof.
  intros s.
  destruct (ec_zero_data_bytes zero_message s example_ec_handle
    (default (example_tx_conn true []) (es_conn s))
    (default (mkClient 0 false (mkSocket [] [] [])) (cn_tcp_client (default (example_tx_conn true []) (es_conn s))))
    example_padding example_ec_nack [message_image example_padding example_ec_nack] [])
    as (s' & H1 & H2 & _).
  - vm_compute. reflexivity.
  - vm_compute. reflexivity.
  - vm_compute. reflexivity.
  - vm_compute. reflexivity.
  - replace (cx_params _) with example_cts_params by (vm_compute; reflexivity). exact example_cts_params_wf.
  - vm_compute. reflexivity.
  - exact example_padding_wf.
  - exact example_ec_nack_wf.
  - reflexivity.
  - vm_compute. discriminate.
  - reflexivity.
  - apply app_nil_r.
  - vm_compute. reflexivity.
  - exists s'. split; [exact H1|exact H2].
Defined.

Lemma foldl_opt_undefined {A S} (f : S → A → option S) (Inv : S → Prop) s l y :
  (∀ s x s', Inv s → f s x = Some s' → Inv s') → (∀ s, Inv s → f s y = None) →
  Inv s → y ∈ l → foldl_opt f s l = None.
Proof.
  intros Hinv Hy. revert s. induction l as [|x l IH]; intros s Hs Hin; [by apply not_elem_of_nil in Hin|].
  cbn [foldl_opt]. apply elem_of_cons in Hin as [<-|Hin]; [by rewrite Hy|].
  destruct (f s x) as [s1|] eqn:E; [|done]. cbn. apply IH; [by eapply Hinv|done].
Qed.

Lemma retransmit_chunk_acked s params h c s' : retransmit_chunk s params h c = Some s' →
  es_chunk_acked s' = es_chunk_acked s.
Proof.
  unfold retransmit_chunk. destruct (open_udp (es_env s)) as [ok env]. destruct (negb ok); [by intros [= <-]|].
  destruct (ec_packets _ _ _ _ _); [|done]. by intros [= <-].
Qed.

Lemma ec_gap_step_acked params h s c s' : ec_gap_step params h s c = Some s' →
  es_chunk_acked s' = es_chunk_acked s.
Proof.
  unfold ec_gap_step. destruct (es_chunk_acked s !! _) as [[]|]; [by intros [= <-]| |done].
  apply retransmit_chunk_acked.
Qed.

(** [poll] counts the data chunks with the parameters of the CTS, but its
    flags were laid out by [encode_and_send] with those before it: when the CTS
    makes more data chunks of the message, a NACK for a gap that reaches past the
    flags makes [poll] read outside [chunk_acked_] - undefined behaviour. *)
Theorem ec_poll_overrun s params h dc msg i gs gl :
  let n := Z.of_nat (length (es_chunk_acked s)) in
  0 ≤ i < cm_num_gaps msg → cm_gap_start msg !! Z.to_nat i = Some gs →
  cm_gap_len msg !! Z.to_nat i = Some gl → 0 ≤ gs ≤ n → gs + gl < 4294967296 →
  n < Z.min (gs + gl) dc →
  on_ec_nack s params h dc msg = None.
Proof.
  intros n Hi Hgs Hgl Hr Hb Hlt. unfold on_ec_nack, ec_apply_bitmap.
  destruct (existsb _ _); [done|].
  destruct (apply_bitmap 16 dc msg (es_chunk_acked s)) as [acked|] eqn:Ha; [|done]. cbn [mbind option_bind].
  assert (Z.of_nat (length acked) = n) as Hl.
  { apply (foldl_opt_inv _ (λ a, Z.of_nat (length a) = n)) in Ha; [done|done|].
    intros a w a' Hw Hla. destruct (cm_chunk_bitmap msg !! Z.to_nat w); [|done].
    cbn. intros [= <-]. apply elem_of_zrange in Hw. by rewrite length_apply_word by lia. }
  rewrite (foldl_opt_undefined _ (λ s, Z.of_nat (length (es_chunk_acked s)) = n) _ _ i); [done| | |done|].
  - intros s0 x s1 Hs0. unfold ec_gaps_step. destruct (gap_chunks msg dc x) as [chunks|]; [|done].
    cbn [mbind option_bind]. intros Hf.
    apply (foldl_opt_inv _ (λ s, Z.of_nat (length (es_chunk_acked s)) = n)) in Hf; [done|done|].
    intros s2 c s3 _ Hs2 E. by rewrite (ec_gap_step_acked _ _ _ _ _ E).
  - intros s0 Hs0. unfold ec_gaps_step, gap_chunks. rewrite Hgs, Hgl. cbn [mbind option_bind].
    pose proof (lookup_lt_Some _ _ _ Hgl). rewrite u32_small by lia.
    apply (foldl_opt_undefined _ (λ s, Z.of_nat (length (es_chunk_acked s)) = n) _ _ n); [| |done|].
    + intros s1 x s2 Hs1 E. by rewrite (ec_gap_step_acked _ _ _ _ _ E).
    + intros s1 Hs1. unfold ec_gap_step. by rewrite lookup_ge_None_2 by lia.
    + apply elem_of_zrange. lia.
  - apply elem_of_zrange. lia.
Qed.

Lemma ec_poll_overrun_witness :
  let s := example_ec_sender example_long_params 12 [] in
  es_chunk_acked s = [false] ∧ poll_data_chunks s example_cts_params = Some 2 ∧
  on_ec_nack s example_cts_params example_ec_handle 2 example_ec_nack = None.
Proof.
  intros s. split; [vm_compute; reflexivity|]. split; [vm_compute; reflexivity|].
  apply (ec_poll_overrun s example_cts_params example_ec_handle 2 example_ec_nack 0 0 2).
  - vm_compute. split; [discriminate|reflexivity].
  - reflexivity.
  - reflexivity.
  - vm_compute. split; discriminate.
  - reflexivity.
  - vm_compute. reflexivity.
Defined.
