(* ===== verification/EcReceiver.v ===== *)
(** * Erasure coding: the receiver (reliability/ec.h, reliability/ec.cpp)

    [ECReceiver]: [post_receive] posts a buffer for data and parity, and
    [try_decode] reports, asks again or decodes.  Like [SRReceiver::pump] it reads
    the chunk bitmap while the poller may be setting bits: the [n]-th read sees
    the frontend [view n]. *)

From S2P Require Import Prelude Bits Bytes Packet Backend Frontend Control Wait Connection Receiver Api.
From S2P Require Import Resend SrSender SrReceiver Erasure.
Import ControlMsgType MessageState.

(** ** State *)

(** [class ECReceiver]; the sizes of the message are the layout. *)
Record ECReceiver : Set := mkECReceiver {
  xr_cfg : ECConfig;
  xr_stats : ECStats;
  xr_recv_handle : option SDRRecvHandle;
  xr_conn : option SDRConnection;
  xr_layout : Layout;
  xr_decode_attempts : Z;
  xr_fallback_active : bool
}.

Definition new_ec_receiver (cfg : ECConfig) : ECReceiver :=
  mkECReceiver cfg (mkECStats 0 0 0) None None (mkLayout 0 0 0 0 0 0 0) 0 false.

Definition mc_set_total_chunks (mc : MessageContext) (n : Z) : MessageContext :=
  mkContext (mc_msg_id mc) (mc_generation mc) (mc_state mc) (mc_buffer mc) (mc_buffer_size mc)
    (mc_total_packets mc) n (mc_packets_per_chunk mc) (mc_backend mc) (mc_frontend mc) (mc_params mc).

(** An update of the context of a handle. *)
Definition cn_update_context (c : SDRConnection) (h : SDRRecvHandle)
    (f : MessageContext → MessageContext) : SDRConnection :=
  let cx := cn_connection_ctx c in
  cn_with_ctx c (cx_with_table cx (alter f (rh_msg_ctx h) (cx_msg_table cx))).

(** [post_receive]; the arguments of [sdr_recv_post] are passed on. *)
Definition ec_post_receive (pad : Padding) (uninit : ControlMessage) (env : Z → channel_env)
    (ps : Process) (r : ECReceiver) (conn : SDRConnection) (buffer : Buffer) (length : Z)
    : option (call_result * Process * ECReceiver) :=
  let ly := ec_layout (cx_params (cn_connection_ctx conn)) (xr_cfg r) length in
  if length <? ly_total_bytes ly then
    Some (Returned (-1), ps, mkECReceiver (xr_cfg r) (xr_stats r) (xr_recv_handle r) (Some conn) ly
                               (xr_decode_attempts r) (xr_fallback_active r))
  else
  '(rc, ps, conn, raw_handle) ← sdr_recv_post pad uninit env ps conn false buffer length;
  let posted := match rc with Returned code => code =? 0 | Blocked => false end in
  let receiver handle conn := mkECReceiver (xr_cfg r) (xr_stats r) handle (Some conn) ly 0 false in
  Some (rc, ps,
        match posted, raw_handle with
        | true, Some h => receiver (Some h) (cn_update_context conn h
            (λ mc, mc_set_total_chunks mc (ly_data_chunks ly +u32 ly_parity_chunks ly)))
        | true, None => receiver None conn
        | false, _ => receiver (xr_recv_handle r) conn
        end).

(** ** Gaps *)

(** The run of consecutive chunks that [start] begins, [len] so far, and the
    chunks after it. *)
Fixpoint gap_run (start len : Z) (missing : list Z) : Z * list Z :=
  match missing with
  | c :: missing' => if c =? start +u32 len then gap_run start (len + 1) missing' else (len, missing)
  | [] => (len, [])
  end.

(** The missing chunks collapsed into gaps, [num] gaps so far. *)
Fixpoint collapse_gaps (fuel : nat) (num : Z) (missing : list Z) : list (Z * Z) :=
  match fuel, missing with
  | S fuel, start :: missing =>
      if num <? 16 then
        let '(len, rest) := gap_run start 1 missing in
        (u16 start, u16 len) :: collapse_gaps fuel (num + 1) rest
      else []
  | _, _ => []
  end.

(** ** Messages and statistics *)

Definition ec_ack_message (connection_id : Z) : ControlMessage :=
  message_with zero_message EC_ACK connection_id zero_params.

Definition ec_nack_message (connection_id : Z) (t : ControlMsgType.t) (gaps : list (Z * Z)) : ControlMessage :=
  mkMessage CONTROL_MAGIC (value t) connection_id zero_params 0 (replicate 16 0)
    (Z.of_nat (length gaps)) (write_array gaps.*1 (replicate 16 0)) (write_array gaps.*2 (replicate 16 0)).

Definition xr_with (r : ECReceiver) (st : ECStats) (c : SDRConnection) (attempts : Z) (fallback : bool)
    : ECReceiver :=
  mkECReceiver (xr_cfg r) st (xr_recv_handle r) (Some c) (xr_layout r) attempts fallback.

Definition count_success (st : ECStats) : ECStats :=
  mkECStats (es_parity_sent st) (es_decode_success st +u64 1) (es_fallback_sr st).
Definition count_fallback (st : ECStats) : ECStats :=
  mkECStats (es_parity_sent st) (es_decode_success st) (es_fallback_sr st +u64 1).

(** A message to the sender, if there is a control connection. *)
Definition send_if_server (pad : Padding) (c : SDRConnection) (msg : ControlMessage)
    : option ControlMessage * SDRConnection :=
  match cn_tcp_server c with
  | None => (None, c)
  | Some server =>
      let '(_, server) := server_send_message pad server msg in
      (Some msg, cn_with_server c server)
  end.

(** What a call of [try_decode] answers, sends and leaves in memory. *)
Definition decode_result : Type := bool * option ControlMessage * gmap Z (list Z) * ECReceiver.

(** The message is declared complete and EC_ACK sent. *)
Definition finish_decode (pad : Padding) (mem : gmap Z (list Z)) (r : ECReceiver) (conn : SDRConnection)
    (h : SDRRecvHandle) : decode_result :=
  let conn := cn_update_context conn h (λ mc,
    mc_set_state (mc_set_total_chunks mc (ly_data_chunks (xr_layout r))) COMPLETED (mc_buffer mc)) in
  let '(msg, conn) := send_if_server pad conn (ec_ack_message (cx_connection_id (cn_connection_ctx conn))) in
  (true, msg, mem, xr_with r (count_success (xr_stats r)) conn (xr_decode_attempts r) false).

(** Too many losses. *)
Definition request_again (pad : Padding) (mem : gmap Z (list Z)) (r : ECReceiver) (conn : SDRConnection)
    (missing : list Z) : decode_result :=
  let attempts := xr_decode_attempts r +u32 1 in
  match cn_tcp_server conn with
  | None => (false, None, mem, xr_with r (xr_stats r) conn attempts (xr_fallback_active r))
  | Some _ =>
      let gaps := collapse_gaps (length missing) 0 missing in
      let fallback := attempts >=? ec_max_retries (xr_cfg r) in
      let '(msg, conn) := send_if_server pad conn
        (ec_nack_message (cx_connection_id (cn_connection_ctx conn))
           (if fallback then EC_FALLBACK_SR else EC_NACK) gaps) in
      (false, msg, mem,
       xr_with r (if fallback then count_fallback (xr_stats r) else xr_stats r) conn attempts
         (fallback || xr_fallback_active r))
  end.

(** A failed attempt to decode. *)
Definition decode_failed (mem : gmap Z (list Z)) (r : ECReceiver) (conn : SDRConnection) : decode_result :=
  (false, None, mem, xr_with r (count_fallback (xr_stats r)) conn (xr_decode_attempts r)
                       (xr_fallback_active r)).

(** ** Decoding *)

(** The decode matrix: the rows of the available chunks. *)
Definition decode_rows (isal : IsaL) (ly : Layout) (sources : list Z) : option (list Z) :=
  let encode_matrix := gf_gen_rs_matrix isal (ly_k ly + ly_m ly) (ly_k ly) in
  rows ← mapM (λ idx, mem_read encode_matrix (idx *u32 ly_k ly) (ly_k ly)) sources;
  Some (concat rows).

(** Recovery of the [mi]-th missing chunk from the [sources], with row [mi] of
    [matrix]. *)
Definition recover_step (isal : IsaL) (ly : Layout) (matrix : list Z) (sources : list Z)
    (m : list Z) (x : Z * Z) : option (list Z) :=
  let '(mi, idx) := x in
  srcs ← mapM (λ i, mem_read m (i *u32 ly_chunk_bytes ly) (ly_chunk_bytes ly)) sources;
  if Z.of_nat (length matrix) <? (mi + 1) * ly_k ly then None else
  let gftbl := ec_init_tables isal (ly_k ly) 1 (drop (Z.to_nat (mi * ly_k ly)) matrix) in
  write_chunks m (zip [idx *u32 ly_chunk_bytes ly]
    (ec_encode_data isal (ly_chunk_bytes ly) (ly_k ly) 1 gftbl srcs)).

Definition recover_chunks (isal : IsaL) (ly : Layout) (matrix : list Z) (sources missing : list Z)
    (m : list Z) : option (list Z) :=
  foldl_opt (recover_step isal ly matrix sources) m (zip (zrange 0 (Z.of_nat (length missing))) missing).

(** The decoding of [try_decode]; [None] inside when the matrix is singular.
    [gf_invert_matrix] leaves the inverse in its second argument, which holds
    32 bytes per coefficient of [m] rows, and destroys its first. *)
Definition decode_buffer (isal : IsaL) (ly : Layout) (sources missing : list Z) (m : list Z)
    : option (option (list Z)) :=
  decode_matrix ← decode_rows isal ly sources;
  if ly_m ly * ly_k ly * 32 <? ly_k ly * ly_k ly then None else
  let '(ok, decode_matrix, _) := gf_invert_matrix isal decode_matrix (ly_k ly) in
  if negb ok then Some None else
  m ← recover_chunks isal ly decode_matrix sources missing m;
  Some (Some m).

(** ** [try_decode] *)

Section TryDecode.
Context (view : nat → FrontendBitmap).

(** The chunks a read finds complete, or not, in order. *)
Fixpoint read_chunks (which : bool) (n : nat) (chunks : list Z) : option (list Z * nat) :=
  match chunks with
  | [] => Some ([], n)
  | c :: chunks =>
      '(complete, n) ← read_chunk view n c;
      '(rest, n) ← read_chunks which n chunks;
      Some (if eqb complete which then c :: rest else rest, n)
  end.

(** The last part of [try_decode]: few enough chunks are missing. *)
Definition try_recover (isal : option IsaL) (pad : Padding) (mem : gmap Z (list Z)) (r : ECReceiver)
    (conn : SDRConnection) (h : SDRRecvHandle) (buffer : Buffer) (missing : list Z) (n : nat)
    : option decode_result :=
  let ly := xr_layout r in
  match isal with
  | None => Some (decode_failed mem r conn)
  | Some isal =>
      '(available, _) ← read_chunks true n (zrange 0 (ly_data_chunks ly +u32 ly_parity_chunks ly));
      if Z.of_nat (length available) <? ly_k ly then Some (decode_failed mem r conn) else
      match buffer with
      | BufUser id =>
          m ← mem !! id;
          decoded ← decode_buffer isal ly (take (Z.to_nat (ly_k ly)) available) missing m;
          match decoded with
          | None => Some (decode_failed mem r conn)
          | Some m => Some (finish_decode pad (<[id := m]> mem) r conn h)
          end
      | _ => None
      end
  end.

Definition try_decode (isal : option IsaL) (pad : Padding) (mem : gmap Z (list Z)) (r : ECReceiver)
    : option decode_result :=
  let nothing := Some (false, None, mem, r) in
  match xr_recv_handle r, xr_conn r with
  | Some h, Some conn =>
      match sdr_recv_bitmap_get conn h, cx_msg_table (cn_connection_ctx conn) !! rh_msg_ctx h with
      | Some _, Some ctx =>
          '(missing, n) ← read_chunks false O (zrange 0 (ly_data_chunks (xr_layout r)));
          if xr_fallback_active r then
            match missing with
            | [] => Some (finish_decode pad mem r conn h)
            | _ => nothing
            end
          else
          match missing with
          | [] => Some (finish_decode pad mem r conn h)
          | _ =>
              if Z.of_nat (length missing) >? ly_m (xr_layout r)
              then Some (request_again pad mem r conn missing)
              else try_recover isal pad mem r conn h (mc_buffer ctx) missing n
          end
      | _, _ => nothing
      end
  | _, _ => nothing
  end.
End TryDecode.

(** ** What the reads saw *)

Section Reads.
Context (view : nat → FrontendBitmap) (total : Z).
Context (Hview : ∀ n, wf_frontend (view n) ∧ fb_total_chunks (view n) = total).

Lemma read_chunks_ok which n chunks : Forall (λ c, 0 ≤ c) chunks →
  ∃ l n', read_chunks view which n chunks = Some (l, n') ∧ (n ≤ n')%nat ∧
    (∀ c, c ∈ l → c ∈ chunks ∧ seen view n n' c which) ∧
    (∀ c, c ∈ chunks → c ∈ l ∨ seen view n n' c (negb which)) ∧
    (∀ fb, (∀ m, view m = fb) → l = List.filter (λ c, eqb (marked fb c) which) chunks) ∧
    sublist l chunks.
Proof.
  intros Hc. revert n. induction Hc as [|c chunks Hc _ IH]; intros n.
  { exists [], n. split_and!; try done; intros c ?%not_elem_of_nil; done. }
  cbn [read_chunks]. rewrite (read_chunk_eq view total Hview) by done. cbn [mbind option_bind].
  destruct (IH (S n)) as (l & n' & -> & Hn & Hin & Hout & Hconst & Hsub). cbn [mbind option_bind].
  assert (seen view n n' c (marked (view n) c)) as Hseen by (exists n; split; [lia|done]).
  assert (∀ c b, seen view (S n) n' c b → seen view n n' c b) as Hweak
    by (intros c' b ?; by apply (seen_weaken view n (S n) n' n'); [|lia..]).
  assert (∀ c', c' ∈ l → c' ∈ c :: chunks ∧ seen view n n' c' which) as Hin'.
  { intros c' Hc'. destruct (Hin c' Hc'). split; [by right|by apply Hweak]. }
  assert (∀ c', c' ∈ chunks → c' ∈ l ∨ seen view n n' c' (negb which)) as Hout'.
  { intros c' Hc'. destruct (Hout c' Hc'); [by left|right; by apply Hweak]. }
  destruct (eqb (marked (view n) c) which) eqn:E.
  - apply eqb_prop in E. exists (c :: l), n'. split_and!; [done|lia| | | |by apply sublist_skip].
    + intros c' [->|Hc']%elem_of_cons; [split; [by left|by rewrite <-E]|by apply Hin'].
    + intros c' [->|Hc']%elem_of_cons; [left; by left|].
      destruct (Hout' c' Hc'); [left; by right|by right].
    + intros fb Hv. cbn. rewrite <-(Hconst fb Hv), <-E, Hv, eqb_reflx. done.
  - apply eqb_false_iff in E. exists l, n'. split_and!; [done|lia|exact Hin'| | |by apply sublist_cons].
    + intros c' [->|Hc']%elem_of_cons; [|by apply Hout']. right.
      by replace (negb which) with (marked (view n) c) by (destruct (marked (view n) c), which; done).
    + intros fb Hv. cbn. rewrite <-(Hconst fb Hv), <-(Hv n).
      by rewrite (proj2 (eqb_false_iff _ _) E).
Qed.
End Reads.

(** ** Gaps *)

Lemma gap_run_ok dc start missing : 0 ≤ start → dc < 65536 → Forall (λ c, c < dc) missing →
  ∀ len, 0 < len → start + len ≤ dc →
  ∃ d rest, gap_run start len missing = (len + d, rest) ∧ 0 ≤ d ∧ start + len + d ≤ dc ∧
    missing = zrange (start + len) (start + len + d) ++ rest.
Proof.
  intros Hs Hdc Hm. induction Hm as [|c missing Hc Hm IH]; intros len Hl Hle.
  { exists 0, []. rewrite Z.add_0_r, zrange_nil by lia. split_and!; [done|lia|lia|done]. }
  cbn [gap_run]. rewrite u32_small by lia. destruct (Z.eqb_spec c (start + len)) as [->|].
  - destruct (IH (len + 1)) as (d & rest & -> & Hd & Hr & ->); [lia|lia|].
    exists (d + 1), rest. split; [f_equal; lia|]. split; [lia|]. split; [lia|].
    rewrite (zrange_cons (start + len)) by lia. cbn. do 3 f_equal; lia.
  - exists 0, (c :: missing). rewrite !Z.add_0_r, zrange_nil by lia. split_and!; [done|lia|lia|done].
Qed.

(** At most sixteen gaps, within the width of their fields. *)
Lemma collapse_gaps_wf fuel : ∀ num missing, 0 ≤ num ≤ 16 →
  num + Z.of_nat (List.length (collapse_gaps fuel num missing)) ≤ 16 ∧
  Forall (λ g, is_uint 2 g.1 ∧ is_uint 2 g.2) (collapse_gaps fuel num missing).
Proof.
  induction fuel as [|fuel IH]; intros num missing Hnum; [cbn; by split; [lia|]|].
  destruct missing as [|start missing]; cbn [collapse_gaps]; [cbn; by split; [lia|]|].
  destruct (Z.ltb_spec num 16); [|cbn; by split; [lia|]].
  destruct (gap_run start 1 missing) as [len rest]. destruct (IH (num + 1) rest) as [H1 H2]; [lia|].
  cbn [List.length]. split; [lia|]. constructor; [|done]. cbn. pose proof (u16_range start).
  pose proof (u16_range len). unfold is_uint. lia.
Qed.

(** The gaps name the missing chunks in order, all of them or up to sixteen gaps. *)
Lemma collapse_gaps_ok dc fuel : dc < 65536 → ∀ num missing, 0 ≤ num ≤ 16 →
  (List.length missing ≤ fuel)%nat → Forall (λ c, 0 ≤ c < dc) missing →
  let gaps := collapse_gaps fuel num missing in
  ∃ rest, missing = concat (gap_range dc <$> gaps) ++ rest ∧
    (rest = [] ∨ num + Z.of_nat (List.length gaps) = 16).
Proof.
  intros Hdc. induction fuel as [|fuel IH]; intros num missing Hnum Hf Hm.
  { destruct missing; [|cbn in Hf; lia]. exists []. split; [done|by left]. }
  destruct Hm as [|start missing Hs Hm]; cbn [collapse_gaps].
  { exists []. split; [done|by left]. }
  destruct (Z.ltb_spec num 16) as [Hlt|]; [|exists (start :: missing); split; [done|right; cbn; lia]].
  destruct (gap_run_ok dc start missing) with (len := 1) as (d & rest & -> & Hd & Hle & ->); [lia|lia| |lia|lia|].
  { eapply Forall_impl; [exact Hm|]. intros c. cbn. lia. }
  apply Forall_app in Hm as [_ Hm]. cbn [List.length] in Hf. rewrite length_app in Hf.
  destruct (IH (num + 1) rest) as (rest' & H3 & H4); [lia|lia|done|].
  cbn [List.length concat fmap list_fmap].
  exists rest'. split; [|destruct H4; [by left|right; lia]].
  rewrite H3 at 1. unfold gap_range at 2. cbn [fst snd].
  rewrite !u16_small, u32_small, Z.min_l by lia. rewrite (zrange_cons start) by lia.
  cbn [app]. rewrite <-app_assoc. do 3 f_equal. lia.
Qed.

(** ** Messages *)

Lemma ec_nack_gaps dc id t gaps :
  reported_gaps dc (ec_nack_message id t gaps) (zrange 0 (cm_num_gaps (ec_nack_message id t gaps))) =
    concat (gap_range dc <$> gaps).
Proof. by eapply written_gaps. Qed.

Lemma is_uint_zeros n k : Forall (is_uint n) (replicate k 0).
Proof. apply Forall_replicate. unfold is_uint. lia. Qed.

Lemma written_wf l : (List.length l ≤ 16)%nat → Forall (is_uint 2) l →
  Forall (is_uint 2) (write_array l (replicate 16 0)) ∧
  List.length (write_array l (replicate 16 0)) = 16%nat.
Proof.
  intros Hl Hf. split.
  - unfold write_array. apply Forall_app. split; [done|]. by apply Forall_drop, is_uint_zeros.
  - by rewrite length_write_array by by rewrite length_replicate.
Qed.

Lemma ec_nack_wf id t gaps : is_uint 4 id → Z.of_nat (List.length gaps) ≤ 16 →
  Forall (λ g, is_uint 2 g.1 ∧ is_uint 2 g.2) gaps → wf_message (ec_nack_message id t gaps).
Proof.
  intros Hid Hl Hg.
  destruct (written_wf gaps.*1) as [H1 H2]; [rewrite length_fmap; lia|apply Forall_fmap; by eapply Forall_impl;
    [exact Hg|intros ? [? _]]|].
  destruct (written_wf gaps.*2) as [H3 H4]; [rewrite length_fmap; lia|apply Forall_fmap; by eapply Forall_impl;
    [exact Hg|intros ? [_ ?]]|].
  constructor; unfold ec_nack_message; cbn -[write_array replicate]; try done.
  - by destruct t.
  - apply zero_message_wf.
  - by apply is_uint_zeros.
  - unfold is_uint. cbn. lia.
Qed.

Lemma ec_ack_wf id : is_uint 4 id → wf_message (ec_ack_message id).
Proof. intros. by apply message_with_wf; [apply zero_message_wf| |apply zero_message_wf]. Qed.

(** ** What [try_decode] answers *)

(** A receiver with a posted message to decode. *)
Record decoding (r : ECReceiver) (h : SDRRecvHandle) (conn : SDRConnection) (ctx : MessageContext) : Prop := {
  dg_handle : xr_recv_handle r = Some h;
  dg_conn : xr_conn r = Some conn;
  dg_context : cx_msg_table (cn_connection_ctx conn) !! rh_msg_ctx h = Some ctx;
  dg_frontend : ∃ fb, mc_frontend ctx = Some fb
}.

Lemma try_decode_eq view isal pad mem r h conn ctx : decoding r h conn ctx →
  try_decode view isal pad mem r =
    '(missing, n) ← read_chunks view false O (zrange 0 (ly_data_chunks (xr_layout r)));
    match missing with
    | [] => Some (finish_decode pad mem r conn h)
    | _ :: _ =>
        if xr_fallback_active r then Some (false, None, mem, r)
        else if Z.of_nat (List.length missing) >? ly_m (xr_layout r)
        then Some (request_again pad mem r conn missing)
        else try_recover view isal pad mem r conn h (mc_buffer ctx) missing n
    end.
Proof.
  intros [Hh Hc Hctx [fb Hfb]]. unfold try_decode. rewrite Hh, Hc. unfold sdr_recv_bitmap_get.
  rewrite Hctx. cbn [mbind option_bind]. rewrite Hfb. cbn [mbind option_bind].
  destruct (read_chunks _ _ _ _) as [[missing n]|]; [|done]. cbn [mbind option_bind].
  by destruct (xr_fallback_active r), missing.
Qed.

(** The messages a receiver sends are within the widths of the struct. *)
Definition sends_wf (msg : option ControlMessage) : Prop :=
  ∀ m, msg = Some m → wf_message m ∧ msg_ok m.

Lemma send_if_server_some pad c msg :
  send_if_server pad c msg = (None, c) ∧ cn_tcp_server c = None ∨
  ∃ server c', send_if_server pad c msg = (Some msg, c') ∧ cn_tcp_server c = Some server.
Proof.
  unfold send_if_server. destruct (cn_tcp_server c) as [server|]; [right|by left].
  destruct (server_send_message pad server msg). by eexists _, _.
Qed.

(** The answer once the data is there. *)
Lemma finish_decode_ok pad mem r conn h : is_uint 4 (cx_connection_id (cn_connection_ctx conn)) →
  ∃ msg r', finish_decode pad mem r conn h = (true, msg, mem, r') ∧ sends_wf msg ∧
    (∀ m, msg = Some m → m = ec_ack_message (cx_connection_id (cn_connection_ctx conn))).
Proof.
  intros Hid. unfold finish_decode. set (conn' := cn_update_context _ _ _).
  assert (cx_connection_id (cn_connection_ctx conn') = cx_connection_id (cn_connection_ctx conn)) as Hc
    by by destruct conn as [? ? [] ? ? ? ?].
  rewrite Hc. set (msg := ec_ack_message _). destruct (send_if_server pad conn' msg) as [m c] eqn:E.
  assert (wf_message msg ∧ msg_ok msg) as Hwf.
  { assert (wf_message msg) by (by apply ec_ack_wf). split; [done|by apply wf_message_ok]. }
  exists m. eexists. split; [reflexivity|].
  destruct (send_if_server_some pad conn' msg) as [[E' _]|(? & ? & E' & _)]; rewrite E' in E;
    injection E as <- <-; (split; [intros ? [= <-]|intros ? [= <-]]); done.
Qed.

(** Completion tells the sender, over whatever connection there is. *)
Lemma finish_decode_sends pad mem r conn h : ∃ r', finish_decode pad mem r conn h =
  (true, match cn_tcp_server conn with
         | Some _ => Some (ec_ack_message (cx_connection_id (cn_connection_ctx conn))) | None => None end, mem, r').
Proof.
  unfold finish_decode. set (conn' := cn_update_context _ _ _).
  assert (cx_connection_id (cn_connection_ctx conn') = cx_connection_id (cn_connection_ctx conn) ∧
    cn_tcp_server conn' = cn_tcp_server conn) as [-> <-] by (split; by destruct conn as [? ? [] ? ? ? ?]).
  unfold send_if_server. destruct (cn_tcp_server conn') as [server|]; [|by eexists].
  destruct (server_send_message _ _ _). by eexists.
Qed.

(** The answer when too much is missing: its type and what it changes. *)
Lemma request_again_wf pad mem r conn missing : is_uint 4 (cx_connection_id (cn_connection_ctx conn)) →
  ∃ msg r', request_again pad mem r conn missing = (false, msg, mem, r') ∧ sends_wf msg ∧
    (cn_tcp_server conn ≠ None → is_Some msg) ∧
    xr_decode_attempts r' = xr_decode_attempts r +u32 1 ∧
    ∀ m, msg = Some m →
      let full := xr_decode_attempts r +u32 1 >=? ec_max_retries (xr_cfg r) in
      xr_fallback_active r' = full || xr_fallback_active r ∧
      m = ec_nack_message (cx_connection_id (cn_connection_ctx conn))
            (if full then EC_FALLBACK_SR else EC_NACK) (collapse_gaps (List.length missing) 0 missing).
Proof.
  intros Hid. unfold request_again.
  destruct (collapse_gaps_wf (List.length missing) 0 missing) as [H1 H2]; [lia|].
  set (gaps := collapse_gaps _ _ _) in *. set (full := _ >=? _).
  set (t := if full then EC_FALLBACK_SR else EC_NACK).
  set (msg := ec_nack_message _ t gaps).
  destruct (send_if_server_some pad conn msg) as [[E Hno]|(server & c' & E & Hs)].
  - rewrite Hno. eexists None, _. split; [reflexivity|]. by split_and!.
  - rewrite Hs. fold msg. rewrite E. eexists (Some msg), _. split; [reflexivity|].
    assert (wf_message msg) as Hwf by by apply ec_nack_wf; [|lia|].
    split; [intros ? [= <-]; split; [done|by apply wf_message_ok; [|cbn; lia]]|].
    split; [done|]. split; [done|]. by intros m [= <-].
Qed.

(** What the request says. *)
Lemma request_gaps msg id t missing dc :
  msg = ec_nack_message id t (collapse_gaps (List.length missing) 0 missing) →
  dc < 65536 → Forall (λ c, 0 ≤ c < dc) missing →
  ∃ rest, missing = reported_gaps dc msg (zrange 0 (cm_num_gaps msg)) ++ rest ∧
    (rest = [] ∨ cm_num_gaps msg = 16).
Proof.
  intros -> Hdc Hm.
  destruct (collapse_gaps_ok dc (List.length missing) Hdc 0 missing) as (rest & H & Hend); [lia|done|done|].
  exists rest. rewrite ec_nack_gaps. split; [done|]. by destruct Hend; [left|right].
Qed.

(** ** What decoding writes *)

Section Decode.
Context (ly : Layout) (Hly : ly_ok ly) (isal : IsaL) (Hcoder : coder_fits isal).
Notation cb := (ly_chunk_bytes ly).
Notation k := (ly_k ly).
Notation chunks := (ly_data_chunks ly + ly_parity_chunks ly).

(** The chunks decoding starts from. *)
Definition chunk_sources (sources : list Z) (m : list Z) : list (list Z) :=
  (λ i, default [] (mem_read m (i * cb) cb)) <$> sources.

(** What takes the place of the [mi]-th missing chunk. *)
Definition recovered (matrix sources : list Z) (m : list Z) (mi : Z) : list Z :=
  default [] (ec_encode_data isal cb k 1
    (ec_init_tables isal k 1 (drop (Z.to_nat (mi * k)) matrix)) (chunk_sources sources m) !! 0%nat).

Lemma chunk_offset idx : 0 ≤ idx < chunks → idx *u32 cb = idx * cb ∧ 0 ≤ idx * cb ∧ idx * cb + cb ≤ chunks * cb.
Proof.
  intros Hi. pose proof (lo_total _ Hly). pose proof (lo_chunk _ Hly).
  assert (idx * cb + cb ≤ chunks * cb) by nia. split; [apply u32_small; nia|nia].
Qed.

Lemma chunk_sources_read sources m : Forall (λ i, 0 ≤ i < chunks) sources →
  chunks * cb ≤ Z.of_nat (List.length m) →
  mapM (λ i, mem_read m (i *u32 cb) cb) sources = Some (chunk_sources sources m).
Proof.
  intros Hs Hm. apply mapM_Some_2. unfold chunk_sources. apply Forall2_fmap_r, Forall_Forall2_diag.
  eapply Forall_impl; [exact Hs|]. intros i Hi. cbv beta. destruct (chunk_offset i Hi) as (-> & ? & ?).
  pose proof (lo_chunk _ Hly). unfold compose. by rewrite !mem_read_some by lia.
Qed.

(** Two distinct chunks do not overlap. *)
Lemma chunk_apart i j x : i ≠ j → i * cb ≤ x < i * cb + cb → x < j * cb ∨ j * cb + cb ≤ x.
Proof. intros Hne Hx. pose proof (lo_chunk _ Hly). assert (i < j ∨ j < i) as [?|?] by lia; [left|right]; nia. Qed.

(** One chunk is written, from the sources. *)
Lemma recover_step_ok matrix sources m mi idx : Forall (λ i, 0 ≤ i < chunks) sources →
  chunks * cb ≤ Z.of_nat (List.length m) → 0 ≤ idx < chunks → 0 ≤ mi →
  (mi + 1) * k ≤ Z.of_nat (List.length matrix) →
  ∃ m', recover_step isal ly matrix sources m (mi, idx) = Some m' ∧ List.length m' = List.length m ∧
    (∀ x, 0 ≤ x → x < idx * cb ∨ idx * cb + cb ≤ x → m' !! Z.to_nat x = m !! Z.to_nat x) ∧
    mem_read m' (idx * cb) cb = Some (recovered matrix sources m mi).
Proof.
  intros Hs Hm Hi Hmi Hrow. unfold recover_step. rewrite chunk_sources_read by done. cbn [mbind option_bind].
  rewrite (proj2 (Z.ltb_ge _ _)) by done. destruct (chunk_offset idx Hi) as (-> & ? & ?).
  unfold recovered. set (tables := ec_init_tables _ _ _ _).
  destruct (Hcoder cb k 1 tables (chunk_sources sources m)) as [Hl Hf]; [pose proof (lo_chunk _ Hly); lia|lia|].
  destruct (ec_encode_data isal cb k 1 tables _) as [|out [|? ?]]; [done| |cbn in Hl; lia].
  apply Forall_cons_1 in Hf as [Hf _]. cbn [zip zip_with lookup list_lookup default].
  unfold write_chunks. cbn [foldl_opt fst snd].
  destruct (mem_write_some m (idx * cb) out) as [m' Hw]; [lia|lia|]. rewrite Hw. cbn [mbind option_bind].
  exists m'. split; [done|]. split; [by eapply mem_write_length|]. split.
  - intros x Hx Hr. rewrite (mem_write_lookup _ _ _ _ _ Hw) by done. rewrite Hf.
    destruct ((idx * cb <=? x) && (x <? idx * cb + cb)) eqn:E; [bool_to_prop; lia|done].
  - pose proof (mem_read_written _ _ _ _ Hw) as Hr. by rewrite Hf in Hr.
Qed.

(** Chunks that may be sources too: still defined. *)
Lemma recover_loop_defined matrix sources missing : Forall (λ i, 0 ≤ i < chunks) sources →
  Forall (λ i, 0 ≤ i < chunks) missing →
  ∀ b m, 0 ≤ b → chunks * cb ≤ Z.of_nat (List.length m) →
  (b + Z.of_nat (List.length missing)) * k ≤ Z.of_nat (List.length matrix) →
  ∃ m', foldl_opt (recover_step isal ly matrix sources) m
      (zip (zrange b (b + Z.of_nat (List.length missing))) missing) = Some m' ∧
    List.length m' = List.length m.
Proof.
  intros Hs Hr. induction Hr as [|idx missing Hi Hr IH]; intros b m Hb Hm Hrows.
  { rewrite zrange_nil by (cbn; lia). by exists m. }
  cbn [List.length] in *. pose proof (lo_k _ Hly).
  rewrite zrange_cons by lia. cbn [zip zip_with foldl_opt].
  destruct (recover_step_ok matrix sources m b idx) as (m1 & -> & L1 & _); [done|done|done|done|nia|].
  cbn [mbind option_bind].
  destruct (IH (b + 1) m1) as (m' & H1 & L2); [lia|lia|nia|].
  replace (b + Z.of_nat (S (List.length missing))) with (b + 1 + Z.of_nat (List.length missing)) by lia.
  exists m'. split; [exact H1|congruence].
Qed.

Lemma chunk_sources_frame sources m m' : List.length m' = List.length m →
  (∀ i x, i ∈ sources → i * cb ≤ x < i * cb + cb → m' !! Z.to_nat x = m !! Z.to_nat x) →
  chunk_sources sources m' = chunk_sources sources m.
Proof.
  intros Hl He. apply list_fmap_ext. intros n i Hi. f_equal. apply mem_read_ext; [done|].
  intros x Hx. eapply He; [by eapply list_elem_of_lookup_2|done].
Qed.

(** All missing chunks: each is written, nothing else is. *)
Lemma recover_loop_ok matrix sources missing : Forall (λ i, 0 ≤ i < chunks) sources →
  NoDup missing → Forall (λ i, 0 ≤ i < chunks) missing → (∀ i, i ∈ missing → i ∉ sources) →
  ∀ b m, 0 ≤ b → chunks * cb ≤ Z.of_nat (List.length m) →
  (b + Z.of_nat (List.length missing)) * k ≤ Z.of_nat (List.length matrix) →
  ∃ m', foldl_opt (recover_step isal ly matrix sources) m
      (zip (zrange b (b + Z.of_nat (List.length missing))) missing) = Some m' ∧
    List.length m' = List.length m ∧
    (∀ x, 0 ≤ x → (∀ i, i ∈ missing → x < i * cb ∨ i * cb + cb ≤ x) → m' !! Z.to_nat x = m !! Z.to_nat x) ∧
    ∀ n idx, missing !! n = Some idx →
      mem_read m' (idx * cb) cb = Some (recovered matrix sources m (b + Z.of_nat n)).
Proof.
  intros Hs Hnd. induction Hnd as [|idx missing Hni Hnd IH]; intros Hr Hdis b m Hb Hm Hrows.
  { rewrite zrange_nil by (cbn; lia). exists m. by split_and!. }
  apply Forall_cons in Hr as [Hi Hr]. cbn [List.length] in *. pose proof (lo_k _ Hly). pose proof (lo_chunk _ Hly).
  rewrite zrange_cons by lia. cbn [zip zip_with foldl_opt].
  destruct (recover_step_ok matrix sources m b idx) as (m1 & -> & L1 & F1 & R1); [done|done|done|done|nia|].
  cbn [mbind option_bind].
  destruct (IH Hr (λ i H, Hdis i (list_elem_of_further _ _ _ H)) (b + 1) m1) as (m' & H1 & L2 & F2 & R2);
    [lia|lia|nia|].
  replace (b + Z.of_nat (S (List.length missing))) with (b + 1 + Z.of_nat (List.length missing)) by lia.
  exists m'. split; [exact H1|]. split; [congruence|]. split.
  - intros x Hx Ho. rewrite F2; [apply F1; [done|apply Ho; by left]|done|].
    intros i Hin. apply Ho. by right.
  - intros [|n] idx' Hn; cbn in Hn.
    + injection Hn as <-. rewrite Z.add_0_r, <-R1. apply mem_read_ext; [done|].
      intros x Hx. apply F2; [pose proof (chunk_offset idx Hi); lia|]. intros i Hin.
      apply (chunk_apart idx); [by intros ->|done].
    + rewrite (R2 n idx' Hn). replace (b + Z.of_nat (S n)) with (b + 1 + Z.of_nat n) by lia.
      unfold recovered. rewrite (chunk_sources_frame sources m m1); [done|done|]. intros i x Hin Hx. rewrite Forall_forall in Hs.
      pose proof (chunk_offset i (Hs i Hin)). apply F1; [lia|].
      apply (chunk_apart i); [|done]. intros ->. apply (Hdis idx); [by left|done].
Qed.
End Decode.

(** ** Decoding with a coder that works *)

Section Recover.
Context (ly : Layout) (Hly : ly_ok ly) (isal : IsaL) (gf_mul : Z → Z → Z).
Context (Hcoder : coder_fits isal) (Hisal : isal_ok isal gf_mul).
Context (Hfield : ly_k ly + ly_m ly ≤ 255).
Notation cb := (ly_chunk_bytes ly).
Notation k := (ly_k ly).
Notation chunks := (ly_data_chunks ly + ly_parity_chunks ly).

(** The bytes recovered, with row [mi] of the matrix. *)
Lemma recovered_eq matrix sources m mi : Z.of_nat (List.length sources) = k →
  Forall (λ i, 0 ≤ i < chunks) sources → chunks * cb ≤ Z.of_nat (List.length m) → 0 ≤ mi →
  (mi + 1) * k ≤ Z.of_nat (List.length matrix) →
  recovered ly isal matrix sources m mi =
    gf_dot gf_mul k (drop (Z.to_nat (mi * k)) matrix) (chunk_sources ly sources m) <$> zrange 0 cb.
Proof.
  intros Hk Hs Hm Hmi Hrow. pose proof (lo_chunk _ Hly). pose proof (lo_k _ Hly). unfold recovered.
  rewrite (io_encode _ _ Hisal); [|lia|lia|lia| | |].
  - by rewrite (zrange_cons 0 1), (zrange_nil (0 + 1) 1) by lia.
  - rewrite length_drop. lia.
  - unfold chunk_sources. by rewrite length_fmap.
  - unfold chunk_sources. apply Forall_fmap. eapply Forall_impl; [exact Hs|]. intros i Hi. unfold compose.
    destruct (chunk_offset ly Hly i Hi) as (_ & ? & ?). rewrite mem_read_some by lia. cbn.
    rewrite length_take, length_drop. lia.
Qed.

Lemma decode_rows_ok sources : Forall (λ i, 0 ≤ i < k + ly_m ly) sources →
  ∃ rows, decode_rows isal ly sources = Some rows ∧
    Z.of_nat (List.length rows) = Z.of_nat (List.length sources) * k.
Proof.
  intros Hs. pose proof (lo_k _ Hly) as Hk. pose proof (lo_m _ Hly) as Hm. unfold decode_rows.
  pose proof (io_matrix _ _ Hisal (k + ly_m ly) k ltac:(lia) Hfield) as Hl.
  set (a := gf_gen_rs_matrix _ _ _) in *. induction Hs as [|i sources Hi Hs IH].
  { exists []. split; [done|]. cbn. lia. }
  destruct IH as (rows & E & Hr).
  change (mapM ?f (i :: sources)) with (y ← f i; ys ← mapM f sources; Some (y :: ys)) at 1.
  destruct (mapM _ sources) as [l|]; [|done]. injection E as <-.
  rewrite u32_small by nia. rewrite mem_read_some by nia. cbn [mbind option_bind].
  eexists. split; [reflexivity|]. cbn [concat List.length]. rewrite length_app, length_take, length_drop. nia.
Qed.

Lemma decode_buffer_ok sources missing m rows ok destroyed inverse :
  Z.of_nat (List.length sources) = k → Forall (λ i, 0 ≤ i < chunks) sources →
  NoDup missing → Forall (λ i, 0 ≤ i < chunks) missing → (∀ i, i ∈ missing → i ∉ sources) →
  Z.of_nat (List.length missing) ≤ k → k ≤ 32 * ly_m ly → chunks * cb ≤ Z.of_nat (List.length m) →
  decode_rows isal ly sources = Some rows → gf_invert_matrix isal rows k = (ok, destroyed, inverse) →
  Z.of_nat (List.length destroyed) = k * k →
  if ok : bool then ∃ m', decode_buffer isal ly sources missing m = Some (Some m') ∧
    List.length m' = List.length m ∧
    (∀ x, 0 ≤ x → (∀ i, i ∈ missing → x < i * cb ∨ i * cb + cb ≤ x) → m' !! Z.to_nat x = m !! Z.to_nat x) ∧
    ∀ n idx, missing !! n = Some idx → mem_read m' (idx * cb) cb =
      Some (gf_dot gf_mul k (drop (Z.to_nat (Z.of_nat n * k)) destroyed) (chunk_sources ly sources m)
              <$> zrange 0 cb)
  else decode_buffer isal ly sources missing m = Some None.
Proof.
  intros Hk Hs Hnd Hmr Hdis Hml H32 Hm Hrows Hinv Hd. pose proof (lo_k _ Hly).
  unfold decode_buffer. rewrite Hrows. cbn [mbind option_bind].
  rewrite (proj2 (Z.ltb_ge _ _)) by nia. rewrite Hinv. destruct ok; cbn [negb]; [|done].
  destruct (recover_loop_ok ly Hly isal Hcoder destroyed sources missing Hs Hnd Hmr Hdis 0 m)
    as (m' & H1 & H2 & H3 & H4); [lia|done|nia|].
  rewrite Z.add_0_l in H1. exists m'. unfold recover_chunks. rewrite H1. split_and!; [done..|].
  intros n idx Hn. rewrite (H4 n idx Hn), Z.add_0_l. f_equal.
  pose proof (lookup_lt_Some _ _ _ Hn). apply recovered_eq; [done|done|done|lia|nia].
Qed.
End Recover.

(** The chunks of [a, b) that a bitmap has. *)
Definition present_in (fb : FrontendBitmap) (a b : Z) : list Z :=
  List.filter (λ c, marked fb c) (zrange a b).

Lemma filter_eqb_ext (f : Z → bool) which l :
  List.filter (λ c, eqb (f c) which) l = List.filter (λ c, if which : bool then f c else negb (f c)) l.
Proof. apply List.filter_ext. intros c. by destruct (f c), which. Qed.

Lemma filter_zrange_NoDup (f : Z → bool) a b : NoDup (List.filter f (zrange a b)).
Proof. apply NoDup_ListNoDup, List.NoDup_filter, NoDup_ListNoDup, NoDup_zrange. Qed.

Lemma elem_of_present_in fb a b c : c ∈ present_in fb a b ↔ a ≤ c < b ∧ marked fb c = true.
Proof. unfold present_in. by rewrite elem_of_filter_bool, elem_of_zrange. Qed.

Lemma zrange_nonneg n : Forall (λ c, 0 ≤ c) (zrange 0 n).
Proof. apply Forall_forall. intros c. rewrite elem_of_zrange. lia. Qed.

(** Over a bitmap that stands still. *)
Lemma read_chunks_still fb which n hi : wf_frontend fb →
  ∃ n', read_chunks (λ _, fb) which n (zrange 0 hi) =
    Some (if which then present_in fb 0 hi else missing_in fb 0 hi, n').
Proof.
  intros Hwf.
  destruct (read_chunks_ok (λ _, fb) (fb_total_chunks fb) (λ _, conj Hwf eq_refl) which n _ (zrange_nonneg hi))
    as (l & n' & -> & _ & _ & _ & Hl & _). exists n'.
  rewrite (Hl fb (λ _, eq_refl)), filter_eqb_ext. by destruct which.
Qed.

(** The last part of [try_decode]: it succeeds only with a coder, from [k] chunks
    seen, and what it leaves is the decoded buffer. *)
Lemma try_recover_ok view total isal pad mem r conn h buffer missing n done msg mem' r' :
  (∀ n, wf_frontend (view n) ∧ fb_total_chunks (view n) = total) →
  try_recover view isal pad mem r conn h buffer missing n = Some (done, msg, mem', r') →
  if done : bool then ∃ coder id m m' sources, isal = Some coder ∧ buffer = BufUser id ∧ mem !! id = Some m ∧
    List.length sources = Z.to_nat (ly_k (xr_layout r)) ∧ NoDup sources ∧
    (∀ c, c ∈ sources → 0 ≤ c < ly_data_chunks (xr_layout r) +u32 ly_parity_chunks (xr_layout r) ∧
       ∃ n', seen view n n' c true) ∧
    decode_buffer coder (xr_layout r) sources missing m = Some (Some m') ∧ mem' = <[id := m']> mem
  else mem' = mem ∧ msg = None.
Proof.
  intros Hview.
  unfold try_recover. destruct isal as [isal|]; [|by intros [= <- <- <- <-]].
  destruct (read_chunks_ok view total Hview true n _ (zrange_nonneg
    (ly_data_chunks (xr_layout r) +u32 ly_parity_chunks (xr_layout r)))) as (l & n' & -> & _ & Hin & _ & _ & Hsub).
  cbn [mbind option_bind]. case_bool; [by intros [= <- <- <- <-]|].
  destruct buffer as [id| |]; try done.
  destruct (mem !! id) as [m|] eqn:Hm; [|done]. cbn [mbind option_bind].
  destruct (decode_buffer _ _ _ _ _) as [[m'|]|] eqn:E; [|by intros [= <- <- <- <-]|done]. cbn [mbind option_bind].
  destruct (finish_decode_sends pad (<[id := m']> mem) r conn h) as (r2 & ->). intros [= <- <- <- <-].
  eexists isal, id, m, m', _. do 3 (split; [done|]). split; [|split; [|split; [|by split]]].
  - rewrite length_take. lia.
  - eapply sublist_NoDup; [apply NoDup_zrange|]. etransitivity; [apply sublist_take|exact Hsub].
  - intros c (i & Hi%list_elem_of_lookup_2 & _)%elem_of_take. destruct (Hin c Hi) as [Hc%elem_of_zrange Hs].
    split; [done|by exists n'].
Qed.

(** *** When [try_decode] is defined *)

(** A build with the coder decodes messages of one stripe: rows past [k + m] are
    read outside the generator matrix. *)
Record stripe_coder (ly : Layout) (isal : IsaL) : Prop := {
  sc_coder : coder_fits isal;
  sc_isal : ∃ gf_mul, isal_ok isal gf_mul;
  sc_inverse : inverse_fits isal;
  sc_stripes : ly_stripes ly = 1;
  sc_field : ly_k ly + ly_m ly ≤ 255;
  sc_table : ly_k ly ≤ 32 * ly_m ly
}.

Definition can_decode (isal : option IsaL) (ly : Layout) : Prop :=
  ly_ok ly ∧ match isal with None => True | Some isal => stripe_coder ly isal end.

(** The buffer is there, with room for all chunks. *)
Definition holds_chunks (ly : Layout) (mem : gmap Z (list Z)) (id : Z) : Prop :=
  ∃ m, mem !! id = Some m ∧
    (ly_data_chunks ly + ly_parity_chunks ly) * ly_chunk_bytes ly ≤ Z.of_nat (List.length m).

Lemma decode_buffer_defined ly isal sources missing m : ly_ok ly → stripe_coder ly isal →
  Z.of_nat (List.length sources) = ly_k ly →
  Forall (λ i, 0 ≤ i < ly_data_chunks ly + ly_m ly) sources → Forall (λ i, 0 ≤ i < ly_data_chunks ly) missing →
  Z.of_nat (List.length missing) ≤ ly_data_chunks ly →
  (ly_data_chunks ly + ly_m ly) * ly_chunk_bytes ly ≤ Z.of_nat (List.length m) →
  ∃ d, decode_buffer isal ly sources missing m = Some d ∧
    ∀ m', d = Some m' → List.length m' = List.length m.
Proof.
  intros Hly [Hcoder [gf_mul Hisal] Hinv Hone H255 H32] Hls Hs Hm Hlm Hlen.
  destruct (ly_bounds ly Hly) as (?&?&Hdk&?&?&?). pose proof (lo_k _ Hly). pose proof (lo_m _ Hly).
  pose proof (lo_parity _ Hly) as Hp. rewrite Hone, Z.mul_1_l in *.
  destruct (decode_rows_ok ly Hly isal gf_mul Hisal H255 sources) as (rows & Hrows & Hlr).
  { eapply Forall_impl; [exact Hs|]. cbv beta. lia. }
  unfold decode_buffer. rewrite Hrows. cbn [mbind option_bind]. rewrite (proj2 (Z.ltb_ge _ _)) by nia.
  pose proof (Hinv rows (ly_k ly) ltac:(lia) ltac:(lia)) as Hfit.
  destruct (gf_invert_matrix isal rows (ly_k ly)) as [[ok destroyed] inverse]. cbn in Hfit.
  destruct ok; cbn [negb]; [|by eexists].
  destruct (recover_loop_defined ly Hly isal Hcoder destroyed sources missing) with (b := 0) (m := m)
    as (m' & Hloop & Hl); [| |done|by rewrite Hp|nia|].
  1-2: eapply Forall_impl; [eassumption|]; cbv beta; lia.
  unfold recover_chunks. rewrite Z.add_0_l in Hloop. rewrite Hloop. eexists. split; [reflexivity|].
  by intros ? [= <-].
Qed.

Lemma try_recover_defined view total isal pad mem r conn h id missing n :
  (∀ n, wf_frontend (view n) ∧ fb_total_chunks (view n) = total) →
  can_decode isal (xr_layout r) → holds_chunks (xr_layout r) mem id →
  sublist missing (zrange 0 (ly_data_chunks (xr_layout r))) →
  try_recover view isal pad mem r conn h (BufUser id) missing n = Some (decode_failed mem r conn) ∨
  ∃ m m', try_recover view isal pad mem r conn h (BufUser id) missing n =
      Some (finish_decode pad (<[id := m']> mem) r conn h) ∧
    mem !! id = Some m ∧ List.length m' = List.length m.
Proof.
  intros Hview [Hly Hisal] (m & Hm & Hlen) Hsub. unfold try_recover. destruct isal as [isal|]; [|by left].
  destruct (read_chunks_ok view total Hview true n _ (zrange_nonneg
    (ly_data_chunks (xr_layout r) +u32 ly_parity_chunks (xr_layout r)))) as (l & n' & -> & _ & Hin & _).
  cbn [mbind option_bind]. case_bool; [by left|]. rewrite Hm. cbn [mbind option_bind].
  destruct (ly_bounds _ Hly) as (?&?&?&?&?&?). pose proof (lo_parity _ Hly) as Hp.
  rewrite (sc_stripes _ _ Hisal), Z.mul_1_l in Hp. rewrite Hp in *. rewrite u32_small in Hin by lia.
  pose proof (sublist_length _ _ Hsub) as Hl. rewrite length_zrange in Hl.
  destruct (decode_buffer_defined (xr_layout r) isal (take (Z.to_nat (ly_k (xr_layout r))) l) missing m)
    as ([m'|] & -> & Hl'); [done|done| | | |lia|done|right; exists m, m'; auto|by left].
  - pose proof (lo_k _ Hly). rewrite length_take. lia.
  - apply Forall_forall. intros i (j & Hj%list_elem_of_lookup_2 & _)%elem_of_take.
    by destruct (Hin i Hj) as [?%elem_of_zrange _].
  - apply Forall_forall. intros i Hi. apply elem_of_zrange. by eapply sublist_subseteq.
Qed.

(** What stays: the context, the layout, the posted message. *)
Lemma request_again_keeps pad mem r conn missing h ctx : decoding r h conn ctx →
  ∃ msg r' conn', request_again pad mem r conn missing = (false, msg, mem, r') ∧
    decoding r' h conn' ctx ∧ xr_layout r' = xr_layout r ∧ goes_on conn conn'.
Proof.
  intros [Hh Hc Hctx Hfb]. unfold request_again. set (msg := ec_nack_message _ _ _).
  destruct (cn_tcp_server conn) as [server|] eqn:Hs; [|by do 3 eexists].
  unfold send_if_server. rewrite Hs. destruct (server_send_message pad server msg) as [ok server'] eqn:E.
  eexists _, _, (cn_with_server conn server'). split; [reflexivity|]. split; [by split|]. split; [done|].
  by eapply goes_on_sent.
Qed.

Lemma decode_failed_keeps mem r conn h ctx : decoding r h conn ctx →
  decoding (decode_failed mem r conn).2 h conn ctx.
Proof. by intros []. Qed.

(** The context of a message declared complete. *)
Definition completed_context (ly : Layout) (ctx : MessageContext) : MessageContext :=
  mc_set_state (mc_set_total_chunks ctx (ly_data_chunks ly)) COMPLETED (mc_buffer ctx).

Lemma finish_decode_keeps pad mem r conn h ctx : decoding r h conn ctx →
  ∃ msg r' conn', finish_decode pad mem r conn h = (true, msg, mem, r') ∧
    decoding r' h conn' (completed_context (xr_layout r) ctx) ∧ xr_layout r' = xr_layout r ∧ goes_on conn conn'.
Proof.
  intros [Hh Hc Hctx Hfb]. unfold finish_decode. set (conn1 := cn_update_context _ _ _).
  assert (cx_msg_table (cn_connection_ctx conn1) !! rh_msg_ctx h = Some (completed_context (xr_layout r) ctx)) as H1.
  { cbn. by rewrite lookup_alter_eq, Hctx. }
  assert (goes_on conn conn1) as Hgo by (split; [done..|]; intros server Hs Hr; by exists server).
  unfold send_if_server. destruct (cn_tcp_server conn1) as [server|] eqn:Hs.
  - destruct (server_send_message _ _ _) as [ok server'] eqn:E.
    eexists _, _, (cn_with_server conn1 server'). split; [reflexivity|]. split; [by split|]. split; [done|].
    etransitivity; [exact Hgo|by eapply goes_on_sent].
  - eexists _, _, conn1. by split; [reflexivity|].
Qed.

(** The same objects, of the same sizes. *)
Definition same_sizes (mem mem' : gmap Z (list Z)) : Prop :=
  ∀ i, List.length <$> mem' !! i = List.length <$> mem !! i.

(** A call returns, and with [false] the receiver goes on as before. *)
Lemma try_decode_defined view total isal pad mem r h conn ctx id :
  decoding r h conn ctx → mc_buffer ctx = BufUser id →
  (∀ n, wf_frontend (view n) ∧ fb_total_chunks (view n) = total) →
  can_decode isal (xr_layout r) → holds_chunks (xr_layout r) mem id →
  ∃ (done : bool) msg mem' r' conn', try_decode view isal pad mem r = Some (done, msg, mem', r') ∧
    (decoding r' h conn' (if done then completed_context (xr_layout r) ctx else ctx) ∧
     xr_layout r' = xr_layout r ∧ goes_on conn conn') ∧
    same_sizes mem mem'.
Proof.
  intros Hd Hbuf Hview Hcan Hmem. rewrite (try_decode_eq _ _ _ _ _ _ _ _ Hd).
  destruct (read_chunks_ok view total Hview false 0 _ (zrange_nonneg (ly_data_chunks (xr_layout r))))
    as (l & n & -> & _ & _ & _ & _ & Hsub). cbn [mbind option_bind].
  assert (∀ (mem' : gmap Z (list Z)) (msg : option ControlMessage) r' conn' (done : bool), same_sizes mem mem' →
    decoding r' h conn' (if done then completed_context (xr_layout r) ctx else ctx) ∧
      xr_layout r' = xr_layout r ∧ goes_on conn conn' →
    ∃ done0 msg0 mem0 r0 conn0, Some (done, msg, mem', r') = Some (done0, msg0, mem0, r0) ∧
      (decoding r0 h conn0 (if done0 : bool then completed_context (xr_layout r) ctx else ctx) ∧
        xr_layout r0 = xr_layout r ∧ goes_on conn conn0) ∧ same_sizes mem mem0) as Hanswer
    by (intros mem' msg r' conn' done Hm Hk; by exists done, msg, mem', r', conn').
  assert (same_sizes mem mem) as Hsame by (intros i; reflexivity).
  destruct l as [|c0 l].
  { destruct (finish_decode_keeps pad mem r conn h ctx Hd) as (msg & r' & conn' & -> & H). by eapply Hanswer. }
  destruct (xr_fallback_active r); [eapply Hanswer; [done|]; by split|].
  case_bool.
  - destruct (request_again_keeps pad mem r conn (c0 :: l) h ctx Hd) as (msg & r' & conn' & -> & H).
    by eapply Hanswer.
  - rewrite Hbuf.
    destruct (try_recover_defined view total isal pad mem r conn h id (c0 :: l) n)
      as [->|(m & m' & -> & Hm & Hl)]; [done..| |].
    + eapply Hanswer; [done|]. split; [by apply (decode_failed_keeps mem)|done].
    + destruct (finish_decode_keeps pad (<[id := m']> mem) r conn h ctx Hd) as (msg & r' & conn' & -> & H).
      eapply Hanswer; [|done]. intros i. destruct (decide (i = id)) as [->|Hne].
      * rewrite lookup_insert_eq, Hm. cbn. by rewrite Hl.
      * by rewrite lookup_insert_ne by done.
Qed.

(** *** What its answer means *)

(** The losses a decode is for: no more than [m], each a data chunk incomplete in
    [before], and every other data chunk complete in [after]. *)
Record losses (before after : FrontendBitmap) (ly : Layout) (missing : list Z) : Prop := {
  ls_few : 0 < Z.of_nat (List.length missing) ≤ ly_m ly;
  ls_nodup : NoDup missing;
  ls_missing : ∀ c, c ∈ missing → 0 ≤ c < ly_data_chunks ly ∧ marked before c = false;
  ls_others : ∀ c, 0 ≤ c < ly_data_chunks ly → c ∈ missing ∨ marked after c = true
}.

(** What it starts from: [k] different chunks of data or parity, each complete in
    [after]. *)
Record shards (after : FrontendBitmap) (ly : Layout) (sources : list Z) : Prop := {
  sh_enough : List.length sources = Z.to_nat (ly_k ly);
  sh_nodup : NoDup sources;
  sh_present : ∀ c, c ∈ sources →
    0 ≤ c < ly_data_chunks ly +u32 ly_parity_chunks ly ∧ marked after c = true
}.

(** A decode took place in object [id]: of such losses, from such chunks, and the
    memory it leaves is what [decode_buffer] makes of that object. *)
Definition decoded_from (before after : FrontendBitmap) (isal : option IsaL) (ly : Layout) (id : Z)
    (mem mem' : gmap Z (list Z)) : Prop := ∃ coder missing sources m m',
  isal = Some coder ∧ losses before after ly missing ∧ shards after ly sources ∧
  mem !! id = Some m ∧ decode_buffer coder ly sources missing m = Some (Some m') ∧ mem' = <[id := m']> mem.

Section Answer.
Context (view : nat → FrontendBitmap) (total : Z) (before after : FrontendBitmap).
Context (Hview : ∀ n, wf_frontend (view n) ∧ fb_total_chunks (view n) = total).
Context (Hbefore : ∀ n c, marked before c = true → marked (view n) c = true).
Context (Hafter : ∀ n c, marked (view n) c = true → marked after c = true).

Lemma try_decode_answer isal pad mem r h conn ctx done msg mem' r' :
  let ly := xr_layout r in
  decoding r h conn ctx → try_decode view isal pad mem r = Some (done, msg, mem', r') →
  if done : bool then
    mem' = mem ∧ (∀ c, 0 ≤ c < ly_data_chunks ly → marked after c = true) ∨
    xr_fallback_active r = false ∧
    ∃ id, mc_buffer ctx = BufUser id ∧ decoded_from before after isal ly id mem mem'
  else mem' = mem ∧ (msg = None ∨ ∃ missing,
    (∀ c, c ∈ missing → 0 ≤ c < ly_data_chunks ly ∧ marked before c = false) ∧
    request_again pad mem r conn missing = (false, msg, mem, r')).
Proof.
  intros ly Hd. rewrite (try_decode_eq _ _ _ _ _ _ _ _ Hd). fold ly.
  destruct (read_chunks_ok view total Hview false 0 _ (zrange_nonneg (ly_data_chunks ly)))
    as (l & n & -> & _ & Hin & Hout & _ & Hsub). cbn [mbind option_bind].
  assert (∀ c, c ∈ l → 0 ≤ c < ly_data_chunks ly ∧ marked before c = false) as Hmissing.
  { intros c [Hc%elem_of_zrange Hs]%Hin. split; [done|by eapply (seen_false view before Hbefore)]. }
  destruct l as [|c0 l].
  { destruct (finish_decode_sends pad mem r conn h) as (r2 & ->). intros [= <- <- <- <-]. left. split; [done|].
    intros c Hc. destruct (Hout c) as [?%not_elem_of_nil|Hs]; [by apply elem_of_zrange|done|by eapply (seen_true view after Hafter)]. }
  destruct (xr_fallback_active r) eqn:Hf; [intros [= <- <- <- <-]; auto|].
  case_bool.
  - intros [= E]. destruct (request_again_keeps pad mem r conn (c0 :: l) h ctx Hd) as (msg' & r2 & conn' & E' & _).
    rewrite E' in E. injection E as <- <- <- <-. split; [done|]. right. by exists (c0 :: l).
  - intros Hr. pose proof (try_recover_ok _ _ _ _ _ _ _ _ _ _ _ _ _ _ _ Hview Hr) as H. destruct done.
    + right. split; [done|]. destruct H as (coder & id & m & m' & sources & -> & -> & Hm & Hl & Hnd & Hs & Hdec & ->).
      exists id. split; [done|]. exists coder, (c0 :: l), sources, m, m'. split; [done|]. split; [|split; [|by split]].
      * constructor; [split; [cbn; lia|lia]|eapply sublist_NoDup, Hsub; apply NoDup_zrange|exact Hmissing|].
        intros c Hc. destruct (Hout c) as [?|Hs']; [by apply elem_of_zrange|by left|right].
        by eapply (seen_true view after Hafter).
      * constructor; [done|done|]. intros c Hc. destruct (Hs c Hc) as [Hr' [n' ?]].
        split; [done|by eapply (seen_true view after Hafter)].
    + destruct H as [-> ->]. auto.
Qed.
End Answer.

(** Every message [try_decode] sends. *)
Lemma try_decode_sends view total isal pad mem r h conn ctx done m mem' r' :
  decoding r h conn ctx → is_uint 4 (cx_connection_id (cn_connection_ctx conn)) →
  (∀ n, wf_frontend (view n) ∧ fb_total_chunks (view n) = total) →
  try_decode view isal pad mem r = Some (done, Some m, mem', r') →
  wf_message m ∧ 0 ≤ cm_num_gaps m ≤ 16 ∧
  (∃ t, cm_msg_type m = value t ∧ (t = EC_ACK ∨ t = EC_NACK ∨ t = EC_FALLBACK_SR)) ∧
  cm_magic m = CONTROL_MAGIC.
Proof.
  intros Hd Hid Hview. rewrite (try_decode_eq _ _ _ _ _ _ _ _ Hd).
  destruct (read_chunks_ok view total Hview false 0 _ (zrange_nonneg (ly_data_chunks (xr_layout r))))
    as (l & n & -> & _). cbn [mbind option_bind].
  assert ((∀ m', Some m = Some m' → m' = ec_ack_message (cx_connection_id (cn_connection_ctx conn))) →
    wf_message m ∧ 0 ≤ cm_num_gaps m ≤ 16 ∧
    (∃ t, cm_msg_type m = value t ∧ (t = EC_ACK ∨ t = EC_NACK ∨ t = EC_FALLBACK_SR)) ∧
    cm_magic m = CONTROL_MAGIC) as Hack.
  { intros Ha. rewrite (Ha m eq_refl). split; [by apply ec_ack_wf|]. cbn.
    split; [lia|]. split; [by exists EC_ACK; auto|done]. }
  destruct l as [|c0 l].
  { destruct (finish_decode_ok pad mem r conn h Hid) as (msg' & r2 & -> & _ & Ha). intros [= <- -> <- <-]. by apply Hack. }
  destruct (xr_fallback_active r); [done|]. case_bool.
  - destruct (request_again_wf pad mem r conn (c0 :: l) Hid) as (msg' & r2 & -> & Hwf & _ & _ & Hmsg).
    intros [= <- -> <- <-]. split; [by apply Hwf|].
    destruct (Hmsg m eq_refl) as [_ ->].
    destruct (collapse_gaps_wf (List.length (c0 :: l)) 0 (c0 :: l)) as [H1 _]; [lia|].
    split; [cbn [ec_nack_message cm_num_gaps]; lia|]. split; [|done]. eexists. split; [reflexivity|].
    destruct (_ >=? _); auto.
  - unfold try_recover. destruct isal as [isal|]; [|done].
    destruct (read_chunks view true _ _) as [[available n']|]; [|done]. cbn [mbind option_bind].
    case_bool; [done|]. destruct (mc_buffer ctx) as [id| |]; try done.
    destruct (mem !! id) as [bytes|]; [|done]. cbn [mbind option_bind].
    destruct (decode_buffer _ _ _ _ _) as [[m'|]|]; [|done|done]. cbn [mbind option_bind].
    destruct (finish_decode_ok pad (<[id := m']> mem) r conn h Hid) as (msg' & r2 & -> & _ & Ha).
    intros [= <- -> <- <-]. by apply Hack.
Qed.

(** ** Properties *)

(** C31: Whatever [try_decode] finds, the message it sends is one of its three
    types and keeps within the fields of the struct, at most sixteen gaps
    included: its image is read back as the very same message. *)
Theorem try_decode_well_typed view total isal pad mem r h conn ctx done m mem' r' :
  decoding r h conn ctx → is_uint 4 (cx_connection_id (cn_connection_ctx conn)) →
  (∀ n, wf_frontend (view n) ∧ fb_total_chunks (view n) = total) →
  try_decode view isal pad mem r = Some (done, Some m, mem', r') →
  wf_message m ∧ 0 ≤ cm_num_gaps m ≤ 16 ∧
  (∃ t, cm_msg_type m = value t ∧ (t = EC_ACK ∨ t = EC_NACK ∨ t = EC_FALLBACK_SR)) ∧
  ∀ this pad', wf_padding pad' → deserialize this (message_image pad' m) = (true, m).
Proof.
  intros Hd Hid Hview Ht. destruct (try_decode_sends _ _ _ _ _ _ _ _ _ _ _ _ _ Hd Hid Hview Ht) as (H1 & H2 & H3 & H4).
  split; [done|]. split; [done|]. split; [done|]. intros this pad' Hpad.
  rewrite <-(app_nil_r (message_image pad' m)). by apply deserialize_image.
Qed.

(** C9: [try_decode] never lies, even while the poller is setting bits under it:
    when the bitmap always has the chunks of [before] and never more than those
    of [after], every message it sends is well formed; EC_ACK goes with [true];
    [true] means that all data chunks are complete in [after] and the buffer is
    untouched, or that the user's buffer was decoded: at most [m] data chunks were
    taken for lost, all incomplete in [before], every other data chunk is complete
    in [after], [k] different chunks of data or parity complete in [after] were
    decoded from, and memory is what that decoding makes of the buffer; and with
    [false] nothing is written and a request names only chunks incomplete in
    [before]. *)
Theorem try_decode_truthful view total before after isal pad mem r h conn ctx done msg mem' r' :
  let ly := xr_layout r in
  decoding r h conn ctx → is_uint 4 (cx_connection_id (cn_connection_ctx conn)) →
  ly_data_chunks ly < 65536 →
  (∀ n, wf_frontend (view n) ∧ fb_total_chunks (view n) = total) →
  (∀ n c, marked before c = true → marked (view n) c = true) →
  (∀ n c, marked (view n) c = true → marked after c = true) →
  try_decode view isal pad mem r = Some (done, msg, mem', r') →
  sends_wf msg ∧
  (∀ m, msg = Some m → cm_msg_type m = value EC_ACK → done = true) ∧
  (done = true →
     mem' = mem ∧ (∀ c, 0 ≤ c < ly_data_chunks ly → marked after c = true) ∨
     xr_fallback_active r = false ∧
     ∃ id, mc_buffer ctx = BufUser id ∧ decoded_from before after isal ly id mem mem') ∧
  (done = false → mem' = mem ∧ ∀ m, msg = Some m →
     ∀ c, c ∈ reported_gaps (ly_data_chunks ly) m (zrange 0 (cm_num_gaps m)) →
       0 ≤ c < ly_data_chunks ly ∧ marked before c = false).
Proof.
  intros ly Hd Hid Hdc Hview Hbefore Hafter Ht.
  assert (sends_wf msg) as Hwf.
  { intros m ->. destruct (try_decode_sends _ _ _ _ _ _ _ _ _ _ _ _ _ Hd Hid Hview Ht) as (H1 & H2 & _).
    split; [done|]. apply wf_message_ok; [done|apply H2]. }
  pose proof (try_decode_answer view total before after Hview Hbefore Hafter _ _ _ _ _ _ _ _ _ _ _ Hd Ht) as H.
  fold ly in H. split; [done|]. destruct done; [by split_and!|]. destruct H as [-> H].
  assert (∀ m, msg = Some m → cm_msg_type m ≠ value EC_ACK ∧
    ∀ c, c ∈ reported_gaps (ly_data_chunks ly) m (zrange 0 (cm_num_gaps m)) →
      0 ≤ c < ly_data_chunks ly ∧ marked before c = false) as Hmsg.
  { intros m ->. destruct H as [?|(missing & Hmissing & H)]; [done|].
    destruct (request_again_wf pad mem r conn missing Hid) as (msg' & r2 & E & _ & _ & _ & Hm).
    rewrite E in H. injection H as -> ->. destruct (Hm m eq_refl) as [_ Em]. split.
    - rewrite Em. cbn. by destruct (_ >=? _).
    - destruct (request_gaps m _ _ missing (ly_data_chunks ly) Em Hdc) as (rest & El & _).
      { apply Forall_forall. intros c Hc. by apply Hmissing. }
      intros c Hc. apply Hmissing. rewrite El. apply elem_of_app. by left. }
  split; [intros m Hm Hty; by destruct (Hmsg m Hm)|]. split; [done|]. intros _. split; [done|].
  intros m Hm. apply (Hmsg m Hm).
Qed.

(** A receiver of two data chunks and one parity chunk of ten bytes each. *)
Definition example_ec_layout : Layout := ec_layout example_cts_params (mkECConfig 2 1 0 20 3) 30.

Definition example_ec_receiver (attempts : Z) (fallback : bool) : ECReceiver :=
  mkECReceiver (mkECConfig 2 1 0 20 3) (mkECStats 0 0 0) (Some (mkRecvHandle 0 1 0 (BufUser 0) 30))
    (Some (cn_with_ctx example_rx_conn (cx_with_table new_connection_context
      {[0 := posted_context 0 1 (BufUser 0) 30 6 3 example_cts_params]})))
    example_ec_layout attempts fallback.

Notation example_ec_conn := (default example_rx_conn (xr_conn (example_ec_receiver 0 false))).
Notation example_ec_context := (posted_context 0 1 (BufUser 0) 30 6 3 example_cts_params).

Definition example_ec_bitmap (word : Z) : FrontendBitmap := mkFrontend [word] 1 3 2 true false 100.

Lemma example_ec_layout_ok : ly_ok example_ec_layout.
Proof. apply ec_layout_ok; [apply example_cts_params_wf|vm_compute; repeat split..]. Qed.

Lemma example_decoding attempts fallback :
  decoding (example_ec_receiver attempts fallback) (mkRecvHandle 0 1 0 (BufUser 0) 30)
    example_ec_conn example_ec_context.
Proof. constructor; [reflexivity..|]. eexists. reflexivity. Qed.

Lemma example_ec_bitmap_wf word : is_uint 8 word →
  wf_frontend (example_ec_bitmap word) ∧ fb_total_chunks (example_ec_bitmap word) = 3.
Proof.
  intros. split; [|done]. constructor; [cbn; lia|done|].
  apply Forall_cons_2; [done|apply Forall_nil_2].
Qed.

(** The data arrived; chunk 0 is marked after the first read. *)
Definition example_ec_race (n : nat) : FrontendBitmap := example_ec_bitmap (match n with O => 6 | _ => 7 end).

Lemma try_decode_truthful_witness : ∃ msg mem' r',
  try_decode example_ec_race (Some example_coder) example_padding {[0 := zrange 0 30]}
    (example_ec_receiver 0 false) = Some (true, msg, mem', r') ∧ sends_wf msg ∧
  marked (example_ec_bitmap 6) 0 = false.
Proof.
  destruct (try_decode example_ec_race (Some example_coder) example_padding {[0 := zrange 0 30]}
    (example_ec_receiver 0 false)) as [[[[done msg] mem'] r']|] eqn:E; [|vm_compute in E; discriminate].
  assert (done = true) as -> by (revert E; vm_compute; by intros [= <- _ _ _]).
  destruct (try_decode_truthful example_ec_race 3 (example_ec_bitmap 6) (example_ec_bitmap 7)
    (Some example_coder) example_padding {[0 := zrange 0 30]} (example_ec_receiver 0 false)
    (mkRecvHandle 0 1 0 (BufUser 0) 30) example_ec_conn example_ec_context true msg mem' r')
    as (Hwf & _).
  - apply example_decoding.
  - vm_compute. split; done.
  - vm_compute. reflexivity.
  - intros [|n]; apply example_ec_bitmap_wf; vm_compute; split; done.
  - intros [|n] c; [done|]. unfold marked, example_ec_race. cbn [fb_total_chunks example_ec_bitmap].
    intros [Hc Hb]%andb_true_iff. rewrite Hc. bool_to_prop.
    assert (c = 0 ∨ c = 1 ∨ c = 2) as [->|[->| ->]] by lia; done.
  - intros [|n] c; [|done]. unfold marked, example_ec_race. cbn [fb_total_chunks example_ec_bitmap].
    intros [Hc Hb]%andb_true_iff. rewrite Hc. bool_to_prop.
    assert (c = 0 ∨ c = 1 ∨ c = 2) as [->|[->| ->]] by lia; done.
  - exact E.
  - exists msg, mem', r'. split_and!; [reflexivity|exact Hwf|reflexivity].
Defined.

Lemma try_decode_well_typed_witness : ∃ m mem' r',
  try_decode (λ _, example_ec_bitmap 4) None example_padding ∅ (example_ec_receiver 0 false) =
    Some (false, Some m, mem', r') ∧
  deserialize zero_message (message_image example_padding m) = (true, m).
Proof.
  destruct (try_decode (λ _, example_ec_bitmap 4) None example_padding ∅ (example_ec_receiver 0 false))
    as [[[[done [m|]] mem'] r']|] eqn:E; [|vm_compute in E; discriminate..].
  assert (done = false) as -> by (revert E; vm_compute; by intros [= <- _ _ _]).
  exists m, mem', r'. split; [reflexivity|].
  apply (try_decode_well_typed (λ _, example_ec_bitmap 4) 3 None example_padding ∅ (example_ec_receiver 0 false)
    (mkRecvHandle 0 1 0 (BufUser 0) 30) example_ec_conn example_ec_context false m mem' r').
  - apply example_decoding.
  - vm_compute. split; done.
  - intros n. apply example_ec_bitmap_wf; vm_compute; split; done.
  - exact E.
  - exact example_padding_wf.
Defined.

(** The request over a bitmap that stands still. *)
Lemma ec_request_sent fb isal pad mem r h conn ctx :
  let ly := xr_layout r in
  let missing := missing_in fb 0 (ly_data_chunks ly) in
  let full := xr_decode_attempts r +u32 1 >=? ec_max_retries (xr_cfg r) in
  decoding r h conn ctx → is_uint 4 (cx_connection_id (cn_connection_ctx conn)) →
  wf_frontend fb → ly_data_chunks ly < 65536 → cn_tcp_server conn ≠ None →
  xr_fallback_active r = false → 0 ≤ ly_m ly < Z.of_nat (List.length missing) →
  ∃ msg r', try_decode (λ _, fb) isal pad mem r = Some (false, Some msg, mem, r') ∧
    wf_message msg ∧ msg_ok msg ∧ cm_msg_type msg = value (if full then EC_FALLBACK_SR else EC_NACK) ∧
    xr_fallback_active r' = full ∧ xr_decode_attempts r' = xr_decode_attempts r +u32 1 ∧
    cm_chunk_bitmap_words msg = 0 ∧
    ∃ rest, missing = reported_gaps (ly_data_chunks ly) msg (zrange 0 (cm_num_gaps msg)) ++ rest ∧
      (rest = [] ∨ cm_num_gaps msg = 16).
Proof.
  intros ly missing full Hd Hid Hwf Hdc Hs Hf Hm. rewrite (try_decode_eq _ _ _ _ _ _ _ _ Hd). fold ly.
  destruct (read_chunks_still fb false 0 (ly_data_chunks ly) Hwf) as (n & ->). cbn [mbind option_bind].
  fold missing. destruct (request_again_wf pad mem r conn missing Hid) as (msg & r' & E & Hwfm & Hsome & Ha & Hmsg).
  destruct (Hsome Hs) as [m ->]. destruct (Hmsg m eq_refl) as (Hfb & Em).
  destruct (request_gaps m _ _ missing (ly_data_chunks ly) Em Hdc) as (rest & Hg & Hend).
  { apply Forall_forall. intros c [Hc _]%elem_of_missing_in. done. }
  rewrite Hf, orb_false_r in Hfb.
  exists m, r'. split.
  - destruct missing as [|c0 l]; [cbn in Hm; lia|]. rewrite Hf. case_bool; [by rewrite E|lia].
  - split_and!; [by apply Hwfm|by apply Hwfm|by rewrite Em|done|done|by rewrite Em|]. by exists rest.
Qed.

(** C20: Too many losses: over a bitmap that stands still, with more than [m] data
    chunks missing and a control connection, one request is sent and [false]
    returned; the request carries no bitmap, its gaps are the missing data chunks
    in order, all of them or up to sixteen gaps; it is EC_NACK until [max_retries]
    requests were made and EC_FALLBACK_SR from then on, when the receiver also
    falls back; and nothing is written. *)
Theorem ec_request_exact fb isal pad mem r h conn ctx :
  let ly := xr_layout r in
  let missing := missing_in fb 0 (ly_data_chunks ly) in
  let full := xr_decode_attempts r +u32 1 >=? ec_max_retries (xr_cfg r) in
  decoding r h conn ctx → is_uint 4 (cx_connection_id (cn_connection_ctx conn)) →
  wf_frontend fb → ly_data_chunks ly < 65536 → cn_tcp_server conn ≠ None →
  xr_fallback_active r = false → 0 ≤ ly_m ly < Z.of_nat (List.length missing) →
  ∃ msg r', try_decode (λ _, fb) isal pad mem r = Some (false, Some msg, mem, r') ∧
    wf_message msg ∧ cm_msg_type msg = value (if full then EC_FALLBACK_SR else EC_NACK) ∧
    xr_fallback_active r' = full ∧ xr_decode_attempts r' = xr_decode_attempts r +u32 1 ∧
    cm_chunk_bitmap_words msg = 0 ∧
    ∃ rest, missing = reported_gaps (ly_data_chunks ly) msg (zrange 0 (cm_num_gaps msg)) ++ rest ∧
      (rest = [] ∨ cm_num_gaps msg = 16).
Proof.
  intros ly missing full Hd Hid Hwf Hdc Hs Hf Hm.
  destruct (ec_request_sent fb isal pad mem r h conn ctx Hd Hid Hwf Hdc Hs Hf Hm)
    as (msg & r' & H1 & H2 & _ & H3). by exists msg, r'.
Qed.

Lemma ec_request_exact_witness : ∃ msg r',
  try_decode (λ _, example_ec_bitmap 4) None example_padding ∅ (example_ec_receiver 2 false) =
    Some (false, Some msg, ∅, r') ∧ cm_msg_type msg = value EC_FALLBACK_SR ∧
  reported_gaps 2 msg (zrange 0 (cm_num_gaps msg)) = [0; 1].
Proof.
  destruct (ec_request_exact (example_ec_bitmap 4) None example_padding ∅ (example_ec_receiver 2 false)
    (mkRecvHandle 0 1 0 (BufUser 0) 30) example_ec_conn example_ec_context)
    as (msg & r' & E & _ & Ht & _ & _ & _ & rest & Hg & Hend).
  - apply example_decoding.
  - vm_compute. split; done.
  - apply example_ec_bitmap_wf; vm_compute; split; done.
  - vm_compute. reflexivity.
  - discriminate.
  - reflexivity.
  - vm_compute. split; done.
  - exists msg, r'. assert (cm_num_gaps msg = 1) as Hn by (revert E; vm_compute; by intros [= <- _]).
    destruct Hend as [->|?]; [|congruence]. rewrite app_nil_r in Hg.
    split; [exact E|]. split; [exact Ht|]. etransitivity; [symmetry; exact Hg|vm_compute; reflexivity].
Defined.

(** [try_decode] when it comes to decoding, over a bitmap that stands still. *)
Lemma try_decode_still fb isal pad mem r h conn ctx id m : decoding r h conn ctx →
  let ly := xr_layout r in
  let missing := missing_in fb 0 (ly_data_chunks ly) in
  let present := present_in fb 0 (ly_data_chunks ly +u32 ly_parity_chunks ly) in
  mc_buffer ctx = BufUser id → mem !! id = Some m → wf_frontend fb → xr_fallback_active r = false →
  0 < Z.of_nat (List.length missing) ≤ ly_m ly → ly_k ly ≤ Z.of_nat (List.length present) →
  try_decode (λ _, fb) (Some isal) pad mem r =
    decoded ← decode_buffer isal ly (take (Z.to_nat (ly_k ly)) present) missing m;
    match decoded with
    | None => Some (decode_failed mem r conn)
    | Some m => Some (finish_decode pad (<[id := m]> mem) r conn h)
    end.
Proof.
  intros Hd ly missing present Hbuf Hmem Hwf Hf Hm Hk. rewrite (try_decode_eq _ _ _ _ _ _ _ _ Hd). fold ly.
  destruct (read_chunks_still fb false 0 (ly_data_chunks ly) Hwf) as (n & ->). cbn [mbind option_bind].
  fold missing. rewrite Hf. destruct missing as [|c0 l] eqn:El; [cbn in Hm; lia|]. rewrite <-El in *.
  case_bool; [lia|]. unfold try_recover. fold ly.
  destruct (read_chunks_still fb true n (ly_data_chunks ly +u32 ly_parity_chunks ly) Hwf) as (n' & ->).
  cbn [mbind option_bind]. fold present. rewrite (proj2 (Z.ltb_ge _ _)) by done. by rewrite Hbuf, Hmem.
Qed.

(** What the bytes [m'] of the buffer are after the chunks [missing] were decoded
    from [sources] with the rows of [matrix]: the bytes of other chunks stay, and
    the [n]-th missing chunk is row [n] times the sources. *)
Record decoded (gf_mul : Z → Z → Z) (ly : Layout) (matrix sources missing m m' : list Z) : Prop := {
  dd_length : List.length m' = List.length m;
  dd_frame : ∀ x, 0 ≤ x →
    (∀ i, i ∈ missing → x < i * ly_chunk_bytes ly ∨ i * ly_chunk_bytes ly + ly_chunk_bytes ly ≤ x) →
    m' !! Z.to_nat x = m !! Z.to_nat x;
  dd_chunks : ∀ n idx, missing !! n = Some idx →
    mem_read m' (idx * ly_chunk_bytes ly) (ly_chunk_bytes ly) =
      Some (gf_dot gf_mul (ly_k ly) (drop (Z.to_nat (Z.of_nat n * ly_k ly)) matrix)
              (chunk_sources ly sources m) <$> zrange 0 (ly_chunk_bytes ly))
}.

Definition identity_matrix (n : Z) : list Z := (λ e, if e / n =? e mod n then 1 else 0) <$> zrange 0 (n * n).

Lemma identity_row n i j : 0 ≤ i < n → 0 ≤ j < n →
  drop (Z.to_nat (i * n)) (identity_matrix n) !!! Z.to_nat j = if i =? j then 1 else 0.
Proof.
  intros Hi Hj. apply list_lookup_total_correct. unfold identity_matrix.
  assert (Z.to_nat (i * n) + Z.to_nat j = Z.to_nat (i * n + j))%nat as E by nia.
  rewrite lookup_drop, E, list_lookup_fmap, lookup_zrange by nia. cbn [fmap option_fmap option_map].
  rewrite Z.div_add_l, Z.div_small, Z.add_0_r by lia.
  by rewrite Z.add_comm, Z.mod_add, Z.mod_small by lia.
Qed.

(** *** Few losses *)

(** Losses and chunks there make up a range. *)
Lemma present_missing_length fb a b : a ≤ b →
  Z.of_nat (List.length (present_in fb a b)) + Z.of_nat (List.length (missing_in fb a b)) = b - a.
Proof.
  intros Hab. unfold present_in, missing_in.
  pose proof (List.filter_length (λ c, marked fb c) (zrange a b)) as H. rewrite length_zrange in H. lia.
Qed.

Lemma present_in_split fb a b c : a ≤ b ≤ c → present_in fb a c = present_in fb a b ++ present_in fb b c.
Proof. intros. unfold present_in. by rewrite (zrange_app a b c), List.filter_app by lia. Qed.

Section FewLosses.
Context (fb : FrontendBitmap) (gf_mul : Z → Z → Z) (pad : Padding) (mem : gmap Z (list Z)).
Context (r : ECReceiver) (h : SDRRecvHandle) (conn : SDRConnection) (ctx : MessageContext) (id : Z) (m : list Z).

Notation ly := (xr_layout r).
Notation missing := (missing_in fb 0 (ly_data_chunks ly)).
Notation sources := (take (Z.to_nat (ly_k ly)) (present_in fb 0 (ly_data_chunks ly + ly_parity_chunks ly))).

(** A bitmap that stands still, with up to [m] data chunks missing and [k] chunks
    there: a message of one stripe, or one with no more parity than data and so many
    chunks that the first [k] that are there are among the first [k + m]. *)
Context (Hd : decoding r h conn ctx) (Hbuf : mc_buffer ctx = BufUser id) (Hmem : mem !! id = Some m).
Context (Hly : ly_ok ly) (Hshape : ly_stripes ly = 1 ∨ ly_m ly ≤ ly_k ly ∧ ly_k ly + ly_m ly ≤ ly_data_chunks ly).
Context (Hlen : (ly_data_chunks ly + ly_parity_chunks ly) * ly_chunk_bytes ly ≤ Z.of_nat (List.length m)).
Context (H255 : ly_k ly + ly_m ly ≤ 255) (H32 : ly_k ly ≤ 32 * ly_m ly).
Context (Hwf : wf_frontend fb) (Hf : xr_fallback_active r = false).
Context (Hm : 0 < Z.of_nat (List.length missing) ≤ ly_m ly) (Hk : ly_k ly ≤ Z.of_nat (List.length sources)).

Lemma sources_present i : i ∈ sources → 0 ≤ i < ly_data_chunks ly + ly_parity_chunks ly ∧ marked fb i = true.
Proof. intros (j & Hj%list_elem_of_lookup_2 & _)%elem_of_take. by apply elem_of_present_in. Qed.

(** Their rows are in the generator matrix. *)
Lemma sources_rows i : i ∈ sources → i < ly_k ly + ly_m ly.
Proof.
  destruct (ly_bounds ly Hly) as (?&?&Hdk&?&?&?). pose proof (lo_parity _ Hly) as Hp.
  pose proof (lo_k _ Hly). pose proof (lo_m _ Hly).
  destruct Hshape as [Hone|[_ Hmany]]; [intros [? _]%sources_present; rewrite Hone in *; lia|].
  rewrite (present_in_split fb 0 (ly_k ly + ly_m ly) (ly_data_chunks ly + ly_parity_chunks ly)) by lia.
  pose proof (present_missing_length fb 0 (ly_k ly + ly_m ly) ltac:(lia)) as Hl.
  assert (List.length (missing_in fb 0 (ly_k ly + ly_m ly)) ≤ List.length missing)%nat.
  { rewrite (missing_in_app fb 0 (ly_k ly + ly_m ly) (ly_data_chunks ly)), length_app by lia. lia. }
  rewrite take_app_le by lia. intros (j & Hj%list_elem_of_lookup_2 & _)%elem_of_take.
  apply elem_of_present_in in Hj as [? _]. lia.
Qed.

Lemma sources_length : Z.of_nat (List.length sources) = ly_k ly.
Proof. pose proof (lo_k _ Hly). rewrite length_take in *. lia. Qed.

Section Coder.
Context (isal : IsaL) (Hcoder : coder_fits isal) (Hisal : isal_ok isal gf_mul) (Hinv : inverse_fits isal).

Lemma decode_rows_there : ∃ rows, decode_rows isal ly sources = Some rows ∧
  Z.of_nat (List.length rows) = ly_k ly * ly_k ly.
Proof.
  destruct (decode_rows_ok ly Hly isal gf_mul Hisal H255 sources) as (rows & Hrows & Hlr).
  { apply Forall_forall. intros i Hi. pose proof (sources_rows i Hi). pose proof (proj1 (sources_present i Hi)). lia. }
  exists rows. split; [done|]. pose proof sources_length. lia.
Qed.

(** What [try_decode] does after the inversion. *)
Lemma decoded_there rows ok destroyed inverse : decode_rows isal ly sources = Some rows →
  gf_invert_matrix isal rows (ly_k ly) = (ok, destroyed, inverse) →
  if ok : bool then ∃ msg r' m', decoded gf_mul ly destroyed sources missing m m' ∧
    msg = match cn_tcp_server conn with
          | Some _ => Some (ec_ack_message (cx_connection_id (cn_connection_ctx conn))) | None => None end ∧
    try_decode (λ _, fb) (Some isal) pad mem r = Some (true, msg, <[id := m']> mem, r')
  else try_decode (λ _, fb) (Some isal) pad mem r = Some (false, None, mem, (decode_failed mem r conn).2).
Proof.
  intros Hrows Einv. destruct decode_rows_there as (rows0 & Hrows0 & Hlr). assert (rows0 = rows) as -> by congruence.
  destruct (ly_bounds ly Hly) as (?&?&Hdk&?&?&?). pose proof (lo_k _ Hly). pose proof (lo_m _ Hly).
  assert (∀ i, i ∈ missing → 0 ≤ i < ly_data_chunks ly ∧ marked fb i = false) as Hmis
    by (intros i; apply elem_of_missing_in).
  assert (Z.of_nat (List.length missing) ≤ ly_k ly) as Hml.
  { destruct Hshape as [Hone|[? _]]; [|lia].
    pose proof (present_missing_length fb 0 (ly_data_chunks ly) ltac:(lia)). rewrite Hone in *. lia. }
  pose proof sources_length as Hls. pose proof (Hinv rows (ly_k ly) ltac:(lia) ltac:(lia)) as Hfit.
  rewrite Einv in Hfit. cbn in Hfit.
  assert (ly_data_chunks ly +u32 ly_parity_chunks ly = ly_data_chunks ly + ly_parity_chunks ly) as Ec
    by (apply u32_small; lia).
  assert (ly_k ly ≤ Z.of_nat (List.length (present_in fb 0 (ly_data_chunks ly + ly_parity_chunks ly)))) as Hk'
    by (rewrite length_take in Hk; lia).
  rewrite (try_decode_still fb isal pad mem r h conn ctx id m Hd); [|done..|by rewrite Ec].
  rewrite Ec.
  assert (Forall (λ i, 0 ≤ i < ly_data_chunks ly + ly_parity_chunks ly) sources) as Hs1.
  { apply Forall_forall. intros i Hi. by destruct (sources_present i Hi). }
  assert (Forall (λ i, 0 ≤ i < ly_data_chunks ly + ly_parity_chunks ly) missing) as Hm1.
  { apply Forall_forall. intros i Hi. destruct (Hmis i Hi). lia. }
  assert (∀ i, i ∈ missing → i ∉ sources) as Hdis.
  { intros i Hi Hs. destruct (Hmis i Hi), (sources_present i Hs). congruence. }
  assert (NoDup missing) as Hnd by apply filter_zrange_NoDup.
  pose proof (decode_buffer_ok ly Hly isal gf_mul Hcoder Hisal H255 sources missing m rows ok destroyed inverse
    Hls Hs1 Hnd Hm1 Hdis ltac:(lia) H32 ltac:(lia) Hrows Einv ltac:(lia)) as Hdec.
  destruct ok; [|by rewrite Hdec].
  destruct Hdec as (m' & -> & D1 & D2 & D3). cbn [mbind option_bind].
  destruct (finish_decode_sends pad (<[id := m']> mem) r conn h) as (r' & E).
  eexists _, r', m'. split; [done|]. split; [done|]. by rewrite E.
Qed.

(** Rows of the identity copy the chunks that are there. *)
Lemma identity_copies m' : decoded gf_mul ly (identity_matrix (ly_k ly)) sources missing m m' →
  ∀ n lost there, missing !! n = Some lost → sources !! n = Some there →
    marked fb lost = false ∧ marked fb there = true ∧
    mem_read m' (lost * ly_chunk_bytes ly) (ly_chunk_bytes ly) =
      mem_read m (there * ly_chunk_bytes ly) (ly_chunk_bytes ly).
Proof.
  intros [_ _ Hch] n lost there Hl Ht. pose proof (list_elem_of_lookup_2 _ _ _ Hl) as Hl'%elem_of_missing_in.
  destruct (sources_present there (list_elem_of_lookup_2 _ _ _ Ht)) as [Hrange Hmark].
  split; [apply Hl'|]. split; [done|]. rewrite (Hch n lost Hl). pose proof (lo_chunk _ Hly).
  pose proof (lo_k _ Hly).
  rewrite (mem_read_some m) by nia. f_equal. set (src := take (Z.to_nat (ly_chunk_bytes ly)) _).
  assert (Z.of_nat (List.length src) = ly_chunk_bytes ly) as Hsl.
  { unfold src. rewrite length_take, length_drop. nia. }
  rewrite <-Hsl at 1. pose proof sources_length as Hls. pose proof (lookup_lt_Some _ _ _ Ht).
  apply (gf_dot_unit gf_mul (ly_k ly) _ _ (Z.of_nat n) src (io_mul_zero _ _ Hisal) (io_mul_one _ _ Hisal)); [lia| |].
  - intros j Hj. apply identity_row; lia.
  - rewrite Nat2Z.id. unfold chunk_sources. rewrite list_lookup_fmap, Ht. cbn. by rewrite mem_read_some by nia.
Qed.

(** C10: Decoding over a bitmap that stands still, with up to [m] data chunks missing
    and [k] chunks there, of a message of one stripe or, with [m] up to [k], of
    at least [k + m] data chunks: [try_decode] returns; if
    [gf_invert_matrix] succeeds it answers [true], the buffer changes only in the
    missing data chunks, and the [n]-th of them becomes row [n] of what the
    inversion left in its input array times the first [k] chunks that are there;
    if it fails nothing is written. *)
Theorem decode_few_losses : ∃ rows, decode_rows isal ly sources = Some rows ∧
  let '(ok, destroyed, _) := gf_invert_matrix isal rows (ly_k ly) in
  if ok : bool then ∃ msg r' m', decoded gf_mul ly destroyed sources missing m m' ∧
    try_decode (λ _, fb) (Some isal) pad mem r = Some (true, msg, <[id := m']> mem, r')
  else try_decode (λ _, fb) (Some isal) pad mem r = Some (false, None, mem, (decode_failed mem r conn).2).
Proof.
  destruct decode_rows_there as (rows & Hrows & _). exists rows. split; [done|].
  destruct (gf_invert_matrix isal rows (ly_k ly)) as [[ok destroyed] inverse] eqn:Einv.
  pose proof (decoded_there rows ok destroyed inverse Hrows Einv) as H.
  destruct ok; [|done]. destruct H as (msg & r' & m' & Hdec & _ & E). by exists msg, r', m'.
Qed.

End Coder.

(** A library that differs from [isal] only in what the inversion of matrices of
    [k] rows leaves in its input array, which ISA-L documents as destroyed. *)
Definition with_input_left (isal : IsaL) (k : Z) (left : list Z) : IsaL :=
  mkIsaL (gf_gen_rs_matrix isal) (ec_init_tables isal) (ec_encode_data isal)
    (λ a n, let '(ok, destroyed, inverse) := gf_invert_matrix isal a n in
            (ok, if n =? k then left else destroyed, inverse)).

(** Such a library keeps what is documented. *)
Lemma with_input_left_ok isal k left : Z.of_nat (List.length left) = k * k →
  coder_fits isal → isal_ok isal gf_mul → inverse_fits isal →
  let isal' := with_input_left isal k left in
  coder_fits isal' ∧ isal_ok isal' gf_mul ∧ inverse_fits isal' ∧
  ∀ a n, (gf_invert_matrix isal' a n).1.1 = (gf_invert_matrix isal a n).1.1 ∧
    (gf_invert_matrix isal' a n).2 = (gf_invert_matrix isal a n).2.
Proof.
  intros Hleft Hcoder [] Hinv. split; [done|]. split; [by constructor|]. split.
  - intros a n Hn Ha. pose proof (Hinv a n Hn Ha) as H. cbn.
    destruct (gf_invert_matrix isal a n) as [[ok d] i]. destruct (Z.eqb_spec n k) as [->|]; cbn in *; lia.
  - intros a n. cbn. by destruct (gf_invert_matrix isal a n) as [[ok d] i].
Qed.

(** C16: What fills the losses is not determined: the data chunks that [try_decode]
    writes depend on what the inversion happens to leave in its input array, of
    which ISA-L's documentation says only that it is destroyed.  Take any library
    whose inversion succeeds, and any [k * k] bytes: the library that leaves these
    in the array and otherwise does the same - matrix, tables, products, success and
    inverse - meets the same documentation; with it [try_decode] answers [true] and
    sends EC_ACK, and the [n]-th missing chunk becomes row [n] of those bytes times
    the chunks that are there - with the identity, as Gauss-Jordan elimination in
    place would leave it, a copy of the [n]-th of them, whatever was lost. *)
Theorem decode_undetermined isal rows left : coder_fits isal → isal_ok isal gf_mul → inverse_fits isal →
  decode_rows isal ly sources = Some rows → (gf_invert_matrix isal rows (ly_k ly)).1.1 = true →
  Z.of_nat (List.length left) = ly_k ly * ly_k ly → cn_tcp_server conn ≠ None →
  let isal' := with_input_left isal (ly_k ly) left in
  (coder_fits isal' ∧ isal_ok isal' gf_mul ∧ inverse_fits isal' ∧
   ∀ a n, (gf_invert_matrix isal' a n).1.1 = (gf_invert_matrix isal a n).1.1 ∧
     (gf_invert_matrix isal' a n).2 = (gf_invert_matrix isal a n).2) ∧
  ∃ r' m', try_decode (λ _, fb) (Some isal') pad mem r =
      Some (true, Some (ec_ack_message (cx_connection_id (cn_connection_ctx conn))), <[id := m']> mem, r') ∧
    decoded gf_mul ly left sources missing m m' ∧
    (left = identity_matrix (ly_k ly) →
     ∀ n lost there, missing !! n = Some lost → sources !! n = Some there →
       marked fb lost = false ∧ marked fb there = true ∧
       mem_read m' (lost * ly_chunk_bytes ly) (ly_chunk_bytes ly) =
         mem_read m (there * ly_chunk_bytes ly) (ly_chunk_bytes ly)).
Proof.
  intros Hcoder Hisal Hinv Hrows Hsucc Hleft Hserver isal'.
  pose proof (with_input_left_ok isal (ly_k ly) left Hleft Hcoder Hisal Hinv) as Hdoc. split; [exact Hdoc|].
  destruct Hdoc as (Hcoder' & Hisal' & Hinv' & _). fold isal' in Hcoder', Hisal', Hinv'.
  destruct (gf_invert_matrix isal rows (ly_k ly)) as [[ok d] inverse] eqn:E. cbn in Hsucc. subst ok.
  assert (gf_invert_matrix isal' rows (ly_k ly) = (true, left, inverse)) as E'
    by (cbn; by rewrite E, Z.eqb_refl).
  destruct (decoded_there isal' Hcoder' Hisal' Hinv' rows true left inverse Hrows E') as (msg & r' & m' & Hdec & -> & Ht).
  destruct (cn_tcp_server conn); [|done]. exists r', m'. split; [done|]. split; [done|].
  intros ->. by apply (identity_copies isal Hisal m').
Qed.
End FewLosses.

(** The chunks of the example: the first was lost, the third is its parity. *)
Definition example_ec_memory : list Z := replicate 10 99 ++ zrange 10 20 ++ zrange 0 10.

Lemma decode_few_losses_witness : ∃ msg r' m',
  try_decode (λ _, example_ec_bitmap 6) (Some example_coder) example_padding {[0 := example_ec_memory]}
    (example_ec_receiver 0 false) = Some (true, msg, <[0 := m']> {[0 := example_ec_memory]}, r') ∧
  mem_read m' 0 10 = Some (zrange 10 20).
Proof.
  destruct (decode_few_losses (example_ec_bitmap 6) gf_mul example_padding
    {[0 := example_ec_memory]} (example_ec_receiver 0 false) (mkRecvHandle 0 1 0 (BufUser 0) 30)
    example_ec_conn example_ec_context 0 example_ec_memory) with (isal := example_coder) as (rows & Hrows & Hdec).
  - apply example_decoding.
  - reflexivity.
  - reflexivity.
  - exact example_ec_layout_ok.
  - left. vm_compute. reflexivity.
  - vm_compute. discriminate.
  - vm_compute. discriminate.
  - vm_compute. discriminate.
  - apply example_ec_bitmap_wf; vm_compute; split; done.
  - reflexivity.
  - vm_compute. split; done.
  - vm_compute. discriminate.
  - exact example_coder_fits.
  - exact example_coder_ok.
  - exact example_inverse_fits.
  - assert (rows = [0; 1; 1; 1]) as -> by (revert Hrows; vm_compute; by intros [= <-]).
    assert (gf_invert_matrix example_coder [0; 1; 1; 1] (ly_k (xr_layout (example_ec_receiver 0 false))) =
      (true, [1; 0; 0; 1], [1; 1; 1; 0])) as E by (vm_compute; reflexivity).
    rewrite E in Hdec. destruct Hdec as (msg & r' & m' & [_ _ Hch] & Ht).
    exists msg, r', m'. split; [exact Ht|].
    etransitivity; [exact (Hch O 0 ltac:(vm_compute; reflexivity))|vm_compute; reflexivity].
Defined.

(** Chunk 0 was lost; chunk 1 takes its place, and EC_ACK is sent. *)
Lemma decode_undetermined_witness : ∃ r' m',
  try_decode (λ _, example_ec_bitmap 6) (Some (with_input_left example_coder 2 (identity_matrix 2))) example_padding
    {[0 := example_ec_memory]} (example_ec_receiver 0 false) =
    Some (true, Some (ec_ack_message (cx_connection_id (cn_connection_ctx example_ec_conn))),
          <[0 := m']> {[0 := example_ec_memory]}, r') ∧
  mem_read m' 0 10 = mem_read example_ec_memory 10 10.
Proof.
  destruct (decode_undetermined (example_ec_bitmap 6) gf_mul example_padding
    {[0 := example_ec_memory]} (example_ec_receiver 0 false) (mkRecvHandle 0 1 0 (BufUser 0) 30)
    example_ec_conn example_ec_context 0 example_ec_memory) with (isal := example_coder) (rows := [0; 1; 1; 1])
    (left := identity_matrix 2) as (_ & r' & m' & E & _ & Hcopy).
  - apply example_decoding.
  - reflexivity.
  - reflexivity.
  - exact example_ec_layout_ok.
  - left. vm_compute. reflexivity.
  - vm_compute. discriminate.
  - vm_compute. discriminate.
  - vm_compute. discriminate.
  - apply example_ec_bitmap_wf; vm_compute; split; done.
  - reflexivity.
  - vm_compute. split; done.
  - vm_compute. discriminate.
  - exact example_coder_fits.
  - exact example_coder_ok.
  - exact example_inverse_fits.
  - vm_compute. reflexivity.
  - vm_compute. reflexivity.
  - vm_compute. reflexivity.
  - vm_compute. discriminate.
  - exists r', m'. split; [exact E|].
    destruct (Hcopy ltac:(vm_compute; reflexivity) O 0 1) as (_ & _ & Hc);
      [vm_compute; reflexivity|vm_compute; reflexivity|exact Hc].
Defined.

(** The inverse is not used: whatever matrix the library's inversion writes to
    its output array, every call of [try_decode] answers, sends and writes the same. *)
Theorem decode_ignores_inverse view isal inverse pad mem r :
  let isal' := mkIsaL (gf_gen_rs_matrix isal) (ec_init_tables isal) (ec_encode_data isal)
    (λ a n, ((gf_invert_matrix isal a n).1, inverse a n)) in
  try_decode view (Some isal') pad mem r = try_decode view (Some isal) pad mem r.
Proof.
  intros isal'. assert (∀ ly sources missing m,
    decode_buffer isal' ly sources missing m = decode_buffer isal ly sources missing m) as Hd.
  { intros. unfold decode_buffer, decode_rows. cbn [isal' gf_gen_rs_matrix].
    destruct (mapM _ sources) as [rows|]; [|done]. cbn [mbind option_bind].
    case_bool; [done|]. cbn [isal' gf_invert_matrix].
    by destruct (gf_invert_matrix isal _ _) as [[ok d] i]. }
  unfold try_decode, try_recover. repeat case_match; try done.
  destruct (read_chunks _ _ _ _) as [[missing n]|]; [|done]. cbn [mbind option_bind].
  repeat case_match; try done. destruct (read_chunks _ _ _ _) as [[available n']|]; [|done].
  cbn [mbind option_bind]. repeat case_match; try done.
  destruct (mem !! _); [|done]. cbn [mbind option_bind]. by rewrite Hd.
Qed.

(** Rows outside the matrix: of several stripes the first [k] chunks that are there
    may include one numbered [k + m] or more; its row is read past the end of the
    generator matrix, so the call is undefined although the losses are few. *)
Theorem decode_past_matrix fb isal gf_mul pad mem r h conn ctx id m i :
  let ly := xr_layout r in
  let missing := missing_in fb 0 (ly_data_chunks ly) in
  let present := present_in fb 0 (ly_data_chunks ly + ly_parity_chunks ly) in
  decoding r h conn ctx → mc_buffer ctx = BufUser id → mem !! id = Some m → ly_ok ly →
  isal_ok isal gf_mul → ly_k ly + ly_m ly ≤ 255 →
  (ly_data_chunks ly + ly_parity_chunks ly) * ly_k ly < 4294967296 →
  wf_frontend fb → xr_fallback_active r = false →
  0 < Z.of_nat (List.length missing) ≤ ly_m ly → ly_k ly ≤ Z.of_nat (List.length present) →
  i ∈ take (Z.to_nat (ly_k ly)) present → ly_k ly + ly_m ly ≤ i →
  try_decode (λ _, fb) (Some isal) pad mem r = None.
Proof.
  intros ly missing present Hd Hbuf Hmem Hly Hisal H255 Hsmall Hwf Hf Hm Hk Hi Hpast.
  destruct (ly_bounds ly Hly) as (?&?&_&_&?&?). pose proof (lo_k _ Hly). pose proof (lo_m _ Hly).
  assert (ly_data_chunks ly +u32 ly_parity_chunks ly = ly_data_chunks ly + ly_parity_chunks ly) as Ec
    by (apply u32_small; lia).
  rewrite (try_decode_still fb isal pad mem r h conn ctx id m Hd); fold ly; [|done..|by rewrite Ec].
  fold missing. rewrite Ec. fold present.
  assert (0 ≤ i < ly_data_chunks ly + ly_parity_chunks ly) as Hr.
  { apply elem_of_take in Hi as (j & Hj%list_elem_of_lookup_2 & _). by apply elem_of_present_in in Hj as [? _]. }
  unfold decode_buffer, decode_rows. pose proof (io_matrix _ _ Hisal (ly_k ly + ly_m ly) (ly_k ly) ltac:(lia) H255).
  assert (mapM (λ idx, mem_read (gf_gen_rs_matrix isal (ly_k ly + ly_m ly) (ly_k ly)) (idx *u32 ly_k ly) (ly_k ly))
    (take (Z.to_nat (ly_k ly)) present) = None) as E.
  { apply mapM_None, Exists_exists. exists i. split; [done|]. rewrite u32_small by nia. unfold mem_read.
    assert ((ly_k ly + ly_m ly) * ly_k ly ≤ i * ly_k ly) by nia. by case_bool; [lia|]. }
  by rewrite E.
Qed.

(** Three data chunks in stripes of two with two parity chunks each; the first two
    data chunks and the first parity chunk are lost. *)
Definition example_two_stripes : ECReceiver :=
  mkECReceiver (mkECConfig 2 2 0 30 3) (mkECStats 0 0 0) (Some (mkRecvHandle 0 1 0 (BufUser 0) 70))
    (Some (cn_with_ctx example_rx_conn (cx_with_table new_connection_context
      {[0 := posted_context 0 1 (BufUser 0) 70 14 7 example_cts_params]})))
    (ec_layout example_cts_params (mkECConfig 2 2 0 30 3) 30) 0 false.

Lemma decode_past_matrix_witness :
  try_decode (λ _, mkFrontend [116] 1 7 2 true false 100) (Some example_coder) example_padding
    {[0 := replicate 70 0]} example_two_stripes = None.
Proof.
  apply (decode_past_matrix (mkFrontend [116] 1 7 2 true false 100) example_coder gf_mul example_padding
    {[0 := replicate 70 0]} example_two_stripes (mkRecvHandle 0 1 0 (BufUser 0) 70)
    (default example_rx_conn (xr_conn example_two_stripes)) (posted_context 0 1 (BufUser 0) 70 14 7 example_cts_params)
    0 (replicate 70 0) 4).
  - constructor; [reflexivity..|]. eexists. reflexivity.
  - reflexivity.
  - reflexivity.
  - apply ec_layout_ok; [apply example_cts_params_wf|vm_compute; repeat split..].
  - exact example_coder_ok.
  - vm_compute. discriminate.
  - vm_compute. reflexivity.
  - constructor; [cbn; lia|done|]. apply Forall_cons_2; [vm_compute; split; done|apply Forall_nil_2].
  - reflexivity.
  - vm_compute. split; done.
  - vm_compute. discriminate.
  - vm_compute. apply list_elem_of_further, list_elem_of_here.
  - vm_compute. discriminate.
Defined.

(** Once it has fallen back a receiver never asks again: while a data chunk is
    missing every call of [try_decode] returns [false], sends nothing and changes
    nothing, also when no more than [m] are missing. *)
Theorem ec_fallback_waits view total isal pad mem r h conn ctx c :
  decoding r h conn ctx → xr_fallback_active r = true →
  (∀ n, wf_frontend (view n) ∧ fb_total_chunks (view n) = total) →
  0 ≤ c < ly_data_chunks (xr_layout r) → (∀ n, marked (view n) c = false) →
  try_decode view isal pad mem r = Some (false, None, mem, r).
Proof.
  intros Hd Hf Hview Hc Hm. rewrite (try_decode_eq _ _ _ _ _ _ _ _ Hd).
  destruct (read_chunks_ok view total Hview false 0 _ (zrange_nonneg (ly_data_chunks (xr_layout r))))
    as (l & n & -> & _ & _ & Hout & _). cbn [mbind option_bind].
  destruct l as [|c0 l]; [|by rewrite Hf].
  destruct (Hout c) as [?%not_elem_of_nil|(n' & _ & Hs)]; [by apply elem_of_zrange|done|].
  by rewrite Hm in Hs.
Qed.

Lemma ec_fallback_waits_witness :
  try_decode (λ _, example_ec_bitmap 6) (Some example_coder) example_padding ∅ (example_ec_receiver 3 true) =
    Some (false, None, ∅, example_ec_receiver 3 true).
Proof.
  apply (ec_fallback_waits (λ _, example_ec_bitmap 6) 3 (Some example_coder) example_padding ∅
    (example_ec_receiver 3 true) (mkRecvHandle 0 1 0 (BufUser 0) 30) example_ec_conn example_ec_context 0).
  - apply example_decoding.
  - reflexivity.
  - intros n. apply example_ec_bitmap_wf; vm_compute; split; done.
  - vm_compute. split; done.
  - reflexivity.
Defined.

(** With [data_bytes] left at its default of 0 - the length of the buffer
    then counts as data - [post_receive] refuses every buffer: the parity never
    fits, nothing is posted and -1 returned. *)
Theorem ec_post_default_refused pad uninit env ps r conn buffer length :
  let ly := ec_layout (cx_params (cn_connection_ctx conn)) (xr_cfg r) length in
  ec_data_bytes (xr_cfg r) = 0 → ly_ok ly →
  ∃ r', ec_post_receive pad uninit env ps r conn buffer length = Some (Returned (-1), ps, r') ∧
    xr_recv_handle r' = xr_recv_handle r ∧ xr_conn r' = Some conn.
Proof.
  intros ly Hcfg Hly. destruct (ly_bounds ly Hly) as (?&?&?&Hb&?&?). pose proof (lo_chunk _ Hly).
  pose proof (lo_parity _ Hly). pose proof (lo_m _ Hly).
  assert (ly_data_bytes ly = length) as Hl by (cbn; by rewrite Hcfg).
  assert (length < ly_total_bytes ly) as Hlt by (rewrite (ly_total_eq ly Hly); nia).
  unfold ec_post_receive. fold ly. rewrite (proj2 (Z.ltb_lt _ _)) by done.
  eexists. split; [reflexivity|]. done.
Qed.

Lemma ec_post_default_refused_witness : ∃ r',
  ec_post_receive example_padding zero_message example_channels new_process
    (new_ec_receiver (mkECConfig 4 2 0 0 3)) example_rx_conn (BufUser 0) 1000000 =
    Some (Returned (-1), new_process, r').
Proof.
  destruct (ec_post_default_refused example_padding zero_message example_channels new_process
    (new_ec_receiver (mkECConfig 4 2 0 0 3)) example_rx_conn (BufUser 0) 1000000) as (r' & H & _).
  - reflexivity.
  - constructor; vm_compute; repeat split; done.
  - exists r'. exact H.
Defined.
