(* ===== verification/EcRepair.v ===== *)
(** * Erasure coding: sender, receiver, poller and transfer together

    What a round of erasure coding with too many losses (reliability/ec.cpp) does
    to a transfer: the request of [ECReceiver::try_decode], the answer of
    [ECSender::poll], the datagrams through [UDPReceiver] and the next poll of the
    chunk bitmap. *)

From S2P Require Import Prelude Bits Bytes Packet Backend Frontend Control Wait Connection Receiver Api Transfer.
From S2P Require Import Resend SrSender SrReceiver Repair Erasure EcSender EcReceiver.
Import ControlMsgType.

(** A request without a bitmap asks for its gaps. *)
Lemma ec_asked_gaps dc s msg : cm_chunk_bitmap_words msg = 0 →
  (∀ c, c ∈ reported_gaps dc msg (zrange 0 (cm_num_gaps msg)) → acked_at (es_chunk_acked s) c = false) →
  ec_asked dc s msg = reported_gaps dc msg (zrange 0 (cm_num_gaps msg)).
Proof.
  intros Hw Ha. unfold ec_asked. rewrite Hw. rewrite (zrange_nil 0 (Z.min _ dc)) by lia.
  unfold bitmap_lacks. cbn [List.filter]. rewrite take_nil, app_nil_r. apply filter_all.
  intros c Hc. rewrite (Ha c Hc). unfold bitmap_has.
  rewrite Hw. destruct (Z.leb_spec 0 c), (Z.ltb_spec c (64 * Z.min 0 16)); try lia; done.
Qed.

(** ** A round *)

(** C6: A round of requests repairs the data: take a transfer of encoded data with
    more than [m] of fewer than 65536 data chunks missing, a sender that
    acknowledges only chunks the receiver has marked, and a network that
    delivers.  Then [try_decode] sends its request, the sender answers it with
    datagrams whose arrival leaves the transfer consistent, every chunk the
    request names is marked by the next poll and no mark is lost; and unless the
    request was full, at sixteen gaps, all data chunks are then marked. *)
Theorem ec_round_repairs params slot id length storage st mc b fb isal pad mem r h conn ctx hs s :
  let dc := ly_data_chunks (xr_layout r) in
  let missing := missing_in fb 0 dc in
  sendable params storage length → 0 ≤ slot < 1024 → total_packets_of params length ≤ 262144 →
  0 ≤ dc ≤ total_chunks_of params length → dc < 65536 →
  shared_ok params slot id length storage st →
  cx_msg_table (rx_cx st) !! slot = Some mc → wf_transfer mc b fb →
  bb_packets_per_chunk b = prm_packets_per_chunk params →
  decoding r h conn ctx → is_uint 4 (cx_connection_id (cn_connection_ctx conn)) →
  cn_tcp_server conn ≠ None → xr_fallback_active r = false →
  0 ≤ ly_m (xr_layout r) < Z.of_nat (List.length missing) →
  ec_ok params slot storage length dc hs s → ev_sockets (es_env s) = [] →
  (∀ c, 0 ≤ c < dc → acked_at (es_chunk_acked s) c = true → marked fb c = true) →
  ∃ msg r' w s' st' b' fb',
    try_decode (λ _, fb) isal pad mem r = Some (false, Some msg, mem, r') ∧
    on_ec_nack s params hs dc msg =
      Some (if forallb (acked_at (es_chunk_acked s')) (zrange 0 dc) then EcReturn 0 s' else EcAgain s') ∧
    ev_wire (es_env s') = ev_wire (es_env s) ++ w ∧
    receiver_loop st (RxDatagram <$> (snd <$> w)) = Some st' ∧
    shared_ok params slot id length storage st' ∧
    (∃ mc', cx_msg_table (rx_cx st') !! slot = Some mc' ∧ mc_backend mc' = Some b') ∧
    poll_once (Some b') fb = Some fb' ∧
    (∀ c, marked fb c = true → marked fb' c = true) ∧
    (∀ c, c ∈ reported_gaps dc msg (zrange 0 (cm_num_gaps msg)) → marked fb' c = true) ∧
    (cm_num_gaps msg < 16 → ∀ c, 0 ≤ c < dc → marked fb' c = true).
Proof.
  intros dc missing Hsend Hslot Hfits Hdc Hdc16 Hok Hmc Hwt Hppc Hd Hid Hsrv Hf Hm Hs Hsock Hsound.
  destruct (ec_request_sent fb isal pad mem r h conn ctx Hd Hid (wft_fb _ _ _ Hwt) Hdc16 Hsrv Hf Hm)
    as (msg & r' & Htry & _ & Hmok & _ & _ & _ & Hwords & rest & Hgaps & Hend).
  fold dc missing in Hgaps. set (gaps := reported_gaps dc msg _) in *.
  assert (∀ c, c ∈ gaps → 0 ≤ c < dc ∧ marked fb c = false) as Hin.
  { intros c Hc. apply elem_of_missing_in. fold missing. rewrite Hgaps. apply elem_of_app. by left. }
  assert (ec_asked dc s msg = gaps) as Hasked.
  { apply ec_asked_gaps; [done|]. intros c [Hc Hmk]%Hin.
    destruct (acked_at (es_chunk_acked s) c) eqn:E; [|done]. by rewrite Hsound in Hmk. }
  destruct (on_ec_nack_ok params slot storage length dc Hsend Hslot Hfits Hdc hs s msg Hs Hmok)
    as (s' & Hnack & _ & [_ _ _ _ (w & Hw & _ & Hex)]).
  destruct (Hex Hsock) as [_ ->]. rewrite Hasked in Hw.
  destruct (chunks_delivered params slot id length storage Hsend Hslot Hfits st mc b fb gaps)
    as (st' & b' & fb' & Hl & Hok' & (mc' & Hmc' & Hb' & _) & _ & Hpoll & _ & Hkeep & Hmarks); [done..| |].
  { apply Forall_forall. intros c [Hc _]%Hin. lia. }
  exists msg, r', (concat (chunk_wire params slot storage length <$> gaps)), s', st', b', fb'.
  split_and!; try done; [by exists mc'|].
  intros Hlt c Hc. destruct (marked fb c) eqn:E; [by apply Hkeep|]. apply Hmarks.
  destruct Hend as [->|?]; [|lia]. rewrite app_nil_r in Hgaps. rewrite <-Hgaps.
  by apply elem_of_missing_in.
Qed.

(** Three data chunks and a parity chunk of ten bytes, all lost. *)
Definition example_round_cfg : ECConfig := mkECConfig 3 1 0 30 3.

Definition example_round_storage : list Z :=
  default [] (encode_storage example_coder (ec_layout example_cts_params example_round_cfg 30) (zrange 0 30)).

Definition example_round_handle : SDRSendHandle := mkSendHandle 0 1 40 8.

Definition example_round_sender : ECSender :=
  mkECSender example_round_cfg (mkECStats 1 0 0) (Some example_round_handle) example_round_storage
    (es_conn (example_ec_sender example_cts_params 12 [])) (replicate 3 false) false (mkEnv 0 [] [] []).

Definition example_round_receiver : ECReceiver :=
  mkECReceiver example_round_cfg (mkECStats 0 0 0) (Some (mkRecvHandle 0 1 0 (BufUser 0) 40))
    (Some (cn_with_ctx example_rx_conn (rx_cx (armed_state 0 40 8 4))))
    (ec_layout example_cts_params example_round_cfg 40) 0 false.

Lemma ec_round_repairs_witness :
  let posted := posted_context 0 1 (BufUser 0) 40 8 4 example_cts_params in
  let fb := default (make_frontend (None : option BackendBitmap) 0) (mc_frontend posted) in
  ∃ msg r' s' fb',
    try_decode (λ _, fb) None example_padding ∅ example_round_receiver = Some (false, Some msg, ∅, r') ∧
    cm_num_gaps msg = 1 ∧
    on_ec_nack example_round_sender example_cts_params example_round_handle 3 msg =
      Some (if forallb (acked_at (es_chunk_acked s')) (zrange 0 3) then EcReturn 0 s' else EcAgain s') ∧
    (∀ c, 0 ≤ c < 3 → marked fb c = false ∧ marked fb' c = true).
Proof.
  intros posted fb.
  destruct (posted_context_wf 0 1 (BufUser 0) 40 example_cts_params)
    as (b & fb0 & Hwt & _ & _ & _ & _ & Hppc); [unfold receivable; lia|split; reflexivity..|].
  assert (Some fb0 = Some fb) as Hfb by (rewrite <-(wft_frontend _ _ _ Hwt); vm_compute; reflexivity).
  injection Hfb as ->.
  destruct (ec_round_repairs example_cts_params 0 0 40 example_round_storage (armed_state 0 40 8 4) posted b fb
    None example_padding ∅ example_round_receiver (mkRecvHandle 0 1 0 (BufUser 0) 40)
    (default example_rx_conn (xr_conn example_round_receiver)) posted example_round_handle example_round_sender)
    as (msg & r' & w & s' & st' & b' & fb' & Ht & Hn & _ & _ & _ & _ & _ & _ & _ & Hall).
  - assert (List.length example_round_storage = 40%nat) as Hl by (vm_compute; reflexivity).
    constructor; [apply example_cts_params_wf|..]; rewrite ?Hl;
      cbn [example_cts_params prm_mtu_bytes prm_packets_per_chunk];
      unfold MAX_PAYLOAD_SIZE, sizeof_SDRPacketHeader; lia.
  - lia.
  - vm_compute. discriminate.
  - vm_compute. split; discriminate.
  - vm_compute. reflexivity.
  - apply ready_shared_ok, armed_ready; [unfold receivable; lia|vm_compute; reflexivity].
  - apply lookup_singleton_eq.
  - exact Hwt.
  - rewrite Hppc. reflexivity.
  - constructor; [reflexivity..|]. eexists. reflexivity.
  - vm_compute. split; done.
  - discriminate.
  - reflexivity.
  - vm_compute. split; done.
  - constructor; [split; [reflexivity|split; reflexivity]|reflexivity| |reflexivity].
    eexists _, _. split; [vm_compute; reflexivity|split; vm_compute; reflexivity].
  - reflexivity.
  - intros c Hc. change (ly_data_chunks _) with 3 in Hc.
    assert (c = 0 ∨ c = 1 ∨ c = 2) as [->|[->| ->]] by lia; vm_compute; discriminate.
  - assert (cm_num_gaps msg = 1) as Hg by (revert Ht; vm_compute; intros [= <- _]; reflexivity).
    exists msg, r', s', fb'. split; [exact Ht|]. split; [exact Hg|]. split; [exact Hn|].
    intros c Hc. split; [|apply Hall; [rewrite Hg; reflexivity|exact Hc]].
    assert (c = 0 ∨ c = 1 ∨ c = 2) as [->|[->| ->]] by lia; vm_compute; reflexivity.
Defined.
