(* ===== verification/CommandLine.v ===== *)
(** * Command lines and test data of the example programs (examples/)

    What the [main] functions of sdr_test_sender.cpp and sdr_test_receiver.cpp
    make of their arguments and of the configuration, and the test message: the
    bytes the sender fills its buffer with and the check of the receiver.  The
    arguments are [argv], the program's name first. *)

From Stdlib Require Import Ascii String.
From stdpp Require Import strings.
From S2P Require Import Prelude Packet Control Api ConfigParser Erasure SrSender.

(** ** Arguments *)

Module Mode.
Inductive t : Set := SDR | SR | EC.
End Mode.

(** How [main] ends: with an exit code, by an exception nobody catches, or not
    yet, because a wait has no input. *)
Inductive Outcome : Set :=
| Exit (code : Z)
| Uncaught
| Waiting.

(** [std::stoi(s)]; [None] when it throws. *)
Definition stoi (s : cpp_string) : option Z :=
  let s := skip_spaces s in
  let '(negative, s) :=
    match s with
    | c :: s' => if Ascii.eqb c "-" then (true, s') else if Ascii.eqb c "+" then (false, s') else (false, s)
    | [] => (false, s)
    end in
  value ← read_digits false 0 s;
  let value := if (negative : bool) then - value else value in
  if (value <? -2147483648) || (value >? 2147483647) then None else Some value.

(** [std::stoull(s)], [unsigned long long] being [unsigned long]. *)
Definition stoull (s : cpp_string) : option Z := stoul s.

(** The mode flag: the mode and the arguments after it ([argv + argi]). *)
Definition mode_args (argv : list cpp_string) : Outcome + Mode.t * list cpp_string :=
  match argv with
  | _ :: flag :: rest =>
      if bool_decide (flag = str "--mode") then
        match rest with
        | [] => inl (Exit 1)
        | m :: rest =>
            inr (if bool_decide (m = str "sr") then Mode.SR
                 else if bool_decide (m = str "ec") then Mode.EC else Mode.SDR, rest)
        end
      else inr (Mode.SDR, flag :: rest)
  | _ => inr (Mode.SDR, [])
  end.

(** What both programs read; the size is given on the command line or not. *)
Record Arguments : Set := mkArguments {
  ar_mode : Mode.t;
  ar_tcp_port : Z;
  ar_udp_port : Z;
  ar_message_size : Z;
  ar_size_given : bool;
  ar_config_file : cpp_string
}.

Definition default_message_size : Z := 1024 * 1024.

(** The sender's: [<server_ip> <tcp_port> <udp_port> [message_size] [config_file]]. *)
Definition sender_args (argv : list cpp_string) : Outcome + Arguments :=
  match mode_args argv with
  | inl o => inl o
  | inr (mode, args) =>
      if (length args <? 3)%nat then inl (Exit 1) else
      let at_ n := nth n args [] in
      match stoi (at_ 1%nat), stoi (at_ 2%nat) with
      | Some tcp_port, Some udp_port =>
          let arguments := mkArguments mode (u16 tcp_port) (u16 udp_port) in
          if (4 <=? length args)%nat then
            match stoull (at_ 3%nat) with
            | Some size => inr (arguments size true (if (5 <=? length args)%nat then at_ 4%nat else []))
            | None => inl Uncaught
            end
          else if (length args =? 3)%nat then
            inr (arguments default_message_size false (if (3 <? length args)%nat then at_ 3%nat else []))
          else inr (arguments default_message_size false [])
      | _, _ => inl Uncaught
      end
  end.

(** The receiver's: [<tcp_port> <udp_port> [message_size] <config_file>]. *)
Definition receiver_args (argv : list cpp_string) : Outcome + Arguments :=
  match mode_args argv with
  | inl o => inl o
  | inr (mode, args) =>
      if (length args <? 3)%nat then inl (Exit 1) else
      let at_ n := nth n args [] in
      match stoi (at_ 0%nat), stoi (at_ 1%nat) with
      | Some tcp_port, Some udp_port =>
          let arguments := mkArguments mode (u16 tcp_port) (u16 udp_port) in
          if (4 <=? length args)%nat then
            match stoull (at_ 2%nat) with
            | Some size => inr (arguments size true (at_ 3%nat))
            | None => inl Uncaught
            end
          else inr (arguments default_message_size false (at_ 2%nat))
      | _, _ => inl Uncaught
      end
  end.

(** ** Configuration *)

Definition sender_config (files : cpp_string → option cpp_string) (a : Arguments) : ConfigParser :=
  match ar_config_file a with
  | [] => ∅
  | file => snd (load_from_file ∅ (files file))
  end.

(** The size of the message, which the configuration may give. *)
Definition sender_message_size (cfg : ConfigParser) (a : Arguments) : Z :=
  if ar_size_given a then ar_message_size a
  else get_uint32 cfg (str "message_size") (u32 (ar_message_size a)).

(** [preferred]. *)
Definition preferred_params (cfg : ConfigParser) (udp_port : Z) : ConnectionParams :=
  mkParams (get_uint32 cfg (str "transfer_id") 1) 0 (get_uint32 cfg (str "mtu_bytes") 0) 0 0
    (u16 (get_uint32 cfg (str "packets_per_chunk") 0)) 0 0 0 0 0 0
    (u16 (get_uint32 cfg (str "num_channels") 1)) udp_port (replicate 16 0) udp_port.

Definition c_str (s : cpp_string) : list Z := (λ c, Z.of_N (N_of_ascii c)) <$> s.

(** [params] of the receiver. *)
Definition receiver_params (cfg : ConfigParser) (udp_port : Z) : ConnectionParams :=
  mkParams (get_uint32 cfg (str "transfer_id") 1) 0 (get_uint32 cfg (str "mtu_bytes") 128) 0 0
    (u16 (get_uint32 cfg (str "packets_per_chunk") 64)) 0 0 0 0 0 0
    (u16 (get_uint32 cfg (str "num_channels") 1))
    (u16 (get_uint32 cfg (str "channel_base_port") udp_port))
    (strncpy_ip (c_str (get_string cfg (str "udp_server_ip") (str "127.0.0.1")))) udp_port.

(** ** Test data *)

(** The message the sender sends. *)
Definition pattern (size : Z) : list Z := (λ i, i mod 256) <$> zrange 0 size.

(** The check of the receiver, from byte [i] on: whether the data is valid and
    the first mismatch so far; it stops more than ten bytes after that one. *)
Fixpoint check_loop (buffer : list Z) (offsets : list Z) (data_valid : bool) (first_mismatch : option Z)
    : option (bool * option Z) :=
  match offsets with
  | [] => Some (data_valid, first_mismatch)
  | i :: offsets =>
      actual ← buffer !! Z.to_nat i;
      if actual =? i mod 256 then check_loop buffer offsets data_valid first_mismatch else
      let first := default i first_mismatch in
      if i - first >? 10 then Some (false, Some first)
      else check_loop buffer offsets false (Some first)
  end.

(** [None] when [buffer] is shorter than what is read. *)
Definition verify_data (buffer : list Z) (message_size : Z) : option (bool * option Z) :=
  check_loop buffer (zrange 0 (Z.min message_size 1024)) true None.

(** ** Lemmas *)

(** The sender reads a configuration file only after a message size: the branch
    for a file without one is never taken, so [message_size] of a file counts
    for nothing. *)
Lemma sender_config_needs_size argv a : sender_args argv = inr a → ar_config_file a ≠ [] →
  ar_size_given a = true.
Proof.
  unfold sender_args. destruct (mode_args argv) as [?|[mode args]]; [done|].
  destruct (length args <? 3)%nat; [done|]. destruct (stoi _); [|done]. destruct (stoi _); [|done].
  destruct (4 <=? length args)%nat; [destruct (stoull _); [by intros [= <-]|done]|].
  destruct (length args =? 3)%nat eqn:E3; intros [= <-]; [|done].
  apply Nat.eqb_eq in E3. by rewrite E3.
Qed.
