(* ===== verification/SenderMain.v ===== *)
(** * The sending program (examples/sdr_test_sender.cpp)

    [main]: arguments, configuration, connection, and the transfer by the mode
    of the command line.  What the operating system answers is a
    [SenderWorld]. *)

From Stdlib Require Import Ascii String.
From stdpp Require Import strings.
From S2P Require Import Prelude Packet Backend Control Wait Connection Api Transfer ConfigParser.
From S2P Require Import Resend SrSender Erasure EcSender CommandLine.

Record SenderWorld : Type := mkSenderWorld {
  sw_files : cpp_string → option cpp_string;
  sw_connect : connect_calls;
  sw_data : data_calls;
  sw_env : SendEnv;
  sw_isal : option IsaL;
  sw_pad : Padding;
  sw_uninit : ControlMessage
}.

(** [sr_cfg]. *)
Definition sender_sr_config (cfg : ConfigParser) : SRConfig :=
  mkSRConfig (get_uint32 cfg (str "sr_rto_ms") 500) (get_uint32 cfg (str "sr_nack_delay_ms") 200)
    (u16 (get_uint32 cfg (str "window_size") 0)) 0 0.

(** [ec_cfg]. *)
Definition sender_ec_config (message_size : Z) : ECConfig := mkECConfig 4 2 0 message_size 3.

(** How a call of the control loops ends; [None] is a loop still running. *)
Definition loop_outcome (r : option call_result) : Outcome :=
  match r with Some (Returned _) => Exit 0 | _ => Waiting end.

(** The transfer and what [main] makes of its result, with the datagrams sent. *)
Definition sender_transfer (w : SenderWorld) (mode : Mode.t) (cfg : ConfigParser) (ps : Process)
    (conn : SDRConnection) (size : Z) : option (Outcome * list (Z * list Z)) :=
  let data := pattern size in
  match mode with
  | Mode.SR =>
      '(rc, _, s) ← start_send (sw_pad w) (sw_uninit w) (sw_data w) ps
        (new_sr_sender (sender_sr_config cfg) (sw_env w)) conn false data size;
      match rc with
      | Blocked => Some (Waiting, ev_wire (ss_env s))
      | Returned rc =>
          if rc =? 0 then
            '(rc, s) ← poll (sw_uninit w) s;
            Some (loop_outcome rc, ev_wire (ss_env s))
          else Some (Exit 0, ev_wire (ss_env s))
      end
  | Mode.EC =>
      '(rc, _, s) ← encode_and_send (sw_isal w) (sw_pad w) (sw_uninit w) (sw_data w) ps
        (new_ec_sender (sender_ec_config size) (sw_env w)) conn data size;
      match rc with
      | Blocked => Some (Waiting, ev_wire (es_env s))
      | Returned rc =>
          if rc =? 0 then
            '(rc, s) ← ec_poll (sw_uninit w) s;
            Some (loop_outcome rc, ev_wire (es_env s))
          else Some (Exit 0, ev_wire (es_env s))
      end
  | Mode.SDR =>
      '(rc, _, conn, _, wire) ← sdr_send_post (sw_pad w) (sw_uninit w) (sw_data w) ps conn false data size;
      match rc with
      | Blocked => Some (Waiting, wire)
      | Returned rc =>
          if negb (rc =? 0) then Some (Exit 1, wire) else
          let '(verdict, _) := sdr_send_poll (sw_uninit w) conn in
          Some (match verdict with Returned _ => Exit 0 | Blocked => Waiting end, wire)
      end
  end.

(** [main]. *)
Definition sender_main (w : SenderWorld) (ps : Process) (argv : list cpp_string)
    : option (Outcome * list (Z * list Z)) :=
  match sender_args argv with
  | inl o => Some (o, [])
  | inr a =>
      let cfg := sender_config (sw_files w) a in
      let message_size := sender_message_size cfg a in
      let ps := sdr_ctx_create ps in
      match sdr_connect ps (sw_connect w) with
      | (None, _) => Some (Exit 1, [])
      | (Some conn, ps) =>
          let conn := sdr_set_params conn (preferred_params cfg (ar_udp_port a)) in
          sender_transfer w (ar_mode a) cfg ps conn message_size
      end
  end.

(** ** Lemmas *)

Lemma length_pattern size : 0 ≤ size → Z.of_nat (List.length (pattern size)) = size.
Proof. intros. unfold pattern. rewrite length_fmap, length_zrange. lia. Qed.

Lemma sdr_connect_auto_send ps os conn ps' : sdr_connect ps os = (Some conn, ps') →
  cx_auto_send_data (cn_connection_ctx conn) = true.
Proof.
  unfold sdr_connect. destruct (connect_to_server os new_client) as [ok client]. destruct (negb ok); [done|].
  unfold new_connection. destruct (allocate_connection_id _) as [id next].
  destruct (initialize new_connection_context id zero_params) as [b cx] eqn:E.
  intros [= <- _]. unfold initialize in E. by injection E as _ <-.
Qed.

(** ** Properties *)

(** The exit code says little: once connected the program exits with 1 only
    when [sdr_send_post] fails in the plain mode; in every other case that ends -
    a negative verdict of the receiver, a failed selective-repeat or
    erasure-coding transfer - it exits with 0. *)
Theorem sender_exit_code w ps argv a conn ps' o wire :
  sender_args argv = inr a → sdr_connect (sdr_ctx_create ps) (sw_connect w) = (Some conn, ps') →
  sender_main w ps argv = Some (o, wire) →
  o = Waiting ∨ o = Exit 0 ∨
  o = Exit 1 ∧ ar_mode a = Mode.SDR ∧ ∃ code ps2 conn2 h,
    let cfg := sender_config (sw_files w) a in
    let size := sender_message_size cfg a in
    code ≠ 0 ∧
    sdr_send_post (sw_pad w) (sw_uninit w) (sw_data w) ps'
      (sdr_set_params conn (preferred_params cfg (ar_udp_port a))) false (pattern size) size =
      Some (Returned code, ps2, conn2, h, wire).
Proof.
  intros Ha Hc. unfold sender_main. rewrite Ha, Hc. unfold sender_transfer.
  destruct (ar_mode a) eqn:Hmode.
  - destruct (sdr_send_post _ _ _ _ _ _ _ _) as [[[[[rc ps2] conn2] h] wire']|] eqn:E; [|done].
    cbn [mbind option_bind]. destruct rc as [code|]; [|intros [= <- <-]; by left].
    destruct (Z.eqb_spec code 0); cbn [negb].
    + destruct (sdr_send_poll _ _) as [[]]; intros [= <- <-]; auto.
    + intros [= <- <-]. right. right. split; [done|]. split; [done|]. by exists code, ps2, conn2, h.
  - destruct (start_send _ _ _ _ _ _ _ _ _) as [[[[code|] ps2] s]|]; [| |done]; cbn [mbind option_bind];
      [|intros [= <- _]; by left].
    destruct (code =? 0); [|intros [= <- _]; auto].
    destruct (poll _ _) as [[[[]|] s']|]; [..|done]; intros [= <- _]; auto.
  - destruct (encode_and_send _ _ _ _ _ _ _ _ _) as [[[[code|] ps2] s]|]; [| |done]; cbn [mbind option_bind];
      [|intros [= <- _]; by left].
    destruct (code =? 0); [|intros [= <- _]; auto].
    destruct (ec_poll _ _) as [[[[]|] s']|]; [..|done]; intros [= <- _]; auto.
Qed.

(** C25: In the plain mode a run that exits with 0 has offered the test message to
    the network: the datagrams are the packets of [0, 1, ..., 255, 0, ...] that
    [sendto] accepted, each once and in order, with the parameters the connection
    got from the CTS, if they are usable. *)
Theorem sender_sends_pattern w ps argv a conn ps' wire wire' rc ps2 conn2 h :
  let cfg := sender_config (sw_files w) a in
  let size := sender_message_size cfg a in
  let data := pattern size in
  sender_args argv = inr a → ar_mode a = Mode.SDR →
  sdr_connect (sdr_ctx_create ps) (sw_connect w) = (Some conn, ps') →
  sdr_send_post (sw_pad w) (sw_uninit w) (sw_data w) ps'
    (sdr_set_params conn (preferred_params cfg (ar_udp_port a))) false data size =
    Some (rc, ps2, conn2, h, wire') →
  let params := cx_params (cn_connection_ctx conn2) in
  sendable params data size →
  sender_main w ps argv = Some (Exit 0, wire) →
  ∃ handle, h = Some handle ∧ 0 ≤ sh_msg_id handle < 1024 ∧
    wire = wire_of params (sh_msg_id handle) data size <$>
      List.filter (λ i, dc_sendto (sw_data w) i >? 0) (zrange 0 (total_packets_of params size)).
Proof.
  intros cfg size data Ha Hmode Hc E params Hs. unfold sender_main. rewrite Ha, Hc. unfold sender_transfer.
  rewrite Hmode. fold cfg size data. rewrite E. cbn [mbind option_bind]. destruct rc as [code|]; [|done].
  destruct (Z.eqb_spec code 0) as [->|]; cbn [negb]; [|done].
  destruct (sdr_send_poll _ _) as [[]]; intros [= <-].
  destruct (send_post_sent _ _ _ _ _ _ _ _ _ _ _ _ E) as (h' & -> & Hid & _ & _ & Hlog). cbv zeta in Hlog.
  assert (cx_auto_send_data (cn_connection_ctx
    (sdr_set_params conn (preferred_params cfg (ar_udp_port a)))) = true) as Hauto
    by apply (sdr_connect_auto_send _ _ _ _ Hc).
  rewrite Hauto in Hlog. destruct Hlog as (log & Hlog & ->). fold params in Hlog.
  exists h'. split; [done|]. split; [done|].
  pose proof (wf_params_numbers params (sd_params _ _ _ Hs)) as Hn.
  pose proof (sd_length _ _ _ Hs). pose proof (sd_bound _ _ _ Hs). pose proof (sd_mtu _ _ _ Hs).
  rewrite u64_small in Hlog by lia. fold (total_packets_of params size) in Hlog.
  rewrite send_data_loop_eq in Hlog; [by injection Hlog as <-|done|done|].
  split; [apply ceil_div_bound; lia|done].
Qed.

(** A run in the plain mode, with twelve bytes, an answer CTS, and a verdict. *)
Definition example_argv (mode : string) : list cpp_string :=
  str <$> ["sender"; "--mode"; mode; "127.0.0.1"; "8888"; "9000"; "12"]%string.

Definition example_sender_world (events : list recv_event) : SenderWorld :=
  mkSenderWorld (λ _, None)
    (mkConnectCalls 5 1 0 (mkSocket (Data (message_image example_padding example_cts) :: events) [] []))
    (mkDataCalls 6 1 (λ _, 1)) (mkEnv 0 [] [] []) None example_padding zero_message.

Notation example_sender_conn events :=
  (default (example_tx_conn true []) (sdr_connect (sdr_ctx_create new_process)
    (sw_connect (example_sender_world events))).1).

(** The receiver says the transfer is incomplete; the program exits with 0. *)
Lemma sender_exit_code_witness :
  let events := [Data (message_image example_padding example_ack)] in
  ∃ wire, sender_main (example_sender_world events) new_process (example_argv "sdr") = Some (Exit 0, wire) ∧
    cm_msg_type example_ack = ControlMsgType.value ControlMsgType.INCOMPLETE_NACK.
Proof.
  intros events.
  destruct (sender_main (example_sender_world events) new_process (example_argv "sdr")) as [[o wire]|] eqn:E;
    [|vm_compute in E; discriminate].
  exists wire. split; [|reflexivity].
  destruct (sender_exit_code (example_sender_world events) new_process (example_argv "sdr")
    (mkArguments Mode.SDR 8888 9000 12 true []) (example_sender_conn events) (mkProcess 0 2 1) o wire)
    as [->|[->|(-> & _)]].
  - vm_compute. reflexivity.
  - vm_compute. reflexivity.
  - exact E.
  - revert E. vm_compute. discriminate.
  - reflexivity.
  - revert E. vm_compute. discriminate.
Defined.

Lemma sender_sends_pattern_witness :
  let events := [Data (message_image example_padding example_ack)] in
  ∃ wire, sender_main (example_sender_world events) new_process (example_argv "sdr") = Some (Exit 0, wire) ∧
    wire = wire_of example_cts_params 0 (zrange 0 12) 12 <$> [0; 1; 2].
Proof.
  intros events.
  destruct (sender_main (example_sender_world events) new_process (example_argv "sdr")) as [[o wire]|] eqn:E;
    [|vm_compute in E; discriminate].
  assert (o = Exit 0) as -> by (revert E; vm_compute; by intros [= <- _]).
  set (post := sdr_send_post example_padding zero_message (mkDataCalls 6 1 (λ _, 1)) (mkProcess 0 2 1)
    (sdr_set_params (example_sender_conn events) (preferred_params ∅ 9000)) false (pattern 12) 12).
  destruct post as [[[[[rc ps2] conn2] h] wire']|] eqn:Hpost; [|vm_compute in Hpost; discriminate].
  assert (h = Some (mkSendHandle 0 1 12 3) ∧ cx_params (cn_connection_ctx conn2) = example_cts_params)
    as [-> Hparams] by (revert Hpost; vm_compute; intros [= _ _ <- <- _]; split; reflexivity).
  destruct (sender_sends_pattern (example_sender_world events) new_process (example_argv "sdr")
    (mkArguments Mode.SDR 8888 9000 12 true []) (example_sender_conn events) (mkProcess 0 2 1) wire wire'
    rc ps2 conn2 (Some (mkSendHandle 0 1 12 3))) as (handle & [= <-] & _ & Hw).
  - vm_compute. reflexivity.
  - reflexivity.
  - vm_compute. reflexivity.
  - exact Hpost.
  - rewrite Hparams. apply example_sendable. vm_compute. reflexivity.
  - exact E.
  - exists wire. split; [reflexivity|]. rewrite Hw, Hparams. vm_compute. reflexivity.
Defined.
