(* ===== verification/ReceiverMain.v ===== *)
(** * The receiving program (examples/sdr_test_receiver.cpp)

    [main]: arguments, configuration, the posted receive by the mode of the
    command line, the progress loop and the end.  While the loop runs the
    poller and the workers run too: what its [i]-th round reads of the chunk
    bitmap, the clock and the buffer is the [i]-th [Look]. *)

From Stdlib Require Import Ascii String.
From stdpp Require Import strings.
From S2P Require Import Prelude Bits Bytes Packet Backend Frontend Control Wait Connection Receiver Api Transfer ConfigParser.
From S2P Require Import Resend SrSender SrReceiver Erasure EcReceiver CommandLine.
Import ControlMsgType MessageState.

(** ** The posted receive *)

(** What the loop works on: [recv_handle] with its connection, [sr_receiver] or
    [ec_receiver]. *)
Inductive ActiveReceiver : Set :=
| ActiveSdr (h : SDRRecvHandle) (conn : SDRConnection)
| ActiveSr (r : SRReceiver)
| ActiveEc (r : ECReceiver).

Definition receiver_sr_config (cfg : ConfigParser) : SRConfig :=
  mkSRConfig (get_uint32 cfg (str "sr_rto_ms") 0) (get_uint32 cfg (str "sr_nack_delay_ms") 0)
    (u16 (get_uint32 cfg (str "sr_max_inflight_chunks") 0)) 0 0.

Definition receiver_ec_config (cfg : ConfigParser) (message_size : Z) : ECConfig :=
  mkECConfig (u16 (get_uint32 cfg (str "ec_k_data") 4)) (u16 (get_uint32 cfg (str "ec_m_parity") 2))
    (get_uint32 cfg (str "ec_fallback_timeout_ms") 0) message_size (get_uint32 cfg (str "ec_max_retries") 3).

(** The chunks and the bytes of data and parity as [main] computes them; [None]
    when it divides by a zero [ec_k_data]. *)
Definition main_ec_sizes (params : ConnectionParams) (ec_cfg : ECConfig) (message_size : Z) : option (Z * Z) :=
  let capped_mtu := Z.min (prm_mtu_bytes params) MAX_PAYLOAD_SIZE in
  let chunk_bytes := or_else (capped_mtu *u32 prm_packets_per_chunk params) 1 in
  let data_chunks := u32 (u64 (message_size + chunk_bytes - 1) / chunk_bytes) in
  if ec_k_data ec_cfg =? 0 then None else
  let stripes := u32 (data_chunks + ec_k_data ec_cfg - 1) / ec_k_data ec_cfg in
  let parity_chunks := stripes *u32 ec_m_parity ec_cfg in
  let chunks := data_chunks +u32 parity_chunks in
  Some (chunks, chunks *u64 chunk_bytes).

(** [post_receive] by mode into a buffer of zeros, object 0: what the call
    returned, the active receiver after a success, and the size of the buffer. *)
Definition receiver_post (pad : Padding) (uninit : ControlMessage) (env : Z → channel_env)
    (mode : Mode.t) (cfg : ConfigParser) (params : ConnectionParams) (ps : Process)
    (conn : SDRConnection) (message_size : Z) : option (call_result * option ActiveReceiver * Z) :=
  match mode with
  | Mode.SR =>
      '(rc, _, r) ← sr_post_receive pad uninit env ps (new_sr_receiver (receiver_sr_config cfg)) conn
        (BufUser 0) message_size;
      Some (rc, Some (ActiveSr r), message_size)
  | Mode.EC =>
      let ec_cfg := receiver_ec_config cfg message_size in
      '(chunks, total_length) ← main_ec_sizes params ec_cfg message_size;
      '(rc, _, r) ← ec_post_receive pad uninit env ps (new_ec_receiver ec_cfg) conn (BufUser 0) total_length;
      let r :=
        match xr_recv_handle r, xr_conn r with
        | Some h, Some conn =>
            mkECReceiver (xr_cfg r) (xr_stats r) (Some h)
              (Some (cn_update_context conn h (λ mc, mc_set_total_chunks mc chunks)))
              (xr_layout r) (xr_decode_attempts r) (xr_fallback_active r)
        | _, _ => r
        end in
      Some (rc, Some (ActiveEc r), total_length)
  | Mode.SDR =>
      '(rc, _, conn, raw) ← sdr_recv_post pad uninit env ps conn false (BufUser 0) message_size;
      Some (rc, option_map (λ h, ActiveSdr h conn) raw, message_size)
  end.

(** [active_handle] and the connection. *)
Definition active_handle (r : ActiveReceiver) : option SDRRecvHandle :=
  match r with ActiveSdr h _ => Some h | ActiveSr r => sv_recv_handle r | ActiveEc r => xr_recv_handle r end.

Definition active_conn (r : ActiveReceiver) : option SDRConnection :=
  match r with ActiveSdr _ c => Some c | ActiveSr r => sv_conn r | ActiveEc r => xr_conn r end.

(** [load_handle_ctx]. *)
Definition load_handle_ctx (r : ActiveReceiver) : option MessageContext :=
  conn ← active_conn r;
  match active_handle r with
  | Some h => cx_msg_table (cn_connection_ctx conn) !! rh_msg_ctx h
  | None =>
      slot ← get_message (cn_connection_ctx conn) 0;
      cx_msg_table (cn_connection_ctx conn) !! slot
  end.

(** ** The progress loop *)

(** What a round reads: the chunk bitmap at the [n]-th read of the count and of the
    reliability layer, the packet bitmap at the [n]-th scan of the display in the
    middle and at the end of the round, the clock - after progress, for the
    timeout, and in [pump] -, and the application's memory. *)
Record Look : Type := mkLook {
  lk_view : nat → FrontendBitmap;
  lk_ctrl_view : nat → FrontendBitmap;
  lk_packets : nat → BackendBitmap;
  lk_packets_end : nat → BackendBitmap;
  lk_progress_time : Z;
  lk_now : Z;
  lk_ctrl_first : Z;
  lk_ctrl_now : Z;
  lk_mem : gmap Z (list Z)
}.

(** What [display_progress] shows: the chunks counted of the total and, when the
    context has chunks of some size, the window and a row for each of its chunks. *)
Record DisplayRow : Set := mkRow {
  dr_chunk : Z;
  dr_packets : Z;
  dr_complete : bool
}.

Record Display : Set := mkDisplay {
  dy_chunks_received : Z;
  dy_total_chunks : Z;
  dy_window : option (Z * Z * list DisplayRow)
}.

(** The variables of the loop and what it has shown; [lp_window_index] and [lp_last_ctrl] are the statics
    of [display_progress] and [pump]. *)
Record LoopState : Type := mkLoop {
  lp_receiver : ActiveReceiver;
  lp_chunks_received : Z;
  lp_total_chunks : Z;
  lp_last_chunks_received : Z;
  lp_last_progress_time : Z;
  lp_display_update_counter : Z;
  lp_window_index : Z;
  lp_last_ctrl : option Z;
  lp_screen : list Display
}.

(** The window of chunks [display_progress] shows; [None] when it divides by a
    zero [window_size]. *)
Definition display_window (window_size total_chunks window_index : Z) : option (Z * Z) :=
  if window_size =? 0 then None else
  let num_windows := u64 (total_chunks + window_size - 1) / window_size in
  let start_chunk := if num_windows >? 0 then (window_index mod num_windows) *u64 window_size else 0 in
  Some (start_chunk, Z.min (start_chunk +u64 window_size) total_chunks).

(** The row of a chunk, the bitmap read from the [n]-th scan on; a complete chunk
    counts as full. *)
Definition display_row (view : nat → BackendBitmap) (packets_per_chunk : Z) (n : nat) (chunk_id : Z)
    : option DisplayRow :=
  packets_received ← get_chunk_packet_count (view n) (u32 chunk_id);
  chunk_complete ← backend_is_chunk_complete (view (S n)) (u32 chunk_id);
  Some (mkRow chunk_id (if chunk_complete : bool then packets_per_chunk else packets_received) chunk_complete).

Fixpoint display_rows (view : nat → BackendBitmap) (packets_per_chunk : Z) (n : nat) (chunks : list Z)
    : option (list DisplayRow) :=
  match chunks with
  | [] => Some []
  | c :: chunks =>
      row ← display_row view packets_per_chunk n c;
      rows ← display_rows view packets_per_chunk (S (S n)) chunks;
      Some (row :: rows)
  end.

(** [display_progress]: what is shown and the window index left. *)
Definition display_progress (view : nat → BackendBitmap) (window_size chunks_received total_chunks : Z)
    (ctx : option MessageContext) (window_index : Z) : option (list Display * Z) :=
  match ctx with
  | None => Some ([], window_index)
  | Some mc =>
      match mc_backend mc with
      | None => Some ([], window_index)
      | Some _ =>
          if total_chunks =? 0 then Some ([], window_index) else
          let packets_per_chunk := mc_packets_per_chunk mc in
          if packets_per_chunk =? 0
          then Some ([mkDisplay chunks_received total_chunks None], window_index) else
          '(start_chunk, end_chunk) ← display_window window_size total_chunks window_index;
          rows ← display_rows view packets_per_chunk O (zrange start_chunk end_chunk);
          Some ([mkDisplay chunks_received total_chunks (Some (start_chunk, end_chunk, rows))],
                window_index +u64 1)
      end
  end.

Inductive LoopExit : Set :=
| LeftNoBitmap | LeftTimeout | LeftComplete | LeftDecoded | LeftIterations.

Inductive LoopRound : Type :=
| Leave (e : LoopExit) (st : LoopState) (mem : gmap Z (list Z))
| Again (st : LoopState).

(** The counting part of a round: the chunks completed, progress, display, and
    whether the timeout of [timeout_s] seconds has passed. *)
Definition count_progress (window_size timeout_s : Z) (look : Look) (st : LoopState)
    : option (bool * LoopState) :=
  let counter := lp_display_update_counter st + 1 in
  let set chunks total last time counter window shown :=
    mkLoop (lp_receiver st) chunks total last time counter window (lp_last_ctrl st) (lp_screen st ++ shown) in
  match load_handle_ctx (lp_receiver st) with
  | None =>
      Some (false, set (lp_chunks_received st) (lp_total_chunks st) (lp_last_chunks_received st)
        (lp_last_progress_time st) counter (lp_window_index st) [])
  | Some ctx =>
      '(chunks, total) ←
        (match mc_frontend ctx with
         | Some _ =>
             '(count, _) ← completed_loop (lk_view look) O (zrange 0 (fb_total_chunks (lk_view look O))) 0;
             Some (count, mc_total_chunks ctx)
         | None => Some (lp_chunks_received st, lp_total_chunks st)
         end);
      let changed := chunks >? lp_last_chunks_received st in
      let time := if changed then lk_progress_time look else lp_last_progress_time st in
      '(shown, window) ←
        (if changed || (counter >=? 50)
         then display_progress (lk_packets look) window_size chunks total (Some ctx) (lp_window_index st)
         else Some ([], lp_window_index st));
      let st := set chunks total (if changed then chunks else lp_last_chunks_received st) time
        (if negb changed && (counter >=? 50) then 0 else counter) window shown in
      let time_since_progress := (lk_now look - time) ÷ 1000000000 in
      Some ((chunks >? 0) && (time_since_progress >=? timeout_s) && (chunks <? total), st)
  end.

Definition lp_with_receiver (st : LoopState) (r : ActiveReceiver) (last_ctrl : option Z) : LoopState :=
  mkLoop r (lp_chunks_received st) (lp_total_chunks st) (lp_last_chunks_received st)
    (lp_last_progress_time st) (lp_display_update_counter st) (lp_window_index st) last_ctrl (lp_screen st).

(** The display at the end of a round that leaves the loop with [chunks] counted. *)
Definition last_display (window_size : Z) (look : Look) (chunks : Z) (st : LoopState) : option LoopState :=
  '(shown, window) ← display_progress (lk_packets_end look) window_size chunks (lp_total_chunks st)
    (load_handle_ctx (lp_receiver st)) (lp_window_index st);
  Some (mkLoop (lp_receiver st) chunks (lp_total_chunks st) (lp_last_chunks_received st)
    (lp_last_progress_time st) (lp_display_update_counter st) window (lp_last_ctrl st) (lp_screen st ++ shown)).

(** All chunks are counted. *)
Definition all_chunks (st : LoopState) : bool :=
  (lp_total_chunks st >? 0) && (lp_chunks_received st >=? lp_total_chunks st).

(** One round. *)
Definition progress_round (isal : option IsaL) (pad : Padding) (window_size timeout_s : Z) (look : Look)
    (st : LoopState) : option LoopRound :=
  let leave e st := Some (Leave e st (lk_mem look)) in
  conn ← active_conn (lp_receiver st);
  if match active_handle (lp_receiver st) with
     | Some h => negb (bool_decide (is_Some (sdr_recv_bitmap_get conn h)))
     | None => false
     end then leave LeftNoBitmap st else
  '(timeout, st) ← count_progress window_size timeout_s look st;
  if timeout : bool then leave LeftTimeout st else
  let completed st :=
    st ← last_display window_size look (lp_chunks_received st) st; leave LeftComplete st in
  match lp_receiver st with
  | ActiveSr r =>
      '(done, _, last_ctrl, r) ← pump (lk_ctrl_view look) pad (lp_last_ctrl st) (lk_ctrl_first look)
        (lk_ctrl_now look) r;
      let st := lp_with_receiver st (ActiveSr r) last_ctrl in
      if (done : bool) && all_chunks st then completed st else Some (Again st)
  | ActiveEc r =>
      '(done, _, mem, r) ← try_decode (lk_ctrl_view look) isal pad (lk_mem look) r;
      let st := lp_with_receiver st (ActiveEc r) (lp_last_ctrl st) in
      if done : bool then
        st ← last_display window_size look (lp_total_chunks st) st;
        Some (Leave LeftDecoded st mem)
      else Some (Again st)
  | ActiveSdr _ _ => if all_chunks st then completed st else Some (Again st)
  end.

Definition MAX_ITERATIONS : Z := 1000000.

(** The loop, [n] rounds left; the memory afterwards. *)
Fixpoint progress_loop (isal : option IsaL) (pad : Padding) (window_size timeout_s : Z) (looks : nat → Look)
    (n i : nat) (st : LoopState) : option (LoopExit * LoopState * gmap Z (list Z)) :=
  match n with
  | O => Some (LeftIterations, st, lk_mem (looks i))
  | S n =>
      round ← progress_round isal pad window_size timeout_s (looks i) st;
      match round with
      | Leave e st mem => Some (e, st, mem)
      | Again st => progress_loop isal pad window_size timeout_s looks n (S i) st
      end
  end.

(** ** The whole program *)

Record ReceiverWorld : Type := mkReceiverWorld {
  rv_files : cpp_string → option cpp_string;
  rv_listen : listen_calls;
  rv_accept : Z;
  rv_socket : Socket;
  rv_channels : Z → channel_env;
  rv_isal : option IsaL;
  rv_pad : Padding;
  rv_uninit : ControlMessage;
  rv_start : Z;                    (* the clock before the loop *)
  rv_looks : nat → Look;
  rv_chunks : FrontendBitmap;      (* the bitmaps after the loop *)
  rv_packets : BackendBitmap
}.

(** How a run went: its outcome, how the loop was left, and the verification of
    the data, if there was one. *)
Record ReceiverRun : Set := mkReceiverRun {
  rr_outcome : Outcome;
  rr_exit : option LoopExit;
  rr_verified : option (bool * option Z);
  rr_conn : option SDRConnection
}.

Definition stopped (o : Outcome) : ReceiverRun := mkReceiverRun o None None None.

(** A context with the bitmaps that the poller and the workers have left in it. *)
Definition mc_see_bitmaps (chunks : FrontendBitmap) (packets : BackendBitmap) (mc : MessageContext)
    : MessageContext :=
  let mc := match mc_frontend mc with Some _ => mc_set_frontend mc chunks | None => mc end in
  match mc_backend mc with Some _ => mc_set_backend mc packets | None => mc end.

(** The end: the data is checked when all chunks are counted, and the completion
    is signalled; after a decode the message counts as complete. *)
Definition receiver_finish (w : ReceiverWorld) (message_size : Z) (e : LoopExit) (st : LoopState)
    (mem : gmap Z (list Z)) : option ReceiverRun :=
  verified ←
    (if all_chunks st then buffer ← mem !! 0; v ← verify_data buffer message_size; Some (Some v)
     else Some None);
  conn ← active_conn (lp_receiver st);
  match active_handle (lp_receiver st) with
  | None => Some (mkReceiverRun (Exit 0) (Some e) verified (Some conn))
  | Some h =>
      let conn := cn_update_context conn h (mc_see_bitmaps (rv_chunks w) (rv_packets w)) in
      let conn :=
        match lp_receiver st, e with
        | ActiveEc _, LeftDecoded =>
            cn_update_context conn h (λ mc,
              mc_set_state (match mc_frontend mc with
                            | Some fb => mc_set_frontend mc (stop_polling fb) | None => mc end)
                COMPLETED (mc_buffer mc))
        | _, _ => conn
        end in
      '(_, conn) ← sdr_recv_complete (rv_pad w) (rv_uninit w) conn h;
      Some (mkReceiverRun (Exit 0) (Some e) verified (Some conn))
  end.

Definition loop_timeout_s (mode : Mode.t) : Z := match mode with Mode.EC => 120 | _ => 30 end.

(** From the posted receive on. *)
Definition receiver_transfer (w : ReceiverWorld) (mode : Mode.t) (cfg : ConfigParser) (message_size : Z)
    (r : ActiveReceiver) : option ReceiverRun :=
  let total_chunks := match load_handle_ctx r with Some mc => mc_total_chunks mc | None => 0 end in
  if total_chunks =? 0 then
    match r with
    | ActiveSdr h conn =>
        '(_, conn) ← sdr_recv_complete (rv_pad w) (rv_uninit w) conn h;
        Some (mkReceiverRun (Exit 1) None None (Some conn))
    | _ => Some (stopped (Exit 1))
    end
  else
    '(e, st, mem) ← progress_loop (rv_isal w) (rv_pad w) (get_uint32 cfg (str "window_size") 15)
      (loop_timeout_s mode) (rv_looks w) (Z.to_nat MAX_ITERATIONS) O
      (mkLoop r 0 total_chunks 0 (rv_start w) 0 0 None []);
    receiver_finish w message_size e st mem.

(** [main]. *)
Definition receiver_main (w : ReceiverWorld) (ps : Process) (argv : list cpp_string) : option ReceiverRun :=
  match receiver_args argv with
  | inl o => Some (stopped o)
  | inr a =>
      let cfg := snd (load_from_file ∅ (rv_files w (ar_config_file a))) in
      let ps := sdr_ctx_create ps in
      match sdr_listen ps (rv_listen w) (ar_tcp_port a) with
      | (None, _) => Some (stopped (Exit 1))
      | (Some conn, ps) =>
          server ← cn_tcp_server conn;
          let '(accepted, server) := accept_connection (rv_accept w) (rv_socket w) server in
          if negb accepted then Some (stopped (Exit 1)) else
          let params := receiver_params cfg (ar_udp_port a) in
          let conn := sdr_set_params (cn_with_server conn server) params in
          '(rc, r, _) ← receiver_post (rv_pad w) (rv_uninit w) (rv_channels w) (ar_mode a) cfg params ps conn
            (ar_message_size a);
          match rc, r with
          | Blocked, _ => Some (stopped Waiting)
          | Returned code, Some r =>
              if code =? 0 then receiver_transfer w (ar_mode a) cfg (ar_message_size a) r
              else Some (stopped (Exit 1))
          | Returned _, None => Some (stopped (Exit 1))
          end
      end
  end.

(** ** Verification of the data *)

(** The first of [offsets] whose byte is not the pattern's. *)
Definition mismatches (buffer : list Z) (offsets : list Z) : list Z :=
  List.filter (λ i, negb (buffer !!! Z.to_nat i =? i mod 256)) offsets.

Lemma check_loop_ok buffer offsets : Forall (λ i, 0 ≤ i < Z.of_nat (List.length buffer)) offsets →
  ∀ valid first, (valid = true ↔ first = None) →
  ∃ v, check_loop buffer offsets valid first = Some v ∧
    v.2 = (match first with Some i => Some i | None => head (mismatches buffer offsets) end) ∧
    (v.1 = true ↔ v.2 = None).
Proof.
  induction 1 as [|i offsets Hi _ IH]; intros valid first Hv; cbn [check_loop].
  { exists (valid, first). split; [done|]. cbn. by destruct first. }
  destruct (lookup_lt_is_Some_2 buffer (Z.to_nat i)) as [b Hb]; [lia|].
  unfold mismatches. cbn [List.filter]. rewrite (list_lookup_total_correct _ _ _ Hb), Hb. cbn [mbind option_bind].
  destruct (b =? i mod 256) eqn:E; cbn [negb].
  { destruct (IH valid first Hv) as (v & -> & H1 & H2). by exists v. }
  destruct (i - default i first >? 10).
  { eexists. split; [reflexivity|]. cbn. by destruct first. }
  destruct (IH false (Some (default i first))) as (v & -> & H1 & H2); [done|].
  exists v. split; [done|]. split; [|done]. rewrite H1. by destruct first.
Qed.

Lemma verify_data_ok buffer size : Z.min size 1024 ≤ Z.of_nat (List.length buffer) →
  verify_data buffer size =
    Some (bool_decide (mismatches buffer (zrange 0 (Z.min size 1024)) = []),
          head (mismatches buffer (zrange 0 (Z.min size 1024)))).
Proof.
  intros Hl. unfold verify_data.
  assert (Forall (λ i, 0 ≤ i < Z.of_nat (List.length buffer)) (zrange 0 (Z.min size 1024))) as Hr
    by (apply Forall_forall; intros i; rewrite elem_of_zrange; lia).
  destruct (check_loop_ok buffer _ Hr true None ltac:(done)) as ([valid first] & -> & H1 & H2).
  cbn in H1, H2. subst first. destruct (mismatches _ _) as [|i l]; cbn in *.
  - by rewrite (proj2 H2 eq_refl).
  - destruct valid; [by specialize (proj1 H2 eq_refl)|done].
Qed.

Lemma mismatches_none buffer n : 0 ≤ n → (∀ i, 0 ≤ i < n → buffer !! Z.to_nat i = Some (i mod 256)) →
  mismatches buffer (zrange 0 n) = [].
Proof.
  intros Hn Hb. apply elem_of_nil_inv. intros i [Hi Hf]%elem_of_filter_bool.
  apply elem_of_zrange in Hi. rewrite (list_lookup_total_correct _ _ _ (Hb i Hi)), Z.eqb_refl in Hf. done.
Qed.

Lemma pattern_lookup size i : 0 ≤ i < size → pattern size !! Z.to_nat i = Some (i mod 256).
Proof. intros Hi. unfold pattern. rewrite list_lookup_fmap. by rewrite lookup_zrange. Qed.

(** ** What is displayed *)

(** The packets of a chunk that have arrived. *)
Definition packets_there (b : BackendBitmap) (c : Z) : Z :=
  Z.of_nat (List.length (List.filter (received b) (chunk_packets b c))).

(** A row tells the truth about packets that have arrived: complete only if all
    packets of the chunk are there, else no more packets than there are, and never
    more than a chunk has. *)
Definition row_true (arrived : BackendBitmap) (row : DisplayRow) : Prop :=
  0 ≤ dr_packets row ≤ bb_packets_per_chunk arrived ∧
  if dr_complete row then chunk_received arrived (dr_chunk row) = true
  else dr_packets row ≤ packets_there arrived (dr_chunk row).

(** A display of a message of [total] chunks: a window of chunks of it, each with a
    row that is true. *)
Definition display_true (total : Z) (arrived : BackendBitmap) (d : Display) : Prop :=
  dy_total_chunks d = total ∧
  match dy_window d with
  | None => True
  | Some (s, e, rows) => 0 ≤ s < e ∧ e ≤ total ∧ dr_chunk <$> rows = zrange s e ∧ Forall (row_true arrived) rows
  end.

(** Bitmaps read while packets keep arriving, of a message of [total] chunks. *)
Definition packets_ok (total : Z) (arrived : BackendBitmap) (view : nat → BackendBitmap) : Prop :=
  (∀ n, wf_backend (view n) ∧ backend_le (view n) arrived) ∧ ∀ c, 0 ≤ c < total → chunk_in_range arrived c.

Lemma packets_there_le b b' c : backend_le b b' → packets_there b c ≤ packets_there b' c.
Proof.
  intros (Ht & Hp & Hr). unfold packets_there, chunk_packets. rewrite Ht, Hp.
  induction (zrange _ _) as [|p l IH]; [done|]. cbn [List.filter].
  destruct (received b p) eqn:E; [rewrite (Hr p E); cbn [List.length]; lia|].
  destruct (received b' p); cbn [List.length]; lia.
Qed.

Lemma chunk_packet_count_eq b c : wf_backend b → chunk_in_range b c →
  get_chunk_packet_count b c = Some (packets_there b c) ∧ 0 ≤ packets_there b c ≤ bb_packets_per_chunk b.
Proof.
  intros Hwf Hc. unfold get_chunk_packet_count, packets_there. rewrite chunk_bounds_eq by done. split.
  - apply count_if_total. intros p Hp. unfold chunk_packets in Hp. rewrite elem_of_zrange in Hp.
    destruct Hc. pose proof (wfb_ppc _ Hwf). apply is_packet_received_eq; [done|nia].
  - pose proof (List.filter_length_le (received b) (chunk_packets b c)) as Hl.
    unfold chunk_packets in Hl. rewrite length_zrange in Hl. destruct Hc. pose proof (wfb_ppc _ Hwf). unfold chunk_packets. nia.
Qed.

Section Display.
Context (total : Z) (Htotal : 0 < total < 4294967296) (arrived : BackendBitmap).

Lemma display_row_ok view n c : packets_ok total arrived view → 0 ≤ c < total →
  ∃ row, display_row view (bb_packets_per_chunk arrived) n c = Some row ∧ dr_chunk row = c ∧ row_true arrived row.
Proof.
  intros [Hview Hrange] Hc. unfold display_row. rewrite u32_small by lia.
  assert (∀ n, wf_backend (view n) ∧ chunk_in_range (view n) c) as Hv.
  { intros m. destruct (Hview m) as [Hwf (Ht & Hp & _)]. split; [done|]. unfold chunk_in_range. rewrite <-Ht, <-Hp.
    by apply Hrange. }
  destruct (chunk_packet_count_eq (view n) c) as [-> Hb]; [apply Hv..|]. cbn [mbind option_bind].
  rewrite backend_is_chunk_complete_eq by apply Hv. cbn [mbind option_bind].
  eexists. split; [reflexivity|]. split; [done|].
  pose proof (Hview n) as [Hwf Hle]. pose proof (packets_there_le _ _ c Hle) as Hcount.
  destruct Hle as (_ & Hp & _). pose proof (wfb_ppc _ Hwf). unfold row_true. cbn.
  destruct (chunk_received (view (S n)) c) eqn:E.
  - split; [lia|]. apply (chunk_received_le (view (S n))); [apply Hview|done].
  - split; lia.
Qed.

Lemma display_rows_ok view chunks : packets_ok total arrived view → Forall (λ c, 0 ≤ c < total) chunks →
  ∀ n, ∃ rows, display_rows view (bb_packets_per_chunk arrived) n chunks = Some rows ∧
    dr_chunk <$> rows = chunks ∧ Forall (row_true arrived) rows.
Proof.
  intros Hview. induction 1 as [|c chunks Hc _ IH]; intros n; [by exists []|]. cbn [display_rows].
  destruct (display_row_ok view n c Hview Hc) as (row & -> & Hr1 & Hr2). cbn [mbind option_bind].
  destruct (IH (S (S n))) as (rows & -> & H1 & H2). cbn [mbind option_bind].
  exists (row :: rows). split; [done|]. split; [cbn; congruence|by apply Forall_cons].
Qed.

(** The window is a part of the message. *)
Lemma display_window_ok window_size index : 0 < window_size < 4294967296 → 0 ≤ index →
  let windows := (total + window_size - 1) / window_size in
  display_window window_size total index =
    Some (index mod windows * window_size, Z.min (index mod windows * window_size + window_size) total) ∧
  0 ≤ index mod windows * window_size < total.
Proof.
  intros Hw Hi windows. unfold display_window. rewrite (proj2 (Z.eqb_neq window_size 0)) by lia.
  rewrite u64_small by lia. fold windows.
  assert (0 < windows) as Hpos by (unfold windows; apply Z.div_str_pos; lia).
  assert (windows * window_size < total + window_size) as Hwin.
  { unfold windows. pose proof (Z.mul_div_le (total + window_size - 1) window_size ltac:(lia)). lia. }
  pose proof (Z.mod_pos_bound index windows Hpos) as Hmod.
  assert (0 ≤ index mod windows * window_size < total) as Hs by nia.
  rewrite Z.gtb_ltb, (proj2 (Z.ltb_lt _ _)) by done. split; [|done].
  rewrite u64_small by lia. by rewrite u64_small by lia.
Qed.

Lemma display_ok view window_size chunks ctx index : packets_ok total arrived view →
  0 < window_size < 4294967296 → 0 ≤ index →
  (∀ mc, ctx = Some mc → mc_packets_per_chunk mc = bb_packets_per_chunk arrived) →
  ∃ shown index', display_progress view window_size chunks total ctx index = Some (shown, index') ∧
    0 ≤ index' ∧ Forall (display_true total arrived) shown.
Proof.
  intros Hview Hw Hi Hppc. unfold display_progress. destruct ctx as [mc|]; [|by do 2 eexists].
  destruct (mc_backend mc); [|by do 2 eexists]. rewrite (proj2 (Z.eqb_neq total 0)) by lia.
  rewrite (Hppc mc eq_refl). case_bool.
  { do 2 eexists. split; [reflexivity|]. split; [done|]. by apply Forall_singleton. }
  destruct (display_window_ok window_size index Hw Hi) as [-> Hs]. cbn [mbind option_bind].
  set (s := index mod _ * window_size) in *.
  destruct (display_rows_ok view (zrange s (Z.min (s + window_size) total)) Hview) with (n := O)
    as (rows & -> & H1 & H2).
  { apply Forall_forall. intros c. rewrite elem_of_zrange. lia. }
  cbn [mbind option_bind]. do 2 eexists. split; [reflexivity|]. split; [int_lia|].
  apply Forall_singleton. split; [done|]. cbn. split; [lia|]. split; [lia|done].
Qed.

(** Window after window, every chunk is shown: one of any [windows] displays in a
    row has it. *)
Lemma every_chunk_shown window_size index c : 0 < window_size < 4294967296 →
  let windows := (total + window_size - 1) / window_size in
  0 ≤ index → index + windows ≤ 18446744073709551616 → 0 ≤ c < total →
  ∃ i s e, index ≤ i < index + windows ∧ display_window window_size total i = Some (s, e) ∧ s ≤ c < e.
Proof.
  intros Hw windows Hi Hno Hc.
  assert (0 < windows) as Hpos by (unfold windows; apply Z.div_str_pos; lia).
  pose proof (Z.div_mod c window_size ltac:(lia)). pose proof (Z.mod_pos_bound c window_size ltac:(lia)).
  assert (0 ≤ c / window_size < windows) as Hq.
  { split; [apply Z.div_pos; lia|]. unfold windows. apply Z.div_lt_upper_bound; [lia|].
    pose proof (Z.div_mod (total + window_size - 1) window_size ltac:(lia)).
    pose proof (Z.mod_pos_bound (total + window_size - 1) window_size ltac:(lia)). lia. }
  set (i := index + (c / window_size - index) mod windows).
  pose proof (Z.mod_pos_bound (c / window_size - index) windows Hpos).
  assert (i mod windows = c / window_size) as Ei.
  { unfold i. rewrite Zplus_mod_idemp_r. replace (index + (c / window_size - index)) with (c / window_size) by lia.
    apply Z.mod_small. lia. }
  destruct (display_window_ok window_size i Hw ltac:(lia)) as [E _]. fold windows in E. rewrite Ei in E.
  exists i, (c / window_size * window_size), (Z.min (c / window_size * window_size + window_size) total).
  split; [lia|]. split; [done|]. lia.
Qed.
End Display.

(** ** Rounds *)

Section Loop.
Context (total : Z) (Htotal : 0 < total ≤ 4294967296 - 65536).
Context (before after : FrontendBitmap) (arrived : BackendBitmap).
Context (isal : option IsaL) (ly : Layout) (looks : nat → Look).

(** The active receiver has a posted message of [total] chunks; in the mode with
    erasure coding one that can be decoded in the memory the rounds see. *)
Definition tracks (r : ActiveReceiver) : Prop :=
  ∃ h conn mc fb, active_handle r = Some h ∧ active_conn r = Some conn ∧
    cx_msg_table (cn_connection_ctx conn) !! rh_msg_ctx h = Some mc ∧ mc_frontend mc = Some fb ∧
    mc_total_chunks mc = total ∧ mc_packets_per_chunk mc = bb_packets_per_chunk arrived ∧
    match r with
    | ActiveEc x => xr_layout x = ly ∧ can_decode isal ly ∧
        ∃ id, mc_buffer mc = BufUser id ∧ ∀ i, holds_chunks ly (lk_mem (looks i)) id
    | _ => True
    end.

(** The reads of a bitmap that has the chunks of [before] and no more than those
    of [after]. *)
Definition view_ok (view : nat → FrontendBitmap) : Prop :=
  (∀ n, wf_frontend (view n) ∧ fb_total_chunks (view n) = total) ∧
  (∀ n c, marked before c = true → marked (view n) c = true) ∧
  (∀ n c, marked (view n) c = true → marked after c = true).

Definition look_ok (look : Look) : Prop :=
  view_ok (lk_view look) ∧ view_ok (lk_ctrl_view look) ∧
  packets_ok total arrived (lk_packets look) ∧ packets_ok total arrived (lk_packets_end look).

(** The state between two rounds. *)
Definition loop_ok (st : LoopState) : Prop :=
  tracks (lp_receiver st) ∧ 0 ≤ lp_window_index st ∧ Forall (display_true total arrived) (lp_screen st).

Lemma load_tracked r h conn mc : active_handle r = Some h → active_conn r = Some conn →
  cx_msg_table (cn_connection_ctx conn) !! rh_msg_ctx h = Some mc → load_handle_ctx r = Some mc.
Proof. intros Hh Hc Hmc. unfold load_handle_ctx. rewrite Hc. cbn. by rewrite Hh. Qed.

(** What a round makes of the receiver: the same handle over a connection that goes
    on, with the context of the message as it was or, once decoded, completed. *)
Definition kept (r r' : ActiveReceiver) (decoded : bool) : Prop := ∀ h conn mc,
  active_handle r = Some h → active_conn r = Some conn →
  cx_msg_table (cn_connection_ctx conn) !! rh_msg_ctx h = Some mc →
  ∃ conn', active_handle r' = Some h ∧ active_conn r' = Some conn' ∧ goes_on conn conn' ∧
    cx_msg_table (cn_connection_ctx conn') !! rh_msg_ctx h =
      Some (if decoded then completed_context ly mc else mc).

Lemma kept_refl r : kept r r false.
Proof. intros h conn mc Hh Hc Hmc. by exists conn. Qed.

Lemma kept_trans r1 r2 r3 decoded : kept r1 r2 false → kept r2 r3 decoded → kept r1 r3 decoded.
Proof.
  intros H1 H2 h conn mc Hh Hc Hmc. destruct (H1 h conn mc Hh Hc Hmc) as (conn2 & Hh2 & Hc2 & Hgo & Hmc2).
  destruct (H2 h conn2 mc Hh2 Hc2 Hmc2) as (conn3 & Hh3 & Hc3 & Hgo' & Hmc3).
  exists conn3. split; [done|]. split; [done|]. split; [by etransitivity|done].
Qed.

Lemma pump_tracks view pad last first now r : view_ok view → tracks (ActiveSr r) →
  ∃ done msg last' r', pump view pad last first now r = Some (done, msg, last', r') ∧
    tracks (ActiveSr r') ∧ kept (ActiveSr r) (ActiveSr r') false.
Proof.
  intros (Hview & Hb & Ha) (h & conn & mc & fb & Hh & Hc & Hmc & Hf & Htot & Hppc & _). cbn in Hh, Hc.
  assert (tracks (ActiveSr r) ∧ kept (ActiveSr r) (ActiveSr r) false) as Hsame
    by (split; [by exists h, conn, mc, fb|apply kept_refl]).
  destruct (cn_tcp_server conn) as [server|] eqn:Hs.
  2: { exists false, None, last, r. split; [|done]. unfold pump. by rewrite Hh, Hc, Hs. }
  destruct (Z.lt_ge_cases (elapsed_ms now (default first last)) (ctrl_interval_ms (sv_cfg r))) as [Hlt|Hge].
  { exists false, None, (Some (default first last)), r. split; [|done]. unfold pump.
    rewrite Hh, Hc, Hs. by rewrite (proj2 (Z.ltb_lt _ _)) by done. }
  assert (reporting r conn server total) as Hr.
  { exists h, mc, fb. split_and!; try done. rewrite Htot. apply u32_small. lia. }
  rewrite (pump_eq _ _ _ _ _ _ _ _ _ Hr Hge).
  destruct (pump_report_ok view total ltac:(lia) Hview before after Hb Ha pad r conn server ltac:(lia))
    as (d & msg & r' & E & _ & Hc'). rewrite E. cbn [mbind option_bind].
  exists d, (Some msg), (Some now), r'. split; [done|].
  destruct (pump_report_keeps _ _ _ _ _ _ _ _ _ E) as (Hh' & _ & server' & Hc2 & Hgo).
  split; [eexists h, _, mc, fb; cbn; rewrite Hh', Hc'; by split_and!|].
  intros h0 conn0 mc0. cbn. rewrite Hh, Hc, Hh'. intros [= <-] [= <-] Hmc0.
  exists (cn_with_server conn server'). auto.
Qed.

(** The data of an erasure-coded message with context [ctx], when memory is [mem]:
    all there, and memory as a round found it, or decoded in the user's buffer as
    a round found it. *)
Definition data_there (ctx : MessageContext) (mem : gmap Z (list Z)) : Prop :=
  (∀ c, 0 ≤ c < ly_data_chunks ly → marked after c = true) ∧ (∃ i, mem = lk_mem (looks i)) ∨
  ∃ i id, mc_buffer ctx = BufUser id ∧ decoded_from before after isal ly id (lk_mem (looks i)) mem.

Lemma try_decode_tracks pad i r : look_ok (looks i) → tracks (ActiveEc r) →
  ∃ done msg mem' r', try_decode (lk_ctrl_view (looks i)) isal pad (lk_mem (looks i)) r = Some (done, msg, mem', r') ∧
    (∀ mc, load_handle_ctx (ActiveEc r') = Some mc → mc_packets_per_chunk mc = bb_packets_per_chunk arrived) ∧
    kept (ActiveEc r) (ActiveEc r') done ∧ same_sizes (lk_mem (looks i)) mem' ∧
    if done : bool then (∃ ctx, load_handle_ctx (ActiveEc r') = Some ctx ∧ data_there ctx mem') ∧
      ¬ (∀ c, marked after c = false)
    else tracks (ActiveEc r').
Proof.
  intros (_ & (Hview & Hb & Ha) & _) (h & conn & mc & fb & Hh & Hc & Hmc & Hf & Htot & Hppc & Hly & Hcan & id & Hbuf & Hmem).
  assert (decoding r h conn mc) as Hd by (split; eauto).
  destruct (try_decode_defined (lk_ctrl_view (looks i)) total isal pad (lk_mem (looks i)) r h conn mc id)
    as (d & msg & mem' & r' & conn' & E & ([H1 H2 H3 H4] & Hl & Hgo) & Hsizes); [done|done|done|by rewrite Hly|rewrite Hly; apply Hmem|].
  exists d, msg, mem', r'. split; [done|]. split.
  { intros mc'. rewrite (load_tracked (ActiveEc r') h conn' _ H1 H2 H3). intros [= <-]. by destruct d. }
  split.
  { cbn in Hh, Hc. intros h0 conn0 mc0. cbn. rewrite Hh, Hc. intros [= <-] [= <-]. rewrite Hmc. intros [= <-].
    exists conn'. rewrite <-Hly. auto. }
  split; [done|].
  destruct d.
  - pose proof (try_decode_answer _ total before after Hview Hb Ha _ _ _ _ _ _ _ _ _ _ _ Hd E) as H.
    rewrite Hly in H. cbn in H. destruct Hcan as [Hlyok _]. destruct (ly_bounds ly Hlyok) as (Hdc & _).
    rewrite (load_tracked (ActiveEc r') h conn' _ H1 H2 H3).
    destruct H as [[-> H]|(_ & id' & Hbuf' & H)]; (split; [eexists; split; [done|]|]); try intros Hnone.
    + left. split; [done|by exists i].
    + specialize (H 0 ltac:(lia)). by rewrite Hnone in H.
    + right. by exists i, id'.
    + destruct H as (coder & missing & sources & m & m' & _ & _ & [Hlen _ Hs] & _). pose proof (lo_k _ Hlyok).
      destruct sources as [|c sources]; [cbn in Hlen; lia|]. destruct (Hs c ltac:(by left)) as [_ Hc'].
      by rewrite Hnone in Hc'.
  - exists h, conn', mc, fb. split_and!; try done; [congruence|by exists id].
Qed.

(** Nothing marked, nothing counted. *)
Lemma completed_loop_none view n chunks count : view_ok view → Forall (λ c, 0 ≤ c) chunks →
  (∀ n c, marked (view n) c = false) → ∃ n', completed_loop view n chunks count = Some (count, n').
Proof.
  intros (Hview & _) Hc Hm. revert n. induction Hc as [|c chunks Hc _ IH]; intros n; [by exists n|].
  cbn [completed_loop]. rewrite (read_chunk_eq view total Hview) by done. cbn [mbind option_bind].
  rewrite Hm. apply IH.
Qed.

(** The count of a round: it reaches the total only if all chunks were seen. *)
Lemma count_progress_ok window_size timeout_s look st : 0 < window_size < 4294967296 → look_ok look →
  loop_ok st →
  ∃ timeout st', count_progress window_size timeout_s look st = Some (timeout, st') ∧
    lp_receiver st' = lp_receiver st ∧ loop_ok st' ∧ lp_total_chunks st' = total ∧
    (lp_chunks_received st' >=? total = true → ∀ c, 0 ≤ c < total → marked after c = true) ∧
    (timeout = true → 0 < lp_chunks_received st' < total) ∧
    ((∀ c, marked after c = false) → lp_chunks_received st' = 0).
Proof.
  intros Hw ((Hview & Hb & Ha) & _ & Hpk & _) (Htr & Hidx & Hscreen).
  pose proof Htr as (h & conn & mc & fb & Hh & Hc & Hmc & Hf & Htot & Hppc & _). unfold count_progress.
  rewrite (load_tracked _ h conn mc Hh Hc Hmc), Hf, (proj2 (Hview O)).
  destruct (completed_loop_ok (lk_view look) total Hview 0 0 0 (Z.to_nat total))
    as (d & n' & Hloop & _ & Hd & Hall & _); [lia|lia|]. rewrite Hloop. cbn [mbind option_bind]. rewrite Z.add_0_l, Htot.
  set (changed := d >? lp_last_chunks_received st).
  assert (∃ shown window, (if changed || (lp_display_update_counter st + 1 >=? 50)
    then display_progress (lk_packets look) window_size d total (Some mc) (lp_window_index st)
    else Some ([], lp_window_index st)) = Some (shown, window) ∧
    0 ≤ window ∧ Forall (display_true total arrived) shown) as (shown & window & -> & Hwin & Hshown).
  { case_match; [|by do 2 eexists]. apply display_ok; [lia|done|done|done|by intros ? [= <-]]. }
  cbn [mbind option_bind]. eexists _, _. split; [reflexivity|]. cbn. split_and!; try done.
  - split; [done|]. split; [done|]. by apply Forall_app.
  - intros Hge c Hcr. rewrite Z.geb_leb in Hge. apply Z.leb_le in Hge.
    destruct (Hall ltac:(lia) c ltac:(lia)) as (m & _ & Hm). by apply (Ha m).
  - intros Ht. apply andb_true_iff in Ht as [[H1 _]%andb_true_iff H2]. bool_to_prop. lia.
  - intros Hnone. destruct (completed_loop_none (lk_view look) 0 (zrange 0 total) 0) as (n2 & E2); [done|..].
    + apply zrange_nonneg.
    + intros n c. destruct (marked (lk_view look n) c) eqn:E3; [|done]. apply Ha in E3. by rewrite Hnone in E3.
    + rewrite Hloop in E2. by injection E2.
Qed.

(** How the loop may be left. *)
Definition exit_true (e : LoopExit) (st : LoopState) (mem : gmap Z (list Z)) : Prop :=
  match e with
  | LeftTimeout => 0 < lp_chunks_received st < total
  | LeftComplete => ∀ c, 0 ≤ c < total → marked after c = true
  | LeftDecoded => ∃ ctx, load_handle_ctx (lp_receiver st) = Some ctx ∧ data_there ctx mem
  | LeftNoBitmap => False
  | LeftIterations => True
  end.

Definition decoded_exit (e : LoopExit) : bool := match e with LeftDecoded => true | _ => false end.

(** What a round, the [i]-th, comes to. *)
Definition round_ok (i : nat) (r : ActiveReceiver) (round : LoopRound) : Prop :=
  match round with
  | Leave e st mem => exit_true e st mem ∧ Forall (display_true total arrived) (lp_screen st) ∧
      kept r (lp_receiver st) (decoded_exit e) ∧ same_sizes (lk_mem (looks i)) mem
  | Again st => loop_ok st ∧ kept r (lp_receiver st) false
  end ∧
  ((∀ c, marked after c = false) → match round with Leave _ _ _ => False | Again _ => True end).

Lemma complete_ok st : lp_total_chunks st = total →
  (lp_chunks_received st >=? total = true → ∀ c, 0 ≤ c < total → marked after c = true) →
  ((∀ c, marked after c = false) → lp_chunks_received st = 0) →
  all_chunks st = true →
  (∀ c, 0 ≤ c < total → marked after c = true) ∧ ¬ (∀ c, marked after c = false).
Proof.
  intros Ht Hall Hnone Hc. unfold all_chunks in Hc. rewrite Ht in Hc. apply andb_true_iff in Hc as [_ Hc].
  split; [by apply Hall|]. intros Hn. rewrite (Hnone Hn), Z.geb_leb in Hc. apply Z.leb_le in Hc. lia.
Qed.

(** The display before the loop is left. *)
Lemma last_display_ok window_size look chunks st : 0 < window_size < 4294967296 → look_ok look →
  lp_total_chunks st = total → 0 ≤ lp_window_index st → Forall (display_true total arrived) (lp_screen st) →
  (∀ mc, load_handle_ctx (lp_receiver st) = Some mc → mc_packets_per_chunk mc = bb_packets_per_chunk arrived) →
  ∃ st', last_display window_size look chunks st = Some st' ∧ lp_receiver st' = lp_receiver st ∧
    Forall (display_true total arrived) (lp_screen st').
Proof.
  intros Hw (_ & _ & _ & Hpk) Ht Hi Hscreen Hppc. unfold last_display. rewrite Ht.
  destruct (display_ok total ltac:(lia) arrived (lk_packets_end look) window_size chunks
    (load_handle_ctx (lp_receiver st)) (lp_window_index st) Hpk Hw Hi Hppc) as (shown & index & -> & _ & Hshown).
  eexists. split; [reflexivity|]. split; [done|]. by apply Forall_app.
Qed.

Lemma tracked_ppc r mc : tracks r → load_handle_ctx r = Some mc →
  mc_packets_per_chunk mc = bb_packets_per_chunk arrived.
Proof.
  intros (h & conn & mc0 & fb & Hh & Hc & Hmc & _ & _ & Hppc & _). rewrite (load_tracked r h conn mc0) by done.
  by intros [= <-].
Qed.

Lemma progress_round_ok pad window_size timeout_s i st : 0 < window_size < 4294967296 → look_ok (looks i) →
  loop_ok st →
  ∃ round, progress_round isal pad window_size timeout_s (looks i) st = Some round ∧
    round_ok i (lp_receiver st) round.
Proof.
  intros Hw Hlook Hst. unfold progress_round.
  pose proof Hst as ((h & conn & mc & fb & Hh & Hc & Hmc & Hf & _) & _). rewrite Hc, Hh. cbn [mbind option_bind].
  assert (is_Some (sdr_recv_bitmap_get conn h)) as Hget
    by (unfold sdr_recv_bitmap_get; rewrite Hmc; cbn; rewrite Hf; by eexists).
  rewrite bool_decide_eq_true_2 by done. cbn [negb].
  destruct (count_progress_ok window_size timeout_s (looks i) st Hw Hlook Hst)
    as (timeout & st1 & -> & Hr & Hst1 & Htot1 & Hall & Htime & Hnone). cbn [mbind option_bind].
  rewrite <-Hr. pose proof Hst1 as (Htr1 & Hidx1 & Hscreen1).
  assert (same_sizes (lk_mem (looks i)) (lk_mem (looks i))) as Hsame by (intros j; reflexivity).
  destruct timeout.
  { specialize (Htime eq_refl). eexists. split; [reflexivity|].
    split; [split; [done|split; [done|split; [apply kept_refl|done]]]|].
    intros Hn. specialize (Hnone Hn). lia. }
  assert (∀ r last, tracks r → kept (lp_receiver st1) r false →
    let st2 := lp_with_receiver st1 r last in all_chunks st2 = true →
    ∃ round, (st ← last_display window_size (looks i) (lp_chunks_received st2) st2;
      Some (Leave LeftComplete st (lk_mem (looks i)))) = Some round ∧
      round_ok i (lp_receiver st1) round) as Hcompleted.
  { intros r last Htr Hkept st2 Hac.
    destruct (complete_ok st2 Htot1 Hall Hnone Hac) as [H1 H2].
    destruct (last_display_ok window_size (looks i) (lp_chunks_received st2) st2) as (st' & -> & Hr' & H3);
      [done..|intros mc'; by apply tracked_ppc|].
    eexists. split; [reflexivity|]. split; [|done]. rewrite Hr'. by split_and!. }
  assert (lp_with_receiver st1 (lp_receiver st1) (lp_last_ctrl st1) = st1) as Est by by destruct st1.
  destruct (lp_receiver st1) as [h0 conn0|r|r] eqn:Er.
  - destruct (all_chunks st1) eqn:Hac.
    + rewrite <-Est. apply Hcompleted; [done|apply kept_refl|by rewrite Est].
    + eexists. split; [reflexivity|]. split; [|done]. split; [done|]. rewrite Er. apply kept_refl.
  - destruct (pump_tracks (lk_ctrl_view (looks i)) pad (lp_last_ctrl st1) (lk_ctrl_first (looks i))
      (lk_ctrl_now (looks i)) r) as (d & msg & last' & r' & -> & Htr' & Hkept); [apply Hlook|done|].
    cbn [mbind option_bind].
    destruct d; cbn [andb]; [|eexists; by split].
    destruct (all_chunks _) eqn:Hac; [by apply Hcompleted|]. eexists. by split.
  - destruct (try_decode_tracks pad i r Hlook Htr1) as (d & msg & mem' & r' & -> & Hppc & Hkept & Hsizes & Hd).
    cbn [mbind option_bind]. destruct d; [|eexists; by split].
    destruct (last_display_ok window_size (looks i) total (lp_with_receiver st1 (ActiveEc r') (lp_last_ctrl st1)))
      as (st' & E & Hr' & H3); [done..|].
    cbn [lp_with_receiver lp_total_chunks] in *. rewrite Htot1, E. cbn [mbind option_bind].
    eexists. split; [reflexivity|]. split; [|apply Hd]. rewrite Hr'. split; [cbn; rewrite Hr'; apply Hd|]. by split_and!.
Qed.

Lemma progress_loop_ok pad window_size timeout_s n : 0 < window_size < 4294967296 → (∀ i, look_ok (looks i)) →
  ∀ i st, loop_ok st →
  ∃ e st' mem, progress_loop isal pad window_size timeout_s looks n i st = Some (e, st', mem) ∧
    exit_true e st' mem ∧ Forall (display_true total arrived) (lp_screen st') ∧
    kept (lp_receiver st) (lp_receiver st') (decoded_exit e) ∧
    (∃ j, same_sizes (lk_mem (looks j)) mem) ∧
    ((∀ c, marked after c = false) → e = LeftIterations).
Proof.
  intros Hw Hlooks. induction n as [|n IH]; intros i st Hst; cbn [progress_loop].
  { eexists _, _, _. split; [reflexivity|]. split; [done|]. split; [apply Hst|]. split; [apply kept_refl|].
    split; [|done]. exists i. by intros j. }
  destruct (progress_round_ok pad window_size timeout_s i st Hw (Hlooks i) Hst)
    as (round & -> & Hround & Hnone). cbn [mbind option_bind]. destruct round as [e st' mem|st'].
  - exists e, st', mem. split; [done|]. destruct Hround as (H1 & H2 & H3 & H4). split; [done|]. split; [done|].
    split; [done|]. split; [by exists i|]. intros Hn. by destruct (Hnone Hn).
  - destruct Hround as [Hst' Hkept].
    destruct (IH (S i) st' Hst') as (e & st2 & mem & H1 & H2 & H3 & H4 & H5 & H6). exists e, st2, mem.
    split; [done|]. split; [done|]. split; [done|]. split; [by eapply kept_trans|]. by split.
Qed.
End Loop.

(** ** The end of the program *)








(** ** Properties *)



(** A sender that never delivers is never timed out: while no chunk is complete
    the loop runs through all its rounds, whatever the clock says. *)
Theorem silence_never_times_out total before after arrived isal ly pad window_size timeout_s looks n i st :
  0 < total ≤ 4294967296 - 65536 → 0 < window_size < 4294967296 →
  (∀ i, look_ok total before after arrived (looks i)) → loop_ok total arrived isal ly looks st →
  (∀ c, marked after c = false) →
  ∃ st' mem, progress_loop isal pad window_size timeout_s looks n i st = Some (LeftIterations, st', mem).
Proof.
  intros Ht Hw Hl Hst Hn.
  destruct (progress_loop_ok total Ht before after arrived isal ly looks pad window_size timeout_s n Hw Hl i st Hst)
    as (e & st' & mem & H1 & _ & _ & _ & _ & H2). rewrite (H2 Hn) in H1. by exists st', mem.
Qed.

(** A complete transfer of the test message passes the check: in every state the
    concurrent transfer can reach, whenever the frontend counts all chunks the data
    the receiver checks is valid. *)
Theorem complete_transfer_verifies params slot id size st n net s mc fb k :
  sendable params (pattern size) size → 0 ≤ slot < 1024 → total_packets_of params size ≤ 262144 →
  ready params slot id size st → (∀ d, net d → honest params slot size (pattern size) d) →
  rtc (tr_step net false slot) (mkTransfer st (replicate n WIdle)) s →
  cx_msg_table (rx_cx (tr_rx s)) !! slot = Some mc → mc_frontend mc = Some fb →
  get_total_chunks_completed fb = Some k → fb_total_chunks fb ≤ k →
  ∃ buffer, rx_mem (tr_rx s) !! id = Some buffer ∧ verify_data buffer size = Some (true, None).
Proof.
  intros Hsend Hslot Hfits Hready Hnet Hr Hmc Hf Hk Hle.
  assert (transfer_ok params slot id size (pattern size) s) as [Hok _].
  { eapply tr_steps_ok; [done..| |done]. split; [by apply ready_shared_ok|].
    intros i pc [-> _]%lookup_replicate. done. }
  destruct (counted_message params slot id size (pattern size) (tr_rx s) mc fb k Hsend Hok Hmc Hf Hk Hle)
    as (m & Hm & Hlm & Htake).
  exists m. split; [done|]. rewrite verify_data_ok by lia. pose proof (sd_length _ _ _ Hsend).
  rewrite mismatches_none; [done|lia|]. intros i Hi.
  rewrite <-(pattern_lookup size i) by lia.
  rewrite <-(lookup_take_lt m (Z.to_nat size)), Htake, lookup_take_lt by lia. done.
Qed.

(** The 130 chunks of the example of selective repeat, in the plain mode; all packets
    or none have arrived. *)
Definition example_active : ActiveReceiver :=
  ActiveSdr (mkRecvHandle 0 1 0 (BufUser 0) 1040) example_reporter_conn.

Definition example_packets (word : Z) : BackendBitmap := bb_with_words (make_backend 260 2) (replicate 5 word).

Definition example_look (words : list Z) (word seconds : Z) : Look :=
  mkLook (λ _, example_bitmap words) (λ _, example_bitmap words) (λ _, example_packets word)
    (λ _, example_packets word) (seconds * 1000000000) (seconds * 1000000000) 0 0 ∅.

Definition example_loop : LoopState := mkLoop example_active 0 130 0 0 0 0 None [].

Lemma example_loop_ok word looks : loop_ok 130 (example_packets word) None example_ec_layout looks example_loop.
Proof.
  split; [|by split].
  exists (mkRecvHandle 0 1 0 (BufUser 0) 1040), example_reporter_conn,
    (posted_context 0 1 (BufUser 0) 1040 260 130 example_cts_params).
  eexists. split_and!; reflexivity.
Qed.

Lemma example_packets_ok word : is_word word → packets_ok 130 (example_packets word) (λ _, example_packets word).
Proof.
  intros Hw. split.
  - intros _. split; [|done]. split; [cbn; lia|cbn; lia|reflexivity|].
    cbn. repeat (apply Forall_cons_2; [done|]). apply Forall_nil_2.
  - intros c Hc. split; [lia|]. cbn. lia.
Qed.

Lemma example_look_ok words word seconds : Forall (is_uint 8) words → List.length words = 3%nat → is_word word →
  look_ok 130 (example_bitmap words) (example_bitmap words) (example_packets word) (example_look words word seconds).
Proof.
  intros Hw Hl Hword. destruct words as [|a [|b [|c [|? ?]]]]; try discriminate Hl.
  apply Forall_cons in Hw as [? Hw]. apply Forall_cons in Hw as [? Hw]. apply Forall_cons in Hw as [? _].
  assert (view_ok 130 (example_bitmap [a; b; c]) (example_bitmap [a; b; c]) (λ _, example_bitmap [a; b; c]))
    as Hv by (split; [intros _; by apply example_bitmap_wf|by split]).
  pose proof (example_packets_ok word Hword). by split_and!.
Qed.











(** A hundred seconds pass from round to round. *)
Lemma silence_never_times_out_witness : ∃ st' mem,
  progress_loop None example_padding 15 30 (λ i, example_look [0; 0; 0] 0 (100 * Z.of_nat i)) 5 O example_loop =
    Some (LeftIterations, st', mem).
Proof.
  apply (silence_never_times_out 130 (example_bitmap [0; 0; 0]) (example_bitmap [0; 0; 0]) (example_packets 0) None
    example_ec_layout example_padding 15 30 (λ i, example_look [0; 0; 0] 0 (100 * Z.of_nat i)) 5 O example_loop).
  - lia.
  - lia.
  - intros i. apply example_look_ok; [|reflexivity|split; reflexivity || discriminate].
    repeat (apply Forall_cons_2; [vm_compute; split; done|]). apply Forall_nil_2.
  - apply example_loop_ok.
  - exact example_bitmap_zero.
Defined.

Lemma complete_transfer_verifies_witness : ∃ buffer,
  rx_mem (tr_rx example_final) !! 0 = Some buffer ∧ verify_data buffer 12 = Some (true, None).
Proof.
  destruct example_final_complete as (Hmc & Hf & Hk & Hle).
  assert (pattern 12 = example_data) as E by (vm_compute; reflexivity).
  apply (complete_transfer_verifies example_cts_params 3 0 12 example_transfer 1 example_net example_final
    (example_context (tr_rx example_final)) (example_frontend_of (tr_rx example_final)) 2).
  - rewrite E. apply example_sendable. reflexivity.
  - lia.
  - exact example_fits.
  - exact example_ready.
  - rewrite E. exact example_net_honest.
  - exact example_steps.
  - exact Hmc.
  - exact Hf.
  - exact Hk.
  - exact Hle.
Defined.
